(** * guppi: the repository orchestration engine, embedded and verified

    A shallow embedding of the parts of guppi (a terminal tool that tracks
    and pulls many git working directories) that its specification makes
    claims about. The definitions come first:

    - [GoStrings]  : the Go standard-library functions the code calls
                     ([strings.TrimSpace], [strings.Fields], [strconv.Atoi], ...);
    - [Cursor]     : [PullResultsCursor] of pullresults.go;
    - [GitStat]    : [parseGitStatOutput] of pullresults.go with its regular
                     expression;
    - [Types]      : the records and enumerations of types.go;
    - [Tea]        : the tasks and commands the reducer returns;
    - [Git]        : the external tool, an oracle from command lines to
                     results;
    - [Status]     : [checkGitStatus] of main.go;
    - [GoSort]     : what is known of [sort.Slice] and of map iteration;
    - [Branches]   : [loadBranches] of main.go;
    - [Filters]    : [getFilteredRepos] and [updateList] of main.go;
    - [PullRound]  : the [pullCompleteMsg] case and the pull keys of [Update]
                     in types.go;
    - [DetailKeys] : the detail-view key handling of [Update].

    The properties follow, one module of facts for each module of
    definitions.

    Go [int] is modelled as [Z] without wrap-around: the arithmetic of the
    modelled code moves indices by one within the bounds its guards check.
    The one place where the machine range decides a result,
    [strconv.Atoi], has its range check written out. Go strings are byte
    sequences and are modelled as [string], a list of bytes. *)

From Stdlib Require Import ZArith Ascii String DecimalString Permutation.
From stdpp Require Import gmap strings list fin_maps.

Local Open Scope Z_scope.

(* ===================================================================== *)
(** * Go's string library *)
(* ===================================================================== *)

Module GoStrings.

Definition byte (c : ascii) : N := N_of_ascii c.

(** The line feed, Go's ['\n']. *)
Definition LF : ascii := ascii_of_N 10.

(** [len(s)]: Go's built-in length of a string, in bytes. *)
Definition len (s : string) : Z := Z.of_nat (String.length s).

(** ASCII white space of [unicode.IsSpace]: tab, line feed, vertical tab,
    form feed, carriage return and space. *)
Definition asciiSpace (c : ascii) : bool :=
  let x := byte c in
  ((9 <=? x) && (x <=? 13) || (x =? 32))%N.

(** The white-space runes of [unicode.IsSpace] beyond ASCII, as UTF-8:
    U+0085 and U+00A0 take two bytes; U+1680, U+2000..U+200A, U+2028,
    U+2029, U+202F, U+205F and U+3000 take three. *)
Definition space2 (a b : ascii) : bool :=
  ((byte a =? 194) && ((byte b =? 133) || (byte b =? 160)))%N.

Definition space3 (a b c : ascii) : bool :=
  let x := byte a in let y := byte b in let z := byte c in
  ((x =? 225) && (y =? 154) && (z =? 128)
   || (x =? 226) && (y =? 128)
        && ((128 <=? z) && (z <=? 138) || (z =? 168) || (z =? 169) || (z =? 175))
   || (x =? 226) && (y =? 129) && (z =? 159)
   || (x =? 227) && (y =? 128) && (z =? 128))%N.

(** [strings.TrimLeftFunc(s, unicode.IsSpace)]. *)
Fixpoint TrimLeftSpace (s : string) : string :=
  match s with
  | String a r =>
      if asciiSpace a then TrimLeftSpace r
      else match r with
           | String b r' =>
               if space2 a b then TrimLeftSpace r'
               else match r' with
                    | String c r'' => if space3 a b c then TrimLeftSpace r'' else s
                    | EmptyString => s
                    end
           | EmptyString => s
           end
  | EmptyString => EmptyString
  end.

(** The same scan on the reversed string: the bytes of a rune arrive last
    byte first. *)
Fixpoint TrimLeftSpaceRev (s : string) : string :=
  match s with
  | String c r =>
      if asciiSpace c then TrimLeftSpaceRev r
      else match r with
           | String b r' =>
               if space2 b c then TrimLeftSpaceRev r'
               else match r' with
                    | String a r'' => if space3 a b c then TrimLeftSpaceRev r'' else s
                    | EmptyString => s
                    end
           | EmptyString => s
           end
  | EmptyString => EmptyString
  end.

(** [strings.TrimRightFunc(s, unicode.IsSpace)]. *)
Definition TrimRightSpace (s : string) : string :=
  String.rev (TrimLeftSpaceRev (String.rev s)).

(** [strings.TrimSpace]. *)
Definition TrimSpace (s : string) : string :=
  TrimRightSpace (TrimLeftSpace s).

(** [strings.HasPrefix]. *)
Fixpoint HasPrefix (s prefix : string) : bool :=
  match prefix, s with
  | EmptyString, _ => true
  | String p ps, String c cs => if ascii_dec c p then HasPrefix cs ps else false
  | String _ _, EmptyString => false
  end.

(** [strings.HasSuffix]. *)
Definition HasSuffix (s suffix : string) : bool :=
  HasPrefix (String.rev s) (String.rev suffix).

(** [strings.Contains]. *)
Fixpoint Contains (s substr : string) : bool :=
  HasPrefix s substr ||
  match s with
  | String _ r => Contains r substr
  | EmptyString => false
  end.

Fixpoint dropBytes (n : nat) (s : string) : string :=
  match n, s with
  | O, _ => s
  | S n', String _ r => dropBytes n' r
  | S _, EmptyString => EmptyString
  end.

(** [strings.TrimPrefix]. *)
Definition TrimPrefix (s prefix : string) : string :=
  if HasPrefix s prefix then dropBytes (String.length prefix) s else s.

(** [strings.Split(s, sep)] for a separator of one byte (the code only
    splits on ["\n"]): the pieces between the separators, so one more
    piece than there are separators, and [[""]] for the empty string. *)
Fixpoint SplitGo (sep : ascii) (cur : string) (s : string) : list string :=
  match s with
  | EmptyString => [String.rev cur]
  | String c r =>
      if ascii_dec c sep then String.rev cur :: SplitGo sep EmptyString r
      else SplitGo sep (String c cur) r
  end.

Definition Split (s : string) (sep : ascii) : list string :=
  SplitGo sep EmptyString s.

(** [strings.Fields]: the maximal runs of bytes that belong to no
    white-space rune. [cur] is the field being read, reversed. *)
Definition flushField (cur : string) : list string :=
  match cur with
  | EmptyString => []
  | _ => [String.rev cur]
  end.

Fixpoint FieldsGo (cur : string) (s : string) : list string :=
  match s with
  | EmptyString => flushField cur
  | String a r =>
      if asciiSpace a then flushField cur ++ FieldsGo EmptyString r
      else match r with
           | String b r' =>
               if space2 a b then flushField cur ++ FieldsGo EmptyString r'
               else match r' with
                    | String c r'' =>
                        if space3 a b c then flushField cur ++ FieldsGo EmptyString r''
                        else FieldsGo (String a cur) r
                    | EmptyString => FieldsGo (String a cur) r
                    end
           | EmptyString => FieldsGo (String a cur) r
           end
  end.

Definition Fields (s : string) : list string := FieldsGo EmptyString s.

(** ** [strconv.Atoi] on a 64-bit platform *)

Definition maxInt : Z := 2 ^ 63 - 1.
Definition minInt : Z := - 2 ^ 63.

Definition digitOf (c : ascii) : option Z :=
  let x := byte c in
  if ((48 <=? x) && (x <=? 57))%N then Some (Z.of_N x - 48) else None.

Definition isDigit (c : ascii) : bool :=
  match digitOf c with Some _ => true | None => false end.

(** The value of a run of decimal digits read left to right from [acc];
    [None] when a byte is not a digit. *)
Fixpoint digitsFrom (acc : Z) (s : string) : option Z :=
  match s with
  | EmptyString => Some acc
  | String c r =>
      match digitOf c with
      | Some d => digitsFrom (acc * 10 + d) r
      | None => None
      end
  end.

(** An unsigned decimal numeral: at least one byte, digits only. *)
Definition parseDigits (s : string) : option Z :=
  match s with
  | EmptyString => None
  | _ => digitsFrom 0 s
  end.

(** [strconv.Atoi]: an optional sign, then decimal digits; [None] is the
    error result (syntax or value out of range). *)
Definition Atoi (s : string) : option Z :=
  let '(neg, ds) :=
    match s with
    | String c r =>
        if ascii_dec c "-"%char then (true, r)
        else if ascii_dec c "+"%char then (false, r)
        else (false, s)
    | EmptyString => (false, s)
    end in
  match parseDigits ds with
  | Some n =>
      let v := if neg then - n else n in
      if (minInt <=? v) && (v <=? maxInt) then Some v else None
  | None => None
  end.

(** [fmt.Sprintf("%d", n)]. *)
Definition Itoa (n : Z) : string := NilZero.string_of_int (Z.to_int n).

(** [filepath.Base] on Unix: the last element of the path, trailing
    slashes removed; ["."] for the empty path and ["/"] for slashes only. *)
Fixpoint dropSlashes (s : string) : string :=
  match s with
  | String c r => if ascii_dec c "/"%char then dropSlashes r else s
  | EmptyString => EmptyString
  end.

Fixpoint upToSlash (s : string) : string :=
  match s with
  | String c r => if ascii_dec c "/"%char then EmptyString else String c (upToSlash r)
  | EmptyString => EmptyString
  end.

Definition Base (path : string) : string :=
  match path with
  | EmptyString => "."
  | _ =>
      let last := String.rev (upToSlash (dropSlashes (String.rev path))) in
      match last with
      | EmptyString => "/"
      | _ => last
      end
  end.

(** [p] holds for every byte of the string; for its last byte. *)
Fixpoint allBytes (p : ascii -> bool) (s : string) : bool :=
  match s with
  | String c r => p c && allBytes p r
  | EmptyString => true
  end.

Fixpoint lastByteIs (p : ascii -> bool) (s : string) : bool :=
  match s with
  | String c r =>
      match r with
      | EmptyString => p c
      | String _ _ => lastByteIs p r
      end
  | EmptyString => false
  end.

(** A byte for which [p] holds occurs in the string. *)
Fixpoint hasByte (p : ascii -> bool) (s : string) : bool :=
  match s with
  | String c r => p c || hasByte p r
  | EmptyString => false
  end.

End GoStrings.

(* ===================================================================== *)
(** * The result tree cursor (pullresults.go) *)
(* ===================================================================== *)

Module Cursor.

(** [PullResultsCursor]: [Level] is 0 for a repository, 1 for a commit and
    2 for a file. *)
Record PullResultsCursor := {
  Level : Z;
  RepoIdx : Z;
  CommitIdx : Z;
  FileIdx : Z
}.

(** The methods have pointer receivers: each returns the cursor it leaves
    behind together with its boolean result. *)

Definition GoDeeper (c : PullResultsCursor) : PullResultsCursor * bool :=
  if Level c <? 2 then
    let level' := Level c + 1 in
    if level' =? 1 then
      ({| Level := level'; RepoIdx := RepoIdx c; CommitIdx := 0; FileIdx := FileIdx c |}, true)
    else if level' =? 2 then
      ({| Level := level'; RepoIdx := RepoIdx c; CommitIdx := CommitIdx c; FileIdx := 0 |}, true)
    else
      ({| Level := level'; RepoIdx := RepoIdx c; CommitIdx := CommitIdx c; FileIdx := FileIdx c |}, true)
  else (c, false).

Definition GoUp (c : PullResultsCursor) : PullResultsCursor * bool :=
  if Level c >? 0 then
    ({| Level := Level c - 1; RepoIdx := RepoIdx c; CommitIdx := CommitIdx c; FileIdx := FileIdx c |}, true)
  else (c, false).

Definition MoveDown (c : PullResultsCursor) (maxItems : Z) : PullResultsCursor * bool :=
  if Level c =? 0 then
    if RepoIdx c <? maxItems - 1 then
      ({| Level := Level c; RepoIdx := RepoIdx c + 1; CommitIdx := CommitIdx c; FileIdx := FileIdx c |}, true)
    else (c, false)
  else if Level c =? 1 then
    if CommitIdx c <? maxItems - 1 then
      ({| Level := Level c; RepoIdx := RepoIdx c; CommitIdx := CommitIdx c + 1; FileIdx := FileIdx c |}, true)
    else (c, false)
  else if Level c =? 2 then
    if FileIdx c <? maxItems - 1 then
      ({| Level := Level c; RepoIdx := RepoIdx c; CommitIdx := CommitIdx c; FileIdx := FileIdx c + 1 |}, true)
    else (c, false)
  else (c, false).

Definition MoveUp (c : PullResultsCursor) : PullResultsCursor * bool :=
  if Level c =? 0 then
    if RepoIdx c >? 0 then
      ({| Level := Level c; RepoIdx := RepoIdx c - 1; CommitIdx := CommitIdx c; FileIdx := FileIdx c |}, true)
    else (c, false)
  else if Level c =? 1 then
    if CommitIdx c >? 0 then
      ({| Level := Level c; RepoIdx := RepoIdx c; CommitIdx := CommitIdx c - 1; FileIdx := FileIdx c |}, true)
    else (c, false)
  else if Level c =? 2 then
    if FileIdx c >? 0 then
      ({| Level := Level c; RepoIdx := RepoIdx c; CommitIdx := CommitIdx c; FileIdx := FileIdx c - 1 |}, true)
    else (c, false)
  else (c, false).

Definition Reset (c : PullResultsCursor) : PullResultsCursor :=
  {| Level := 0; RepoIdx := 0; CommitIdx := 0; FileIdx := 0 |}.

(** Descend, then ascend at once. *)
Definition descendAscend (c : PullResultsCursor) : PullResultsCursor :=
  (GoUp (GoDeeper c).1).1.

End Cursor.

(* ===================================================================== *)
(** * Parsing [git show --stat] output (pullresults.go) *)
(* ===================================================================== *)

Module GitStat.
Import GoStrings.

(** [FileChange]: a changed file of a commit. *)
Record FileChange := {
  Path : string;
  Additions : Z;
  Deletions : Z
}.

(** ** The regular expression [statPattern]

    The pattern of the source is, piece by piece: the anchor [^]; a greedy
    run of [\s]; group 1, a lazy run of at least one [.]; a greedy run of
    [\s]; a literal bar; a greedy run of [\s]; group 2, optional, a
    greedy run of at least one [\d]; a greedy run of [\s]; group 3, a
    greedy run of plus signs; group 4, a greedy run of minus signs.

    It is matched the way Go's [regexp] does: anchored at the start of the
    line, and among all matches the one a backtracking matcher finds
    first, a greedy operator trying its longest repetition first and the
    lazy one its shortest. *)

(** The class [\s] of Go's regexp syntax: tab, line feed, form feed,
    carriage return and space (no vertical tab). *)
Definition reSpace (c : ascii) : bool :=
  let x := byte c in
  ((x =? 9) || (x =? 10) || (x =? 12) || (x =? 13) || (x =? 32))%N.

(** [.]: any byte but the line feed. *)
Definition reDot (c : ascii) : bool := negb (byte c =? 10)%N.

Definition isPlus (c : ascii) : bool := (byte c =? 43)%N.
Definition isMinus (c : ascii) : bool := (byte c =? 45)%N.
Definition isBar (c : ascii) : bool := (byte c =? 124)%N.

(** The longest prefix of [s] whose bytes satisfy [p], and what follows. *)
Fixpoint spanOf (p : ascii -> bool) (s : string) : string * string :=
  match s with
  | String c r =>
      if p c then let '(a, b) := spanOf p r in (String c a, b) else (EmptyString, s)
  | EmptyString => (EmptyString, EmptyString)
  end.

(** A run of [\s] and the bar, at [s]: what follows the bar. The greedy [\s*] has nothing to
    give back, a bar being no white space. *)
Definition barAhead (s : string) : option string :=
  match (spanOf reSpace s).2 with
  | String c r => if isBar c then Some r else None
  | EmptyString => None
  end.

(** Group 1, white space and the bar, once the group holds the bytes [acc] (reversed, at least
    one): stop as soon as a bar is ahead, else take one more byte. *)
Fixpoint lazyPath (acc : string) (s : string) : option (string * string) :=
  match barAhead s with
  | Some r => Some (String.rev acc, r)
  | None =>
      match s with
      | String c s' => if reDot c then lazyPath (String c acc) s' else None
      | EmptyString => None
      end
  end.

Definition pathFrom (s : string) : option (string * string) :=
  match s with
  | String c s' => if reDot c then lazyPath (String c EmptyString) s' else None
  | EmptyString => None
  end.

(** The pattern up to the bar: the leading run of [\s] takes a white-space byte when the
    rest of the pattern then matches, and leaves it to the group
    otherwise. Returns group 1 and what follows the bar. *)
Fixpoint statPrefix (s : string) : option (string * string) :=
  match s with
  | String c s' =>
      if reSpace c then
        match statPrefix s' with
        | Some r => Some r
        | None => pathFrom s
        end
      else pathFrom s
  | EmptyString => None
  end.

(** [matches[1]] to [matches[4]] of [FindStringSubmatch]; a group that
    took no part in the match is the empty string. *)
Record Submatch := {
  m1 : string;
  m2 : string;
  m3 : string;
  m4 : string
}.

(** The pattern after the bar: every piece may be empty, so
    each greedy operator keeps its longest repetition. *)
Definition statSuffix (s : string) : string * string * string :=
  let s1 := (spanOf reSpace s).2 in
  let '(digits, s2) := spanOf isDigit s1 in
  let s3 := (spanOf reSpace s2).2 in
  let '(pluses, s4) := spanOf isPlus s3 in
  let '(minuses, _) := spanOf isMinus s4 in
  (digits, pluses, minuses).

(** [statPattern.FindStringSubmatch(line)]; [None] is Go's [nil]. *)
Definition FindStringSubmatch (line : string) : option Submatch :=
  match statPrefix line with
  | Some (path, rest) =>
      let '(digits, pluses, minuses) := statSuffix rest in
      Some {| m1 := path; m2 := digits; m3 := pluses; m4 := minuses |}
  | None => None
  end.

(** The body of the loop over the lines: the [FileChange] appended for
    [line], if any. *)
Definition parseStatLine (line : string) : option FileChange :=
  if Contains line "files changed" || Contains line "file changed" then None
  else if bool_decide (TrimSpace line = EmptyString) then None
  else
    match FindStringSubmatch line with
    | Some matches =>
        let path := TrimSpace (m1 matches) in
        let additions := len (m3 matches) in
        let deletions := len (m4 matches) in
        let '(additions, deletions) :=
          if negb (bool_decide (m2 matches = EmptyString))
             && (additions =? 0) && (deletions =? 0)
          then
            match Atoi (m2 matches) with
            | Some count =>
                let additions := count ÷ 2 in
                (additions, count - additions)
            | None => (additions, deletions)
            end
          else (additions, deletions) in
        Some {| Path := path; Additions := additions; Deletions := deletions |}
    | None => None
    end.

Definition parseGitStatOutput (output : string) : list FileChange :=
  omap parseStatLine (Split (TrimSpace output) LF).

(** A file name as [git show --stat] prints it on a line of its own: not
    empty, without bar or line feed, and with no white space at either
    end. *)
Definition plainName (name : string) : Prop :=
  hasByte isBar name = false
  /\ allBytes reDot name = true
  /\ (exists c r, name = String c r /\ reSpace c = false)
  /\ lastByteIs (fun c => negb (reSpace c)) name = true.

(** The line for the file [name] with a count and no signs: padding, the
    name, padding, the bar, padding, the digits. *)
Definition countLine (lead name pad1 pad2 digits : string) : string :=
  lead +:+ name +:+ pad1 +:+ String "|" (pad2 +:+ digits).

End GitStat.

(* ===================================================================== *)
(** * The data model (types.go) *)
(* ===================================================================== *)

Module Types.

Inductive GitStatus :=
| StatusUnknown
| StatusClean
| StatusCleanBehind
| StatusDirty
| StatusError.

Global Instance GitStatus_eq_dec : EqDecision GitStatus.
Proof. solve_decision. Defined.

Record Repo := {
  Path : string;
  Name : string;
  Branch : string;
  Status : GitStatus;
  StatusText : string;
  IsFavorite : bool;
  PullResult : string;
  BehindCount : Z
}.

Record Group := {
  GroupName : string;
  GroupRepos : list string;
  IsBuiltIn : bool
}.

Record GroupItem := {
  ItemName : string;
  RepoCount : Z;
  DirtyCount : Z;
  ItemBehindCount : Z
}.

Record BranchInfo := {
  BranchName : string;
  IsLocal : bool;
  IsRemote : bool;
  IsCurrent : bool;
  RemoteName : string
}.

Inductive viewMode :=
| listView
| detailView
| configView
| actionSelectView
| errorView
| settingsView
| groupInputView
| groupDeleteView
| groupSelectView
| groupAddReposView
| pullResultsView.

Global Instance viewMode_eq_dec : EqDecision viewMode.
Proof. solve_decision. Defined.

(** [detailPane] is an integer type in the source, and the tab keys
    compute on it modulo 3. *)
Definition detailPane := Z.
Definition paneStatus : detailPane := 0.
Definition paneBranches : detailPane := 1.
Definition paneCommand : detailPane := 2.

Record statusUpdatedMsg := {
  su_path : string;
  su_branch : string;
  su_status : GitStatus;
  su_text : string;
  su_behindCount : Z
}.

(** [err] is Go's [error]: [None] is [nil]. *)
Record pullCompleteMsg := {
  pc_path : string;
  pc_result : string;
  pc_shortResult : string;
  pc_err : option string
}.

Record branchesLoadedMsg := {
  bl_path : string;
  bl_branches : list BranchInfo;
  bl_current : string
}.

Record CommitInfo := {
  Hash : string;
  Message : string;
  Author : string;
  Time : string
}.

Record PullResultInfo := {
  RepoPath : string;
  RepoName : string;
  Commits : list CommitInfo;
  FilesChanged : Z;
  Updated : bool
}.

(** A row of the list widget: a repository, or a group on the homepage. *)
Inductive Item :=
| RepoItem (r : Repo)
| GroupRow (g : GroupItem).

End Types.

(* ===================================================================== *)
(** * Tasks and commands (the [tea.Cmd] values the reducer returns) *)
(* ===================================================================== *)

Module Tea.

(** One constructor for each function of the source that builds a task;
    the arguments are the function's. *)
Inductive Task :=
| checkGitStatus (path : string)
| loadGitDetail (path : string)
| pullRepo (path : string)
| loadBranches (path : string)
| switchBranch (path branch : string)
| deleteBranch (path branch : string) (force : bool)
| createLocalBranch (path localName remoteName : string)
| runCommand (path command : string).

(** [nil], a task, the spinner's tick, a command returned by a widget of
    the UI library (opaque to the reducer), or [tea.Batch]. *)
#[warnings="-register-all"]
Inductive Cmd :=
| Nil
| Run (t : Task)
| spinnerTick
| WidgetCmd (tag : string)
| Batch (cmds : list Cmd).

(** The tasks a command dispatches. *)
Fixpoint tasksOf (c : Cmd) : list Task :=
  match c with
  | Run t => [t]
  | Batch cmds =>
      (fix go (l : list Cmd) : list Task :=
         match l with
         | [] => []
         | c' :: l' => tasksOf c' ++ go l'
         end) cmds
  | _ => []
  end.

End Tea.

(* ===================================================================== *)
(** * The external tool *)
(* ===================================================================== *)

Module Git.

(** What [exec.Command(name, args...)] gives back when run: the captured
    output, and whether the error is non-nil. *)
Record ExecResult := {
  output : string;
  failed : bool
}.

(** The world outside the program: each invocation, identified by its
    command line, has a result. *)
Definition Exec := string -> list string -> ExecResult.

End Git.

(* ===================================================================== *)
(** * The status refresher (main.go) *)
(* ===================================================================== *)

Module Status.
Import GoStrings Types Git.

(** The command lines of the two queries. *)
Definition behindQuery (path : string) : list string :=
  ["-C"; path; "rev-list"; "--count"; "HEAD..@{u}"].

Definition statusQuery (path : string) : list string :=
  ["-C"; path; "status"; "--porcelain"].

(** "Check how many commits behind remote": 0 unless the query succeeds and
    prints a number. *)
Definition behindCountOf (exec : Exec) (path : string) : Z :=
  let behindRes := exec "git" (behindQuery path) in
  if failed behindRes then 0
  else match Atoi (TrimSpace (output behindRes)) with
       | Some count => count
       | None => 0
       end.

(** The body of the task [checkGitStatus(path)] builds. *)
Definition checkGitStatus (exec : Exec) (path : string) : statusUpdatedMsg :=
  (* Get branch name *)
  let branchOut := output (exec "git" ["-C"; path; "rev-parse"; "--abbrev-ref"; "HEAD"]) in
  let branch := TrimSpace branchOut in
  let branch := if bool_decide (branch = EmptyString) then "?" else branch in
  (* Fetch from remote, errors ignored *)
  let _ := exec "git" ["-C"; path; "fetch"; "--quiet"] in
  (* Check how many commits behind remote *)
  let behindCount := behindCountOf exec path in
  (* Get local status *)
  let statusRes := exec "git" (statusQuery path) in
  if failed statusRes then
    {| su_path := path; su_branch := branch; su_status := StatusError;
       su_text := "failed to get status"; su_behindCount := 0 |}
  else
    let lines := TrimSpace (output statusRes) in
    if bool_decide (lines = EmptyString) then
      (* Clean locally *)
      if behindCount >? 0 then
        {| su_path := path; su_branch := branch; su_status := StatusCleanBehind;
           su_text := ""; su_behindCount := behindCount |}
      else
        {| su_path := path; su_branch := branch; su_status := StatusClean;
           su_text := ""; su_behindCount := 0 |}
    else
      let lineCount := Z.of_nat (length (Split lines LF)) in
      {| su_path := path; su_branch := branch; su_status := StatusDirty;
         su_text := Itoa lineCount +:+ " changed"; su_behindCount := behindCount |}.

(** A world for the examples: the repository at [/repo] is three commits
    behind its upstream, and its [status] query fails. *)
Definition behindButStatusFails : Exec :=
  fun name args =>
    if bool_decide (args = behindQuery "/repo") then
      {| output := "3"; failed := false |}
    else if bool_decide (args = statusQuery "/repo") then
      {| output := ""; failed := true |}
    else {| output := "main"; failed := false |}.

(** Another one: no upstream is configured, so the behind-count query
    fails, and two paths are modified. *)
Definition dirtyNoUpstream : Exec :=
  fun name args =>
    if bool_decide (args = behindQuery "/repo") then
      {| output := "fatal: no upstream configured"; failed := true |}
    else if bool_decide (args = statusQuery "/repo") then
      {| output := " M a.go" +:+ String LF " M b.go"; failed := false |}
    else {| output := "main"; failed := false |}.

End Status.

(* ===================================================================== *)
(** * Go's [sort.Slice] and map iteration *)
(* ===================================================================== *)

Module GoSort.

(** [sort.Slice] promises only that the slice is rearranged according to
    the comparison, and the order in which [range] visits a map is left
    open: the models of the functions that sort or range over a map take
    the sorting function and the visiting order as arguments. One sorting
    function that [sort.Slice] may behave as is the insertion sort. *)
Fixpoint insertBy {A : Type} (less : A -> A -> bool) (x : A) (l : list A) : list A :=
  match l with
  | [] => [x]
  | y :: l' => if less x y then x :: y :: l' else y :: insertBy less x l'
  end.

Definition insertionSort (A : Type) (less : A -> A -> bool) (l : list A) : list A :=
  foldr (insertBy less) [] l.

(** One visiting order: the one the map already has. *)
Definition sameOrder (A : Type) (l : list A) : list A := l.

End GoSort.

(* ===================================================================== *)
(** * The branch reconciler (main.go) *)
(* ===================================================================== *)

Module Branches.
Import GoStrings Types Git.

Section LoadBranches.

(** [sort.Slice]: it rearranges the slice, in an order the comparison
    decides. *)
Variable sortSlice : forall A : Type, (A -> A -> bool) -> list A -> list A.

(** The order in which [range] visits the entries of a Go map is not
    specified: [rangeOrder] rearranges the entries into the order of one
    run. *)
Variable rangeOrder : forall A : Type, list A -> list A.

(** The first loop over the lines of [for-each-ref refs/heads/]:
    local name to upstream name, the empty string without upstream. *)
Definition addLocalLine (localBranches : gmap string string) (line : string)
  : gmap string string :=
  let parts := Fields line in
  match parts with
  | part0 :: rest =>
      if negb (bool_decide (part0 = EmptyString)) then
        let localName := part0 in
        let remoteName :=
          match rest with
          | part1 :: _ => part1
          | [] => EmptyString
          end in
        <[localName := remoteName]> localBranches
      else localBranches
  | [] => localBranches
  end.

(** The loop over the lines of [for-each-ref refs/remotes/]; the map to
    [true] is a set. *)
Definition addRemoteLine (remoteBranches : gset string) (b : string) : gset string :=
  let b := TrimSpace b in
  if negb (bool_decide (b = EmptyString)) && negb (HasSuffix b "/HEAD")
  then {[ b ]} ∪ remoteBranches
  else remoteBranches.

(** One turn of the loop "Add local branches": the state is the list
    built so far and [seenRemotes]. *)
Definition addLocalBranch (remoteBranches : gset string) (current : string)
    (st : list BranchInfo * gset string) (entry : string * string)
  : list BranchInfo * gset string :=
  let '(branches, seenRemotes) := st in
  let '(localName, remoteName) := entry in
  let '(hasRemote, remoteName, seenRemotes) :=
    if negb (bool_decide (remoteName = EmptyString)) then
      (bool_decide (remoteName ∈ remoteBranches), remoteName,
       {[ remoteName ]} ∪ seenRemotes)
    else
      let possibleRemote := "origin/" +:+ localName in
      if bool_decide (possibleRemote ∈ remoteBranches) then
        (true, possibleRemote, {[ possibleRemote ]} ∪ seenRemotes)
      else (false, remoteName, seenRemotes) in
  (branches ++ [ {| BranchName := localName; IsLocal := true; IsRemote := hasRemote;
                    IsCurrent := bool_decide (localName = current);
                    RemoteName := remoteName |} ],
   seenRemotes).

(** One turn of the loop "Add remote-only branches". *)
Definition addRemoteBranch (seenRemotes : gset string)
    (branches : list BranchInfo) (remoteName : string) : list BranchInfo :=
  if bool_decide (remoteName ∈ seenRemotes) then branches
  else
    let localName :=
      if HasPrefix remoteName "origin/" then TrimPrefix remoteName "origin/"
      else remoteName in
    branches ++ [ {| BranchName := localName; IsLocal := false; IsRemote := true;
                     IsCurrent := false; RemoteName := remoteName |} ].

(** The comparison given to [sort.Slice]. *)
Definition branchLess (bi bj : BranchInfo) : bool :=
  if IsCurrent bi then true
  else if IsCurrent bj then false
  else
    let iBoth := IsLocal bi && IsRemote bi in
    let jBoth := IsLocal bj && IsRemote bj in
    if negb (eqb iBoth jBoth) then iBoth
    else if negb (eqb (IsLocal bi) (IsLocal bj)) then IsLocal bi
    else String.ltb (BranchName bi) (BranchName bj).

(** The body of the task [loadBranches(path)] builds. *)
Definition loadBranches (exec : Exec) (path : string) : branchesLoadedMsg :=
  (* Fetch from remote, errors ignored *)
  let _ := exec "git" ["-C"; path; "fetch"; "--all"; "--prune"; "--quiet"] in
  (* Get current branch *)
  let currentOut := output (exec "git" ["-C"; path; "rev-parse"; "--abbrev-ref"; "HEAD"]) in
  let current := TrimSpace currentOut in
  (* Get all local branches with their upstream *)
  let branchOut :=
    output (exec "git" ["-C"; path; "for-each-ref";
                        "--format=%(refname:short) %(upstream:short)"; "refs/heads/"]) in
  let localBranches :=
    foldl addLocalLine ∅ (Split (TrimSpace branchOut) LF) in
  (* Get all remote branches *)
  let remoteOut :=
    output (exec "git" ["-C"; path; "for-each-ref";
                        "--format=%(refname:short)"; "refs/remotes/"]) in
  let remoteBranches :=
    foldl addRemoteLine ∅ (Split (TrimSpace remoteOut) LF) in
  (* Build branch info list *)
  let '(branches, seenRemotes) :=
    foldl (addLocalBranch remoteBranches current) ([], ∅)
          (rangeOrder _ (map_to_list localBranches)) in
  let branches :=
    foldl (addRemoteBranch seenRemotes) branches
          (rangeOrder _ (elements remoteBranches)) in
  let branches := sortSlice _ branchLess branches in
  {| bl_path := path; bl_branches := branches; bl_current := current |}.

End LoadBranches.

(** What the invariant of the branch list asks of one entry. *)
Definition wellFormed (b : BranchInfo) : Prop :=
  (IsLocal b = true \/ IsRemote b = true)
  /\ (IsCurrent b = true -> IsLocal b = true).

(** The entry of the map of local branches for the name [current]. *)
Definition hasName (current : string) (entry : string * string) : bool :=
  bool_decide (entry.1 = current).

(** A world for the examples: the repository at [/repo] is on [main],
    which tracks [origin/main]; [fix] is local only, [wip] has no upstream
    configured but [origin/wip] exists, and [origin/next] is remote only. *)
Definition sampleWorld : Exec :=
  fun name args =>
    if bool_decide (args = ["-C"; "/repo"; "rev-parse"; "--abbrev-ref"; "HEAD"]) then
      {| output := "main" +:+ String LF ""; failed := false |}
    else if bool_decide (args = ["-C"; "/repo"; "for-each-ref";
                                 "--format=%(refname:short) %(upstream:short)";
                                 "refs/heads/"]) then
      {| output := "fix " +:+ String LF ("main origin/main" +:+ String LF ("wip " +:+ String LF ""));
         failed := false |}
    else if bool_decide (args = ["-C"; "/repo"; "for-each-ref";
                                 "--format=%(refname:short)"; "refs/remotes/"]) then
      {| output := "origin/HEAD" +:+ String LF ("origin/main" +:+ String LF
                     ("origin/next" +:+ String LF ("origin/wip" +:+ String LF "")));
         failed := false |}
    else {| output := ""; failed := false |}.

End Branches.

(* ===================================================================== *)
(** * The status filters (main.go) *)
(* ===================================================================== *)

Module Filters.
Import GoStrings Types.

(** The fields of [model] that [updateList] and [getFilteredRepos] read or
    write; [listItems] is what [m.list.SetItems] last received. *)
Record model := {
  repos : list Repo;
  filterDirty : bool;
  filterBehind : bool;
  listItems : list Repo
}.

(** The loop shared by [getFilteredRepos] and [updateList]: a repository
    is skipped by either [continue], and appended otherwise. *)
Fixpoint applyStatusFilters (filterDirty filterBehind : bool)
    (rs : list Repo) (filtered : list Repo) : list Repo :=
  match rs with
  | [] => filtered
  | repo :: rest =>
      if filterDirty && negb (bool_decide (Status repo = StatusDirty)) then
        applyStatusFilters filterDirty filterBehind rest filtered
      else if filterBehind && (BehindCount repo =? 0) then
        applyStatusFilters filterDirty filterBehind rest filtered
      else applyStatusFilters filterDirty filterBehind rest (filtered ++ [repo])
  end.

Definition getFilteredRepos (m : model) : list Repo :=
  applyStatusFilters (filterDirty m) (filterBehind m) (repos m) [].

(** A repository that neither [continue] of the loop skips. *)
Definition passesFilters (filterDirty filterBehind : bool) (repo : Repo) : bool :=
  negb (filterDirty && negb (bool_decide (Status repo = StatusDirty)))
  && negb (filterBehind && (BehindCount repo =? 0)).

(** The model with other filter settings. *)
Definition withFilters (dirty behind : bool) (m : model) : model :=
  {| repos := repos m; filterDirty := dirty; filterBehind := behind;
     listItems := listItems m |}.

(** A repository collection for the examples. *)
Definition sampleRepo (name : string) (status : GitStatus) (behind : Z) : Repo :=
  {| Path := "/src/" +:+ name; Name := name; Branch := "main"; Status := status;
     StatusText := ""; IsFavorite := false; PullResult := ""; BehindCount := behind |}.

Definition sampleModel : model :=
  {| repos := [sampleRepo "api" StatusDirty 2; sampleRepo "web" StatusDirty 0;
               sampleRepo "cli" StatusCleanBehind 4; sampleRepo "doc" StatusClean 0];
     filterDirty := true; filterBehind := true; listItems := [] |}.

(** The comparison [updateList] gives to [sort.Slice]: favourites first,
    then by name. *)
Definition repoLess (ri rj : Repo) : bool :=
  if negb (eqb (IsFavorite ri) (IsFavorite rj)) then IsFavorite ri
  else String.ltb (Name ri) (Name rj).

Section UpdateList.
Variable sortSlice : forall A : Type, (A -> A -> bool) -> list A -> list A.

(** [updateList] sorts [m.repos] in place, then filters it into the
    list widget. *)
Definition updateList (m : model) : model :=
  let sorted := sortSlice _ repoLess (repos m) in
  let filtered := applyStatusFilters (filterDirty m) (filterBehind m) sorted [] in
  {| repos := sorted; filterDirty := filterDirty m;
     filterBehind := filterBehind m; listItems := filtered |}.
End UpdateList.

End Filters.

(* ===================================================================== *)
(** * The pull round: pending pulls and their results (types.go) *)
(* ===================================================================== *)

Module PullRound.
Import GoStrings Types Tea.

(** The helpers [getHeadCommit], [getCommitsBetween] and
    [getFilesChangedCount] query git from inside the reducer. They are
    called by [Update] and their results are what the world holds when
    the event is processed. *)
Record GitEnv := {
  getHeadCommit : string -> string;
  getCommitsBetween : string -> string -> string -> list CommitInfo;
  getFilesChangedCount : string -> string -> string -> Z
}.

(** Modelled from the spec: the body of [getCommitsBetween] is not among
    the source files of the repository. The specification has it return "the ordered
    commit list strictly between the pre-pull and post-pull references":
    between a reference and itself there is no commit. *)
Definition commitsStrictlyBetween (env : GitEnv) : Prop :=
  forall path head, getCommitsBetween env path head head = [].

(** [list.FilterState]. *)
Inductive FilterState := Unfiltered | Filtering | FilterApplied.

Global Instance FilterState_eq_dec : EqDecision FilterState.
Proof. solve_decision. Defined.

Inductive Msg :=
| KeyMsg (key : string)
| PullComplete (msg : pullCompleteMsg).

Section Reducer.

(** The list widget of the UI library, through the methods the reducer
    calls on it. *)
Variable ListModel : Type.
Variable FilterStateOf : ListModel -> FilterState.
Variable FilterValue : ListModel -> string.
Variable SetFilterText : ListModel -> string -> ListModel.
Variable SelectedItem : ListModel -> option Item.
Variable listUpdate : ListModel -> Msg -> ListModel * Cmd.

(** The fields of [model] that the pull keys and the [pullCompleteMsg]
    case read or write. [viewportContent] is what [m.viewport.SetContent]
    last received; [currentGroup] is a pointer, [None] when nil;
    [pendingPulls] is an allocated map (the key "P" allocates it anew, the
    key "p" writes into the one at hand). *)
Record model := {
  listModel : ListModel;
  repos : list Repo;
  pulling : bool;
  statusMsg : string;
  errorMsg : string;
  mode : viewMode;
  previousMode : viewMode;
  savedFilter : string;
  viewportContent : string;
  groupsMap : gmap string Group;
  currentGroup : option Group;
  showPullResults : bool;
  pendingPulls : gmap string string;
  pullResults : list PullResultInfo;
  pullResultsCursor : Z;
  pullExpanded : gmap string bool
}.

Definition withList (l : ListModel) (m : model) : model :=
  {| listModel := l; repos := repos m; pulling := pulling m; statusMsg := statusMsg m;
     errorMsg := errorMsg m; mode := mode m; previousMode := previousMode m;
     savedFilter := savedFilter m; viewportContent := viewportContent m;
     groupsMap := groupsMap m; currentGroup := currentGroup m;
     showPullResults := showPullResults m; pendingPulls := pendingPulls m;
     pullResults := pullResults m; pullResultsCursor := pullResultsCursor m;
     pullExpanded := pullExpanded m |}.

(** [updateList] and [updateListFlattened] rebuild the rows of the list
    widget from the model and write nothing else: what they leave in
    [m.list] (the field [listModel]). *)
Variable updateListRows : model -> ListModel.
Variable updateListFlattenedRows : model -> ListModel.

Definition updateList (m : model) : model := withList (updateListRows m) m.
Definition updateListFlattened (m : model) : model :=
  withList (updateListFlattenedRows m) m.

(** [getGroupRepos]: the repositories of [m.repos] whose path the group
    lists, in the order of [m.repos]. *)
Definition getGroupRepos (m : model) (groupName : string) : list Repo :=
  match groupsMap m !! groupName with
  | None => []
  | Some group =>
      let repoSet : gset string := list_to_set (GroupRepos group) in
      List.filter (fun repo => bool_decide (Path repo ∈ repoSet)) (repos m)
  end.

(** The end of [Update], reached by every case that does not return:
    the list widget sees the message in the list view, and the rows are
    rebuilt when filtering starts or stops. *)
Definition isFilteringState (l : ListModel) : bool :=
  bool_decide (FilterStateOf l = Filtering)
  || bool_decide (FilterStateOf l = FilterApplied).

Definition updateEnd (m : model) (msg : Msg) (cmds : list Cmd) : model * Cmd :=
  let wasFiltering := isFilteringState (listModel m) in
  let '(m, cmds) :=
    if bool_decide (mode m = listView) then
      let '(l, cmd) := listUpdate (listModel m) msg in
      (withList l m, cmds ++ [cmd])
    else (m, cmds) in
  let isFiltering := isFilteringState (listModel m) in
  let m :=
    if negb wasFiltering && isFiltering
       && bool_decide (currentGroup m = None :> option Group)
    then updateListFlattened m else m in
  let m := if wasFiltering && negb isFiltering then updateList m else m in
  (m, Batch cmds).

(** ** Dispatching pulls *)

(** The loops of the key "P": for each repository, capture its head in
    the pending map, then queue its pull. *)
Definition capturePulls (env : GitEnv) (rs : list Repo)
    (pending : gmap string string) (pullCmds : list Cmd)
  : gmap string string * list Cmd :=
  foldl (fun st repo =>
           (<[Path repo := getHeadCommit env (Path repo)]> st.1,
            st.2 ++ [Run (pullRepo (Path repo))]))
        (pending, pullCmds) rs.

Definition withPulls (pending : gmap string string) (results : list PullResultInfo)
    (pulling' : bool) (status : string) (m : model) : model :=
  {| listModel := listModel m; repos := repos m; pulling := pulling'; statusMsg := status;
     errorMsg := errorMsg m; mode := mode m; previousMode := previousMode m;
     savedFilter := savedFilter m; viewportContent := viewportContent m;
     groupsMap := groupsMap m; currentGroup := currentGroup m;
     showPullResults := showPullResults m; pendingPulls := pending;
     pullResults := results; pullResultsCursor := pullResultsCursor m;
     pullExpanded := pullExpanded m |}.

(** A group pull: the branch of the key "P" taken inside a group, and
    the one taken on the homepage with a group selected. *)
Definition pullGroup (env : GitEnv) (m : model) (groupName : string) : model * Cmd :=
  let rs := getGroupRepos m groupName in
  let '(pending, pullCmds) := capturePulls env rs ∅ [] in
  if 0 <? Z.of_nat (length pullCmds) then
    (withPulls pending [] true
       ("Pulling " +:+ Itoa (Z.of_nat (length pullCmds)) +:+ " repos in "
          +:+ groupName +:+ "...") m,
     Batch (pullCmds ++ [spinnerTick]))
  else
    (withPulls pending [] (pulling m) ("No repos to pull in " +:+ groupName) m, Nil).

(** The case "P" of the list view's key switch. *)
Definition keyPullAll (env : GitEnv) (m : model) : model * Cmd :=
  (* Clear previous results: pullResults = nil, pendingPulls = make(...) *)
  match currentGroup m with
  | Some group => pullGroup env m (GroupName group)
  | None =>
      match SelectedItem (listModel m) with
      | Some (GroupRow group) => pullGroup env m (ItemName group)
      | _ =>
          (* Otherwise: pull all favorites *)
          let favs := List.filter IsFavorite (repos m) in
          let '(pending, pullCmds) := capturePulls env favs ∅ [] in
          let count := Z.of_nat (length favs) in
          if count >? 0 then
            (withPulls pending [] true
               ("Pulling " +:+ Itoa count +:+ " favorites...") m,
             Batch (pullCmds ++ [spinnerTick]))
          else
            updateEnd (withPulls pending [] (pulling m) (statusMsg m) m) (KeyMsg "P") []
      end
  end.

(** The case "p": pull the selected repository. Nothing is cleared from
    the pending map; the head captured now replaces an earlier one. *)
Definition keyPullOne (env : GitEnv) (m : model) : model * Cmd :=
  match SelectedItem (listModel m) with
  | Some (RepoItem item) =>
      (withPulls (<[Path item := getHeadCommit env (Path item)]> (pendingPulls m)) []
         true ("Pulling " +:+ Name item +:+ "...") m,
       Batch [spinnerTick; Run (pullRepo (Path item))])
  | _ => updateEnd m (KeyMsg "p") []
  end.

(** ** The case [pullCompleteMsg] *)

(** The loop over [m.repos]: the first repository at [msg.path] gets its
    pull label; its name is returned. *)
Fixpoint labelPulledRepo (msg : pullCompleteMsg) (rs : list Repo)
  : list Repo * option string :=
  match rs with
  | [] => ([], None)
  | r :: rest =>
      if bool_decide (Path r = pc_path msg) then
        let label :=
          match pc_err msg with
          | Some _ => "error"
          | None => pc_shortResult msg
          end in
        ({| Path := Path r; Name := Name r; Branch := Branch r; Status := Status r;
            StatusText := StatusText r; IsFavorite := IsFavorite r;
            PullResult := label; BehindCount := BehindCount r |} :: rest,
         Some (Name r))
      else
        let '(rest', found) := labelPulledRepo msg rest in
        (r :: rest', found)
  end.

(** "Collect pull results for results screen": the pending map and the
    result list after the event. *)
Definition collectPullResult (env : GitEnv) (msg : pullCompleteMsg) (repoName : string)
    (pending : gmap string string) (results : list PullResultInfo)
  : gmap string string * list PullResultInfo :=
  match pending !! pc_path msg with
  | Some oldHead =>
      let pending := delete (pc_path msg) pending in
      if bool_decide (pc_err msg = None)
         && negb (Contains (pc_result msg) "Already up to date")
      then
        let newHead := getHeadCommit env (pc_path msg) in
        let commits := getCommitsBetween env (pc_path msg) oldHead newHead in
        let filesChanged := getFilesChangedCount env (pc_path msg) oldHead newHead in
        if 0 <? Z.of_nat (length commits) then
          (pending,
           results ++ [ {| RepoPath := pc_path msg; RepoName := repoName;
                           Commits := commits; FilesChanged := filesChanged;
                           Updated := true |} ])
        else (pending, results)
      else (pending, results)
  | None => (pending, results)
  end.

(** The condition of the specification under which a completed pull is
    reported: the pull succeeded, its output does not say that nothing
    changed, a head was captured for the path, and there are commits
    between that head and the head after the pull. *)
Definition reportable (env : GitEnv) (msg : pullCompleteMsg)
    (pending : gmap string string) : Prop :=
  pc_err msg = None
  /\ Contains (pc_result msg) "Already up to date" = false
  /\ exists oldHead,
       pending !! pc_path msg = Some oldHead
       /\ getCommitsBetween env (pc_path msg) oldHead (getHeadCommit env (pc_path msg)) <> [].

(** "Check if all pulls are done". *)
Definition allDone (pending : gmap string string) : bool :=
  Z.of_nat (size pending) =? 0.

Definition NL : string := String LF EmptyString.

Definition handlePullComplete (env : GitEnv) (m : model) (msg : pullCompleteMsg)
  : model * Cmd :=
  let '(repos', found) := labelPulledRepo msg (repos m) in
  let repoName := default (Base (pc_path msg)) found in
  let errorMsg1 :=
    match found, pc_err msg with
    | Some _, None => EmptyString
    | _, _ => errorMsg m
    end in
  let '(pending, results) :=
    collectPullResult env msg repoName (pendingPulls m) (pullResults m) in
  let done := allDone pending in
  let m' :=
    match pc_err msg with
    | Some _ =>
        let errorMsg2 :=
          "Pull failed for " +:+ repoName +:+ ":" +:+ NL +:+ NL +:+ pc_result msg in
        {| listModel := listModel m; repos := repos'; pulling := negb done;
           statusMsg := EmptyString; errorMsg := errorMsg2; mode := errorView;
           previousMode := mode m;
           savedFilter :=
             if bool_decide (FilterStateOf (listModel m) = FilterApplied)
             then FilterValue (listModel m) else savedFilter m;
           viewportContent := errorMsg2;
           groupsMap := groupsMap m; currentGroup := currentGroup m;
           showPullResults := showPullResults m; pendingPulls := pending;
           pullResults := results; pullResultsCursor := pullResultsCursor m;
           pullExpanded := pullExpanded m |}
    | None =>
        let filterText :=
          if bool_decide (FilterStateOf (listModel m) = FilterApplied)
          then FilterValue (listModel m) else EmptyString in
        let m1 :=
          updateList
            {| listModel := listModel m; repos := repos'; pulling := pulling m;
               statusMsg := statusMsg m; errorMsg := errorMsg1; mode := mode m;
               previousMode := previousMode m; savedFilter := savedFilter m;
               viewportContent := viewportContent m;
               groupsMap := groupsMap m; currentGroup := currentGroup m;
               showPullResults := showPullResults m; pendingPulls := pending;
               pullResults := results; pullResultsCursor := pullResultsCursor m;
               pullExpanded := pullExpanded m |} in
        let l :=
          if negb (bool_decide (filterText = EmptyString))
          then SetFilterText (listModel m1) filterText else listModel m1 in
        let pulled := "Pulled " +:+ repoName +:+ ": " +:+ pc_shortResult msg in
        let showResults :=
          done && showPullResults m && (0 <? Z.of_nat (length results)) in
        {| listModel := l; repos := repos';
           pulling := if done then false else pulling m;
           statusMsg := if showResults then EmptyString else pulled;
           errorMsg := errorMsg1;
           mode := if showResults then pullResultsView else mode m;
           previousMode := previousMode m; savedFilter := savedFilter m;
           viewportContent := viewportContent m;
           groupsMap := groupsMap m; currentGroup := currentGroup m;
           showPullResults := showPullResults m; pendingPulls := pending;
           pullResults := results;
           pullResultsCursor := if showResults then 0 else pullResultsCursor m;
           pullExpanded :=
             if showResults then
               match results with
               | first :: _ => <[RepoPath first := true]> ∅
               | [] => ∅
               end
             else pullExpanded m |}
    end in
  updateEnd m' (PullComplete msg) [Run (checkGitStatus (pc_path msg))].

(** The pending set after a sequence of completion events, each
    processed in the world of its moment. *)
Definition processAll (m : model) (events : list (GitEnv * pullCompleteMsg)) : model :=
  foldl (fun m ev => (handlePullComplete ev.1 m ev.2).1) m events.

(** The number of events of the sequence that found the path pending, and
    so removed it from the pending map. *)
Fixpoint removals (p : string) (m : model) (events : list (GitEnv * pullCompleteMsg))
  : nat :=
  match events with
  | [] => 0
  | ev :: rest =>
      ((if bool_decide (pc_path ev.2 = p) && bool_decide (is_Some (pendingPulls m !! p))
        then 1 else 0)
       + removals p (handlePullComplete ev.1 m ev.2).1 rest)%nat
  end.

(** The name the handler reports the repository under: its name in
    [m.repos], or else the last element of the path. *)
Definition repoNameOf (m : model) (msg : pullCompleteMsg) : string :=
  default (Base (pc_path msg)) (labelPulledRepo msg (repos m)).2.

End Reducer.

(** ** A small world for the examples

    The list widget is inert (no filter, nothing selected), two
    repositories are favourites, and the upstream of [/src/api] is two
    commits ahead of the head [a1] it had when the pull was dispatched. *)

Definition sampleCommit (hash : string) : CommitInfo :=
  {| Hash := hash; Message := "change"; Author := "dev"; Time := "1 hour ago" |}.

Definition worldBefore : GitEnv :=
  {| getHeadCommit := fun path => "a1";
     getCommitsBetween := fun path old new => [];
     getFilesChangedCount := fun path old new => 0 |}.

Definition worldAfter : GitEnv :=
  {| getHeadCommit := fun path =>
       if bool_decide (path = "/src/api") then "a3" else "a1";
     getCommitsBetween := fun path old new =>
       if bool_decide (old = new) then []
       else [sampleCommit "a3"; sampleCommit "a2"];
     getFilesChangedCount := fun path old new =>
       if bool_decide (old = new) then 0 else 4 |}.

Definition sampleRepo (name : string) (favorite : bool) : Repo :=
  {| Path := "/src/" +:+ name; Name := name; Branch := "main"; Status := StatusClean;
     StatusText := ""; IsFavorite := favorite; PullResult := ""; BehindCount := 0 |}.

Definition sampleModel : model unit :=
  {| listModel := tt;
     repos := [sampleRepo "api" true; sampleRepo "web" true; sampleRepo "doc" false];
     pulling := false; statusMsg := ""; errorMsg := ""; mode := listView;
     previousMode := listView; savedFilter := ""; viewportContent := "";
     groupsMap := ∅; currentGroup := None; showPullResults := true;
     pendingPulls := ∅; pullResults := []; pullResultsCursor := 0;
     pullExpanded := ∅ |}.

Definition sampleKeyPullAll (env : GitEnv) (m : model unit) : model unit * Cmd :=
  keyPullAll unit (fun _ => Unfiltered) (fun _ => None) (fun l _ => (l, Nil))
             (fun _ => tt) (fun _ => tt) env m.

Definition sampleHandle (env : GitEnv) (m : model unit) (msg : pullCompleteMsg)
  : model unit * Cmd :=
  handlePullComplete unit (fun _ => Unfiltered) (fun _ => EmptyString) (fun l _ => l)
                     (fun l _ => (l, Nil)) (fun _ => tt) (fun _ => tt) env m msg.

Definition pulled (path result : string) : pullCompleteMsg :=
  {| pc_path := path; pc_result := result; pc_shortResult := "updated"; pc_err := None |}.

End PullRound.

(* ===================================================================== *)
(** * The keys of the detail view (types.go and main.go, identical there) *)
(* ===================================================================== *)

Module DetailKeys.
Import GoStrings Types Tea Git.

(** [hasUncommittedChanges] of main.go. *)
Definition hasUncommittedChanges (exec : Exec) (path : string) : bool :=
  let out := output (exec "git" ["-C"; path; "status"; "--porcelain"]) in
  negb (bool_decide (TrimSpace out = EmptyString)).

Section Keys.

(** The text input and the viewport of the UI library, through the
    methods the reducer calls on them. *)
Variable TextInput : Type.
Variable Value : TextInput -> string.
Variable SetValue : TextInput -> string -> TextInput.
Variable Focus : TextInput -> TextInput.
Variable Blur : TextInput -> TextInput.
Variable inputUpdate : TextInput -> string -> TextInput * Cmd.
Variable Viewport : Type.
Variable viewportUpdate : Viewport -> string -> Viewport * Cmd.

(** The fields of [model] that the detail view's keys read or write.
    [detailRepo] is a pointer, [None] when nil; [cmdViewportContent] is
    what [m.cmdViewport.SetContent] last received. *)
Record model := {
  mode : viewMode;
  detailRepo : option Repo;
  detailContent : string;
  cmdOutput : string;
  branches : list BranchInfo;
  detailFocus : detailPane;
  branchIndex : Z;
  statusMsg : string;
  targetBranch : string;
  hasChanges : bool;
  actionIndex : Z;
  cmdInput : TextInput;
  cmdRunning : bool;
  cmdViewportContent : string;
  viewport : Viewport
}.

Definition set_mode (v : viewMode) (m : model) : model :=
  {| mode := v; detailRepo := detailRepo m; detailContent := detailContent m;
  cmdOutput := cmdOutput m; branches := branches m; detailFocus := detailFocus m;
  branchIndex := branchIndex m; statusMsg := statusMsg m; targetBranch := targetBranch
  m; hasChanges := hasChanges m; actionIndex := actionIndex m; cmdInput := cmdInput m;
  cmdRunning := cmdRunning m; cmdViewportContent := cmdViewportContent m; viewport :=
  viewport m |}.

Definition set_detailRepo (v : option Repo) (m : model) : model :=
  {| mode := mode m; detailRepo := v; detailContent := detailContent m; cmdOutput :=
  cmdOutput m; branches := branches m; detailFocus := detailFocus m; branchIndex :=
  branchIndex m; statusMsg := statusMsg m; targetBranch := targetBranch m; hasChanges
  := hasChanges m; actionIndex := actionIndex m; cmdInput := cmdInput m; cmdRunning :=
  cmdRunning m; cmdViewportContent := cmdViewportContent m; viewport := viewport m |}.

Definition set_detailContent (v : string) (m : model) : model :=
  {| mode := mode m; detailRepo := detailRepo m; detailContent := v; cmdOutput :=
  cmdOutput m; branches := branches m; detailFocus := detailFocus m; branchIndex :=
  branchIndex m; statusMsg := statusMsg m; targetBranch := targetBranch m; hasChanges
  := hasChanges m; actionIndex := actionIndex m; cmdInput := cmdInput m; cmdRunning :=
  cmdRunning m; cmdViewportContent := cmdViewportContent m; viewport := viewport m |}.

Definition set_cmdOutput (v : string) (m : model) : model :=
  {| mode := mode m; detailRepo := detailRepo m; detailContent := detailContent m;
  cmdOutput := v; branches := branches m; detailFocus := detailFocus m; branchIndex :=
  branchIndex m; statusMsg := statusMsg m; targetBranch := targetBranch m; hasChanges
  := hasChanges m; actionIndex := actionIndex m; cmdInput := cmdInput m; cmdRunning :=
  cmdRunning m; cmdViewportContent := cmdViewportContent m; viewport := viewport m |}.

Definition set_branches (v : list BranchInfo) (m : model) : model :=
  {| mode := mode m; detailRepo := detailRepo m; detailContent := detailContent m;
  cmdOutput := cmdOutput m; branches := v; detailFocus := detailFocus m; branchIndex
  := branchIndex m; statusMsg := statusMsg m; targetBranch := targetBranch m;
  hasChanges := hasChanges m; actionIndex := actionIndex m; cmdInput := cmdInput m;
  cmdRunning := cmdRunning m; cmdViewportContent := cmdViewportContent m; viewport :=
  viewport m |}.

Definition set_detailFocus (v : detailPane) (m : model) : model :=
  {| mode := mode m; detailRepo := detailRepo m; detailContent := detailContent m;
  cmdOutput := cmdOutput m; branches := branches m; detailFocus := v; branchIndex :=
  branchIndex m; statusMsg := statusMsg m; targetBranch := targetBranch m; hasChanges
  := hasChanges m; actionIndex := actionIndex m; cmdInput := cmdInput m; cmdRunning :=
  cmdRunning m; cmdViewportContent := cmdViewportContent m; viewport := viewport m |}.

Definition set_branchIndex (v : Z) (m : model) : model :=
  {| mode := mode m; detailRepo := detailRepo m; detailContent := detailContent m;
  cmdOutput := cmdOutput m; branches := branches m; detailFocus := detailFocus m;
  branchIndex := v; statusMsg := statusMsg m; targetBranch := targetBranch m;
  hasChanges := hasChanges m; actionIndex := actionIndex m; cmdInput := cmdInput m;
  cmdRunning := cmdRunning m; cmdViewportContent := cmdViewportContent m; viewport :=
  viewport m |}.

Definition set_statusMsg (v : string) (m : model) : model :=
  {| mode := mode m; detailRepo := detailRepo m; detailContent := detailContent m;
  cmdOutput := cmdOutput m; branches := branches m; detailFocus := detailFocus m;
  branchIndex := branchIndex m; statusMsg := v; targetBranch := targetBranch m;
  hasChanges := hasChanges m; actionIndex := actionIndex m; cmdInput := cmdInput m;
  cmdRunning := cmdRunning m; cmdViewportContent := cmdViewportContent m; viewport :=
  viewport m |}.

Definition set_targetBranch (v : string) (m : model) : model :=
  {| mode := mode m; detailRepo := detailRepo m; detailContent := detailContent m;
  cmdOutput := cmdOutput m; branches := branches m; detailFocus := detailFocus m;
  branchIndex := branchIndex m; statusMsg := statusMsg m; targetBranch := v;
  hasChanges := hasChanges m; actionIndex := actionIndex m; cmdInput := cmdInput m;
  cmdRunning := cmdRunning m; cmdViewportContent := cmdViewportContent m; viewport :=
  viewport m |}.

Definition set_hasChanges (v : bool) (m : model) : model :=
  {| mode := mode m; detailRepo := detailRepo m; detailContent := detailContent m;
  cmdOutput := cmdOutput m; branches := branches m; detailFocus := detailFocus m;
  branchIndex := branchIndex m; statusMsg := statusMsg m; targetBranch := targetBranch
  m; hasChanges := v; actionIndex := actionIndex m; cmdInput := cmdInput m; cmdRunning
  := cmdRunning m; cmdViewportContent := cmdViewportContent m; viewport := viewport m
  |}.

Definition set_actionIndex (v : Z) (m : model) : model :=
  {| mode := mode m; detailRepo := detailRepo m; detailContent := detailContent m;
  cmdOutput := cmdOutput m; branches := branches m; detailFocus := detailFocus m;
  branchIndex := branchIndex m; statusMsg := statusMsg m; targetBranch := targetBranch
  m; hasChanges := hasChanges m; actionIndex := v; cmdInput := cmdInput m; cmdRunning
  := cmdRunning m; cmdViewportContent := cmdViewportContent m; viewport := viewport m
  |}.

Definition set_cmdInput (v : TextInput) (m : model) : model :=
  {| mode := mode m; detailRepo := detailRepo m; detailContent := detailContent m;
  cmdOutput := cmdOutput m; branches := branches m; detailFocus := detailFocus m;
  branchIndex := branchIndex m; statusMsg := statusMsg m; targetBranch := targetBranch
  m; hasChanges := hasChanges m; actionIndex := actionIndex m; cmdInput := v;
  cmdRunning := cmdRunning m; cmdViewportContent := cmdViewportContent m; viewport :=
  viewport m |}.

Definition set_cmdRunning (v : bool) (m : model) : model :=
  {| mode := mode m; detailRepo := detailRepo m; detailContent := detailContent m;
  cmdOutput := cmdOutput m; branches := branches m; detailFocus := detailFocus m;
  branchIndex := branchIndex m; statusMsg := statusMsg m; targetBranch := targetBranch
  m; hasChanges := hasChanges m; actionIndex := actionIndex m; cmdInput := cmdInput m;
  cmdRunning := v; cmdViewportContent := cmdViewportContent m; viewport := viewport m
  |}.

Definition set_cmdViewportContent (v : string) (m : model) : model :=
  {| mode := mode m; detailRepo := detailRepo m; detailContent := detailContent m;
  cmdOutput := cmdOutput m; branches := branches m; detailFocus := detailFocus m;
  branchIndex := branchIndex m; statusMsg := statusMsg m; targetBranch := targetBranch
  m; hasChanges := hasChanges m; actionIndex := actionIndex m; cmdInput := cmdInput m;
  cmdRunning := cmdRunning m; cmdViewportContent := v; viewport := viewport m |}.

Definition set_viewport (v : Viewport) (m : model) : model :=
  {| mode := mode m; detailRepo := detailRepo m; detailContent := detailContent m;
  cmdOutput := cmdOutput m; branches := branches m; detailFocus := detailFocus m;
  branchIndex := branchIndex m; statusMsg := statusMsg m; targetBranch := targetBranch
  m; hasChanges := hasChanges m; actionIndex := actionIndex m; cmdInput := cmdInput m;
  cmdRunning := cmdRunning m; cmdViewportContent := cmdViewportContent m; viewport :=
  v |}.

(** What a key leads to: the next model and a command, or a run-time
    panic of Go (an index out of range, a nil pointer). *)
Inductive Outcome :=
| Ok (m : model) (cmd : Cmd)
| Panic.

Definition NL : string := String LF EmptyString.

(** [m.branches[m.branchIndex]]; [None] when Go panics. *)
Definition branchAt (m : model) : option BranchInfo :=
  if (0 <=? branchIndex m) && (branchIndex m <? Z.of_nat (length (branches m)))
  then branches m !! Z.to_nat (branchIndex m)
  else None.

(** The guard shared by the keys that act on the selected branch:
    [len(m.branches) > 0 && m.detailRepo != nil], then the indexing. *)
Definition onBranch (m : model) (k : Repo -> BranchInfo -> Outcome) : Outcome :=
  match detailRepo m with
  | Some repo =>
      if 0 <? Z.of_nat (length (branches m)) then
        match branchAt m with
        | Some branch => k repo branch
        | None => Panic
        end
      else Ok m Nil
  | None => Ok m Nil
  end.

Definition isKey (key : string) (names : list string) : bool :=
  bool_decide (key ∈ names).

(** The keys of the branches pane. *)
Definition branchesKey (exec : Exec) (m : model) (key : string) : Outcome :=
  if isKey key ["up"; "k"] then
    Ok (if branchIndex m >? 0 then set_branchIndex (branchIndex m - 1) m else m) Nil
  else if isKey key ["down"; "j"] then
    Ok (if branchIndex m <? Z.of_nat (length (branches m)) - 1
        then set_branchIndex (branchIndex m + 1) m else m) Nil
  else if isKey key ["enter"] then
    onBranch m (fun repo branch =>
      if IsCurrent branch then
        Ok (set_statusMsg ("Already on " +:+ BranchName branch) m) Nil
      else
        let checkoutName :=
          if negb (IsLocal branch) && IsRemote branch then RemoteName branch
          else BranchName branch in
        let m := set_targetBranch (BranchName branch) m in
        if hasUncommittedChanges exec (Path repo) then
          Ok (set_actionIndex 0 (set_mode actionSelectView (set_hasChanges true m))) Nil
        else
          Ok (set_statusMsg ("Switching to " +:+ BranchName branch +:+ "...") m)
             (Run (switchBranch (Path repo) checkoutName)))
  else if isKey key ["x"] then
    onBranch m (fun repo branch =>
      if IsCurrent branch then
        Ok (set_statusMsg "Cannot delete current branch" m) Nil
      else if negb (IsLocal branch) then
        Ok (set_statusMsg "Branch is remote-only, nothing to delete locally" m) Nil
      else if IsRemote branch then
        Ok (set_statusMsg "Branch exists on remote. Use 'X' to force delete." m) Nil
      else Ok m (Run (deleteBranch (Path repo) (BranchName branch) false)))
  else if isKey key ["X"] then
    onBranch m (fun repo branch =>
      if IsCurrent branch then
        Ok (set_statusMsg "Cannot delete current branch" m) Nil
      else if negb (IsLocal branch) then
        Ok (set_statusMsg "Branch is remote-only" m) Nil
      else Ok m (Run (deleteBranch (Path repo) (BranchName branch) true)))
  else if isKey key ["p"] then
    onBranch m (fun repo branch =>
      if IsLocal branch then
        Ok (set_statusMsg "Branch already exists locally" m) Nil
      else if negb (IsRemote branch) then
        Ok (set_statusMsg "Branch is not on remote" m) Nil
      else
        Ok (set_statusMsg ("Creating local branch " +:+ BranchName branch +:+ "...") m)
           (Run (createLocalBranch (Path repo) (BranchName branch) (RemoteName branch))))
  else Ok m Nil.

(** The keys of the command pane. *)
Definition commandKey (m : model) (key : string) : Outcome :=
  if isKey key ["enter"] then
    if negb (bool_decide (Value (cmdInput m) = EmptyString)) && negb (cmdRunning m) then
      let cmd := Value (cmdInput m) in
      let out := "Running: " +:+ cmd +:+ NL +:+ NL in
      let m := set_cmdViewportContent out (set_cmdOutput out (set_cmdRunning true m)) in
      match detailRepo m with
      | Some repo => Ok m (Run (runCommand (Path repo) cmd))
      | None => Panic
      end
    else Ok m Nil
  else
    let '(input, cmd) := inputUpdate (cmdInput m) key in
    Ok (set_cmdInput input m) cmd.

Definition focusPane (pane : detailPane) (m : model) : model :=
  let m := set_detailFocus pane m in
  if pane =? paneCommand then set_cmdInput (Focus (cmdInput m)) m
  else set_cmdInput (Blur (cmdInput m)) m.

(** The keys common to the three panes; [None] when the first switch
    leaves the key to the pane in focus. *)
Definition commonKey (m : model) (key : string) : option Outcome :=
  if isKey key ["q"; "esc"] then
    if (detailFocus m =? paneCommand)
       && negb (bool_decide (Value (cmdInput m) = EmptyString))
    then Some (Ok (set_cmdInput (SetValue (cmdInput m) EmptyString) m) Nil)
    else
      Some (Ok (set_detailFocus paneStatus
                 (set_branches []
                   (set_cmdOutput EmptyString
                     (set_detailContent EmptyString
                       (set_detailRepo None (set_mode listView m)))))) Nil)
  else if isKey key ["tab"] then
    Some (Ok (focusPane (Z.rem (detailFocus m + 1) 3) m) Nil)
  else if isKey key ["shift+tab"] then
    Some (Ok (focusPane (Z.rem (detailFocus m + 2) 3) m) Nil)
  else if isKey key ["r"] then
    match detailRepo m with
    | Some repo =>
        if negb (detailFocus m =? paneCommand) then
          Some (Ok m (Batch [Run (loadGitDetail (Path repo));
                             Run (loadBranches (Path repo))]))
        else None
    | None => None
    end
  else None.

(** The key handling of [Update] when [m.mode == detailView]. *)
Definition detailViewKey (exec : Exec) (m : model) (key : string) : Outcome :=
  match commonKey m key with
  | Some outcome => outcome
  | None =>
      if detailFocus m =? paneStatus then
        let '(vp, cmd) := viewportUpdate (viewport m) key in
        Ok (set_viewport vp m) cmd
      else if detailFocus m =? paneBranches then branchesKey exec m key
      else if detailFocus m =? paneCommand then commandKey m key
      else Ok m Nil
  end.


(** What the specification asks of a key that dispatches the deletion of
    [branch] in the repository at [path]: it is the selected branch, local
    and not current; the plain deletion is for a branch that is not on the
    remote. *)
Definition deletes (m : model) (key : string) (path branch : string) (force : bool)
  : Prop :=
  exists repo b,
    detailRepo m = Some repo
    /\ branchAt m = Some b
    /\ path = Path repo
    /\ branch = BranchName b
    /\ IsCurrent b = false
    /\ IsLocal b = true
    /\ (force = false -> IsRemote b = false /\ key = "x")
    /\ (force = true -> key = "X").

End Keys.

(** ** A detail view for the examples

    The text input is its text, the viewport is inert; the repository is on
    [main], and the cursor of the branches pane is on it. *)

Definition sampleBranches : list BranchInfo :=
  [ {| BranchName := "main"; IsLocal := true; IsRemote := true; IsCurrent := true;
       RemoteName := "origin/main" |};
    {| BranchName := "fix"; IsLocal := true; IsRemote := false; IsCurrent := false;
       RemoteName := "" |};
    {| BranchName := "next"; IsLocal := false; IsRemote := true; IsCurrent := false;
       RemoteName := "origin/next" |} ].

Definition sampleModel (index : Z) : model string unit :=
  {| mode := detailView;
     detailRepo := Some {| Path := "/src/api"; Name := "api"; Branch := "main";
                           Status := StatusClean; StatusText := ""; IsFavorite := false;
                           PullResult := ""; BehindCount := 0 |};
     detailContent := ""; cmdOutput := ""; branches := sampleBranches;
     detailFocus := paneBranches; branchIndex := index; statusMsg := "";
     targetBranch := ""; hasChanges := false; actionIndex := 0; cmdInput := "";
     cmdRunning := false; cmdViewportContent := ""; viewport := tt |}.

Definition sampleKey (exec : Exec) (m : model string unit) (key : string)
  : Outcome string unit :=
  detailViewKey string (fun input => input) (fun _ text => text)
                (fun input => input) (fun input => input)
                (fun input key => (input +:+ key, Nil))
                unit (fun vp _ => (vp, Nil)) exec m key.

Definition quietWorld : Exec := fun name args => {| output := ""; failed := false |}.

End DetailKeys.

(* ===================================================================== *)
(** * The cursor within a level (pullresults.go) *)
(* ===================================================================== *)

Module CursorMore.
Import Cursor.

(** The index [MoveDown] and [MoveUp] act on: the one of the level the
    cursor is at. *)
Definition indexAt (c : PullResultsCursor) : Z :=
  if Level c =? 0 then RepoIdx c
  else if Level c =? 1 then CommitIdx c
  else FileIdx c.

(** The two indices of the other levels. *)
Definition otherIndices (c : PullResultsCursor) : Z * Z :=
  if Level c =? 0 then (CommitIdx c, FileIdx c)
  else if Level c =? 1 then (RepoIdx c, FileIdx c)
  else (RepoIdx c, CommitIdx c).

End CursorMore.

(* ===================================================================== *)
(** * What the branch reconciler reads and builds (main.go) *)
(* ===================================================================== *)

Module BranchesMore.
Import GoStrings Types Git Branches.

(** The three things [loadBranches] reads from git: the current branch,
    the map of local branches to their upstream, and the set of remote
    references. *)
Definition currentBranch (exec : Exec) (path : string) : string :=
  TrimSpace (output (exec "git" ["-C"; path; "rev-parse"; "--abbrev-ref"; "HEAD"])).

Definition enumeratedLocals (exec : Exec) (path : string) : gmap string string :=
  foldl addLocalLine ∅
        (Split (TrimSpace
                  (output (exec "git" ["-C"; path; "for-each-ref";
                                       "--format=%(refname:short) %(upstream:short)";
                                       "refs/heads/"]))) LF).

Definition enumeratedRemotes (exec : Exec) (path : string) : gset string :=
  foldl addRemoteLine ∅
        (Split (TrimSpace
                  (output (exec "git" ["-C"; path; "for-each-ref";
                                       "--format=%(refname:short)"; "refs/remotes/"]))) LF).

(** The remote reference a local branch claims: its upstream when one is
    configured, else [origin/<name>] when that reference exists. *)
Definition claimedRemote (remotes : gset string) (entry : string * string)
  : option string :=
  if negb (bool_decide (entry.2 = EmptyString)) then Some entry.2
  else if bool_decide ("origin/" +:+ entry.1 ∈ remotes) then Some ("origin/" +:+ entry.1)
  else None.

Definition claimedRemotes (remotes : gset string) (entries : list (string * string))
  : gset string :=
  list_to_set (omap (claimedRemote remotes) entries).

(** The entry of a local branch, and the entry of a remote reference no
    local branch claims. *)
Definition localEntry (remotes : gset string) (current : string)
    (entry : string * string) : BranchInfo :=
  {| BranchName := entry.1;
     IsLocal := true;
     IsRemote := match claimedRemote remotes entry with
                 | Some r => bool_decide (r ∈ remotes)
                 | None => false
                 end;
     IsCurrent := bool_decide (entry.1 = current);
     RemoteName := default EmptyString (claimedRemote remotes entry) |}.

Definition remoteOnlyEntry (remoteName : string) : BranchInfo :=
  {| BranchName := if HasPrefix remoteName "origin/"
                   then TrimPrefix remoteName "origin/" else remoteName;
     IsLocal := false; IsRemote := true; IsCurrent := false;
     RemoteName := remoteName |}.

(** The branch list before [sort.Slice], maps visited in their own order. *)
Definition reconciled (exec : Exec) (path : string) : list BranchInfo :=
  let remotes := enumeratedRemotes exec path in
  let locals := map_to_list (enumeratedLocals exec path) in
  (localEntry remotes (currentBranch exec path) <$> locals)
  ++ (remoteOnlyEntry <$>
        filter (fun r => r ∉ claimedRemotes remotes locals) (elements remotes)).

(** The four classes the comment above [sort.Slice] names: the current
    branch, then local with remote, then local only, then remote only. *)
Definition sortClass (b : BranchInfo) : Z :=
  if IsCurrent b then 0
  else if IsLocal b && IsRemote b then 1
  else if IsLocal b then 2
  else 3.

End BranchesMore.


(* ===================================================================== *)
(** * What the result tree shows of a file and of a commit (pullresults.go) *)
(* ===================================================================== *)

Module Render.
Import GoStrings Types GitStat.

(** Arithmetic on [int] wraps around at 64 bits. *)
Definition wrapInt (z : Z) : Z := (z + 2 ^ 63) mod 2 ^ 64 - 2 ^ 63.

Fixpoint takeBytes (n : nat) (s : string) : string :=
  match n, s with
  | O, _ => EmptyString
  | S n', String c r => String c (takeBytes n' r)
  | S _, EmptyString => EmptyString
  end.

(** The slices [s[i:]] and [s[:j]]; [None] is the panic of an index out
    of range. *)
Definition sliceFrom (s : string) (i : Z) : option string :=
  if (0 <=? i) && (i <=? len s) then Some (dropBytes (Z.to_nat i) s) else None.

Definition sliceTo (s : string) (j : Z) : option string :=
  if (0 <=? j) && (j <=? len s) then Some (takeBytes (Z.to_nat j) s) else None.

(** [strings.Repeat]; [None] is its panic on a negative count. *)
Definition Repeat (s : string) (count : Z) : option string :=
  if count <? 0 then None
  else Some (Nat.iter (Z.to_nat count) (fun acc => s +:+ acc) EmptyString).

(** The message [renderCommitLine] shows. *)
Definition shownMessage (message : string) : option string :=
  if len message >? 50 then
    tail ← sliceTo message 47; Some (tail +:+ "...")
  else Some message.

(** The width [renderPullResultsView] gives to the column of paths. *)
Definition maxPathWidthOf (files : list FileChange) : Z :=
  let maxPathWidth :=
    foldl (fun w f => if len (Path f) >? w then len (Path f) else w) 20 files in
  if maxPathWidth >? 40 then 40 else maxPathWidth.

(** The path [renderFileLine] shows. *)
Definition shownPath (path : string) (maxPathWidth : Z) : option string :=
  if len path >? maxPathWidth then
    tail ← sliceFrom path (wrapInt (wrapInt (len path - maxPathWidth) + 3));
    Some ("..." +:+ tail)
  else Some path.

(** The numbers of plus and of minus signs [renderFileLine] draws. *)
Definition barCounts (file : FileChange) : Z * Z :=
  let total := wrapInt (Additions file + Deletions file) in
  let maxBars := 20 in
  if total >? 0 then
    let addBars := wrapInt (Additions file * maxBars) ÷ total in
    let delBars := wrapInt (Deletions file * maxBars) ÷ total in
    let addBars := if (Additions file >? 0) && (addBars =? 0) then 1 else addBars in
    let delBars := if (Deletions file >? 0) && (delBars =? 0) then 1 else delBars in
    (addBars, delBars)
  else (0, 0).

(** The two runs of signs, before they are coloured. *)
Definition bars (file : FileChange) : option (string * string) :=
  let '(addBars, delBars) := barCounts file in
  plus ← Repeat "+" addBars;
  minus ← Repeat "-" delBars;
  Some (plus, minus).

(** The three numbers of the summary line of [renderPullResultsView]:
    repositories updated, commits, files changed. *)
Definition summaryOf (results : list PullResultInfo) : Z * Z * Z :=
  foldl (fun '(updatedRepos, totalCommits, totalFiles) r =>
           if Updated r then
             (updatedRepos + 1, totalCommits + Z.of_nat (length (Commits r)),
              totalFiles + FilesChanged r)
           else (updatedRepos, totalCommits, totalFiles))
        (0, 0, 0) results.

End Render.

(* ===================================================================== *)
(** * The keys of the pull results view (types.go) *)
(* ===================================================================== *)

Module ResultsKeys.
Import GoStrings Types Tea PullRound.

Section Keys.
Variable ListModel : Type.

Local Abbreviation model := (model ListModel).

Definition withResults (mode' : viewMode) (results : list PullResultInfo)
    (cursor : Z) (expanded : gmap string bool) (m : model) : model :=
  {| listModel := listModel _ m; repos := repos _ m; pulling := pulling _ m;
     statusMsg := statusMsg _ m; errorMsg := errorMsg _ m; mode := mode';
     previousMode := previousMode _ m; savedFilter := savedFilter _ m;
     viewportContent := viewportContent _ m; groupsMap := groupsMap _ m;
     currentGroup := currentGroup _ m; showPullResults := showPullResults _ m;
     pendingPulls := pendingPulls _ m; pullResults := results;
     pullResultsCursor := cursor; pullExpanded := expanded |}.

(** [m.pullExpanded[path]]: a path the map does not hold reads [false]. *)
Definition expandedAt (expanded : gmap string bool) (path : string) : bool :=
  default false (expanded !! path).

(** The first loop of the key "a", with its [break]. *)
Fixpoint allExpanded (results : list PullResultInfo) (expanded : gmap string bool)
  : bool :=
  match results with
  | [] => true
  | r :: rest =>
      if negb (expandedAt expanded (RepoPath r)) then false
      else allExpanded rest expanded
  end.

(** The second loop of the key "a". *)
Definition setAll (value : bool) (results : list PullResultInfo)
    (expanded : gmap string bool) : gmap string bool :=
  foldl (fun expanded r => <[RepoPath r := value]> expanded) expanded results.

(** The key switch of the pull results view. Every case returns with no
    command; [None] is the panic of an index out of range. The map
    [pullExpanded] is made where the view is entered, the one place where
    the mode becomes [pullResultsView], so it is not nil here. *)
Definition pullResultsKey (m : model) (key : string) : option (model * Cmd) :=
  let results := pullResults _ m in
  let cursor := pullResultsCursor _ m in
  let expanded := pullExpanded _ m in
  if bool_decide (key ∈ ["q"; "esc"]) then
    Some (withResults listView [] cursor expanded m, Nil)
  else if bool_decide (key ∈ ["up"; "k"]) then
    Some (withResults (mode _ m) results (if cursor >? 0 then cursor - 1 else cursor)
            expanded m, Nil)
  else if bool_decide (key ∈ ["down"; "j"]) then
    Some (withResults (mode _ m) results
            (if cursor <? Z.of_nat (length results) - 1 then cursor + 1 else cursor)
            expanded m, Nil)
  else if bool_decide (key ∈ ["enter"; " "]) then
    if cursor <? Z.of_nat (length results) then
      if cursor <? 0 then None
      else
        match results !! Z.to_nat cursor with
        | Some r =>
            Some (withResults (mode _ m) results cursor
                    (<[RepoPath r := negb (expandedAt expanded (RepoPath r))]> expanded) m,
                  Nil)
        | None => None
        end
    else Some (m, Nil)
  else if bool_decide (key = "a") then
    Some (withResults (mode _ m) results cursor
            (setAll (negb (allExpanded results expanded)) results expanded) m, Nil)
  else Some (m, Nil).

(** A sequence of keys, each handled by the view the model is in then:
    the keys after the view is left are not this switch's. *)
Fixpoint pressKeys (m : model) (keys : list string) : option model :=
  match keys with
  | [] => Some m
  | key :: rest =>
      if bool_decide (mode _ m = pullResultsView) then
        match pullResultsKey m key with
        | Some (m', _) => pressKeys m' rest
        | None => None
        end
      else Some m
  end.

(** The cursor is on a row of the list, or at 0 when the list is empty. *)
Definition cursorOnRow (m : model) : Prop :=
  0 <= pullResultsCursor _ m < Z.max 1 (Z.of_nat (length (pullResults _ m))).

End Keys.

(** The sample round of [PullRound] once both pulls are back: the view
    opens on the one repository that received commits. *)
Definition sampleShown : model unit :=
  (sampleHandle worldAfter
     (sampleHandle worldAfter (sampleKeyPullAll worldBefore sampleModel).1
        (pulled "/src/api" "Fast-forward")).1
     (pulled "/src/web" "Already up to date")).1.

(** A round in which both pulls bring commits: the view opens on two
    rows. *)
Definition worldBoth : GitEnv :=
  {| getHeadCommit := fun path => "a3";
     getCommitsBetween := fun path old new =>
       if bool_decide (old = new) then []
       else [sampleCommit "a3"; sampleCommit "a2"];
     getFilesChangedCount := fun path old new =>
       if bool_decide (old = new) then 0 else 4 |}.

Definition sampleShownBoth : model unit :=
  (sampleHandle worldBoth
     (sampleHandle worldBoth (sampleKeyPullAll worldBefore sampleModel).1
        (pulled "/src/api" "Fast-forward")).1
     (pulled "/src/web" "Fast-forward")).1.

End ResultsKeys.

(* ===================================================================== *)
(** * The pull task (main.go) *)
(* ===================================================================== *)

Module PullTask.
Import GoStrings Types Git Render.

Section Task.

(** The text of the error of a failed command ([err.Error()]); the
    program stores it and never reads it. *)
Variable errorText : ExecResult -> string.

(** The body of the task [pullRepo(path)] builds. The slice of the first
    30 bytes is taken from a result longer than that. *)
Definition pullRepo (exec : Exec) (path : string) : pullCompleteMsg :=
  let r := exec "git" ["-C"; path; "pull"; "--ff-only"] in
  let result := TrimSpace (output r) in
  let shortResult :=
    (* Only shorten for success display in list *)
    if negb (failed r) then
      if Contains result "Already up to date" then "up to date"
      else if Contains result "Fast-forward" then "updated"
      else if len result >? 30 then takeBytes 30 result +:+ "..."
      else result
    else result in
  {| pc_path := path;
     pc_result := result;
     pc_shortResult := shortResult;
     pc_err := if failed r then Some (errorText r) else None |}.

End Task.

(** Sample worlds: git answers every command with the given output, and
    fails or not. *)
Definition pullAnswers (answer : string) (fails : bool) : Exec :=
  fun name args => {| output := answer; failed := fails |}.

End PullTask.

(* ===================================================================== *)
(** * Groups and the rows of the homepage (types.go and the model's helpers) *)
(* ===================================================================== *)

Module Groups.
Import GoStrings Types Filters.

(** The fields of [model] the group helpers read. [groupsMap] holds
    pointers into [groups]; it is modelled by the groups they point to. *)
Record model := {
  repos : list Repo;
  groups : list Group;
  groupsMap : gmap string Group;
  currentGroup : option Group;
  filterDirty : bool;
  filterBehind : bool
}.

(** [buildGroupsMap]: a later group replaces an earlier one of the same
    name. *)
Definition buildGroupsMap (groups : list Group) : gmap string Group :=
  foldl (fun m g => <[GroupName g := g]> m) ∅ groups.

(** The inner loop of [getRepoGroup]. *)
Fixpoint listsPath (paths : list string) (path : string) : bool :=
  match paths with
  | [] => false
  | r :: rest => if bool_decide (r = path) then true else listsPath rest path
  end.

(** [getRepoGroup]: the name of the first group that lists the path,
    empty if ungrouped. *)
Fixpoint getRepoGroupIn (groups : list Group) (path : string) : string :=
  match groups with
  | [] => EmptyString
  | g :: rest =>
      if listsPath (GroupRepos g) path then GroupName g
      else getRepoGroupIn rest path
  end.

Definition getRepoGroup (m : model) (path : string) : string :=
  getRepoGroupIn (groups m) path.

Definition isRepoInGroup (m : model) (path : string) : bool :=
  negb (bool_decide (getRepoGroup m path = EmptyString)).

(** [repoSet], a map to [true] used as a set. *)
Definition repoSetOf (paths : list string) : gset string :=
  foldl (fun repoSet path => {[ path ]} ∪ repoSet) ∅ paths.

Definition getGroupRepos (m : model) (groupName : string) : list Repo :=
  match groupsMap m !! groupName with
  | None => []
  | Some group =>
      List.filter (fun repo => bool_decide (Path repo ∈ repoSetOf (GroupRepos group)))
                  (repos m)
  end.

(** The map [grouped] of [getUngroupedRepos]. *)
Definition groupedPaths (groups : list Group) : gset string :=
  foldl (fun grouped g =>
           foldl (fun grouped path => {[ path ]} ∪ grouped) grouped (GroupRepos g))
        ∅ groups.

Definition getUngroupedRepos (m : model) : list Repo :=
  List.filter (fun repo => negb (bool_decide (Path repo ∈ groupedPaths (groups m))))
              (repos m).

(** [buildGroupStats]: one pass over the repositories, three counters. *)
Definition buildGroupStats (m : model) (group : Group) : GroupItem :=
  let repoSet := repoSetOf (GroupRepos group) in
  foldl (fun item repo =>
           if bool_decide (Path repo ∈ repoSet) then
             {| ItemName := ItemName item;
                RepoCount := RepoCount item + 1;
                DirtyCount :=
                  if bool_decide (Status repo = StatusDirty)
                  then DirtyCount item + 1 else DirtyCount item;
                ItemBehindCount :=
                  if BehindCount repo >? 0
                  then ItemBehindCount item + 1 else ItemBehindCount item |}
           else item)
        {| ItemName := GroupName group; RepoCount := 0; DirtyCount := 0;
           ItemBehindCount := 0 |}
        (repos m).

(** The map [m.delegate.repoGroups] that [updateList] rebuilds for the
    display of a row: the last group that lists a path names it. *)
Definition repoGroupsOf (groups : list Group) : gmap string string :=
  foldl (fun repoGroups g =>
           foldl (fun repoGroups path => <[path := GroupName g]> repoGroups)
                 repoGroups (GroupRepos g))
        ∅ groups.

(** The three comparisons [updateList] gives to [sort.Slice]. *)
Definition nameLess (ri rj : Repo) : bool := String.ltb (Name ri) (Name rj).

Definition groupLess (gi gj : Group) : bool :=
  (* Favorites always first *)
  if bool_decide (GroupName gi = "Favorites") then true
  else if bool_decide (GroupName gj = "Favorites") then false
  else String.ltb (GroupName gi) (GroupName gj).

(** "Only show groups with repos": the groups of the homepage. *)
Definition shownGroups (m : model) : list Group :=
  List.filter (fun g => (RepoCount (buildGroupStats m g) >? 0) || negb (IsBuiltIn g))
              (groups m).

Section UpdateList.
Variable sortSlice : forall A : Type, (A -> A -> bool) -> list A -> list A.

(** The rows [updateList] gives to [m.list.SetItems]: inside a group its
    repositories, on the homepage the groups as folders, then the
    ungrouped repositories. The status filters apply to repositories. *)
Definition updateListItems (m : model) : list Item :=
  match currentGroup m with
  | Some group =>
      let repos := sortSlice _ nameLess (getGroupRepos m (GroupName group)) in
      RepoItem <$> applyStatusFilters (filterDirty m) (filterBehind m) repos []
  | None =>
      let sortedGroups := sortSlice _ groupLess (shownGroups m) in
      let ungrouped := sortSlice _ repoLess (getUngroupedRepos m) in
      ((fun g => GroupRow (buildGroupStats m g)) <$> sortedGroups)
      ++ (RepoItem <$> applyStatusFilters (filterDirty m) (filterBehind m) ungrouped [])
  end.

(** The rows of [updateListFlattened]: every repository, whatever its
    group. *)
Definition updateListFlattenedItems (m : model) : list Item :=
  let allRepos := sortSlice _ repoLess (repos m) in
  RepoItem <$> applyStatusFilters (filterDirty m) (filterBehind m) allRepos [].

End UpdateList.

(** Some group lists the path. *)
Definition inSomeGroup (groups : list Group) (path : string) : Prop :=
  exists g, g ∈ groups /\ path ∈ GroupRepos g.

(** A collection for the examples: two groups, one repository in each,
    one repository in none. *)
Definition sampleGroups : list Group :=
  [ {| GroupName := "Favorites"; GroupRepos := ["/src/api"]; IsBuiltIn := true |};
    {| GroupName := "work"; GroupRepos := ["/src/web"; "/src/gone"]; IsBuiltIn := false |} ].

Definition sampleModel : model :=
  {| repos := [sampleRepo "api" StatusDirty 2; sampleRepo "web" StatusClean 0;
               sampleRepo "doc" StatusClean 0];
     groups := sampleGroups; groupsMap := buildGroupsMap sampleGroups;
     currentGroup := None; filterDirty := false; filterBehind := false |}.

End Groups.

(* ===================================================================== *)
(** * The case [branchesLoadedMsg] of [Update] (types.go) *)
(* ===================================================================== *)

Module BranchLoad.
Import GoStrings Types Tea Git DetailKeys.

Section Case.
Variable TextInput : Type.
Variable Viewport : Type.

Local Abbreviation model := (model TextInput Viewport).

(** The loop over [m.branches] with its [break]: the index of the first
    entry that is current, counted from [i]. *)
Fixpoint firstCurrent (branches : list BranchInfo) (i : Z) : option Z :=
  match branches with
  | [] => None
  | b :: rest => if IsCurrent b then Some i else firstCurrent rest (i + 1)
  end.

(** The case: the list of a repository other than the one in the detail
    view is dropped; the index is written only when an entry is current.
    The end of [Update], which follows, touches the list widget only. *)
Definition branchesLoadedCase (m : model) (msg : branchesLoadedMsg) : model :=
  match detailRepo _ _ m with
  | Some repo =>
      if bool_decide (Path repo = bl_path msg) then
        let m := set_branches _ _ (bl_branches msg) m in
        match firstCurrent (branches _ _ m) 0 with
        | Some i => set_branchIndex _ _ i m
        | None => m
        end
      else m
  | None => m
  end.

End Case.

(** A reload that finds the repository on a detached head: one branch,
    none current. *)
Definition detachedLoad : branchesLoadedMsg :=
  {| bl_path := "/src/api";
     bl_branches := [ {| BranchName := "main"; IsLocal := true; IsRemote := true;
                         IsCurrent := false; RemoteName := "origin/main" |} ];
     bl_current := "HEAD" |}.

End BranchLoad.

(* ===================================================================== *)
(** * Uncommitted changes before a branch switch (types.go and main.go) *)
(* ===================================================================== *)

Module ActionSelect.
Import GoStrings Types Tea Git DetailKeys.

(** The two tasks of the action view, by the function that builds them. *)
Inductive ActionTask :=
| stashTask (path : string)
| discardTask (path : string).

Record stashResultMsg := {
  sr_path : string;
  sr_success : bool;
  sr_err : string
}.

(** The body of the task [stashChanges(path)] builds. *)
Definition stashChanges (exec : Exec) (path : string) : stashResultMsg :=
  let r := exec "git" ["-C"; path; "stash"; "push"; "-m";
                       "guppi: auto-stash before branch switch"] in
  if failed r then
    {| sr_path := path; sr_success := false; sr_err := TrimSpace (output r) |}
  else {| sr_path := path; sr_success := true; sr_err := EmptyString |}.

(** The body of the task [discardChanges(path)] builds; the result of
    the reset is ignored. *)
Definition discardChanges (exec : Exec) (path : string) : stashResultMsg :=
  let _ := exec "git" ["-C"; path; "reset"; "HEAD"] in
  let r := exec "git" ["-C"; path; "checkout"; "--"; "."] in
  if failed r then
    {| sr_path := path; sr_success := false; sr_err := TrimSpace (output r) |}
  else {| sr_path := path; sr_success := true; sr_err := EmptyString |}.

(** The fields the error view needs, which the record of the detail view
    does not hold. *)
Record errorFields := {
  errorMsg : string;
  previousMode : viewMode;
  savedFilter : string
}.

Section Keys.
Variable TextInput : Type.
Variable Viewport : Type.
Variable SetContent : Viewport -> string -> Viewport.

Local Abbreviation model := (model TextInput Viewport).

(** The key switch of the action view. The three actions are "Stash
    changes", "Discard changes" and "Cancel". *)
Definition actionSelectKey (m : model) (key : string) : model * option ActionTask :=
  let actions := ["Stash changes"; "Discard changes"; "Cancel"] in
  if isKey key ["q"; "esc"] then
    (set_detailFocus _ _ paneBranches (set_mode _ _ detailView m), None)
  else if isKey key ["up"; "k"] then
    (if actionIndex _ _ m >? 0 then set_actionIndex _ _ (actionIndex _ _ m - 1) m else m,
     None)
  else if isKey key ["down"; "j"] then
    (if actionIndex _ _ m <? Z.of_nat (length actions) - 1
     then set_actionIndex _ _ (actionIndex _ _ m + 1) m else m,
     None)
  else if isKey key ["enter"] then
    match detailRepo _ _ m with
    | None => (set_mode _ _ detailView m, None)
    | Some repo =>
        if actionIndex _ _ m =? 0 then
          (set_statusMsg _ _ "Stashing changes..." m, Some (stashTask (Path repo)))
        else if actionIndex _ _ m =? 1 then
          (set_statusMsg _ _ "Discarding changes..." m, Some (discardTask (Path repo)))
        else if actionIndex _ _ m =? 2 then
          (set_detailFocus _ _ paneBranches (set_mode _ _ detailView m), None)
        else (m, None)
    end
  else (m, None).

(** The case [stashResultMsg] of [Update], which both tasks answer to;
    [filterApplied] and [filterValue] are what the list widget reports. The
    end of [Update], which follows, touches the list widget only. *)
Definition stashResultCase (filterApplied : bool) (filterValue : string)
    (m : model) (e : errorFields) (msg : stashResultMsg)
  : model * errorFields * list Cmd :=
  if sr_success msg then
    match detailRepo _ _ m with
    | Some repo =>
        if negb (bool_decide (targetBranch _ _ m = EmptyString)) then
          (set_statusMsg _ _ ("Switching to " +:+ targetBranch _ _ m +:+ "...")
             (set_mode _ _ detailView m),
           {| errorMsg := EmptyString; previousMode := previousMode e;
              savedFilter := savedFilter e |},
           [Run (switchBranch (Path repo) (targetBranch _ _ m))])
        else (m, e, [])
    | None => (m, e, [])
    end
  else
    let text := "Operation failed:" +:+ NL +:+ NL +:+ sr_err msg in
    (set_viewport _ _ (SetContent (viewport _ _ m) text) (set_mode _ _ errorView m),
     {| errorMsg := text; previousMode := mode _ _ m;
        savedFilter := if filterApplied then filterValue else savedFilter e |},
     []).

End Keys.

(** A world in which the working tree of [/src/api] is dirty. *)
Definition dirtyWorld : Exec :=
  fun name args =>
    if bool_decide (args = ["-C"; "/src/api"; "status"; "--porcelain"])
    then {| output := " M main.go"; failed := false |}
    else {| output := ""; failed := false |}.

End ActionSelect.

(* ===================================================================== *)
(** * The case [statusUpdatedMsg] and the key "A" of [Update] (types.go) *)
(* ===================================================================== *)

Module StatusCase.
Import GoStrings Types Tea Git PullRound.

(** The loop over [m.repos] with its [break]: the first repository at
    the path of the message takes its status, text, branch and count. *)
Fixpoint patchStatus (msg : statusUpdatedMsg) (rs : list Repo) : list Repo :=
  match rs with
  | [] => []
  | r :: rest =>
      if bool_decide (Path r = su_path msg) then
        {| Path := Path r; Name := Name r; Branch := su_branch msg;
           Status := su_status msg; StatusText := su_text msg;
           IsFavorite := IsFavorite r; PullResult := PullResult r;
           BehindCount := su_behindCount msg |} :: rest
      else r :: patchStatus msg rest
  end.

Section Cases.
Variable ListModel : Type.
Variable FilterStateOf : ListModel -> FilterState.
Variable FilterValue : ListModel -> string.
Variable SetFilterText : ListModel -> string -> ListModel.
Variable SelectedItem : ListModel -> option Item.
Variable listUpdate : ListModel -> Msg -> ListModel * Cmd.
Variable updateListRows : model ListModel -> ListModel.
Variable updateListFlattenedRows : model ListModel -> ListModel.

Local Abbreviation model := (model ListModel).

Definition withRepos (rs : list Repo) (m : model) : model :=
  {| listModel := listModel _ m; repos := rs; pulling := pulling _ m;
     statusMsg := statusMsg _ m; errorMsg := errorMsg _ m; mode := mode _ m;
     previousMode := previousMode _ m; savedFilter := savedFilter _ m;
     viewportContent := viewportContent _ m; groupsMap := groupsMap _ m;
     currentGroup := currentGroup _ m; showPullResults := showPullResults _ m;
     pendingPulls := pendingPulls _ m; pullResults := pullResults _ m;
     pullResultsCursor := pullResultsCursor _ m; pullExpanded := pullExpanded _ m |}.

(** The case [statusUpdatedMsg]: while a filter is being typed the rows
    are left alone. The end of [Update], which follows, touches the list
    widget only. *)
Definition statusUpdatedCase (m : model) (msg : statusUpdatedMsg) : model :=
  let m := withRepos (patchStatus msg (repos _ m)) m in
  if bool_decide (FilterStateOf (listModel _ m) = Filtering) then m
  else
    let filterText :=
      if bool_decide (FilterStateOf (listModel _ m) = FilterApplied)
      then FilterValue (listModel _ m) else EmptyString in
    let m := updateList _ updateListRows m in
    if negb (bool_decide (filterText = EmptyString))
    then withList _ (SetFilterText (listModel _ m) filterText) m
    else m.

(** The loop of the key "A" over the filtered repositories: those behind
    the remote have their head captured and their pull queued. *)
Definition captureBehind (env : GitEnv) (filtered : list Repo)
    (pending : gmap string string) (pullCmds : list Cmd)
  : gmap string string * list Cmd :=
  foldl (fun st repo =>
           if BehindCount repo >? 0 then
             (<[Path repo := getHeadCommit env (Path repo)]> st.1,
              st.2 ++ [Run (pullRepo (Path repo))])
           else st)
        (pending, pullCmds) filtered.

(** The case "A" of the list view's key switch; [filtered] is what
    [m.getFilteredRepos()] returns. *)
Definition keyPullBehind (env : GitEnv) (filtered : list Repo) (m : model)
  : model * Cmd :=
  (* Clear previous results *)
  let '(pending, pullCmds) := captureBehind env filtered ∅ [] in
  let count := Z.of_nat (length pullCmds) in
  if count >? 0 then
    (withPulls _ pending [] true
       ("Pulling " +:+ Itoa count +:+ " repos behind remote...") m,
     Batch (pullCmds ++ [spinnerTick]))
  else
    updateEnd _ FilterStateOf listUpdate updateListRows updateListFlattenedRows
      (withPulls _ pending [] (pulling _ m) "No repos behind remote to pull" m)
      (KeyMsg "A") [].

End Cases.

End StatusCase.

(* ===================================================================== *)
(** * The key "f" and the group pointers (types.go) *)
(* ===================================================================== *)

Module Favorites.
Import GoStrings Types PullRound.

(** ** Arrays, slices and pointers

    [m.groupsMap] holds pointers to the elements of [m.groups], and a
    [Group] holds the slice [Repos]: what a write through such a pointer
    changes depends on which array the pointer and the slices lead to. So
    the arrays are kept in a store, by address, and a slice is what Go has
    for it: the address of its array, a length and a capacity. Every slice
    of the modelled code starts at the first element of its array. *)

Definition addr := positive.

Record Slice := {
  sliceBase : addr;
  sliceLen : nat;
  sliceCap : nat
}.

(** A slice without room, as the literal [[]string{}] gives: its address
    is never read. *)
Definition emptySlice : Slice := {| sliceBase := 1%positive; sliceLen := 0; sliceCap := 0 |}.

Section Arrays.
Context {A : Type}.

(** The zero value of the element type, which fills the room [make] and
    [append] allocate beyond the length. *)
Variable zero : A.

(** The capacity the run time chooses when [append] has to move a slice
    of the given capacity to hold the given number of elements; the new
    array has room for these in any case. *)
Variable growCap : nat -> nat -> nat.

Definition arrayAt (arrays : gmap addr (list A)) (a : addr) : list A :=
  default [] (arrays !! a).

(** The elements of a slice, as a [range] loop reads them. *)
Definition elems (arrays : gmap addr (list A)) (s : Slice) : list A :=
  take (sliceLen s) (arrayAt arrays (sliceBase s)).

(** [s[i]] for an index below the length. *)
Definition index (arrays : gmap addr (list A)) (s : Slice) (i : nat) : A :=
  default zero (arrayAt arrays (sliceBase s) !! i).

(** [make([]T, 0, n)]: a new array of [n] zero values. *)
Definition make (arrays : gmap addr (list A)) (n : nat) : gmap addr (list A) * Slice :=
  let a := fresh (dom arrays) in
  (<[a := replicate n zero]> arrays,
   {| sliceBase := a; sliceLen := 0; sliceCap := n |}).

(** [append(s, x)]: with room left the element is written into the array
    of [s], past its length; without, the elements move to a new array. *)
Definition append (arrays : gmap addr (list A)) (s : Slice) (x : A)
  : gmap addr (list A) * Slice :=
  if (sliceLen s <? sliceCap s)%nat then
    (<[sliceBase s := <[sliceLen s := x]> (arrayAt arrays (sliceBase s))]> arrays,
     {| sliceBase := sliceBase s; sliceLen := S (sliceLen s); sliceCap := sliceCap s |})
  else
    let a := fresh (dom arrays) in
    let c := Nat.max (S (sliceLen s)) (growCap (sliceCap s) (S (sliceLen s))) in
    (<[a := elems arrays s ++ x :: replicate (c - S (sliceLen s)) zero]> arrays,
     {| sliceBase := a; sliceLen := S (sliceLen s); sliceCap := c |}).

(** What Go keeps true of every slice: the length is within the capacity
    and the capacity within the array. *)
Definition wfSlice (arrays : gmap addr (list A)) (s : Slice) : Prop :=
  (sliceLen s <= sliceCap s)%nat
  /\ (sliceCap s <= length (arrayAt arrays (sliceBase s)))%nat.

End Arrays.

(** A [Group] as it lies in an array: [Repos] is a slice. *)
Record GroupCell := {
  cellName : string;
  cellRepos : Slice;
  cellIsBuiltIn : bool
}.

Definition zeroCell : GroupCell :=
  {| cellName := ""; cellRepos := emptySlice; cellIsBuiltIn := false |}.

(** [*Group]: the address of an array of groups and an index into it. *)
Record GroupPtr := {
  ptrArray : addr;
  ptrIndex : nat
}.

Global Instance GroupPtr_eq_dec : EqDecision GroupPtr.
Proof. solve_decision. Defined.

Record Store := {
  groupArrays : gmap addr (list GroupCell);
  pathArrays : gmap addr (list string)
}.

(** [*p]. A pointer of Go always leads to an element of a live array;
    [None] is a pointer that leads nowhere in the store, which no state of
    the program has. *)
Definition deref (st : Store) (p : GroupPtr) : option GroupCell :=
  groupArrays st !! ptrArray p ≫= fun cells => cells !! ptrIndex p.

(** [p.Repos = s] and [p.Name = name]. *)
Definition setRepos (s : Slice) (c : GroupCell) : GroupCell :=
  {| cellName := cellName c; cellRepos := s; cellIsBuiltIn := cellIsBuiltIn c |}.

Definition setName (name : string) (c : GroupCell) : GroupCell :=
  {| cellName := name; cellRepos := cellRepos c; cellIsBuiltIn := cellIsBuiltIn c |}.

Definition storeAt (f : GroupCell -> GroupCell) (p : GroupPtr)
    (cells : gmap addr (list GroupCell)) : gmap addr (list GroupCell) :=
  alter (alter f (ptrIndex p)) (ptrArray p) cells.

(** The value of a group: its paths read from the array of [Repos]. *)
Definition groupOf (st : Store) (c : GroupCell) : Group :=
  {| GroupName := cellName c; GroupRepos := elems (pathArrays st) (cellRepos c);
     IsBuiltIn := cellIsBuiltIn c |}.

(** [buildGroupsMap]: a pointer to each element of the slice, a later
    element of the same name taking the place of an earlier one. *)
Definition buildGroupsMap (st : Store) (groups : Slice) : gmap string GroupPtr :=
  foldl (fun m i =>
           <[cellName (index zeroCell (groupArrays st) groups i)
               := {| ptrArray := sliceBase groups; ptrIndex := i |}]> m)
        ∅ (seq 0 (sliceLen groups)).

(** What [saveGroups] writes: the groups that are not built in. *)
Definition saveGroups (groups : list Group) : list Group :=
  List.filter (fun g => negb (IsBuiltIn g)) groups.

Section Key.
Variable ListModel : Type.
Variable FilterStateOf : ListModel -> FilterState.
Variable SelectedItem : ListModel -> option Item.

(** The text input of the group name, with [Value] and [SetValue]. *)
Variable TextInput : Type.
Variable InputValue : TextInput -> string.
Variable SetValue : TextInput -> string -> TextInput.

(** The capacities the run time chooses for arrays of groups and of paths. *)
Variable growGroups : nat -> nat -> nat.
Variable growPaths : nat -> nat -> nat.

(** The fields of [model] the two keys read or write. *)
Record model := {
  listModel : ListModel;
  repos : list Repo;
  favorites : gmap string bool;
  groups : Slice;
  groupsMap : gmap string GroupPtr;
  currentGroup : option GroupPtr;
  mode : viewMode;
  groupInput : TextInput;
  groupAction : string;
  statusMsg : string
}.

(** [m.updateList()]: the rows are made from the model and from what its
    slices and pointers lead to. *)
Variable updateListRows : Store -> model -> ListModel.

(** [m.groups] as a [range] loop over it sees it. *)
Definition groupsOf (st : Store) (m : model) : list Group :=
  groupOf st <$> elems (groupArrays st) (groups m).

(** [m.favorites[path]]: a path the map does not hold reads [false]. *)
Definition isFavorite (favorites : gmap string bool) (path : string) : bool :=
  default false (favorites !! path).

(** The loop that copies the map into the marks of the repositories. *)
Definition markFavorites (favorites : gmap string bool) (rs : list Repo) : list Repo :=
  (fun r => {| Path := Path r; Name := Name r; Branch := Branch r; Status := Status r;
               StatusText := StatusText r; IsFavorite := isFavorite favorites (Path r);
               PullResult := PullResult r; BehindCount := BehindCount r |}) <$> rs.

(** The loop over [favGroup.Repos] that appends to [newRepos] every path
    but the one given: the [i]-th round reads the [i]-th element of the
    slice the loop started with. *)
Definition removeLoop (path : string) (favRepos : Slice)
    (start : gmap addr (list string) * Slice) : gmap addr (list string) * Slice :=
  foldl (fun '(arrays, newRepos) i =>
           let p := index "" arrays favRepos i in
           if negb (bool_decide (p = path))
           then append "" growPaths arrays newRepos p
           else (arrays, newRepos))
        start (seq 0 (sliceLen favRepos)).

(** The paths of a list other than the one given, in their order: what
    the loop leaves in [newRepos]. *)
Fixpoint withoutPath (path : string) (paths : list string) : list string :=
  match paths with
  | [] => []
  | p :: rest =>
      if negb (bool_decide (p = path)) then p :: withoutPath path rest
      else withoutPath path rest
  end.

(** The case "f" of the list view; the last component is what
    [saveFavorites] is given, [None] when it is not called. The group of
    the favourites is read and written through the pointer [groupsMap]
    holds for it. The end of [Update], which follows, touches the list
    widget only. *)
Definition keyFavorite (st : Store) (m : model)
  : option (Store * model * option (gmap string bool)) :=
  match SelectedItem (listModel m) with
  | Some (RepoItem item) =>
      let favorites :=
        <[Path item := negb (isFavorite (favorites m) (Path item))]> (favorites m) in
      let repos := markFavorites favorites (repos m) in
      st1 ← match groupsMap m !! "Favorites" with
            | Some favGroup =>
                cell ← deref st favGroup;
                let '(paths, newRepos) :=
                  if isFavorite favorites (Path item)
                  then append "" growPaths (pathArrays st) (cellRepos cell) (Path item)
                  else removeLoop (Path item) (cellRepos cell)
                         (make "" (pathArrays st) (sliceLen (cellRepos cell))) in
                Some {| groupArrays := storeAt (setRepos newRepos) favGroup (groupArrays st);
                        pathArrays := paths |}
            | None => Some st
            end;
      let m1 := {| listModel := listModel m; repos := repos; favorites := favorites;
                   groups := groups m; groupsMap := groupsMap m;
                   currentGroup := currentGroup m; mode := mode m;
                   groupInput := groupInput m; groupAction := groupAction m;
                   statusMsg := statusMsg m |} in
      let l :=
        if negb (bool_decide (FilterStateOf (listModel m) = Filtering))
           && negb (bool_decide (FilterStateOf (listModel m) = FilterApplied))
        then updateListRows st1 m1 else listModel m in
      Some (st1,
            {| listModel := l; repos := repos; favorites := favorites;
               groups := groups m; groupsMap := groupsMap m;
               currentGroup := currentGroup m; mode := mode m;
               groupInput := groupInput m; groupAction := groupAction m;
               statusMsg :=
                 if isFavorite favorites (Path item)
                 then "Added to favorites: " +:+ Name item
                 else "Removed from favorites: " +:+ Name item |},
            Some favorites)
  | _ => Some (st, m, None)
  end.

Definition withStatus (text : string) (m : model) : model :=
  {| listModel := listModel m; repos := repos m; favorites := favorites m;
     groups := groups m; groupsMap := groupsMap m; currentGroup := currentGroup m;
     mode := mode m; groupInput := groupInput m; groupAction := groupAction m;
     statusMsg := text |}.

(** The end of the case "enter" of the group input view: back to the
    list, the input cleared, the rows made anew. *)
Definition backToList (st : Store) (m : model) : model :=
  let m1 := {| listModel := listModel m; repos := repos m; favorites := favorites m;
               groups := groups m; groupsMap := groupsMap m;
               currentGroup := currentGroup m; mode := listView;
               groupInput := SetValue (groupInput m) ""; groupAction := groupAction m;
               statusMsg := statusMsg m |} in
  {| listModel := updateListRows st m1; repos := repos m1; favorites := favorites m1;
     groups := groups m1; groupsMap := groupsMap m1; currentGroup := currentGroup m1;
     mode := mode m1; groupInput := groupInput m1; groupAction := groupAction m1;
     statusMsg := statusMsg m1 |}.

(** The case "enter" of the group input view, which makes a group or
    gives the current one a new name. It returns no command; the last
    component is what [saveGroups] writes, [None] when it is not called.
    The new group is appended to [m.groups] and [groupsMap] gets a pointer
    to it; the pointers the map holds already are left as they are. *)
Definition groupInputEnter (st : Store) (m : model)
  : option (Store * model * option (list Group)) :=
  let name := TrimSpace (InputValue (groupInput m)) in
  if bool_decide (name = "") then
    Some (st, withStatus "Group name cannot be empty" m, None)
  else if bool_decide (groupAction m = "new") then
    match groupsMap m !! name with
    | Some _ => Some (st, withStatus ("Group already exists: " +:+ name) m, None)
    | None =>
        let newGroup :=
          {| cellName := name; cellRepos := emptySlice; cellIsBuiltIn := false |} in
        let '(cells, groups') :=
          append zeroCell growGroups (groupArrays st) (groups m) newGroup in
        let st1 := {| groupArrays := cells; pathArrays := pathArrays st |} in
        let m1 :=
          {| listModel := listModel m; repos := repos m; favorites := favorites m;
             groups := groups';
             groupsMap :=
               <[name := {| ptrArray := sliceBase groups';
                            ptrIndex := sliceLen groups' - 1 |}]> (groupsMap m);
             currentGroup := currentGroup m; mode := mode m;
             groupInput := groupInput m; groupAction := groupAction m;
             statusMsg := "Created group: " +:+ name |} in
        Some (st1, backToList st1 m1, Some (saveGroups (groupsOf st1 m1)))
    end
  else
    match bool_decide (groupAction m = "rename"), currentGroup m with
    | true, Some current =>
        cell ← deref st current;
        let oldName := cellName cell in
        if negb (bool_decide (name = oldName)) then
          match groupsMap m !! name with
          | Some _ => Some (st, withStatus ("Group already exists: " +:+ name) m, None)
          | None =>
              let st1 := {| groupArrays := storeAt (setName name) current (groupArrays st);
                            pathArrays := pathArrays st |} in
              let m1 :=
                {| listModel := listModel m; repos := repos m; favorites := favorites m;
                   groups := groups m;
                   groupsMap := <[name := current]> (delete oldName (groupsMap m));
                   currentGroup := currentGroup m; mode := mode m;
                   groupInput := groupInput m; groupAction := groupAction m;
                   statusMsg := "Renamed group to: " +:+ name |} in
              Some (st1, backToList st1 m1, Some (saveGroups (groupsOf st1 m1)))
          end
        else Some (st, backToList st m, None)
    | _, _ => Some (st, backToList st m, None)
    end.

(** No other group of [m.groups] reaches, in the array of the slice
    [favRepos], past the end of that slice: an [append] to [favRepos]
    writes where none of them reads. *)
Definition reposApart (st : Store) (m : model) (favRepos : Slice) : Prop :=
  forall c, c ∈ elems (groupArrays st) (groups m) ->
    wfSlice (pathArrays st) (cellRepos c)
    /\ (sliceBase (cellRepos c) = sliceBase favRepos ->
        (sliceLen (cellRepos c) <= sliceLen favRepos)%nat).

(** The pointer leads to an element of [m.groups]. *)
Definition pointsInto (m : model) (p : GroupPtr) : Prop :=
  ptrArray p = sliceBase (groups m) /\ (ptrIndex p < sliceLen (groups m))%nat.

End Key.

(** ** A sample: the program as it starts with one favourite and no
    group of the user's, the row of [/src/web] selected *)

Definition sampleGrow (old needed : nat) : nat := Nat.max needed (2 * old).

Definition sampleStore : Store :=
  {| groupArrays :=
       {[ 1%positive := [ {| cellName := "Favorites";
                             cellRepos := {| sliceBase := 1%positive; sliceLen := 1;
                                             sliceCap := 1 |};
                             cellIsBuiltIn := true |} ] ]};
     pathArrays := {[ 1%positive := ["/src/api"] ]} |}.

Definition sampleModel : model (option Item) string :=
  {| listModel := Some (RepoItem (sampleRepo "web" false));
     repos := [sampleRepo "api" true; sampleRepo "web" false];
     favorites := {[ "/src/api" := true ]};
     groups := {| sliceBase := 1%positive; sliceLen := 1; sliceCap := 1 |};
     groupsMap :=
       buildGroupsMap sampleStore {| sliceBase := 1%positive; sliceLen := 1; sliceCap := 1 |};
     currentGroup := None; mode := listView; groupInput := ""; groupAction := "";
     statusMsg := "" |}.

Definition sampleKeyFavorite (st : Store) (m : model (option Item) string)
  : option (Store * model (option Item) string * option (gmap string bool)) :=
  keyFavorite (option Item) (fun _ => Unfiltered) (fun l => l) string sampleGrow
              (fun _ m => listModel _ _ m) st m.

(** The cursor of the list moves to the row of a repository. *)
Definition sampleSelect (r : Repo) (m : model (option Item) string)
  : model (option Item) string :=
  {| listModel := Some (RepoItem r); repos := repos _ _ m; favorites := favorites _ _ m;
     groups := groups _ _ m; groupsMap := groupsMap _ _ m;
     currentGroup := currentGroup _ _ m; mode := mode _ _ m;
     groupInput := groupInput _ _ m; groupAction := groupAction _ _ m;
     statusMsg := statusMsg _ _ m |}.

(** The user asks for a new group and types its name. *)
Definition sampleNaming (name : string) (m : model (option Item) string)
  : model (option Item) string :=
  {| listModel := listModel _ _ m; repos := repos _ _ m; favorites := favorites _ _ m;
     groups := groups _ _ m; groupsMap := groupsMap _ _ m;
     currentGroup := currentGroup _ _ m; mode := groupInputView;
     groupInput := name; groupAction := "new"; statusMsg := statusMsg _ _ m |}.

Definition sampleGroupInputEnter (st : Store) (m : model (option Item) string)
  : option (Store * model (option Item) string * option (list Group)) :=
  groupInputEnter (option Item) string (fun input => input) (fun _ text => text)
                  sampleGrow (fun _ m => listModel _ _ m) st m.

End Favorites.
(* ===================================================================== *)
(** * Properties of the result tree cursor *)
(* ===================================================================== *)

Module CursorFacts.
Import Cursor.

Lemma GoDeeper_moves (c : PullResultsCursor) :
  (GoDeeper c).2 = true <-> Level c < 2.
Proof.
  unfold GoDeeper.
  destruct (Z.ltb_spec (Level c) 2) as [Hlt | Hge].
  - split; [intros _; exact Hlt | intros _].
    destruct (Level c + 1 =? 1); [reflexivity |].
    destruct (Level c + 1 =? 2); reflexivity.
  - split; [discriminate | lia].
Qed.

Lemma GoUp_moves (c : PullResultsCursor) :
  (GoUp c).2 = true <-> 0 < Level c.
Proof.
  unfold GoUp. destruct (Z.gtb_spec (Level c) 0); simpl; split; try lia; try discriminate; auto.
Qed.

(** Descending from the repository level forgets the commit index, and
    from the commit level the file index. *)
Lemma descendAscend_repo (c : PullResultsCursor) :
  Level c = 0 ->
  descendAscend c =
    {| Level := 0; RepoIdx := RepoIdx c; CommitIdx := 0; FileIdx := FileIdx c |}.
Proof.
  intros H. unfold descendAscend, GoDeeper, GoUp. rewrite H. reflexivity.
Qed.

Lemma descendAscend_commit (c : PullResultsCursor) :
  Level c = 1 ->
  descendAscend c =
    {| Level := 1; RepoIdx := RepoIdx c; CommitIdx := CommitIdx c; FileIdx := 0 |}.
Proof.
  intros H. unfold descendAscend, GoDeeper, GoUp. rewrite H. reflexivity.
Qed.

(** At the file level there is no descent, and the ascent that follows
    leaves the cursor on the commit. *)
Lemma descendAscend_file (c : PullResultsCursor) :
  Level c = 2 ->
  (GoDeeper c).2 = false /\ Level (descendAscend c) = 1.
Proof.
  intros H. unfold descendAscend, GoDeeper, GoUp. rewrite H. simpl. rewrite H. auto.
Qed.

(** C5, as stated, fails: a cursor back on the repository level with the
    third commit remembered comes out of descend-then-ascend with commit
    index 0. *)
Lemma descend_ascend_forgets_child_index :
  descendAscend {| Level := 0; RepoIdx := 2; CommitIdx := 3; FileIdx := 1 |}
    = {| Level := 0; RepoIdx := 2; CommitIdx := 0; FileIdx := 1 |}
  /\ descendAscend {| Level := 0; RepoIdx := 2; CommitIdx := 3; FileIdx := 1 |}
    <> {| Level := 0; RepoIdx := 2; CommitIdx := 3; FileIdx := 1 |}.
Proof. split; [reflexivity | discriminate]. Qed.

(** C5, amended: from the repository level or the commit level, descend
    moves, the ascend that follows it moves, and together they restore the
    level, the repository index and the index of the level left; the
    index of the level entered is reset to 0 (the commit index from the
    repository level, the file index from the commit level) and the
    remaining index is untouched. The cursor is restored exactly when the
    index of the level entered was 0 already. *)
Theorem descend_ascend_restores_but_child (c : PullResultsCursor) :
  0 <= Level c < 2 ->
  (GoDeeper c).2 = true
  /\ (GoUp (GoDeeper c).1).2 = true
  /\ Level (descendAscend c) = Level c
  /\ RepoIdx (descendAscend c) = RepoIdx c
  /\ (Level c = 0 ->
       CommitIdx (descendAscend c) = 0 /\ FileIdx (descendAscend c) = FileIdx c)
  /\ (Level c = 1 ->
       CommitIdx (descendAscend c) = CommitIdx c /\ FileIdx (descendAscend c) = 0)
  /\ (descendAscend c = c <->
       (if Level c =? 0 then CommitIdx c else FileIdx c) = 0).
Proof.
  intros Hlevel.
  destruct c as [l r ci fi]; simpl in *.
  assert (l = 0 \/ l = 1) as [-> | ->] by lia.
  - unfold descendAscend, GoDeeper, GoUp; simpl.
    repeat split; try reflexivity; try (intros; lia).
    + intros [= <-]. reflexivity.
    + intros ->. reflexivity.
  - unfold descendAscend, GoDeeper, GoUp; simpl.
    repeat split; try reflexivity; try (intros; lia).
    + intros [= <-]. reflexivity.
    + intros ->. reflexivity.
Qed.

Lemma descend_ascend_restores_but_child_witness :
  0 <= Level {| Level := 1; RepoIdx := 2; CommitIdx := 3; FileIdx := 4 |} < 2
  /\ descendAscend {| Level := 1; RepoIdx := 2; CommitIdx := 3; FileIdx := 4 |}
     <> {| Level := 1; RepoIdx := 2; CommitIdx := 3; FileIdx := 4 |}.
Proof.
  assert (0 <= Level {| Level := 1; RepoIdx := 2; CommitIdx := 3; FileIdx := 4 |} < 2)
    as Hlevel by (simpl; lia).
  split; [exact Hlevel |].
  destruct (descend_ascend_restores_but_child _ Hlevel) as (_ & _ & _ & _ & _ & _ & Hiff).
  intros Heq. apply Hiff in Heq. simpl in Heq. discriminate Heq.
Defined.

End CursorFacts.

(* ===================================================================== *)
(** * Properties of the Go string functions *)
(* ===================================================================== *)

Module GoStringsFacts.
Import GoStrings.

Lemma hasByte_nonempty p s : hasByte p s = true -> s <> EmptyString.
Proof. destruct s; [discriminate | intros _; discriminate]. Qed.

Lemma hasByte_rev_app p s t :
  hasByte p (String.rev_app s t) = hasByte p s || hasByte p t.
Proof.
  revert t. induction s as [| c s IH]; intros t; simpl; [reflexivity |].
  rewrite IH. simpl. destruct (p c), (hasByte p s), (hasByte p t); reflexivity.
Qed.

Lemma hasByte_rev p s : hasByte p (String.rev s) = hasByte p s.
Proof. unfold String.rev. rewrite hasByte_rev_app. simpl. apply orb_false_r. Qed.

Section NotSpace.
(** [p] holds for ASCII bytes that are not white space only; the bar of
    a diff-stat line is such a byte. *)
Variable p : ascii -> bool.
Hypothesis p_ascii : forall c, p c = true -> (byte c < 128)%N.
Hypothesis p_not_space : forall c, p c = true -> asciiSpace c = false.

Lemma space2_not_p a b :
  space2 a b = true -> p a = false /\ p b = false.
Proof.
  unfold space2. intros H.
  apply andb_true_iff in H as [Ha Hb]. apply N.eqb_eq in Ha.
  apply orb_true_iff in Hb.
  split.
  - destruct (p a) eqn:E; [apply p_ascii in E; lia | reflexivity].
  - destruct (p b) eqn:E; [apply p_ascii in E | reflexivity].
    destruct Hb as [Hb | Hb]; apply N.eqb_eq in Hb; lia.
Qed.

Lemma space3_not_p a b c :
  space3 a b c = true -> p a = false /\ p b = false /\ p c = false.
Proof.
  unfold space3. intros H.
  assert ((128 <= byte a)%N /\ (128 <= byte b)%N /\ (128 <= byte c)%N) as (Ha & Hb & Hc).
  { repeat (apply orb_true_iff in H as [H | H]);
      repeat (apply andb_true_iff in H as [H ?]);
      repeat match goal with
             | E : (_ =? _)%N = true |- _ => apply N.eqb_eq in E
             | E : (_ <=? _)%N = true |- _ => apply N.leb_le in E
             | E : (_ || _) = true |- _ => apply orb_true_iff in E as [E | E]
             | E : (_ && _) = true |- _ => apply andb_true_iff in E as [E ?]
             end; lia. }
  repeat split.
  - destruct (p a) eqn:E; [apply p_ascii in E; lia | reflexivity].
  - destruct (p b) eqn:E; [apply p_ascii in E; lia | reflexivity].
  - destruct (p c) eqn:E; [apply p_ascii in E; lia | reflexivity].
Qed.

Lemma asciiSpace_not_p a : asciiSpace a = true -> p a = false.
Proof.
  intros H. destruct (p a) eqn:E; [| reflexivity].
  apply p_not_space in E. congruence.
Qed.

(** Trimming removes white space only: a byte that is none survives. *)
Lemma TrimLeftSpace_keeps_len n :
  forall s, (String.length s <= n)%nat ->
            hasByte p (TrimLeftSpace s) = hasByte p s.
Proof.
  induction n as [| n IH]; intros s Hlen.
  - destruct s; [reflexivity | simpl in Hlen; lia].
  - destruct s as [| a r]; [reflexivity |].
    simpl in Hlen. cbn [TrimLeftSpace].
    destruct (asciiSpace a) eqn:Ea.
    { rewrite IH by lia. simpl. rewrite (asciiSpace_not_p a Ea). reflexivity. }
    destruct r as [| b r']; [reflexivity |].
    simpl in Hlen.
    destruct (space2 a b) eqn:Eab.
    { rewrite IH by lia. simpl.
      destruct (space2_not_p a b Eab) as [-> ->]. reflexivity. }
    destruct r' as [| c r'']; [reflexivity |].
    simpl in Hlen.
    destruct (space3 a b c) eqn:Eabc; [| reflexivity].
    rewrite IH by lia. simpl.
    destruct (space3_not_p a b c Eabc) as (-> & -> & ->). reflexivity.
Qed.

Lemma TrimLeftSpaceRev_keeps_len n :
  forall s, (String.length s <= n)%nat ->
            hasByte p (TrimLeftSpaceRev s) = hasByte p s.
Proof.
  induction n as [| n IH]; intros s Hlen.
  - destruct s; [reflexivity | simpl in Hlen; lia].
  - destruct s as [| c r]; [reflexivity |].
    simpl in Hlen. cbn [TrimLeftSpaceRev].
    destruct (asciiSpace c) eqn:Ec.
    { rewrite IH by lia. simpl. rewrite (asciiSpace_not_p c Ec). reflexivity. }
    destruct r as [| b r']; [reflexivity |].
    simpl in Hlen.
    destruct (space2 b c) eqn:Ebc.
    { rewrite IH by lia. simpl.
      destruct (space2_not_p b c Ebc) as [-> ->]. reflexivity. }
    destruct r' as [| a r'']; [reflexivity |].
    simpl in Hlen.
    destruct (space3 a b c) eqn:Eabc; [| reflexivity].
    rewrite IH by lia. simpl.
    destruct (space3_not_p a b c Eabc) as (-> & -> & ->). reflexivity.
Qed.

Lemma TrimSpace_keeps s : hasByte p (TrimSpace s) = hasByte p s.
Proof.
  unfold TrimSpace, TrimRightSpace.
  rewrite hasByte_rev.
  rewrite (TrimLeftSpaceRev_keeps_len _ _ (Nat.le_refl _)).
  rewrite hasByte_rev.
  apply (TrimLeftSpace_keeps_len _ _ (Nat.le_refl _)).
Qed.

End NotSpace.

(** ** [strconv.Atoi] on runs of digits *)

Lemma digitOf_range c d : digitOf c = Some d -> 0 <= d <= 9.
Proof.
  unfold digitOf. destruct (_ && _)%N eqn:E; [| discriminate].
  intros [= <-]. apply andb_true_iff in E as [H1 H2].
  apply N.leb_le in H1, H2. lia.
Qed.

Lemma digitOf_not_sign c d :
  digitOf c = Some d -> c <> "-"%char /\ c <> "+"%char.
Proof.
  intros H. split; intros ->; vm_compute in H; discriminate.
Qed.

Lemma digitsFrom_ge acc s n : 0 <= acc -> digitsFrom acc s = Some n -> acc <= n.
Proof.
  revert acc. induction s as [| c s IH]; intros acc Hacc; simpl.
  - intros [= <-]. lia.
  - destruct (digitOf c) as [d |] eqn:Ed; [| discriminate].
    apply digitOf_range in Ed. intros H. apply IH in H; lia.
Qed.

Lemma parseDigits_nonneg s n : parseDigits s = Some n -> 0 <= n.
Proof.
  destruct s; [discriminate |]. unfold parseDigits.
  intros H. apply digitsFrom_ge in H; lia.
Qed.

(** On an unsigned numeral [Atoi] returns its value when it fits the
    machine integer, and fails otherwise. *)
Lemma Atoi_digits s n :
  parseDigits s = Some n ->
  Atoi s = if n <=? maxInt then Some n else None.
Proof.
  intros H. pose proof (parseDigits_nonneg s n H) as Hn.
  destruct s as [| c r]; [discriminate |].
  unfold Atoi.
  assert (exists d, digitOf c = Some d) as [d Hd].
  { simpl in H. destruct (digitOf c); [eauto | discriminate]. }
  destruct (digitOf_not_sign c d Hd) as [Hm Hp].
  destruct (ascii_dec c "-") as [-> | _]; [congruence |].
  destruct (ascii_dec c "+") as [-> | _]; [congruence |].
  rewrite H.
  assert ((minInt <=? n) = true) as -> by (apply Z.leb_le; unfold minInt; lia).
  reflexivity.
Qed.

End GoStringsFacts.

(* ===================================================================== *)
(** * Properties of the diff-stat parser *)
(* ===================================================================== *)

Module GitStatFacts.
Import GoStrings GoStringsFacts GitStat.

(** C3, as stated, fails: the line carries five plus signs and five minus
    signs, and the parser does not report six and six. *)
Lemma scenario_line_is_not_six_six :
  parseGitStatOutput " src/app.go | 12 +++++-----"
    <> [ {| Path := "src/app.go"; Additions := 6; Deletions := 6 |} ].
Proof. vm_compute. discriminate. Qed.

(** C3, amended: the line [" src/app.go | 12 +++++-----"] parses to one
    [FileChange] with path ["src/app.go"], additions = 5 and deletions = 5,
    the numbers of plus and minus signs on the line; the numeric count 12
    is not used when signs are present. *)
Theorem scenario_line_counts_marks :
  parseGitStatOutput " src/app.go | 12 +++++-----"
    = [ {| Path := "src/app.go"; Additions := 5; Deletions := 5 |} ]
  /\ FindStringSubmatch " src/app.go | 12 +++++-----"
    = Some {| m1 := "src/app.go"; m2 := "12"; m3 := "+++++"; m4 := "-----" |}.
Proof. split; vm_compute; reflexivity. Qed.

(** ** The matcher on sample lines *)

(** The lazy group stops at the first bar; the leading white space goes to
    the group only when the line would not match otherwise; a line without
    a bar does not match. *)
Example matcher_samples :
  FindStringSubmatch " README.md | 3 ++-"
    = Some {| m1 := "README.md"; m2 := "3"; m3 := "++"; m4 := "-" |}
  /\ FindStringSubmatch " a | b | 3 +"
    = Some {| m1 := "a"; m2 := ""; m3 := ""; m4 := "" |}
  /\ FindStringSubmatch " a b  |  10 +++++-----  trailing"
    = Some {| m1 := "a b"; m2 := "10"; m3 := "+++++"; m4 := "-----" |}
  /\ FindStringSubmatch "  | 5 ++"
    = Some {| m1 := " "; m2 := "5"; m3 := "++"; m4 := "" |}
  /\ FindStringSubmatch "||" = Some {| m1 := "|"; m2 := ""; m3 := ""; m4 := "" |}
  /\ FindStringSubmatch "|" = None
  /\ FindStringSubmatch " 2 files changed, 5 insertions(+)" = None.
Proof. vm_compute. repeat split. Qed.

Example parse_sample_output :
  parseGitStatOutput
    (" a.go | 2 +-" +:+ String LF
       (" b.go | 4 ++++" +:+ String LF
          (" 2 files changed, 5 insertions(+), 1 deletion(-)" +:+ String LF "")))
  = [ {| Path := "a.go"; Additions := 1; Deletions := 1 |};
      {| Path := "b.go"; Additions := 4; Deletions := 0 |} ].
Proof. vm_compute. reflexivity. Qed.

(** ** The matcher on the lines [countLine] describes *)

Lemma append_cons c (s t : string) : String c s +:+ t = String c (s +:+ t).
Proof. reflexivity. Qed.

Lemma append_nil (t : string) : EmptyString +:+ t = t.
Proof. reflexivity. Qed.

Lemma append_nil_r (s : string) : s +:+ EmptyString = s.
Proof. induction s as [| c s IH]; [reflexivity |]. rewrite append_cons, IH. reflexivity. Qed.

Lemma append_assoc (s t u : string) : (s +:+ t) +:+ u = s +:+ (t +:+ u).
Proof.
  induction s as [| c s IH]; [reflexivity |]. rewrite !append_cons, IH. reflexivity.
Qed.

Lemma rev_app_append (s t : string) :
  String.rev_app s t = String.rev s +:+ t.
Proof.
  unfold String.rev. revert t. induction s as [| c s IH]; intros t; simpl.
  - reflexivity.
  - rewrite IH. rewrite (IH (String c EmptyString)).
    rewrite append_assoc. reflexivity.
Qed.

Lemma rev_cons c (s : string) :
  String.rev (String c s) = String.rev s +:+ String c EmptyString.
Proof. unfold String.rev at 1. simpl. apply rev_app_append. Qed.

(** A run of bytes for which [p] holds, followed by a byte for which it
    does not or by nothing, is what [spanOf p] splits off. *)
Lemma spanOf_run p (a b : string) :
  allBytes p a = true ->
  match b with String c _ => p c = false | EmptyString => True end ->
  spanOf p (a +:+ b) = (a, b).
Proof.
  intros Ha Hb. induction a as [| c a IH].
  - rewrite append_nil. destruct b as [| c b]; [reflexivity |].
    simpl. rewrite Hb. reflexivity.
  - simpl in Ha. apply andb_true_iff in Ha as [Hc Ha].
    rewrite append_cons. simpl. rewrite Hc, (IH Ha). reflexivity.
Qed.

Lemma barAhead_pad pad after :
  allBytes reSpace pad = true -> barAhead (pad +:+ String "|" after) = Some after.
Proof.
  intros Hpad. unfold barAhead. rewrite (spanOf_run reSpace pad _ Hpad) by reflexivity.
  reflexivity.
Qed.

(** No bar is ahead while bytes of the name remain. *)
Lemma barAhead_name name rest :
  hasByte isBar name = false ->
  lastByteIs (fun c => negb (reSpace c)) name = true ->
  barAhead (name +:+ rest) = None.
Proof.
  induction name as [| c name IH]; [discriminate |].
  intros Hbar Hlast. simpl in Hbar. apply orb_false_iff in Hbar as [Hc Hbar].
  rewrite append_cons. unfold barAhead. simpl.
  destruct (reSpace c) eqn:Hsp.
  - destruct name as [| d name'].
    { simpl in Hlast. rewrite Hsp in Hlast. discriminate. }
    specialize (IH Hbar Hlast). unfold barAhead in IH.
    destruct (spanOf reSpace (String d name' +:+ rest)) as [a b]. exact IH.
  - simpl. rewrite Hc. reflexivity.
Qed.

Lemma lazyPath_unfold acc s :
  lazyPath acc s
  = match barAhead s with
    | Some r => Some (String.rev acc, r)
    | None =>
        match s with
        | String c s' => if reDot c then lazyPath (String c acc) s' else None
        | EmptyString => None
        end
    end.
Proof. destruct s; reflexivity. Qed.

Lemma lazyPath_name name : forall acc pad after,
  hasByte isBar name = false ->
  allBytes reDot name = true ->
  (name = EmptyString \/ lastByteIs (fun c => negb (reSpace c)) name = true) ->
  allBytes reSpace pad = true ->
  lazyPath acc (name +:+ pad +:+ String "|" after)
  = Some (String.rev acc +:+ name, after).
Proof.
  induction name as [| c name IH]; intros acc pad after Hbar Hdot Hlast Hpad.
  - rewrite append_nil, append_nil_r, lazyPath_unfold.
    rewrite (barAhead_pad pad after Hpad). reflexivity.
  - destruct Hlast as [Hlast | Hlast]; [discriminate |].
    rewrite lazyPath_unfold.
    rewrite (barAhead_name (String c name) _ Hbar Hlast).
    simpl in Hbar, Hdot.
    apply orb_false_iff in Hbar as [_ Hbar]. apply andb_true_iff in Hdot as [Hc Hdot].
    rewrite append_cons, Hc.
    rewrite IH; try assumption.
    + rewrite rev_cons, append_assoc. reflexivity.
    + destruct name as [| d name']; [left; reflexivity | right; exact Hlast].
Qed.

Lemma statPrefix_lead lead rest res :
  allBytes reSpace lead = true ->
  match rest with String c _ => reSpace c = false | EmptyString => False end ->
  pathFrom rest = Some res ->
  statPrefix (lead +:+ rest) = Some res.
Proof.
  intros Hlead Hrest Hpath. induction lead as [| c lead IH].
  - rewrite append_nil. destruct rest as [| c rest']; [contradiction |].
    cbn [statPrefix]. rewrite Hrest. exact Hpath.
  - simpl in Hlead. apply andb_true_iff in Hlead as [Hc Hlead].
    rewrite append_cons. cbn [statPrefix]. rewrite Hc, (IH Hlead). reflexivity.
Qed.

(** On a line made of a plain name, the bar and a run of digits, the groups
    are the name, the digits, and no signs. *)
Lemma FindStringSubmatch_countLine lead name pad1 pad2 digits :
  allBytes reSpace lead = true ->
  plainName name ->
  allBytes reSpace pad1 = true ->
  allBytes reSpace pad2 = true ->
  allBytes isDigit digits = true ->
  digits <> EmptyString ->
  FindStringSubmatch (countLine lead name pad1 pad2 digits)
  = Some {| m1 := name; m2 := digits; m3 := EmptyString; m4 := EmptyString |}.
Proof.
  intros Hlead (Hbar & Hdot & (c & r & -> & Hc) & Hlast) Hpad1 Hpad2 Hdig Hne.
  unfold FindStringSubmatch, countLine.
  rewrite (statPrefix_lead lead _ (String c r, pad2 +:+ digits) Hlead).
  - unfold statSuffix.
    assert (exists d ds, digits = String d ds /\ isDigit d = true) as (d & ds & -> & Hd).
    { destruct digits as [| d ds]; [contradiction |]. simpl in Hdig.
      apply andb_true_iff in Hdig as [Hd _]. eauto. }
    rewrite (spanOf_run reSpace pad2 _ Hpad2).
    2:{ destruct d as [[] [] [] [] [] [] [] []]; try discriminate Hd; reflexivity. }
    cbn [snd].
    pose proof (spanOf_run isDigit (String d ds) EmptyString Hdig I) as Hspan.
    rewrite append_nil_r in Hspan. rewrite Hspan.
    reflexivity.
  - rewrite append_cons. exact Hc.
  - rewrite append_cons. unfold pathFrom.
    simpl in Hdot. apply andb_true_iff in Hdot as [Hcdot Hdot]. rewrite Hcdot.
    simpl in Hbar. apply orb_false_iff in Hbar as [_ Hbar].
    rewrite (lazyPath_name r (String c EmptyString) pad1 (pad2 +:+ digits) Hbar Hdot);
      [reflexivity | | exact Hpad1].
    destruct r as [| d r']; [left; reflexivity | right; exact Hlast].
Qed.

(** ** What a match of the pattern tells about the line *)

Lemma isBar_ascii c : isBar c = true -> (byte c < 128)%N.
Proof. unfold isBar. intros H. apply N.eqb_eq in H. lia. Qed.

Lemma isBar_not_space c : isBar c = true -> asciiSpace c = false.
Proof.
  unfold isBar, asciiSpace. intros H. apply N.eqb_eq in H. cbv zeta. rewrite H. reflexivity.
Qed.

Lemma spanOf_hasByte p q s :
  hasByte q (spanOf p s).2 = true -> hasByte q s = true.
Proof.
  induction s as [| c r IH]; simpl; [auto |].
  destruct (p c).
  - destruct (spanOf p r) as [a b]. simpl in *. intros H. rewrite (IH H). apply orb_true_r.
  - simpl. auto.
Qed.

Lemma barAhead_hasBar s r : barAhead s = Some r -> hasByte isBar s = true.
Proof.
  unfold barAhead. intros H. apply (spanOf_hasByte reSpace).
  destruct (spanOf reSpace s).2 as [| c t]; [discriminate |].
  simpl. destruct (isBar c); [reflexivity | discriminate].
Qed.

Lemma lazyPath_hasBar s : forall acc res, lazyPath acc s = Some res -> hasByte isBar s = true.
Proof.
  induction s as [| c r IH]; intros acc res; simpl.
  - destruct (barAhead EmptyString) eqn:E; [| discriminate].
    vm_compute in E. discriminate.
  - destruct (barAhead (String c r)) eqn:E.
    + intros _. apply barAhead_hasBar in E. exact E.
    + destruct (reDot c); [| discriminate].
      intros H. apply IH in H. rewrite H. apply orb_true_r.
Qed.

Lemma pathFrom_hasBar s res : pathFrom s = Some res -> hasByte isBar s = true.
Proof.
  destruct s as [| c r]; simpl; [discriminate |].
  destruct (reDot c); [| discriminate].
  intros H. apply lazyPath_hasBar in H. rewrite H. apply orb_true_r.
Qed.

Lemma statPrefix_hasBar s res : statPrefix s = Some res -> hasByte isBar s = true.
Proof.
  revert res. induction s as [| c r IH]; intros res; [discriminate |].
  cbn [statPrefix].
  destruct (reSpace c).
  - destruct (statPrefix r) as [res' |] eqn:E.
    + intros _. simpl. rewrite (IH _ eq_refl). apply orb_true_r.
    + apply pathFrom_hasBar.
  - apply pathFrom_hasBar.
Qed.

(** A line the pattern matches holds a bar, so it is not blank. *)
Lemma match_not_blank line matches :
  FindStringSubmatch line = Some matches -> TrimSpace line <> EmptyString.
Proof.
  unfold FindStringSubmatch.
  destruct (statPrefix line) as [[path rest] |] eqn:E; [| discriminate].
  intros _. apply statPrefix_hasBar in E.
  apply (hasByte_nonempty isBar).
  rewrite (TrimSpace_keeps isBar isBar_ascii isBar_not_space). exact E.
Qed.

(** Group 2 is a run of digits: when it is not empty it is a numeral. *)
Lemma spanOf_digits s acc : exists n, digitsFrom acc (spanOf isDigit s).1 = Some n.
Proof.
  revert acc. induction s as [| c r IH]; intros acc; simpl; [eauto |].
  unfold isDigit at 1. destruct (digitOf c) as [d |] eqn:Ed.
  - destruct (IH (acc * 10 + d)) as [n Hn].
    destruct (spanOf isDigit r) as [a b]. simpl in *. rewrite Ed. eauto.
  - simpl. eauto.
Qed.

Lemma match_group2_numeral line matches :
  FindStringSubmatch line = Some matches ->
  m2 matches <> EmptyString ->
  exists count, parseDigits (m2 matches) = Some count.
Proof.
  unfold FindStringSubmatch.
  destruct (statPrefix line) as [[path rest] |]; [| discriminate].
  unfold statSuffix.
  pose proof (spanOf_digits (spanOf reSpace rest).2 0) as [n Hn].
  destruct (spanOf isDigit (spanOf reSpace rest).2) as [digits s2].
  destruct (spanOf isPlus (spanOf reSpace s2).2) as [pluses s4].
  destruct (spanOf isMinus s4) as [minuses s5].
  intros [= <-]. simpl in *. intros Hne.
  exists n. destruct digits; [congruence | exact Hn].
Qed.

(** What [parseStatLine] returns for a line with a count and no signs,
    whether the count fits a machine integer or not. *)
Lemma parseStatLine_count_only line matches count :
  Contains line "files changed" = false ->
  Contains line "file changed" = false ->
  FindStringSubmatch line = Some matches ->
  parseDigits (m2 matches) = Some count ->
  m3 matches = EmptyString ->
  m4 matches = EmptyString ->
  parseStatLine line =
    Some (if count <=? maxInt
          then {| Path := TrimSpace (m1 matches);
                  Additions := count ÷ 2; Deletions := count - count ÷ 2 |}
          else {| Path := TrimSpace (m1 matches); Additions := 0; Deletions := 0 |}).
Proof.
  intros Hs1 Hs2 Hm Hd H3 H4.
  unfold parseStatLine. rewrite Hs1, Hs2. cbn [orb].
  rewrite bool_decide_eq_false_2 by (eapply match_not_blank; eassumption).
  rewrite Hm, H3, H4.
  assert (m2 matches <> EmptyString) as Hne.
  { intros E. rewrite E in Hd. discriminate. }
  rewrite bool_decide_eq_false_2 by exact Hne.
  cbn [negb andb len String.length Z.of_nat Z.eqb].
  rewrite (Atoi_digits _ _ Hd).
  destruct (count <=? maxInt); reflexivity.
Qed.

Lemma digitsFrom_allBytes s : forall acc n,
  digitsFrom acc s = Some n -> allBytes isDigit s = true.
Proof.
  induction s as [| c s IH]; intros acc n; simpl; [reflexivity |].
  destruct (digitOf c) as [d |] eqn:E; [| discriminate].
  intros H. unfold isDigit at 1. rewrite E. simpl. exact (IH _ _ H).
Qed.

(** The lines [countLine] describes are split evenly: this is what the
    parser does with [" <name> | <count>"]. *)
Lemma parseStatLine_countLine lead name pad1 pad2 digits count :
  allBytes reSpace lead = true ->
  plainName name ->
  allBytes reSpace pad1 = true ->
  allBytes reSpace pad2 = true ->
  parseDigits digits = Some count ->
  count <= maxInt ->
  Contains (countLine lead name pad1 pad2 digits) "files changed" = false ->
  Contains (countLine lead name pad1 pad2 digits) "file changed" = false ->
  parseStatLine (countLine lead name pad1 pad2 digits)
  = Some {| Path := TrimSpace name;
            Additions := count ÷ 2; Deletions := count - count ÷ 2 |}.
Proof.
  intros Hlead Hname Hpad1 Hpad2 Hd Hfit Hs1 Hs2.
  assert (digits <> EmptyString) as Hne by (intros ->; discriminate).
  assert (allBytes isDigit digits = true) as Hall.
  { destruct digits; [contradiction |]. apply (digitsFrom_allBytes _ _ _ Hd). }
  rewrite (parseStatLine_count_only _ _ count Hs1 Hs2
             (FindStringSubmatch_countLine _ _ _ _ _ Hlead Hname Hpad1 Hpad2 Hall Hne)
             Hd eq_refl eq_refl).
  assert ((count <=? maxInt) = true) as -> by (apply Z.leb_le; exact Hfit).
  reflexivity.
Qed.

(** A count too large for a machine integer is dropped: such a line gives
    0 and 0. *)
Example overflowing_count_is_dropped :
  parseGitStatOutput " f | 9223372036854775808"
    = [ {| Path := "f"; Additions := 0; Deletions := 0 |} ].
Proof. vm_compute. reflexivity. Qed.

(** The summary line of a binary file carries no count after the bar:
    it gives 0 and 0 as well. *)
Example binary_line_gives_zero :
  parseGitStatOutput " img.png | Bin 0 -> 123 bytes"
    = [ {| Path := "img.png"; Additions := 0; Deletions := 0 |} ].
Proof. vm_compute. reflexivity. Qed.





End GitStatFacts.

(* ===================================================================== *)
(** * Properties of the status refresher *)
(* ===================================================================== *)

Module StatusFacts.
Import GoStrings Types Git Status.

(** C6, as stated, fails: in a world where the behind-count query succeeds
    and yields 3 while the [status] query fails, the message carries the
    behind count 0, not 3. *)
Lemma behind_count_dropped_when_status_fails :
  failed (behindButStatusFails "git" (statusQuery "/repo")) = true
  /\ failed (behindButStatusFails "git" (behindQuery "/repo")) = false
  /\ behindCountOf behindButStatusFails "/repo" = 3
  /\ su_status (checkGitStatus behindButStatusFails "/repo") = StatusError
  /\ su_behindCount (checkGitStatus behindButStatusFails "/repo") = 0
  /\ su_behindCount (checkGitStatus behindButStatusFails "/repo")
     <> behindCountOf behindButStatusFails "/repo".
Proof. vm_compute. repeat split; discriminate. Qed.

Lemma behindCountOf_failed exec path :
  failed (exec "git" (behindQuery path)) = true -> behindCountOf exec path = 0.
Proof. unfold behindCountOf. intros ->. reflexivity. Qed.

(** C6, amended: both queries are best-effort, neither failure aborts the
    refresh, but they are independent in one direction only. The result of
    the dirty check never depends on the behind-count query: when the
    [status] query succeeds the message says clean (on empty output) or
    dirty with the number of changed paths, whether the behind-count query
    failed or not, and a failed behind-count query just counts as 0. When
    the [status] query fails, the message is [StatusError] with behind
    count 0: the count the behind-count query computed is not reported. *)
Theorem status_and_behind_queries (exec : Exec) (path : string) :
  let msg := checkGitStatus exec path in
  let statusRes := exec "git" (statusQuery path) in
  let lines := TrimSpace (output statusRes) in
  (failed statusRes = true ->
     su_status msg = StatusError
     /\ su_text msg = "failed to get status"
     /\ su_behindCount msg = 0)
  /\ (failed statusRes = false -> lines = EmptyString ->
        su_text msg = EmptyString
        /\ (behindCountOf exec path > 0 ->
              su_status msg = StatusCleanBehind
              /\ su_behindCount msg = behindCountOf exec path)
        /\ (behindCountOf exec path <= 0 ->
              su_status msg = StatusClean /\ su_behindCount msg = 0))
  /\ (failed statusRes = false -> lines <> EmptyString ->
        su_status msg = StatusDirty
        /\ su_text msg = Itoa (Z.of_nat (length (Split lines LF))) +:+ " changed"
        /\ su_behindCount msg = behindCountOf exec path)
  /\ (failed (exec "git" (behindQuery path)) = true -> failed statusRes = false ->
        su_behindCount msg = 0
        /\ (lines = EmptyString -> su_status msg = StatusClean)
        /\ (lines <> EmptyString -> su_status msg = StatusDirty)).
Proof.
  cbv zeta. unfold checkGitStatus.
  destruct (failed (exec "git" (statusQuery path))) eqn:Hst.
  { repeat split; intros; try discriminate; reflexivity. }
  destruct (decide (TrimSpace (output (exec "git" (statusQuery path))) = EmptyString))
    as [Hl | Hl].
  - rewrite (bool_decide_eq_true_2 _ Hl).
    destruct (Z.gtb_spec (behindCountOf exec path) 0) as [Hgt | Hle];
      repeat split; intros; try discriminate; try contradiction; try reflexivity;
      try lia;
      match goal with
      | Hb : failed (exec "git" (behindQuery path)) = true |- _ =>
          rewrite (behindCountOf_failed _ _ Hb) in Hgt; lia
      end.
  - rewrite (bool_decide_eq_false_2 _ Hl).
    repeat split; intros; try discriminate; try contradiction; try reflexivity.
    cbn. apply behindCountOf_failed. assumption.
Qed.

Lemma status_and_behind_queries_witness :
  failed (dirtyNoUpstream "git" (behindQuery "/repo")) = true
  /\ failed (dirtyNoUpstream "git" (statusQuery "/repo")) = false
  /\ su_behindCount (checkGitStatus dirtyNoUpstream "/repo") = 0
  /\ su_status (checkGitStatus dirtyNoUpstream "/repo") = StatusDirty.
Proof.
  assert (failed (dirtyNoUpstream "git" (behindQuery "/repo")) = true) as Hb by reflexivity.
  assert (failed (dirtyNoUpstream "git" (statusQuery "/repo")) = false) as Hs by reflexivity.
  destruct (status_and_behind_queries dirtyNoUpstream "/repo") as (_ & _ & _ & H).
  destruct (H Hb Hs) as (H0 & _ & Hd).
  split; [exact Hb |]. split; [exact Hs |]. split; [exact H0 |].
  apply Hd. vm_compute. discriminate.
Defined.

Example dirtyNoUpstream_message :
  checkGitStatus dirtyNoUpstream "/repo"
  = {| su_path := "/repo"; su_branch := "main"; su_status := StatusDirty;
       su_text := "2 changed"; su_behindCount := 0 |}.
Proof. vm_compute. reflexivity. Qed.

End StatusFacts.

(* ===================================================================== *)
(** * Properties of sorting and of list filters *)
(* ===================================================================== *)

Module GoSortFacts.
Import GoSort.

Lemma insertBy_Permutation {A : Type} (less : A -> A -> bool) x l :
  insertBy less x l ≡ₚ x :: l.
Proof.
  induction l as [| y l IH]; simpl; [reflexivity |].
  destruct (less x y); [reflexivity |].
  rewrite IH. apply Permutation_swap.
Qed.

Lemma insertionSort_Permutation (A : Type) (less : A -> A -> bool) (l : list A) :
  insertionSort A less l ≡ₚ l.
Proof.
  unfold insertionSort. induction l as [| x l IH]; simpl; [reflexivity |].
  rewrite insertBy_Permutation. rewrite IH. reflexivity.
Qed.

Lemma sameOrder_Permutation (A : Type) (l : list A) : sameOrder A l ≡ₚ l.
Proof. reflexivity. Qed.

Lemma filter_Permutation_bool {A : Type} (f : A -> bool) (l l' : list A) :
  l ≡ₚ l' -> List.filter f l ≡ₚ List.filter f l'.
Proof.
  induction 1 as [| x l l' _ IH | x y l | l l' l'' _ IH1 _ IH2]; simpl.
  - reflexivity.
  - destruct (f x); [constructor |]; exact IH.
  - destruct (f x), (f y); try reflexivity. apply Permutation_swap.
  - etrans; eassumption.
Qed.

Lemma elem_of_filter_bool {A : Type} (f : A -> bool) (l : list A) x :
  x ∈ List.filter f l <-> x ∈ l /\ f x = true.
Proof. rewrite !list_elem_of_In. apply filter_In. Qed.

Lemma filter_sublist_bool {A : Type} (f g : A -> bool) (l : list A) :
  (forall x, f x = true -> g x = true) ->
  sublist (List.filter f l) (List.filter g l).
Proof.
  intros Hfg. induction l as [| x l IH]; simpl; [constructor |].
  destruct (f x) eqn:Ef.
  - rewrite (Hfg x Ef). constructor. exact IH.
  - destruct (g x); [constructor |]; exact IH.
Qed.

End GoSortFacts.

(* ===================================================================== *)
(** * Properties of the status filters *)
(* ===================================================================== *)

Module FiltersFacts.
Import Types Filters GoSort GoSortFacts.

(** The loop is a filter that keeps the order of the repositories. *)
Lemma applyStatusFilters_filter fd fb rs acc :
  applyStatusFilters fd fb rs acc = acc ++ List.filter (passesFilters fd fb) rs.
Proof.
  revert acc. induction rs as [| repo rest IH]; intros acc; simpl.
  - rewrite app_nil_r. reflexivity.
  - unfold passesFilters at 1.
    destruct (fd && negb (bool_decide (Status repo = StatusDirty))); simpl.
    + apply IH.
    + destruct (fb && (BehindCount repo =? 0)); simpl.
      * apply IH.
      * rewrite IH, <- app_assoc. reflexivity.
Qed.

Lemma getFilteredRepos_filter m :
  getFilteredRepos m = List.filter (passesFilters (filterDirty m) (filterBehind m)) (repos m).
Proof. unfold getFilteredRepos. apply applyStatusFilters_filter. Qed.

Lemma passesFilters_both repo :
  passesFilters true true repo = true
  <-> Status repo = StatusDirty /\ BehindCount repo <> 0.
Proof.
  unfold passesFilters. simpl.
  rewrite andb_true_iff, !negb_true_iff, negb_false_iff.
  rewrite bool_decide_eq_true, Z.eqb_neq. reflexivity.
Qed.

Lemma passesFilters_widens fd fb fd' fb' repo :
  (fd' = true -> fd = true) -> (fb' = true -> fb = true) ->
  passesFilters fd fb repo = true -> passesFilters fd' fb' repo = true.
Proof.
  unfold passesFilters. intros Hd Hb.
  destruct fd', fb', fd, fb; simpl; try tauto;
    try (specialize (Hd eq_refl); discriminate);
    try (specialize (Hb eq_refl); discriminate);
    rewrite ?andb_true_iff, ?andb_true_r; tauto.
Qed.

Lemma filters_off_keep_all (l : list Repo) :
  List.filter (passesFilters false false) l = l.
Proof. induction l as [| r l IH]; simpl; [reflexivity | rewrite IH; reflexivity]. Qed.

(** With both filters on, a repository with a negative behind count would
    pass the test [BehindCount == 0] of the loop; the behind count is a
    number of commits, and git never prints a negative one. *)
Example negative_behind_count_passes :
  getFilteredRepos
    {| repos := [sampleRepo "odd" StatusDirty (-1)];
       filterDirty := true; filterBehind := true; listItems := [] |}
  = [sampleRepo "odd" StatusDirty (-1)].
Proof. reflexivity. Qed.

Section WithSort.
Variable sortSlice : forall A : Type, (A -> A -> bool) -> list A -> list A.
Hypothesis sortSlice_Permutation :
  forall (A : Type) (less : A -> A -> bool) (l : list A), sortSlice A less l ≡ₚ l.

Lemma updateList_items m :
  listItems (updateList sortSlice m)
  = List.filter (passesFilters (filterDirty m) (filterBehind m))
                (sortSlice _ repoLess (repos m))
  /\ repos (updateList sortSlice m) ≡ₚ repos m.
Proof.
  unfold updateList. simpl. rewrite applyStatusFilters_filter. simpl.
  split; [reflexivity | apply sortSlice_Permutation].
Qed.

Lemma updateList_items_Permutation m :
  listItems (updateList sortSlice m) ≡ₚ getFilteredRepos m.
Proof.
  destruct (updateList_items m) as [-> _]. rewrite getFilteredRepos_filter.
  apply filter_Permutation_bool, sortSlice_Permutation.
Qed.

(** C8: the behind counts being numbers of commits (none is negative),
    with both filters on the filtered list holds exactly the repositories of
    the collection that are dirty and behind ([Status = StatusDirty] and
    [BehindCount > 0]), in the order of the collection; the rows
    [updateList] gives the list widget are the same repositories. For every
    collection, whatever the counts, the list with both filters on is a
    sublist of the list with either filter off, and of the list with both
    off, which is the collection itself. *)
Theorem filters_conjoin_and_clearing_widens (m : model) :
  Forall (fun repo => 0 <= BehindCount repo) (repos m) ->
  (forall repo,
      repo ∈ getFilteredRepos (withFilters true true m)
      <-> repo ∈ repos m /\ Status repo = StatusDirty /\ BehindCount repo > 0)
  /\ (forall repo,
      repo ∈ listItems (updateList sortSlice (withFilters true true m))
      <-> repo ∈ repos m /\ Status repo = StatusDirty /\ BehindCount repo > 0)
  /\ sublist (getFilteredRepos (withFilters true true m)) (repos m)
  /\ sublist (getFilteredRepos (withFilters true true m))
             (getFilteredRepos (withFilters false true m))
  /\ sublist (getFilteredRepos (withFilters true true m))
             (getFilteredRepos (withFilters true false m))
  /\ sublist (getFilteredRepos (withFilters true true m))
             (getFilteredRepos (withFilters false false m))
  /\ getFilteredRepos (withFilters false false m) = repos m.
Proof.
  intros Hcounts.
  assert (forall repo,
             repo ∈ getFilteredRepos (withFilters true true m)
             <-> repo ∈ repos m /\ Status repo = StatusDirty /\ BehindCount repo > 0)
    as Hexact.
  { intros repo. rewrite getFilteredRepos_filter. simpl.
    rewrite elem_of_filter_bool, passesFilters_both.
    split.
    - intros (Hin & Hs & Hb). repeat split; auto.
      rewrite Forall_forall in Hcounts. specialize (Hcounts _ Hin). simpl in Hcounts. lia.
    - intros (Hin & Hs & Hb). repeat split; auto. lia. }
  split; [exact Hexact |].
  split.
  { intros repo. rewrite <- Hexact.
    split; intros H.
    - eapply elem_of_Permutation_proper; [symmetry; apply updateList_items_Permutation | exact H].
    - eapply elem_of_Permutation_proper; [apply updateList_items_Permutation | exact H]. }
  rewrite !getFilteredRepos_filter. simpl.
  pose proof (filters_off_keep_all (repos m)) as Hall.
  split.
  { rewrite <- Hall at 2. apply filter_sublist_bool.
    intros x. apply passesFilters_widens; auto. }
  split; [apply filter_sublist_bool; intros x; apply passesFilters_widens; auto |].
  split; [apply filter_sublist_bool; intros x; apply passesFilters_widens; auto |].
  split; [apply filter_sublist_bool; intros x; apply passesFilters_widens; auto |].
  exact Hall.
Qed.

End WithSort.

Lemma filters_conjoin_and_clearing_widens_witness :
  Forall (fun repo => 0 <= BehindCount repo) (repos sampleModel)
  /\ getFilteredRepos (withFilters true true sampleModel) = [sampleRepo "api" StatusDirty 2]
  /\ sublist (getFilteredRepos (withFilters true true sampleModel))
             (getFilteredRepos (withFilters false true sampleModel)).
Proof.
  assert (Forall (fun repo => 0 <= BehindCount repo) (repos sampleModel)) as Hcounts.
  { unfold sampleModel; simpl.
    repeat first [apply List.Forall_cons; [simpl; lia |] | apply List.Forall_nil]. }
  split; [exact Hcounts |].
  split; [reflexivity |].
  apply (filters_conjoin_and_clearing_widens insertionSort insertionSort_Permutation
           sampleModel Hcounts).
Defined.

End FiltersFacts.

(* ===================================================================== *)
(** * Properties of the branch reconciler *)
(* ===================================================================== *)

Module BranchesFacts.
Import GoStrings Types Git Branches GoSort GoSortFacts.

(** One turn of the first loop appends one local entry, current exactly
    when it bears the current name. *)
Lemma addLocalBranch_step remoteBranches current branches seen entry :
  exists b seen',
    addLocalBranch remoteBranches current (branches, seen) entry = (branches ++ [b], seen')
    /\ BranchName b = entry.1
    /\ IsLocal b = true
    /\ IsCurrent b = bool_decide (entry.1 = current).
Proof.
  destruct entry as [localName remoteName]. unfold addLocalBranch.
  destruct (negb (bool_decide (remoteName = EmptyString))).
  - eexists _, _. split; [reflexivity |]. simpl. auto.
  - destruct (bool_decide ("origin/" +:+ localName ∈ remoteBranches)).
    + eexists _, _. split; [reflexivity |]. simpl. auto.
    + eexists _, _. split; [reflexivity |]. simpl. auto.
Qed.

Lemma addLocalBranch_fold remoteBranches current entries :
  forall branches seen,
    Forall wellFormed branches ->
    let st := foldl (addLocalBranch remoteBranches current) (branches, seen) entries in
    Forall wellFormed st.1
    /\ length (List.filter IsCurrent st.1)
       = (length (List.filter IsCurrent branches)
          + length (List.filter (hasName current) entries))%nat.
Proof.
  induction entries as [| entry entries IH]; intros branches seen Hwf;
    cbv zeta; cbn [foldl].
  - split; [exact Hwf | simpl; lia].
  - destruct (addLocalBranch_step remoteBranches current branches seen entry)
      as (b & seen' & -> & Hname & Hlocal & Hcur).
    assert (Forall wellFormed (branches ++ [b])) as Hwf'.
    { apply Forall_app. split; [exact Hwf |].
      apply Forall_singleton. split; auto. }
    destruct (IH (branches ++ [b]) seen' Hwf') as [H1 H2].
    split; [exact H1 |].
    simpl in H2. rewrite H2.
    rewrite List.filter_app, length_app. simpl.
    unfold hasName at 2. rewrite Hcur.
    destruct (bool_decide (entry.1 = current)); simpl; lia.
Qed.

(** One turn of the second loop appends nothing, or one remote-only entry
    that is not current. *)
Lemma addRemoteBranch_fold seen names :
  forall branches,
    Forall wellFormed branches ->
    let branches' := foldl (addRemoteBranch seen) branches names in
    Forall wellFormed branches'
    /\ length (List.filter IsCurrent branches') = length (List.filter IsCurrent branches).
Proof.
  induction names as [| name names IH]; intros branches Hwf;
    cbv zeta; cbn [foldl].
  - split; [exact Hwf | reflexivity].
  - unfold addRemoteBranch at 2 4.
    destruct (bool_decide (name ∈ seen)); [apply IH; exact Hwf |].
    match goal with
    | |- context [foldl _ (branches ++ [?b]) names] =>
        assert (Forall wellFormed (branches ++ [b])) as Hwf'
    end.
    { apply Forall_app. split; [exact Hwf |].
      apply Forall_singleton. split; simpl; [right; reflexivity | discriminate]. }
    destruct (IH _ Hwf') as [H1 H2].
    split; [exact H1 |].
    rewrite H2, List.filter_app, length_app. simpl. lia.
Qed.

(** Among entries with distinct names, at most one bears a given name. *)
Lemma hasName_absent current (entries : list (string * string)) :
  current ∉ entries.*1 -> List.filter (hasName current) entries = [].
Proof.
  induction entries as [| e entries IH]; simpl; [reflexivity |].
  intros Hnot. apply not_elem_of_cons in Hnot as [Hne Hnot].
  unfold hasName at 1. rewrite bool_decide_eq_false_2 by congruence.
  apply IH, Hnot.
Qed.

Lemma hasName_at_most_once current (entries : list (string * string)) :
  NoDup entries.*1 -> (length (List.filter (hasName current) entries) <= 1)%nat.
Proof.
  induction entries as [| e entries IH]; simpl; [lia |].
  intros Hnd. apply NoDup_cons in Hnd as [Hnot Hnd].
  unfold hasName at 1. destruct (bool_decide_reflect (e.1 = current)) as [He | He].
  - rewrite hasName_absent by (rewrite <- He; exact Hnot). simpl. lia.
  - apply IH, Hnd.
Qed.

Section WithOrders.
Variable sortSlice : forall A : Type, (A -> A -> bool) -> list A -> list A.
Variable rangeOrder : forall A : Type, list A -> list A.
Hypothesis sortSlice_Permutation :
  forall (A : Type) (less : A -> A -> bool) (l : list A), sortSlice A less l ≡ₚ l.
Hypothesis rangeOrder_Permutation :
  forall (A : Type) (l : list A), rangeOrder A l ≡ₚ l.

Lemma rangeOrder_map_NoDup (m : gmap string string) :
  NoDup (rangeOrder _ (map_to_list m)).*1.
Proof.
  rewrite (rangeOrder_Permutation _ (map_to_list m)).
  apply NoDup_fst_map_to_list.
Qed.

(** C7: whatever git answers, however [range] orders the maps and however
    [sort.Slice] rearranges the list, the branch list of [loadBranches] has
    no entry with [IsLocal = false] and [IsRemote = false], at most one
    entry with [IsCurrent = true], and every entry with [IsCurrent = true]
    has [IsLocal = true]. *)
Theorem loadBranches_entries_well_formed (exec : Exec) (path : string) :
  let branches := bl_branches (loadBranches sortSlice rangeOrder exec path) in
  (forall b, b ∈ branches -> ~ (IsLocal b = false /\ IsRemote b = false))
  /\ (length (List.filter IsCurrent branches) <= 1)%nat
  /\ (forall b, b ∈ branches -> IsCurrent b = true -> IsLocal b = true).
Proof.
  cbv zeta. unfold loadBranches.
  match goal with
  | |- context [foldl (addLocalBranch ?rb ?cur) _ (rangeOrder _ (map_to_list ?lb))] =>
      set (remoteBranches := rb); set (current := cur); set (localBranches := lb)
  end.
  pose proof (addLocalBranch_fold remoteBranches current
                (rangeOrder _ (map_to_list localBranches)) [] ∅ (Forall_nil_2 _)) as Hl.
  cbv zeta in Hl.
  destruct (foldl (addLocalBranch remoteBranches current) ([], ∅)
              (rangeOrder _ (map_to_list localBranches))) as [locals seen].
  simpl in Hl. destruct Hl as [Hwf Hcount].
  pose proof (addRemoteBranch_fold seen (rangeOrder _ (elements remoteBranches))
                locals Hwf) as Hr.
  cbv zeta in Hr. destruct Hr as [Hwf' Hcount'].
  simpl.
  set (unsorted := foldl (addRemoteBranch seen) locals _) in *.
  pose proof (sortSlice_Permutation _ branchLess unsorted) as Hperm.
  assert (Forall wellFormed (sortSlice _ branchLess unsorted)) as Hsorted.
  { rewrite Hperm. exact Hwf'. }
  rewrite Forall_forall in Hsorted.
  split; [| split].
  - intros b Hb [Hloc Hrem]. destruct (Hsorted b Hb) as [[H | H] _]; congruence.
  - rewrite (Permutation_length (filter_Permutation_bool IsCurrent _ _ Hperm)).
    rewrite Hcount', Hcount.
    pose proof (hasName_at_most_once current _ (rangeOrder_map_NoDup localBranches)).
    lia.
  - intros b Hb. apply (Hsorted b Hb).
Qed.

End WithOrders.

Lemma loadBranches_entries_well_formed_witness :
  (length (List.filter IsCurrent
             (bl_branches (loadBranches insertionSort sameOrder sampleWorld "/repo"))) <= 1)%nat.
Proof.
  apply (loadBranches_entries_well_formed insertionSort sameOrder
           insertionSort_Permutation sameOrder_Permutation sampleWorld "/repo").
Defined.

Example sampleWorld_branches :
  map (fun b => (BranchName b, IsLocal b, IsRemote b, IsCurrent b))
      (bl_branches (loadBranches insertionSort sameOrder sampleWorld "/repo"))
  = [("main", true, true, true); ("wip", true, true, false);
     ("fix", true, false, false); ("next", false, true, false)].
Proof. vm_compute. reflexivity. Qed.

End BranchesFacts.

(* ===================================================================== *)
(** * Properties of the pull round *)
(* ===================================================================== *)

Module PullRoundFacts.
Import GoStrings Types Tea PullRound.

(** ** The pending map and the result list of [collectPullResult] *)

Lemma collect_pending env msg repoName pending results :
  (collectPullResult env msg repoName pending results).1 = delete (pc_path msg) pending.
Proof.
  unfold collectPullResult.
  destruct (pending !! pc_path msg) as [oldHead |] eqn:E.
  - destruct (_ && _); [destruct (0 <? _) |]; reflexivity.
  - simpl. symmetry. apply delete_id. exact E.
Qed.

Lemma collect_results_reportable env msg repoName pending results oldHead :
  pc_err msg = None ->
  Contains (pc_result msg) "Already up to date" = false ->
  pending !! pc_path msg = Some oldHead ->
  getCommitsBetween env (pc_path msg) oldHead (getHeadCommit env (pc_path msg)) <> [] ->
  (collectPullResult env msg repoName pending results).2
  = results ++
    [ {| RepoPath := pc_path msg; RepoName := repoName;
         Commits := getCommitsBetween env (pc_path msg) oldHead
                      (getHeadCommit env (pc_path msg));
         FilesChanged := getFilesChangedCount env (pc_path msg) oldHead
                           (getHeadCommit env (pc_path msg));
         Updated := true |} ].
Proof.
  intros Herr Hup Hpend Hcommits. unfold collectPullResult.
  rewrite Hpend, Herr, Hup. rewrite bool_decide_eq_true_2 by reflexivity. simpl.
  destruct (getCommitsBetween env (pc_path msg) oldHead (getHeadCommit env (pc_path msg)))
    as [| c cs]; [contradiction |].
  reflexivity.
Qed.

Lemma collect_results_otherwise env msg repoName pending results :
  ~ reportable env msg pending ->
  (collectPullResult env msg repoName pending results).2 = results.
Proof.
  intros Hnot. unfold collectPullResult.
  destruct (pending !! pc_path msg) as [oldHead |] eqn:Hpend; [| reflexivity].
  destruct (bool_decide_reflect (pc_err msg = None)) as [Herr | Herr]; [| reflexivity].
  destruct (Contains (pc_result msg) "Already up to date") eqn:Hup; [reflexivity |].
  simpl.
  destruct (getCommitsBetween env (pc_path msg) oldHead (getHeadCommit env (pc_path msg)))
    as [| c cs] eqn:Hc; [reflexivity |].
  exfalso. apply Hnot. repeat split; auto.
  exists oldHead. split; [exact Hpend |]. rewrite Hc. discriminate.
Qed.

Lemma reportable_dec env msg pending :
  reportable env msg pending \/ ~ reportable env msg pending.
Proof.
  unfold reportable.
  destruct (pc_err msg) as [e |]; [right; intros [H _]; discriminate |].
  destruct (Contains (pc_result msg) "Already up to date");
    [right; intros (_ & H & _); discriminate |].
  destruct (pending !! pc_path msg) as [oldHead |];
    [| right; intros (_ & _ & o & H & _); discriminate].
  destruct (getCommitsBetween env (pc_path msg) oldHead (getHeadCommit env (pc_path msg)))
    as [| c cs] eqn:Hc.
  - right. intros (_ & _ & o & [= <-] & H). congruence.
  - left. repeat split; auto. exists oldHead. split; [reflexivity |].
    rewrite Hc. discriminate.
Qed.

(** ** Capturing the heads *)

Lemma capturePulls_lookup env rs :
  forall pending cmds p,
    (capturePulls env rs pending cmds).1 !! p
    = if bool_decide (p ∈ Path <$> rs) then Some (getHeadCommit env p) else pending !! p.
Proof.
  unfold capturePulls.
  induction rs as [| r rs IH]; intros pending cmds p; cbn [foldl fmap list_fmap].
  - rewrite bool_decide_eq_false_2 by apply not_elem_of_nil. reflexivity.
  - rewrite IH. cbn [fst snd].
    destruct (bool_decide_reflect (p ∈ Path <$> rs)) as [Hin | Hnin].
    + rewrite bool_decide_eq_true_2 by (apply elem_of_cons; auto). reflexivity.
    + destruct (decide (p = Path r)) as [-> | Hne].
      * rewrite bool_decide_eq_true_2 by (apply elem_of_cons; auto).
        apply lookup_insert_eq.
      * rewrite bool_decide_eq_false_2
          by (intros [H | H]%elem_of_cons; [congruence | contradiction]).
        apply lookup_insert_ne. congruence.
Qed.

Lemma capturePulls_cmds env rs :
  forall pending cmds,
    length (capturePulls env rs pending cmds).2 = (length cmds + length rs)%nat.
Proof.
  unfold capturePulls.
  induction rs as [| r rs IH]; intros pending cmds; cbn [foldl]; [simpl; lia |].
  rewrite IH. cbn [fst snd]. rewrite length_app. simpl. lia.
Qed.

Section WithWidget.
Variable ListModel : Type.
Variable FilterStateOf : ListModel -> FilterState.
Variable FilterValue : ListModel -> string.
Variable SetFilterText : ListModel -> string -> ListModel.
Variable SelectedItem : ListModel -> option Item.
Variable listUpdate : ListModel -> Msg -> ListModel * Cmd.
Variable updateListRows : model ListModel -> ListModel.
Variable updateListFlattenedRows : model ListModel -> ListModel.

Local Abbreviation model := (model ListModel).
Local Abbreviation updateEnd :=
  (updateEnd ListModel FilterStateOf listUpdate updateListRows updateListFlattenedRows).
Local Abbreviation handle :=
  (handlePullComplete ListModel FilterStateOf FilterValue SetFilterText listUpdate
     updateListRows updateListFlattenedRows).
Local Abbreviation processAll :=
  (processAll ListModel FilterStateOf FilterValue SetFilterText listUpdate
     updateListRows updateListFlattenedRows).
Local Abbreviation removals :=
  (removals ListModel FilterStateOf FilterValue SetFilterText listUpdate
     updateListRows updateListFlattenedRows).
Local Abbreviation keyPullAll :=
  (keyPullAll ListModel FilterStateOf SelectedItem listUpdate
     updateListRows updateListFlattenedRows).
Local Abbreviation keyPullOne :=
  (keyPullOne ListModel FilterStateOf SelectedItem listUpdate
     updateListRows updateListFlattenedRows).
Local Abbreviation pendingPulls := (pendingPulls ListModel).
Local Abbreviation pullResults := (pullResults ListModel).
Local Abbreviation pulling := (pulling ListModel).
Local Abbreviation repos := (repos ListModel).
Local Abbreviation repoNameOf := (repoNameOf ListModel).

(** The end of [Update] touches the list widget only. *)
Lemma updateEnd_frame (m : model) msg cmds :
  pendingPulls (updateEnd m msg cmds).1 = pendingPulls m
  /\ pullResults (updateEnd m msg cmds).1 = pullResults m
  /\ pulling (updateEnd m msg cmds).1 = pulling m
  /\ repos (updateEnd m msg cmds).1 = repos m.
Proof.
  unfold PullRound.updateEnd.
  destruct (bool_decide (mode ListModel m = listView)).
  - destruct (listUpdate (listModel ListModel m) msg) as [l cmd].
    destruct (_ && _ && _); destruct (_ && _); simpl; auto.
  - destruct (_ && _ && _); destruct (_ && _); simpl; auto.
Qed.

Lemma updateEnd_cmds (m : model) msg cmds t :
  t ∈ cmds -> t ∈ match (updateEnd m msg cmds).2 with Batch l => l | _ => [] end.
Proof.
  unfold PullRound.updateEnd. intros Hin.
  destruct (bool_decide (mode ListModel m = listView)).
  - destruct (listUpdate (listModel ListModel m) msg) as [l cmd]. simpl.
    apply elem_of_app. auto.
  - simpl. exact Hin.
Qed.

(** What the [pullCompleteMsg] case leaves in the pending map, in the
    result list, in the collection and in the [pulling] flag. *)
Lemma handle_fields env (m : model) msg :
  let m' := (handle env m msg).1 in
  pendingPulls m' = delete (pc_path msg) (pendingPulls m)
  /\ pullResults m'
     = (collectPullResult env msg (repoNameOf m msg) (pendingPulls m) (pullResults m)).2
  /\ repos m' = (labelPulledRepo msg (repos m)).1
  /\ (allDone (pendingPulls m') = true -> pulling m' = false)
  /\ (allDone (pendingPulls m') = false ->
        pulling m' = match pc_err msg with Some _ => true | None => pulling m end).
Proof.
  cbv zeta. unfold PullRound.handlePullComplete, PullRound.repoNameOf.
  destruct (labelPulledRepo msg (repos m)) as [repos' found]. cbn [snd fst].
  pose proof (collect_pending env msg (default (Base (pc_path msg)) found)
                (pendingPulls m) (pullResults m)) as Hp.
  destruct (collectPullResult env msg (default (Base (pc_path msg)) found)
              (pendingPulls m) (pullResults m)) as [pending results].
  cbn [fst snd] in *. subst pending.
  match goal with
  | |- context [updateEnd ?m1 ?msg1 ?cmds1] =>
      destruct (updateEnd_frame m1 msg1 cmds1) as (-> & -> & -> & ->)
  end.
  destruct (pc_err msg) as [e |]; cbn.
  - repeat split; try reflexivity.
    + intros ->. reflexivity.
    + intros ->. reflexivity.
  - repeat split; try reflexivity.
    + intros ->. reflexivity.
    + intros ->. reflexivity.
Qed.

(** The paths of a sequence of completion events. *)
Local Abbreviation pathsOf := (fun events : list (GitEnv * pullCompleteMsg) =>
                                (fun ev => pc_path ev.2) <$> events).

(** After a sequence of completion events, the paths still pending are the
    pending paths that no event named. *)
Lemma processAll_lookup events :
  forall (m : model) p,
    pendingPulls (processAll m events) !! p
    = if bool_decide (p ∈ pathsOf events) then None else pendingPulls m !! p.
Proof.
  unfold PullRound.processAll.
  induction events as [| ev rest IH]; intros m p; cbn [foldl fmap list_fmap].
  - rewrite bool_decide_eq_false_2 by apply not_elem_of_nil. reflexivity.
  - rewrite IH.
    destruct (handle_fields ev.1 m ev.2) as (Hp & _). cbv zeta in Hp. rewrite Hp.
    destruct (bool_decide_reflect (p ∈ pathsOf rest)) as [Hin | Hnin].
    + rewrite bool_decide_eq_true_2 by (apply elem_of_cons; auto). reflexivity.
    + destruct (decide (p = pc_path ev.2)) as [-> | Hne].
      * rewrite bool_decide_eq_true_2 by (apply elem_of_cons; auto).
        apply lookup_delete_eq.
      * rewrite bool_decide_eq_false_2
          by (intros [H | H]%elem_of_cons; [congruence | contradiction]).
        apply lookup_delete_ne. congruence.
Qed.

Lemma removals_not_pending events :
  forall (m : model) p, pendingPulls m !! p = None -> removals p m events = 0%nat.
Proof.
  induction events as [| ev rest IH]; intros m p Hnone; cbn [PullRound.removals];
    [reflexivity |].
  rewrite Hnone.
  rewrite (bool_decide_eq_false_2 (is_Some None)) by (intros [x Hx]; discriminate).
  rewrite andb_false_r. simpl. apply IH.
  destruct (handle_fields ev.1 m ev.2) as (Hp & _). cbv zeta in Hp. rewrite Hp.
  apply lookup_delete_None. auto.
Qed.

(** A path is removed once if it was pending and an event names it, and
    never otherwise. *)
Lemma removals_spec events :
  forall (m : model) p,
    removals p m events
    = if bool_decide (is_Some (pendingPulls m !! p)) && bool_decide (p ∈ pathsOf events)
      then 1%nat else 0%nat.
Proof.
  induction events as [| ev rest IH]; intros m p;
    cbn [PullRound.removals fmap list_fmap].
  - rewrite (bool_decide_eq_false_2 (p ∈ [])) by apply not_elem_of_nil.
    rewrite andb_false_r. reflexivity.
  - destruct (handle_fields ev.1 m ev.2) as (Hp & _). cbv zeta in Hp.
    destruct (decide (pc_path ev.2 = p)) as [Heq | Hne].
    + rewrite (bool_decide_eq_true_2 _ Heq).
      rewrite (bool_decide_eq_true_2 (p ∈ _ :: _)) by (apply elem_of_cons; auto).
      rewrite removals_not_pending
        by (rewrite Hp, Heq; apply lookup_delete_eq).
      rewrite andb_true_r. simpl. destruct (bool_decide _); reflexivity.
    + rewrite (bool_decide_eq_false_2 _ Hne). simpl.
      rewrite IH, Hp, lookup_delete_ne by exact Hne.
      destruct (bool_decide (is_Some (pendingPulls m !! p))); [| reflexivity]. simpl.
      destruct (bool_decide_reflect (p ∈ pathsOf rest)) as [Hin | Hnin].
      * rewrite bool_decide_eq_true_2 by (apply elem_of_cons; auto). reflexivity.
      * rewrite bool_decide_eq_false_2
          by (intros [H | H]%elem_of_cons; [congruence | contradiction]).
        reflexivity.
Qed.

Lemma allDone_empty (pending : gmap string string) :
  allDone pending = true <-> forall p, pending !! p = None.
Proof.
  unfold allDone. rewrite Z.eqb_eq.
  rewrite <- map_empty, <- map_size_empty_iff. lia.
Qed.

(** The key "P" starts from an empty pending map and an empty result list,
    and captures the head of each repository it pulls. *)
Lemma keyPullAll_begins env (m : model) :
  exists rs,
    (forall r, r ∈ rs -> r ∈ repos m)
    /\ pullResults (keyPullAll env m).1 = []
    /\ pendingPulls (keyPullAll env m).1 = (capturePulls env rs ∅ []).1.
Proof.
  assert (forall name,
             exists rs, (forall r, r ∈ rs -> r ∈ repos m)
                        /\ pullResults (pullGroup ListModel env m name).1 = []
                        /\ pendingPulls (pullGroup ListModel env m name).1
                           = (capturePulls env rs ∅ []).1) as Hgroup.
  { intros name. exists (getGroupRepos ListModel m name). split.
    - unfold getGroupRepos. intros r Hr.
      destruct (groupsMap ListModel m !! name); [| inversion Hr].
      apply list_elem_of_In, filter_In in Hr as [Hr _]. apply list_elem_of_In. exact Hr.
    - unfold pullGroup.
      destruct (capturePulls env (getGroupRepos ListModel m name) ∅ []) as [pending cmds].
      destruct (0 <? _); simpl; auto. }
  unfold PullRound.keyPullAll.
  destruct (currentGroup ListModel m) as [group |]; [apply Hgroup |].
  assert (exists rs, (forall r, r ∈ rs -> r ∈ repos m)
                     /\ pullResults
                          (let favs := List.filter IsFavorite (repos m) in
                           let '(pending, pullCmds) := capturePulls env favs ∅ [] in
                           let count := Z.of_nat (length favs) in
                           if count >? 0
                           then (withPulls ListModel pending [] true
                                   ("Pulling " +:+ Itoa count +:+ " favorites...") m,
                                 Batch (pullCmds ++ [spinnerTick]))
                           else updateEnd
                                  (withPulls ListModel pending [] (pulling m)
                                     (statusMsg ListModel m) m) (KeyMsg "P") []).1 = []
                     /\ pendingPulls
                          (let favs := List.filter IsFavorite (repos m) in
                           let '(pending, pullCmds) := capturePulls env favs ∅ [] in
                           let count := Z.of_nat (length favs) in
                           if count >? 0
                           then (withPulls ListModel pending [] true
                                   ("Pulling " +:+ Itoa count +:+ " favorites...") m,
                                 Batch (pullCmds ++ [spinnerTick]))
                           else updateEnd
                                  (withPulls ListModel pending [] (pulling m)
                                     (statusMsg ListModel m) m) (KeyMsg "P") []).1
                        = (capturePulls env rs ∅ []).1) as Hfav.
  { exists (List.filter IsFavorite (repos m)). split.
    - intros r Hr. apply list_elem_of_In, filter_In in Hr as [Hr _].
      apply list_elem_of_In. exact Hr.
    - cbv zeta.
      destruct (capturePulls env (List.filter IsFavorite (repos m)) ∅ []) as [pending cmds].
      destruct (_ >? 0); [simpl; auto |].
      match goal with
      | |- context [updateEnd ?m1 ?msg1 ?cmds1] =>
          destruct (updateEnd_frame m1 msg1 cmds1) as (-> & -> & _)
      end.
      simpl. auto. }
  destruct (SelectedItem (listModel ListModel m)) as [[r | g] |];
    [exact Hfav | apply Hgroup | exact Hfav].
Qed.

Lemma keyPullOne_pending env (m : model) item :
  SelectedItem (listModel ListModel m) = Some (RepoItem item) ->
  pendingPulls (keyPullOne env m).1
  = <[Path item := getHeadCommit env (Path item)]> (pendingPulls m).
Proof. unfold PullRound.keyPullOne. intros ->. reflexivity. Qed.

(** C1: the batch the key "P" begins holds one captured head for each path
    it pulls. After any sequence of completion events the reducer finds the
    batch done exactly when every path entered into the map has had exactly
    one event that removed it; no path is ever removed twice, a path is
    removed once exactly when it was entered and an event names it, and the
    order of the events does not matter. When the reducer finds the batch
    done it lowers the [pulling] flag. When the key "p" enters a path again
    while it is pending, the head captured now replaces the earlier one and
    the map keeps one entry for the path. *)
Theorem batch_done_iff_every_path_removed_once
    (env : GitEnv) (m0 : model) (events : list (GitEnv * pullCompleteMsg)) :
  let m1 := (keyPullAll env m0).1 in
  let final := processAll m1 events in
  (exists rs : list Repo,
      (forall r, r ∈ rs -> r ∈ repos m0)
      /\ pullResults m1 = []
      /\ forall p, pendingPulls m1 !! p
                   = if bool_decide (p ∈ Path <$> rs)
                     then Some (getHeadCommit env p) else None)
  /\ (allDone (pendingPulls final) = true
      <-> forall p, is_Some (pendingPulls m1 !! p) -> removals p m1 events = 1%nat)
  /\ (forall p, (removals p m1 events <= 1)%nat)
  /\ (forall p, removals p m1 events = 1%nat
                <-> is_Some (pendingPulls m1 !! p) /\ p ∈ pathsOf events)
  /\ (forall events',
         events' ≡ₚ events ->
         pendingPulls (processAll m1 events') = pendingPulls final)
  /\ (forall env' (m : model) msg,
         allDone (pendingPulls (handle env' m msg).1) = true ->
         pulling (handle env' m msg).1 = false)
  /\ (forall env' (m : model) item,
         SelectedItem (listModel ListModel m) = Some (RepoItem item) ->
         pendingPulls (keyPullOne env' m).1
         = <[Path item := getHeadCommit env' (Path item)]> (pendingPulls m)
         /\ pendingPulls (keyPullOne env' m).1 !! Path item
            = Some (getHeadCommit env' (Path item))
         /\ (is_Some (pendingPulls m !! Path item) ->
             size (pendingPulls (keyPullOne env' m).1) = size (pendingPulls m))).
Proof.
  cbv zeta.
  set (m1 := (keyPullAll env m0).1).
  assert (forall p, removals p m1 events = 1%nat
                    <-> is_Some (pendingPulls m1 !! p) /\ p ∈ pathsOf events) as Hone.
  { intros p. rewrite removals_spec.
    destruct (bool_decide_reflect (is_Some (pendingPulls m1 !! p)));
      destruct (bool_decide_reflect (p ∈ pathsOf events)); simpl;
      split; try discriminate; tauto. }
  split; [| split; [| split; [| split; [exact Hone | split; [| split]]]]].
  - destruct (keyPullAll_begins env m0) as (rs & Hsub & Hres & Hpend).
    exists rs. split; [exact Hsub |]. split; [exact Hres |].
    intros p. subst m1. rewrite Hpend, capturePulls_lookup, lookup_empty. reflexivity.
  - rewrite allDone_empty. split.
    + intros Hdone p Hsome. apply Hone. split; [exact Hsome |].
      specialize (Hdone p). rewrite processAll_lookup in Hdone.
      destruct (bool_decide_reflect (p ∈ pathsOf events)) as [Hin | Hnin]; [exact Hin |].
      destruct Hsome as [h Hh]. congruence.
    + intros Hall p. rewrite processAll_lookup.
      destruct (bool_decide_reflect (p ∈ pathsOf events)) as [Hin | Hnin]; [reflexivity |].
      destruct (pendingPulls m1 !! p) as [h |] eqn:Hp; [| reflexivity].
      exfalso. apply Hnin. apply (Hone p). apply Hall. rewrite Hp. eauto.
  - intros p. rewrite removals_spec. destruct (_ && _); lia.
  - intros events' Hperm. apply map_eq. intros p. rewrite !processAll_lookup.
    assert (p ∈ pathsOf events' <-> p ∈ pathsOf events) as Hiff.
    { rewrite Hperm. reflexivity. }
    destruct (bool_decide_reflect (p ∈ pathsOf events'));
      destruct (bool_decide_reflect (p ∈ pathsOf events)); try reflexivity; tauto.
  - intros env' m msg. apply (handle_fields env' m msg).
  - intros env' m item Hsel. rewrite (keyPullOne_pending env' m item Hsel).
    split; [reflexivity |]. split; [apply lookup_insert_eq |].
    intros Hsome. apply map_size_insert_Some. exact Hsome.
Qed.

(** C2: a processed completion event appends a [PullResultInfo] to the
    result list exactly when the pull succeeded, its output does not
    contain "Already up to date", the path was pending, and the commit list
    between the captured head and the head after the pull is not empty;
    the entry then carries that commit list. Otherwise the list is
    unchanged. In particular, given that [getCommitsBetween] finds no
    commit between a reference and itself, a repository whose head after
    the pull is the captured head contributes no entry. *)
Theorem result_appended_iff_reportable
    (env : GitEnv) (m : model) (msg : pullCompleteMsg) :
  let m' := (handle env m msg).1 in
  ((exists info, pullResults m' = pullResults m ++ [info])
   <-> reportable env msg (pendingPulls m))
  /\ (forall oldHead,
         reportable env msg (pendingPulls m) ->
         pendingPulls m !! pc_path msg = Some oldHead ->
         pullResults m'
         = pullResults m ++
           [ {| RepoPath := pc_path msg; RepoName := repoNameOf m msg;
                Commits := getCommitsBetween env (pc_path msg) oldHead
                             (getHeadCommit env (pc_path msg));
                FilesChanged := getFilesChangedCount env (pc_path msg) oldHead
                                  (getHeadCommit env (pc_path msg));
                Updated := true |} ])
  /\ (~ reportable env msg (pendingPulls m) -> pullResults m' = pullResults m)
  /\ (commitsStrictlyBetween env ->
      forall oldHead,
        pendingPulls m !! pc_path msg = Some oldHead ->
        getHeadCommit env (pc_path msg) = oldHead ->
        pullResults m' = pullResults m).
Proof.
  cbv zeta.
  destruct (handle_fields env m msg) as (_ & Hres & _). cbv zeta in Hres. rewrite Hres.
  assert (forall oldHead,
             reportable env msg (pendingPulls m) ->
             pendingPulls m !! pc_path msg = Some oldHead ->
             (collectPullResult env msg (repoNameOf m msg) (pendingPulls m) (pullResults m)).2
             = pullResults m ++
               [ {| RepoPath := pc_path msg; RepoName := repoNameOf m msg;
                    Commits := getCommitsBetween env (pc_path msg) oldHead
                                 (getHeadCommit env (pc_path msg));
                    FilesChanged := getFilesChangedCount env (pc_path msg) oldHead
                                      (getHeadCommit env (pc_path msg));
                    Updated := true |} ]) as Hyes.
  { intros oldHead (Herr & Hup & old & Hold & Hcommits) Hpend.
    assert (old = oldHead) as -> by congruence.
    apply collect_results_reportable; assumption. }
  split; [| split; [exact Hyes | split]].
  - split.
    + intros [info Hinfo].
      destruct (reportable_dec env msg (pendingPulls m)) as [Hr | Hn]; [exact Hr |].
      rewrite (collect_results_otherwise _ _ _ _ _ Hn) in Hinfo.
      apply (f_equal length) in Hinfo. rewrite length_app in Hinfo. simpl in Hinfo. lia.
    + intros Hr. pose proof Hr as (_ & _ & old & Hold & _).
      eexists. apply (Hyes old Hr Hold).
  - apply collect_results_otherwise.
  - intros Hstrict oldHead Hpend Hsame.
    apply collect_results_otherwise.
    intros (_ & _ & old & Hold & Hcommits).
    assert (old = oldHead) as -> by congruence.
    apply Hcommits. rewrite Hsame. apply Hstrict.
Qed.

(** Every entry a sequence of completion events adds to the result list
    comes with a head that was pending for its path before the sequence,
    and holds the commits between that head and the head at the event. *)
Lemma processAll_provenance events :
  forall (m : model) info,
    info ∈ pullResults (processAll m events) ->
    info ∈ pullResults m
    \/ exists oldHead env' msg,
         pendingPulls m !! RepoPath info = Some oldHead
         /\ (env', msg) ∈ events
         /\ pc_path msg = RepoPath info
         /\ Commits info
            = getCommitsBetween env' (RepoPath info) oldHead
                (getHeadCommit env' (RepoPath info)).
Proof.
  unfold PullRound.processAll.
  induction events as [| [env' msg] rest IH]; intros m info Hin; cbn [foldl] in Hin.
  - left. exact Hin.
  - destruct (handle_fields env' m msg) as (Hp & Hres & _). cbv zeta in Hp, Hres.
    cbn [fst snd] in *.
    apply IH in Hin as [Hin | (oldHead & env'' & msg'' & Hold & Hev & Hpath & Hc)].
    + rewrite Hres in Hin.
      destruct (reportable_dec env' msg (pendingPulls m)) as [Hr | Hn].
      * pose proof Hr as (_ & _ & old & Hold & _).
        rewrite (collect_results_reportable env' msg _ _ _ old) in Hin
          by (try apply Hr; try exact Hold;
              destruct Hr as (_ & _ & o & Ho & Hc); congruence).
        apply elem_of_app in Hin as [Hin | Hin]; [left; exact Hin |].
        apply list_elem_of_singleton in Hin. subst info. cbn.
        right. exists old, env', msg. repeat split; auto.
        apply elem_of_cons. left. reflexivity.
      * rewrite (collect_results_otherwise _ _ _ _ _ Hn) in Hin. left. exact Hin.
    + right. exists oldHead, env'', msg''.
      rewrite Hp in Hold. apply lookup_delete_Some in Hold as [_ Hold].
      repeat split; auto. apply elem_of_cons. right. exact Hev.
Qed.

(** C10: a completion event whose path is not pending leaves the result
    list and the pending map as they are; it still labels the repository
    and has its status checked. So an entry is appended only for a path
    that was pending, from the head captured for it, and every entry of a
    round that started with an empty result list comes from a head
    captured at dispatch. *)
Theorem stale_completion_keeps_results
    (env : GitEnv) (m : model) (msg : pullCompleteMsg) :
  let m' := (handle env m msg).1 in
  (pendingPulls m !! pc_path msg = None ->
     pullResults m' = pullResults m
     /\ pendingPulls m' = pendingPulls m
     /\ repos m' = (labelPulledRepo msg (repos m)).1
     /\ Run (checkGitStatus (pc_path msg))
        ∈ match (handle env m msg).2 with Batch l => l | _ => [] end)
  /\ (forall info,
         pullResults m' = pullResults m ++ [info] ->
         exists oldHead,
           pendingPulls m !! pc_path msg = Some oldHead
           /\ RepoPath info = pc_path msg
           /\ Commits info
              = getCommitsBetween env (pc_path msg) oldHead
                  (getHeadCommit env (pc_path msg)))
  /\ (forall events info,
         pullResults m = [] ->
         info ∈ pullResults (processAll m events) ->
         exists oldHead env' msg',
           pendingPulls m !! RepoPath info = Some oldHead
           /\ (env', msg') ∈ events
           /\ pc_path msg' = RepoPath info
           /\ Commits info
              = getCommitsBetween env' (RepoPath info) oldHead
                  (getHeadCommit env' (RepoPath info))).
Proof.
  cbv zeta.
  destruct (handle_fields env m msg) as (Hp & Hres & Hrepos & _).
  cbv zeta in Hp, Hres, Hrepos.
  split; [| split].
  - intros Hnone. rewrite Hres, Hp, Hrepos.
    split.
    { apply collect_results_otherwise. intros (_ & _ & old & Hold & _). congruence. }
    split; [apply delete_id; exact Hnone |].
    split; [reflexivity |].
    unfold PullRound.handlePullComplete.
    destruct (labelPulledRepo msg (repos m)) as [repos' found].
    destruct (collectPullResult env msg (default (Base (pc_path msg)) found)
                (pendingPulls m) (pullResults m)) as [pending results].
    apply updateEnd_cmds. apply list_elem_of_singleton. reflexivity.
  - intros info Hinfo. rewrite Hres in Hinfo.
    destruct (reportable_dec env msg (pendingPulls m)) as [Hr | Hn].
    + pose proof Hr as (Herr & Hup & old & Hold & Hc).
      rewrite (collect_results_reportable env msg _ _ _ old Herr Hup Hold Hc) in Hinfo.
      apply app_inv_head in Hinfo. injection Hinfo as <-.
      exists old. cbn. auto.
    + rewrite (collect_results_otherwise _ _ _ _ _ Hn) in Hinfo.
      apply (f_equal length) in Hinfo. rewrite length_app in Hinfo. simpl in Hinfo. lia.
  - intros events info Hempty Hin.
    apply processAll_provenance in Hin as [Hin | Hin]; [| exact Hin].
    rewrite Hempty in Hin. inversion Hin.
Qed.

End WithWidget.

(** ** The sample round *)

Lemma worldAfter_strict : commitsStrictlyBetween worldAfter.
Proof.
  intros path head. simpl. rewrite bool_decide_eq_true_2 by reflexivity. reflexivity.
Qed.

(** The favourites are pulled; [/src/web] had nothing new. *)
Lemma result_appended_iff_reportable_witness :
  commitsStrictlyBetween worldAfter
  /\ pendingPulls unit (sampleKeyPullAll worldBefore sampleModel).1 !! "/src/web" = Some "a1"
  /\ getHeadCommit worldAfter "/src/web" = "a1"
  /\ pullResults unit
       (sampleHandle worldAfter (sampleKeyPullAll worldBefore sampleModel).1
          (pulled "/src/web" "Fast-forward")).1
     = pullResults unit (sampleKeyPullAll worldBefore sampleModel).1.
Proof.
  assert (pendingPulls unit (sampleKeyPullAll worldBefore sampleModel).1 !! "/src/web"
          = Some "a1") as Hpend by (vm_compute; reflexivity).
  split; [exact worldAfter_strict |].
  split; [exact Hpend |].
  split; [reflexivity |].
  destruct (result_appended_iff_reportable unit (fun _ => Unfiltered)
              (fun _ => EmptyString) (fun l _ => l) (fun l _ => (l, Nil))
              (fun _ => tt) (fun _ => tt) worldAfter
              (sampleKeyPullAll worldBefore sampleModel).1
              (pulled "/src/web" "Fast-forward")) as (_ & _ & _ & H).
  exact (H worldAfter_strict "a1" Hpend eq_refl).
Defined.

(** A completion for [/src/doc], which no one pulled. *)
Lemma stale_completion_keeps_results_witness :
  pendingPulls unit (sampleKeyPullAll worldBefore sampleModel).1 !! "/src/doc" = None
  /\ pullResults unit
       (sampleHandle worldAfter (sampleKeyPullAll worldBefore sampleModel).1
          (pulled "/src/doc" "Fast-forward")).1
     = pullResults unit (sampleKeyPullAll worldBefore sampleModel).1.
Proof.
  assert (pendingPulls unit (sampleKeyPullAll worldBefore sampleModel).1 !! "/src/doc"
          = None) as Hnone by (vm_compute; reflexivity).
  split; [exact Hnone |].
  destruct (stale_completion_keeps_results unit (fun _ => Unfiltered)
              (fun _ => EmptyString) (fun l _ => l) (fun l _ => (l, Nil))
              (fun _ => tt) (fun _ => tt) worldAfter
              (sampleKeyPullAll worldBefore sampleModel).1
              (pulled "/src/doc" "Fast-forward")) as (H & _).
  apply (H Hnone).
Defined.

(** The round runs as expected: after the pull of [/src/api] one entry
    with two commits is recorded and [/src/web] is still pending; after the
    pull of [/src/web], which brought nothing, the round is done and the
    results are shown. *)
Example sample_round :
  let m1 := (sampleKeyPullAll worldBefore sampleModel).1 in
  let m2 := (sampleHandle worldAfter m1 (pulled "/src/api" "Fast-forward")).1 in
  let m3 := (sampleHandle worldAfter m2 (pulled "/src/web" "Already up to date.")).1 in
  map_to_list (pendingPulls unit m1) = [("/src/web", "a1"); ("/src/api", "a1")]
  /\ map_to_list (pendingPulls unit m2) = [("/src/web", "a1")]
  /\ (RepoPath <$> pullResults unit m2) = ["/src/api"]
  /\ pulling unit m2 = true
  /\ map_to_list (pendingPulls unit m3) = []
  /\ pullResults unit m3 = pullResults unit m2
  /\ pulling unit m3 = false
  /\ mode unit m3 = pullResultsView.
Proof. vm_compute. repeat split. Qed.

End PullRoundFacts.

(* ===================================================================== *)
(** * Properties of the detail view's keys *)
(* ===================================================================== *)

Module DetailKeysFacts.
Import GoStrings Types Tea Git DetailKeys.

Section WithWidgets.
Variable TextInput : Type.
Variable Value : TextInput -> string.
Variable SetValue : TextInput -> string -> TextInput.
Variable Focus : TextInput -> TextInput.
Variable Blur : TextInput -> TextInput.
Variable inputUpdate : TextInput -> string -> TextInput * Cmd.
Variable Viewport : Type.
Variable viewportUpdate : Viewport -> string -> Viewport * Cmd.

Local Abbreviation model := (model TextInput Viewport).
Local Abbreviation Outcome := (Outcome TextInput Viewport).
Local Abbreviation Ok := (Ok TextInput Viewport).
Local Abbreviation detailViewKey :=
  (detailViewKey TextInput Value SetValue Focus Blur inputUpdate Viewport viewportUpdate).
Local Abbreviation branchesKey := (branchesKey TextInput Viewport).
Local Abbreviation onBranch := (onBranch TextInput Viewport).
Local Abbreviation branchAt := (branchAt TextInput Viewport).
Local Abbreviation set_statusMsg := (set_statusMsg TextInput Viewport).
Local Abbreviation detailRepo := (detailRepo TextInput Viewport).
Local Abbreviation detailFocus := (detailFocus TextInput Viewport).
Local Abbreviation deletes := (deletes TextInput Viewport).

Lemma branchAt_nonempty (m : model) b :
  branchAt m = Some b ->
  (0 <? Z.of_nat (length (branches TextInput Viewport m))) = true.
Proof.
  unfold DetailKeys.branchAt.
  destruct (_ && _) eqn:E; [| discriminate].
  intros _. apply andb_true_iff in E as [H1 H2].
  apply Z.leb_le in H1. apply Z.ltb_lt in H2. apply Z.ltb_lt. lia.
Qed.

Lemma set_statusMsg_same (m : model) :
  set_statusMsg (statusMsg TextInput Viewport m) m = m.
Proof. destruct m; reflexivity. Qed.

(** In the branches pane a deletion is dispatched by "x" and "X" only,
    for the selected branch, when it is local and not current. *)
Lemma branchesKey_delete exec (m m' : model) key cmd path branch force :
  branchesKey exec m key = Ok m' cmd ->
  deleteBranch path branch force ∈ tasksOf cmd ->
  deletes m key path branch force /\ m' = m.
Proof.
  unfold DetailKeys.branchesKey, DetailKeys.onBranch, DetailKeys.deletes.
  repeat match goal with
         | |- context [isKey key ?l] => destruct (isKey key l) eqn:?
         end;
    try (intros [= <- <-]; simpl; intros H; inversion H; fail).
  - (* enter *)
    destruct (detailRepo m) as [repo |]; [| intros [= <- <-] H; inversion H].
    destruct (0 <? _); [| intros [= <- <-] H; inversion H].
    destruct (branchAt m) as [b |]; [| discriminate].
    destruct (IsCurrent b); [intros [= <- <-] H; inversion H |].
    destruct (hasUncommittedChanges exec (Path repo)); intros [= <- <-] H; simpl in H.
    + inversion H.
    + apply list_elem_of_singleton in H. discriminate H.
  - (* x *)
    destruct (detailRepo m) as [repo |] eqn:Hrepo; [| intros [= <- <-] H; inversion H].
    destruct (0 <? _); [| intros [= <- <-] H; inversion H].
    destruct (branchAt m) as [b |] eqn:Hb; [| discriminate].
    destruct (IsCurrent b) eqn:Hcur; [intros [= <- <-] H; inversion H |].
    destruct (IsLocal b) eqn:Hloc; simpl; [| intros [= <- <-] H; inversion H].
    destruct (IsRemote b) eqn:Hrem; intros [= <- <-] H; simpl in H; [inversion H |].
    apply list_elem_of_singleton in H. injection H as -> -> ->.
    split; [| reflexivity].
    exists repo, b. repeat split; auto; try congruence.
    match goal with
    | E : isKey key ["x"] = true |- _ =>
        apply bool_decide_eq_true in E; apply list_elem_of_singleton in E; exact E
    end.
  - (* X *)
    destruct (detailRepo m) as [repo |] eqn:Hrepo; [| intros [= <- <-] H; inversion H].
    destruct (0 <? _); [| intros [= <- <-] H; inversion H].
    destruct (branchAt m) as [b |] eqn:Hb; [| discriminate].
    destruct (IsCurrent b) eqn:Hcur; [intros [= <- <-] H; inversion H |].
    destruct (IsLocal b) eqn:Hloc; simpl; intros [= <- <-] H; simpl in H; [| inversion H].
    apply list_elem_of_singleton in H. injection H as -> -> ->.
    split; [| reflexivity].
    exists repo, b. repeat split; auto; try congruence.
    intros _.
    match goal with
    | E : isKey key ["X"] = true |- _ =>
        apply bool_decide_eq_true in E; apply list_elem_of_singleton in E; exact E
    end.
  - (* p *)
    destruct (detailRepo m) as [repo |]; [| intros [= <- <-] H; inversion H].
    destruct (0 <? _); [| intros [= <- <-] H; inversion H].
    destruct (branchAt m) as [b |]; [| discriminate].
    destruct (IsLocal b); simpl; [intros [= <- <-] H; inversion H |].
    destruct (IsRemote b); simpl; intros [= <- <-] H; simpl in H; [| inversion H].
    apply list_elem_of_singleton in H. discriminate H.
Qed.

(** C9: in the branches pane, whatever the key, a branch deletion is
    dispatched only for the selected branch, only when it is local and not
    current, by "x" only when it is not on the remote either and by "X"
    otherwise, and the model is then unchanged. When the selected branch is
    the current one, "x" and "X" dispatch nothing and change nothing but
    the status message. *)
Theorem current_branch_is_never_deleted (exec : Exec) (m : model) (key : string) :
  detailFocus m = paneBranches ->
  (forall m' cmd path branch force,
      detailViewKey exec m key = Ok m' cmd ->
      deleteBranch path branch force ∈ tasksOf cmd ->
      deletes m key path branch force /\ m' = m)
  /\ (forall b,
         branchAt m = Some b -> IsCurrent b = true -> key = "x" \/ key = "X" ->
         exists status,
           detailViewKey exec m key = Ok (set_statusMsg status m) Nil
           /\ (detailRepo m <> None -> status = "Cannot delete current branch")).
Proof.
  intros Hfocus. split.
  - intros m' cmd path branch force.
    unfold DetailKeys.detailViewKey, DetailKeys.commonKey. rewrite Hfocus. cbn [Z.eqb paneBranches paneCommand paneStatus Pos.eqb andb negb].
    destruct (isKey key ["q"; "esc"]); [intros [= <- <-] H; inversion H |].
    destruct (isKey key ["tab"]); [intros [= <- <-] H; inversion H |].
    destruct (isKey key ["shift+tab"]); [intros [= <- <-] H; inversion H |].
    destruct (isKey key ["r"]).
    + destruct (detailRepo m) as [repo |].
      * intros [= <- <-] H. simpl in H.
        apply elem_of_cons in H as [H | H]; [discriminate H |].
        apply list_elem_of_singleton in H. discriminate H.
      * apply branchesKey_delete.
    + apply branchesKey_delete.
  - intros b Hb Hcur Hkey.
    pose proof (branchAt_nonempty m b Hb) as Hlen.
    unfold DetailKeys.detailViewKey, DetailKeys.commonKey. rewrite Hfocus.
    destruct Hkey as [-> | ->].
    + cbn. unfold DetailKeys.branchesKey. cbn. unfold DetailKeys.onBranch.
      destruct (detailRepo m) as [repo |].
      * rewrite Hlen, Hb, Hcur. eexists. split; [reflexivity | auto].
      * exists (statusMsg TextInput Viewport m). rewrite set_statusMsg_same.
        split; [reflexivity | intros H; contradiction].
    + cbn. unfold DetailKeys.branchesKey. cbn. unfold DetailKeys.onBranch.
      destruct (detailRepo m) as [repo |].
      * rewrite Hlen, Hb, Hcur. eexists. split; [reflexivity | auto].
      * exists (statusMsg TextInput Viewport m). rewrite set_statusMsg_same.
        split; [reflexivity | intros H; contradiction].
Qed.

End WithWidgets.

Lemma current_branch_is_never_deleted_witness :
  detailFocus string unit (sampleModel 0) = paneBranches
  /\ sampleKey quietWorld (sampleModel 0) "X"
     = Ok string unit
          (set_statusMsg string unit "Cannot delete current branch" (sampleModel 0)) Nil.
Proof.
  assert (detailFocus string unit (sampleModel 0) = paneBranches) as Hfocus by reflexivity.
  split; [exact Hfocus |].
  destruct (current_branch_is_never_deleted string (fun input => input)
              (fun _ text => text) (fun input => input) (fun input => input)
              (fun input key => (input +:+ key, Nil)) unit (fun vp _ => (vp, Nil))
              quietWorld (sampleModel 0) "X" Hfocus) as [_ H].
  destruct (H _ eq_refl eq_refl (or_intror eq_refl)) as (status & Hkey & Hstatus).
  rewrite (Hstatus ltac:(discriminate)) in Hkey. exact Hkey.
Defined.

(** "x" on the local-only branch [fix] dispatches its deletion; on the
    current branch and on the remote-only branch it dispatches nothing. *)
Example sample_delete_keys :
  sampleKey quietWorld (sampleModel 1) "x"
  = Ok string unit (sampleModel 1) (Run (deleteBranch "/src/api" "fix" false))
  /\ sampleKey quietWorld (sampleModel 0) "x"
     = Ok string unit
          (set_statusMsg string unit "Cannot delete current branch" (sampleModel 0)) Nil
  /\ sampleKey quietWorld (sampleModel 2) "X"
     = Ok string unit (set_statusMsg string unit "Branch is remote-only" (sampleModel 2)) Nil
  /\ sampleKey quietWorld (sampleModel 3) "x" = Panic string unit.
Proof. vm_compute. repeat split. Qed.

End DetailKeysFacts.

(* ===================================================================== *)
(** * More on the result tree cursor *)
(* ===================================================================== *)

Module CursorMoreFacts.
Import Cursor CursorMore.

Ltac cursor_cases c :=
  destruct c as [l r ci fi]; cbn [Level RepoIdx CommitIdx FileIdx] in *;
  match goal with
  | H : 0 <= l <= 2 |- _ =>
      assert (l = 0 \/ l = 1 \/ l = 2) as [-> | [-> | ->]] by lia
  end.

(** X1: on a cursor at one of the three levels whose index is within
    [0, maxItems - 1], [MoveDown] and [MoveUp] move the index of that level
    by one and stop at the ends: they never leave the range and never
    wrap. They report a move exactly when the index changed, and touch
    neither the level nor the indices of the other levels. *)
Theorem moves_stay_in_range (c : PullResultsCursor) (maxItems : Z) :
  0 <= Level c <= 2 ->
  0 <= indexAt c <= maxItems - 1 ->
  let down := MoveDown c maxItems in
  let up := MoveUp c in
  indexAt down.1 = Z.min (indexAt c + 1) (maxItems - 1)
  /\ indexAt up.1 = Z.max (indexAt c - 1) 0
  /\ (down.2 = true <-> indexAt c < maxItems - 1)
  /\ (up.2 = true <-> 0 < indexAt c)
  /\ (down.2 = false -> down.1 = c)
  /\ (up.2 = false -> up.1 = c)
  /\ Level down.1 = Level c /\ otherIndices down.1 = otherIndices c
  /\ Level up.1 = Level c /\ otherIndices up.1 = otherIndices c.
Proof.
  intros Hlevel Hidx. cbv zeta.
  cursor_cases c; unfold indexAt, otherIndices, MoveDown, MoveUp in *;
    simpl in *;
    repeat match goal with
           | |- context [?a <? ?b] => destruct (Z.ltb_spec a b)
           | |- context [?a >? ?b] => destruct (Z.gtb_spec a b)
           end;
    simpl;
    repeat split; intros; try reflexivity; try discriminate; try lia.
Qed.

Lemma moves_stay_in_range_witness :
  indexAt (MoveDown {| Level := 1; RepoIdx := 0; CommitIdx := 4; FileIdx := 0 |} 5).1 = 4
  /\ indexAt (MoveDown {| Level := 1; RepoIdx := 0; CommitIdx := 3; FileIdx := 0 |} 5).1 = 4.
Proof.
  split.
  - rewrite (proj1 (moves_stay_in_range
                      {| Level := 1; RepoIdx := 0; CommitIdx := 4; FileIdx := 0 |} 5
                      ltac:(simpl; lia) ltac:(unfold indexAt; simpl; lia))).
    reflexivity.
  - rewrite (proj1 (moves_stay_in_range
                      {| Level := 1; RepoIdx := 0; CommitIdx := 3; FileIdx := 0 |} 5
                      ltac:(simpl; lia) ltac:(unfold indexAt; simpl; lia))).
    reflexivity.
Defined.

(** X2: a [MoveDown] that moved is undone by [MoveUp], and a [MoveUp] that
    moved is undone by [MoveDown], on a cursor at one of the three levels
    whose index is within the list. *)
Theorem move_down_up_round_trip (c : PullResultsCursor) (maxItems : Z) :
  0 <= Level c <= 2 ->
  0 <= indexAt c <= maxItems - 1 ->
  ((MoveDown c maxItems).2 = true -> MoveUp (MoveDown c maxItems).1 = (c, true))
  /\ ((MoveUp c).2 = true -> MoveDown (MoveUp c).1 maxItems = (c, true)).
Proof.
  intros Hlevel Hidx.
  cursor_cases c; unfold indexAt, MoveDown, MoveUp in *;
    simpl in *;
    split;
    repeat (match goal with
            | |- context [?a <? ?b] => destruct (Z.ltb_spec a b)
            | |- context [?a >? ?b] => destruct (Z.gtb_spec a b)
            end; simpl in * );
    intros; try discriminate; try lia; repeat f_equal; lia.
Qed.

Lemma move_down_up_round_trip_witness :
  MoveUp (MoveDown {| Level := 2; RepoIdx := 1; CommitIdx := 0; FileIdx := 2 |} 4).1
  = ({| Level := 2; RepoIdx := 1; CommitIdx := 0; FileIdx := 2 |}, true).
Proof.
  apply (move_down_up_round_trip
           {| Level := 2; RepoIdx := 1; CommitIdx := 0; FileIdx := 2 |} 4);
    [simpl; lia | unfold indexAt; simpl; lia | reflexivity].
Defined.

(** X3: the five methods keep the level among repository (0), commit (1)
    and file (2). [GoDeeper] moves exactly below the file level and then
    raises the level by one; [GoUp] moves exactly above the repository level
    and then lowers it by one; [Reset] gives the cursor at the first
    repository. *)
Theorem level_stays_valid (c : PullResultsCursor) (maxItems : Z) :
  0 <= Level c <= 2 ->
  0 <= Level (GoDeeper c).1 <= 2
  /\ 0 <= Level (GoUp c).1 <= 2
  /\ Level (MoveDown c maxItems).1 = Level c
  /\ Level (MoveUp c).1 = Level c
  /\ Level (Reset c) = 0
  /\ ((GoDeeper c).2 = true <-> Level c < 2)
  /\ ((GoDeeper c).2 = true -> Level (GoDeeper c).1 = Level c + 1)
  /\ ((GoDeeper c).2 = false -> (GoDeeper c).1 = c)
  /\ ((GoUp c).2 = true <-> 0 < Level c)
  /\ ((GoUp c).2 = true -> Level (GoUp c).1 = Level c - 1)
  /\ ((GoUp c).2 = false -> (GoUp c).1 = c).
Proof.
  intros Hlevel.
  cursor_cases c; unfold GoDeeper, GoUp, MoveDown, MoveUp, Reset;
    simpl;
    repeat match goal with
           | |- context [?a <? ?b] => destruct (Z.ltb_spec a b)
           | |- context [?a >? ?b] => destruct (Z.gtb_spec a b)
           end;
    simpl;
    repeat split; intros; try reflexivity; try discriminate; try lia.
Qed.

Lemma level_stays_valid_witness :
  Level (GoDeeper {| Level := 2; RepoIdx := 0; CommitIdx := 1; FileIdx := 2 |}).1 = 2.
Proof.
  pose proof (level_stays_valid {| Level := 2; RepoIdx := 0; CommitIdx := 1; FileIdx := 2 |}
                0 ltac:(simpl; lia)) as (_ & _ & _ & _ & _ & _ & _ & H & _).
  rewrite (H eq_refl). reflexivity.
Defined.

End CursorMoreFacts.

(* ===================================================================== *)
(** * More on the diff-stat parser *)
(* ===================================================================== *)

Module GitStatMoreFacts.
Import GoStrings GoStringsFacts GitStat GitStatFacts.

Lemma len_nonneg (s : string) : 0 <= len s.
Proof. unfold len. lia. Qed.

Lemma parseStatLine_nonneg line fc :
  parseStatLine line = Some fc -> 0 <= Additions fc /\ 0 <= Deletions fc.
Proof.
  unfold parseStatLine.
  destruct (_ || _); [discriminate |].
  destruct (bool_decide _); [discriminate |].
  destruct (FindStringSubmatch line) as [matches |] eqn:Hm; [| discriminate].
  destruct (bool_decide_reflect (m2 matches = EmptyString)) as [He | Hne]; cbn [negb andb].
  - intros [= <-]. simpl. split; apply len_nonneg.
  - destruct (match_group2_numeral line matches Hm Hne) as [count Hd].
    pose proof (parseDigits_nonneg _ _ Hd) as Hpos.
    rewrite (Atoi_digits _ _ Hd).
    destruct ((len (m3 matches) =? 0) && (len (m4 matches) =? 0)).
    + destruct (count <=? maxInt); intros [= <-]; simpl.
      * pose proof (Z.quot_pos count 2 Hpos ltac:(lia)).
        assert (count ÷ 2 <= count) by (apply Z.quot_le_upper_bound; lia).
        lia.
      * split; apply len_nonneg.
    + intros [= <-]. simpl. split; apply len_nonneg.
Qed.

(** X4: whatever the output of git, no file change [parseGitStatOutput]
    returns has a negative number of additions or of deletions. *)
Theorem file_changes_are_nonnegative (output : string) (fc : FileChange) :
  fc ∈ parseGitStatOutput output -> 0 <= Additions fc /\ 0 <= Deletions fc.
Proof.
  unfold parseGitStatOutput. intros Hin.
  apply list_elem_of_omap in Hin as (line & _ & Hline).
  exact (parseStatLine_nonneg line fc Hline).
Qed.

Lemma file_changes_are_nonnegative_witness :
  0 <= Additions {| Path := "src/app.go"; Additions := 6; Deletions := 7 |}
  /\ 0 <= Deletions {| Path := "src/app.go"; Additions := 6; Deletions := 7 |}.
Proof.
  apply (file_changes_are_nonnegative " src/app.go | 13").
  vm_compute. apply list_elem_of_singleton. reflexivity.
Defined.

Lemma parseStatLine_needs_bar line fc :
  parseStatLine line = Some fc ->
  hasByte isBar line = true
  /\ Contains line "files changed" = false
  /\ Contains line "file changed" = false.
Proof.
  unfold parseStatLine.
  destruct (Contains line "files changed"); [discriminate |].
  destruct (Contains line "file changed"); [discriminate |]. cbn [orb].
  destruct (bool_decide _); [discriminate |].
  unfold FindStringSubmatch.
  destruct (statPrefix line) as [[path rest] |] eqn:E; [| discriminate].
  intros _. split; [| auto]. exact (statPrefix_hasBar _ _ E).
Qed.

(** X5: a line yields a file change only if it holds a bar and contains
    neither "files changed" nor "file changed"; so there are at most as
    many file changes as lines, and an output of white space only yields
    none. *)
Theorem only_stat_lines_yield_changes (output : string) :
  (forall fc,
      fc ∈ parseGitStatOutput output ->
      exists line,
        line ∈ Split (TrimSpace output) LF
        /\ parseStatLine line = Some fc
        /\ hasByte isBar line = true
        /\ Contains line "files changed" = false
        /\ Contains line "file changed" = false)
  /\ (length (parseGitStatOutput output) <= length (Split (TrimSpace output) LF))%nat
  /\ (TrimSpace output = EmptyString -> parseGitStatOutput output = []).
Proof.
  unfold parseGitStatOutput. split; [| split].
  - intros fc Hin. apply list_elem_of_omap in Hin as (line & Hline & Hfc).
    exists line. split; [exact Hline |]. split; [exact Hfc |].
    exact (parseStatLine_needs_bar line fc Hfc).
  - generalize (Split (TrimSpace output) LF). intros l.
    induction l as [| x l IH]; [simpl; lia |].
    cbn [omap list_omap]. fold (omap parseStatLine l).
    destruct (parseStatLine x); cbn [length]; lia.
  - intros ->. reflexivity.
Qed.

Lemma only_stat_lines_yield_changes_witness :
  TrimSpace "   " = EmptyString /\ parseGitStatOutput "   " = [].
Proof.
  assert (TrimSpace "   " = EmptyString) as H by reflexivity.
  split; [exact H |].
  exact (proj2 (proj2 (only_stat_lines_yield_changes "   ")) H).
Defined.

End GitStatMoreFacts.

(* ===================================================================== *)
(** * More on the status refresher *)
(* ===================================================================== *)

Module StatusMoreFacts.
Import GoStrings Types Git Status.

Lemma SplitGo_nonempty sep s : forall cur, (1 <= length (SplitGo sep cur s))%nat.
Proof.
  induction s as [| c s IH]; intros cur; simpl; [lia |].
  destruct (ascii_dec c sep); [simpl; lia | apply IH].
Qed.

Lemma Split_nonempty s sep : (1 <= length (Split s sep))%nat.
Proof. apply SplitGo_nonempty. Qed.

(** X6: whatever git answers, the message of [checkGitStatus] names the
    path asked for and a branch that is not empty ("?" stands for an
    unknown one); its status is never [StatusUnknown]; it says
    [StatusCleanBehind] only with a positive behind count, [StatusClean] and
    [StatusError] only with behind count 0, and [StatusDirty] only with a
    text "<n> changed" where n is at least 1. *)
Theorem status_message_is_consistent (exec : Exec) (path : string) :
  let msg := checkGitStatus exec path in
  su_path msg = path
  /\ su_branch msg <> EmptyString
  /\ su_status msg <> StatusUnknown
  /\ (su_status msg = StatusCleanBehind ->
        su_behindCount msg > 0 /\ su_text msg = EmptyString)
  /\ (su_status msg = StatusClean ->
        su_behindCount msg = 0 /\ su_text msg = EmptyString)
  /\ (su_status msg = StatusError ->
        su_behindCount msg = 0 /\ su_text msg = "failed to get status")
  /\ (su_status msg = StatusDirty ->
        exists n, 1 <= n /\ su_text msg = Itoa n +:+ " changed").
Proof.
  cbv zeta. unfold checkGitStatus.
  set (branchOut := TrimSpace (output (exec "git" _))).
  assert ((if bool_decide (branchOut = EmptyString) then "?" else branchOut)
          <> EmptyString) as Hbranch.
  { destruct (bool_decide_reflect (branchOut = EmptyString)); [discriminate | assumption]. }
  destruct (failed (exec "git" (statusQuery path))).
  { cbn. repeat split; intros; auto; try congruence. }
  destruct (bool_decide (TrimSpace (output (exec "git" (statusQuery path))) = EmptyString)).
  - destruct (Z.gtb_spec (behindCountOf exec path) 0); cbn;
      repeat split; intros; auto; try congruence; lia.
  - cbn. split; [reflexivity |]. split; [exact Hbranch |].
    split; [discriminate |].
    split; [discriminate |]. split; [discriminate |]. split; [discriminate |].
    intros _. eexists. split; [| reflexivity].
    match goal with
    | |- 1 <= Z.of_nat ?x => assert (1 <= x)%nat by apply Split_nonempty; lia
    end.
Qed.

Lemma status_message_is_consistent_witness :
  su_status (checkGitStatus dirtyNoUpstream "/repo") = StatusDirty
  /\ exists n, 1 <= n
               /\ su_text (checkGitStatus dirtyNoUpstream "/repo") = Itoa n +:+ " changed".
Proof.
  assert (su_status (checkGitStatus dirtyNoUpstream "/repo") = StatusDirty) as H
      by reflexivity.
  split; [exact H |].
  destruct (status_message_is_consistent dirtyNoUpstream "/repo")
    as (_ & _ & _ & _ & _ & _ & Hd).
  exact (Hd H).
Defined.

(** X7: [hasUncommittedChanges], which guards a branch switch, and
    [checkGitStatus] read the same query: whenever that query succeeds,
    the switch is held back for uncommitted changes exactly when the status
    refresher reports the repository dirty. *)
Theorem uncommitted_changes_iff_dirty (exec : Exec) (path : string) :
  failed (exec "git" (statusQuery path)) = false ->
  (DetailKeys.hasUncommittedChanges exec path = true
   <-> su_status (checkGitStatus exec path) = StatusDirty).
Proof.
  intros Hok. unfold DetailKeys.hasUncommittedChanges, checkGitStatus.
  change ["-C"; path; "status"; "--porcelain"] with (statusQuery path).
  rewrite Hok.
  destruct (bool_decide (TrimSpace (output (exec "git" (statusQuery path))) = EmptyString)).
  - destruct (behindCountOf exec path >? 0); cbn; split; discriminate.
  - cbn. split; reflexivity.
Qed.

Lemma uncommitted_changes_iff_dirty_witness :
  failed (dirtyNoUpstream "git" (statusQuery "/repo")) = false
  /\ DetailKeys.hasUncommittedChanges dirtyNoUpstream "/repo" = true.
Proof.
  assert (failed (dirtyNoUpstream "git" (statusQuery "/repo")) = false) as H by reflexivity.
  split; [exact H |].
  apply (uncommitted_changes_iff_dirty dirtyNoUpstream "/repo" H). reflexivity.
Defined.

End StatusMoreFacts.

(* ===================================================================== *)
(** * More on the branch reconciler *)
(* ===================================================================== *)

Module BranchesMoreFacts.
Import GoStrings Types Git Branches BranchesMore GoSort GoSortFacts.

(** One turn of the first loop appends the local entry and records the
    remote reference it claims. *)
Lemma addLocalBranch_entry remotes current branches seen entry :
  addLocalBranch remotes current (branches, seen) entry
  = (branches ++ [localEntry remotes current entry],
     match claimedRemote remotes entry with
     | Some r => {[ r ]} ∪ seen
     | None => seen
     end).
Proof.
  destruct entry as [localName remoteName].
  unfold addLocalBranch, localEntry, claimedRemote. cbn [fst snd].
  destruct (negb (bool_decide (remoteName = EmptyString))) eqn:E.
  - reflexivity.
  - destruct (bool_decide_reflect ("origin/" +:+ localName ∈ remotes)) as [Hin | Hnin].
    + cbn. rewrite (bool_decide_eq_true_2 _ Hin). reflexivity.
    + apply negb_false_iff, bool_decide_eq_true in E. subst remoteName. reflexivity.
Qed.

Lemma addLocalBranch_foldl remotes current entries :
  forall branches seen,
    foldl (addLocalBranch remotes current) (branches, seen) entries
    = (branches ++ (localEntry remotes current <$> entries),
       claimedRemotes remotes entries ∪ seen).
Proof.
  induction entries as [| entry entries IH]; intros branches seen; cbn [foldl].
  - rewrite app_nil_r. f_equal. unfold claimedRemotes. cbn.
    rewrite union_empty_l_L. reflexivity.
  - rewrite addLocalBranch_entry, IH. rewrite <- app_assoc. f_equal.
    unfold claimedRemotes. cbn [omap list_omap].
    destruct (claimedRemote remotes entry) as [r |]; [| reflexivity].
    cbn [list_to_set]. rewrite !(assoc_L (∪)). f_equal. apply (comm_L (∪)).
Qed.

Lemma addRemoteBranch_foldl seen names :
  forall branches,
    foldl (addRemoteBranch seen) branches names
    = branches ++ (remoteOnlyEntry <$> filter (fun r => r ∉ seen) names).
Proof.
  induction names as [| name names IH]; intros branches; cbn [foldl].
  - rewrite app_nil_r. reflexivity.
  - rewrite IH. unfold addRemoteBranch.
    destruct (bool_decide_reflect (name ∈ seen)) as [Hin | Hnin].
    + rewrite filter_cons_False by (intros H; exact (H Hin)). reflexivity.
    + rewrite filter_cons_True by exact Hnin. cbn. rewrite <- app_assoc. reflexivity.
Qed.

Lemma claimedRemotes_Permutation remotes (l l' : list (string * string)) :
  l ≡ₚ l' -> claimedRemotes remotes l = claimedRemotes remotes l'.
Proof.
  intros Hperm. unfold claimedRemotes. apply set_eq. intros r.
  rewrite !elem_of_list_to_set, !list_elem_of_omap.
  split; intros (x & Hx & Hc); exists x; split; auto.
  - rewrite <- Hperm. exact Hx.
  - rewrite Hperm. exact Hx.
Qed.

(** The names the two loops over git's output keep. *)
Lemma addRemoteLine_foldl lines : forall (acc : gset string) r,
  r ∈ foldl addRemoteLine acc lines ->
  r ∈ acc
  \/ (r <> EmptyString /\ HasSuffix r "/HEAD" = false
      /\ exists line, line ∈ lines /\ r = TrimSpace line).
Proof.
  induction lines as [| line lines IH]; intros acc r; cbn [foldl]; [auto |].
  intros Hr. apply IH in Hr as [Hr | (H1 & H2 & l & Hl & ->)].
  - unfold addRemoteLine in Hr.
    destruct (bool_decide_reflect (TrimSpace line = EmptyString)) as [He | Hne];
      cbn [negb andb] in Hr; [left; exact Hr |].
    destruct (HasSuffix (TrimSpace line) "/HEAD") eqn:Hs; cbn [negb] in Hr;
      [left; exact Hr |].
    apply elem_of_union in Hr as [Hr | Hr]; [| left; exact Hr].
    apply elem_of_singleton in Hr. subst r.
    right. repeat split; auto. exists line. split; [left | reflexivity].
  - right. repeat split; auto. exists l. split; [right; exact Hl | reflexivity].
Qed.

Lemma enumeratedRemotes_spec exec path r :
  r ∈ enumeratedRemotes exec path -> r <> EmptyString /\ HasSuffix r "/HEAD" = false.
Proof.
  unfold enumeratedRemotes. intros Hr.
  apply addRemoteLine_foldl in Hr as [Hr | (H1 & H2 & _)]; [| auto].
  apply elem_of_empty in Hr. contradiction.
Qed.

Lemma elem_of_reconciled exec path b :
  b ∈ reconciled exec path
  <-> (exists entry, entry ∈ map_to_list (enumeratedLocals exec path)
                     /\ b = localEntry (enumeratedRemotes exec path)
                                       (currentBranch exec path) entry)
      \/ (exists r, r ∈ enumeratedRemotes exec path
                    /\ (r ∉ claimedRemotes (enumeratedRemotes exec path)
                                           (map_to_list (enumeratedLocals exec path)))
                    /\ b = remoteOnlyEntry r).
Proof.
  unfold reconciled. cbv zeta. rewrite elem_of_app, !list_elem_of_fmap.
  split.
  - intros [(entry & -> & Hin) | (r & -> & Hin)].
    + left. exists entry. auto.
    + right. apply list_elem_of_filter in Hin as [Hnot Hin].
      apply elem_of_elements in Hin. exists r. auto.
  - intros [(entry & Hin & ->) | (r & Hin & Hnot & ->)].
    + left. exists entry. auto.
    + right. exists r. split; [reflexivity |].
      apply list_elem_of_filter. split; [exact Hnot |].
      apply elem_of_elements. exact Hin.
Qed.

Lemma filter_fmap_all {A B : Type} (P : B -> Prop) `{forall x, Decision (P x)}
    (f : A -> B) (l : list A) :
  (forall x, P (f x)) -> filter P (f <$> l) = f <$> l.
Proof.
  intros Hall. induction l as [| x l IH]; [reflexivity |].
  cbn [fmap list_fmap]. rewrite filter_cons_True by apply Hall.
  f_equal. exact IH.
Qed.

Lemma filter_fmap_none {A B : Type} (P : B -> Prop) `{forall x, Decision (P x)}
    (f : A -> B) (l : list A) :
  (forall x, ~ P (f x)) -> filter P (f <$> l) = [].
Proof.
  intros Hnone. induction l as [| x l IH]; [reflexivity |].
  cbn [fmap list_fmap]. rewrite filter_cons_False by apply Hnone. exact IH.
Qed.

Lemma claimedRemote_in remotes entries r :
  r ∈ claimedRemotes remotes entries
  <-> exists entry, entry ∈ entries /\ claimedRemote remotes entry = Some r.
Proof.
  unfold claimedRemotes. rewrite elem_of_list_to_set, list_elem_of_omap. reflexivity.
Qed.

Lemma compare_Lt_trans (s1 : string) : forall s2 s3,
  String.compare s1 s2 = Lt -> String.compare s2 s3 = Lt -> String.compare s1 s3 = Lt.
Proof.
  induction s1 as [| a1 s1 IH]; intros [| a2 s2] [| a3 s3]; simpl;
    try discriminate; auto.
  destruct (Ascii.compare a1 a2) eqn:H12; try discriminate.
  - apply Ascii.compare_eq_iff in H12. subst a2.
    destruct (Ascii.compare a1 a3); try discriminate; eauto.
  - intros _. destruct (Ascii.compare a2 a3) eqn:H23; try discriminate.
    + apply Ascii.compare_eq_iff in H23. subst a3. rewrite H12. reflexivity.
    + intros _.
      assert (Ascii.compare a1 a3 = Lt) as ->; [| reflexivity].
      unfold Ascii.compare in *. apply N.compare_lt_iff.
      etrans; apply N.compare_lt_iff; eassumption.
Qed.

Lemma ltb_trans (s1 s2 s3 : string) :
  String.ltb s1 s2 = true -> String.ltb s2 s3 = true -> String.ltb s1 s3 = true.
Proof.
  unfold String.ltb. intros H12 H23.
  destruct (String.compare s1 s2) eqn:E12; try discriminate.
  destruct (String.compare s2 s3) eqn:E23; try discriminate.
  rewrite (compare_Lt_trans _ _ _ E12 E23). reflexivity.
Qed.

Lemma ltb_asym (s1 s2 : string) :
  String.ltb s1 s2 = true -> String.ltb s2 s1 = false.
Proof.
  unfold String.ltb. rewrite (String.compare_antisym s2 s1).
  destruct (String.compare s1 s2); simpl; congruence.
Qed.

Lemma sortClass_range b : 0 <= sortClass b <= 3.
Proof.
  unfold sortClass. destruct (IsCurrent b), (IsLocal b), (IsRemote b); simpl; lia.
Qed.

Lemma branchLess_spec (bi bj : BranchInfo) :
  ~ (IsCurrent bi = true /\ IsCurrent bj = true) ->
  (branchLess bi bj = true
   <-> sortClass bi < sortClass bj
       \/ (sortClass bi = sortClass bj
           /\ String.ltb (BranchName bi) (BranchName bj) = true)).
Proof.
  intros Hone. unfold branchLess, sortClass.
  destruct (IsCurrent bi), (IsCurrent bj);
    try (exfalso; apply Hone; split; reflexivity).
  - destruct (IsLocal bj), (IsRemote bj); simpl; split; auto; intros _; left; lia.
  - destruct (IsLocal bi), (IsRemote bi); simpl; split;
      try discriminate; intros [? | [? _]]; lia.
  - destruct (IsLocal bi), (IsRemote bi), (IsLocal bj), (IsRemote bj); simpl;
      split;
      try (intros _; left; lia);
      try discriminate;
      try (intros H; right; split; [reflexivity | exact H]);
      try (intros [? | [? H]]; [lia | first [exact H | lia]]).
Qed.

(** X9: the comparison given to [sort.Slice] orders two entries that are
    not both current by class (current, local with remote, local only,
    remote only) and, within a class, by name. So among such entries it is
    asymmetric; it is transitive on all entries. Two current entries are
    each less than the other. *)
Theorem branchLess_orders_by_class_then_name (bi bj bk : BranchInfo) :
  (~ (IsCurrent bi = true /\ IsCurrent bj = true) ->
   (branchLess bi bj = true
    <-> sortClass bi < sortClass bj
        \/ (sortClass bi = sortClass bj
            /\ String.ltb (BranchName bi) (BranchName bj) = true))
   /\ (branchLess bi bj = true -> branchLess bj bi = false))
  /\ (branchLess bi bj = true -> branchLess bj bk = true -> branchLess bi bk = true)
  /\ (IsCurrent bi = true -> IsCurrent bj = true ->
      branchLess bi bj = true /\ branchLess bj bi = true).
Proof.
  split; [| split].
  - intros Hone. split; [exact (branchLess_spec bi bj Hone) |].
    intros Hlt. apply (branchLess_spec bi bj Hone) in Hlt.
    destruct (branchLess bj bi) eqn:Hgt; [| reflexivity].
    apply branchLess_spec in Hgt; [| tauto].
    destruct Hlt as [Hlt | [Heq Hlt]], Hgt as [Hgt | [Heq' Hgt]]; try lia.
    apply ltb_asym in Hlt. congruence.
  - intros Hij Hjk.
    destruct (IsCurrent bi) eqn:Hci; [unfold branchLess; rewrite Hci; reflexivity |].
    destruct (IsCurrent bj) eqn:Hcj;
      [unfold branchLess in Hij; rewrite Hci, Hcj in Hij; discriminate |].
    destruct (IsCurrent bk) eqn:Hck;
      [unfold branchLess in Hjk; rewrite Hcj, Hck in Hjk; discriminate |].
    apply branchLess_spec in Hij; [| rewrite Hci; intros [? _]; discriminate].
    apply branchLess_spec in Hjk; [| rewrite Hcj; intros [? _]; discriminate].
    apply branchLess_spec; [rewrite Hci; intros [? _]; discriminate |].
    destruct Hij as [Hij | [Hij Hnij]], Hjk as [Hjk | [Hjk Hnjk]];
      [left; lia | left; lia | left; lia |].
    right. split; [lia |]. exact (ltb_trans _ _ _ Hnij Hnjk).
  - intros Hi Hj. unfold branchLess. rewrite Hi, Hj. split; reflexivity.
Qed.

Lemma branchLess_orders_by_class_then_name_witness :
  branchLess (remoteOnlyEntry "origin/next") (localEntry ∅ "main" ("fix", "")) = false.
Proof.
  apply (proj1 (branchLess_orders_by_class_then_name
                  (localEntry ∅ "main" ("fix", "")) (remoteOnlyEntry "origin/next")
                  (remoteOnlyEntry "origin/next")));
    [intros [H _]; discriminate H | reflexivity].
Defined.

Section WithOrders.
Variable sortSlice : forall A : Type, (A -> A -> bool) -> list A -> list A.
Variable rangeOrder : forall A : Type, list A -> list A.
Hypothesis sortSlice_Permutation :
  forall (A : Type) (less : A -> A -> bool) (l : list A), sortSlice A less l ≡ₚ l.
Hypothesis rangeOrder_Permutation :
  forall (A : Type) (l : list A), rangeOrder A l ≡ₚ l.

Lemma loadBranches_branches (exec : Exec) (path : string) :
  bl_branches (loadBranches sortSlice rangeOrder exec path) ≡ₚ reconciled exec path.
Proof.
  unfold loadBranches, reconciled.
  fold (currentBranch exec path) (enumeratedLocals exec path) (enumeratedRemotes exec path).
  rewrite addLocalBranch_foldl. cbn [bl_branches app].
  rewrite sortSlice_Permutation, addRemoteBranch_foldl.
  rewrite union_empty_r_L.
  rewrite (claimedRemotes_Permutation _ _ _ (rangeOrder_Permutation _ _)).
  apply Permutation_app.
  - apply fmap_Permutation, rangeOrder_Permutation.
  - apply fmap_Permutation. rewrite (rangeOrder_Permutation _ (elements _)). reflexivity.
Qed.

Lemma loadBranches_current (exec : Exec) (path : string) :
  bl_current (loadBranches sortSlice rangeOrder exec path) = currentBranch exec path
  /\ bl_path (loadBranches sortSlice rangeOrder exec path) = path.
Proof.
  unfold loadBranches.
  destruct (foldl _ _ _) as [branches seen]. split; reflexivity.
Qed.

(** X8: up to the order of its entries, the list [loadBranches] returns
    is one local entry for each local branch git enumerated, followed by
    one remote-only entry for each enumerated remote reference that no
    local branch claims (as its configured upstream, or as [origin/<name>]
    when it has none); the current branch reported is the one git
    printed. *)
Theorem loadBranches_is_reconciled (exec : Exec) (path : string) :
  bl_branches (loadBranches sortSlice rangeOrder exec path) ≡ₚ reconciled exec path
  /\ bl_current (loadBranches sortSlice rangeOrder exec path) = currentBranch exec path
  /\ bl_path (loadBranches sortSlice rangeOrder exec path) = path.
Proof.
  split; [apply loadBranches_branches | apply loadBranches_current].
Qed.

(** X10: the local entries of the list [loadBranches] returns are the
    local branches git enumerated, each exactly once: a local entry bears
    an enumerated name, every enumerated name has a local entry, which is
    marked current exactly when it is the branch git printed as current and
    keeps a configured upstream as its remote name, and no two local
    entries share a name. *)
Theorem local_entries_are_the_enumerated_branches (exec : Exec) (path : string) :
  let msg := loadBranches sortSlice rangeOrder exec path in
  let locals := enumeratedLocals exec path in
  (forall b, b ∈ bl_branches msg -> IsLocal b = true ->
             is_Some (locals !! BranchName b))
  /\ (forall name upstream,
         locals !! name = Some upstream ->
         exists b, b ∈ bl_branches msg /\ IsLocal b = true /\ BranchName b = name
                   /\ (IsCurrent b = true <-> name = bl_current msg)
                   /\ (upstream <> EmptyString -> RemoteName b = upstream))
  /\ NoDup (BranchName <$> filter (fun b => IsLocal b = true) (bl_branches msg)).
Proof.
  cbv zeta.
  destruct (loadBranches_current exec path) as [Hcur _].
  pose proof (loadBranches_branches exec path) as Hperm.
  split; [| split].
  - intros b Hb Hlocal. rewrite Hperm in Hb.
    apply elem_of_reconciled in Hb as [(entry & Hin & ->) | (r & _ & _ & ->)];
      [| discriminate Hlocal].
    destruct entry as [name upstream]. apply elem_of_map_to_list in Hin.
    cbn. rewrite Hin. eauto.
  - intros name upstream Hin.
    exists (localEntry (enumeratedRemotes exec path) (currentBranch exec path)
                       (name, upstream)).
    split; [| split; [reflexivity | split; [reflexivity | split]]].
    + rewrite Hperm. apply elem_of_reconciled. left.
      exists (name, upstream). split; [| reflexivity].
      apply elem_of_map_to_list. exact Hin.
    + rewrite Hcur. cbn. apply bool_decide_eq_true.
    + intros Hne. unfold localEntry, claimedRemote. cbn.
      rewrite (bool_decide_eq_false_2 _ Hne). reflexivity.
  - rewrite Hperm. unfold reconciled. cbv zeta.
    rewrite filter_app, filter_fmap_all by reflexivity.
    rewrite filter_fmap_none by (intros x; discriminate).
    rewrite app_nil_r, <- list_fmap_compose.
    apply NoDup_fst_map_to_list.
Qed.

(** X11: the entries flagged remote are the remote references git
    enumerated: the remote name of an entry with [IsRemote = true] is an
    enumerated reference (so it is not empty and does not end in [/HEAD]),
    every enumerated reference is the remote name of an entry flagged
    remote, no two remote-only entries share a remote name, and the
    reference of a remote-only entry is the remote name of no local
    entry. *)
Theorem remote_entries_are_the_enumerated_references (exec : Exec) (path : string) :
  let branches := bl_branches (loadBranches sortSlice rangeOrder exec path) in
  let remotes := enumeratedRemotes exec path in
  (forall b, b ∈ branches -> IsRemote b = true ->
             RemoteName b ∈ remotes /\ RemoteName b <> EmptyString
             /\ HasSuffix (RemoteName b) "/HEAD" = false)
  /\ (forall r, r ∈ remotes ->
                exists b, b ∈ branches /\ IsRemote b = true /\ RemoteName b = r)
  /\ NoDup (RemoteName <$> filter (fun b => IsLocal b = false) branches)
  /\ (forall b b', b ∈ branches -> b' ∈ branches ->
                   IsLocal b = false -> IsLocal b' = true ->
                   RemoteName b' <> RemoteName b).
Proof.
  cbv zeta.
  pose proof (loadBranches_branches exec path) as Hperm.
  split; [| split; [| split]].
  - intros b Hb Hremote. rewrite Hperm in Hb.
    assert (RemoteName b ∈ enumeratedRemotes exec path) as Hin.
    { apply elem_of_reconciled in Hb as [(entry & _ & ->) | (r & Hr & _ & ->)];
        [| exact Hr].
      unfold localEntry in *. cbn in *.
      destruct (claimedRemote _ entry) as [r |]; [| discriminate Hremote].
      cbn. apply bool_decide_eq_true in Hremote. exact Hremote. }
    split; [exact Hin |]. exact (enumeratedRemotes_spec _ _ _ Hin).
  - intros r Hr.
    destruct (decide (r ∈ claimedRemotes (enumeratedRemotes exec path)
                                         (map_to_list (enumeratedLocals exec path))))
      as [Hclaimed | Hfree].
    + apply claimedRemote_in in Hclaimed as (entry & Hin & Hc).
      exists (localEntry (enumeratedRemotes exec path) (currentBranch exec path) entry).
      split; [| unfold localEntry; cbn; rewrite Hc; cbn; split;
                [apply bool_decide_eq_true_2; exact Hr | reflexivity]].
      rewrite Hperm. apply elem_of_reconciled. left. exists entry. auto.
    + exists (remoteOnlyEntry r). split; [| split; reflexivity].
      rewrite Hperm. apply elem_of_reconciled. right. exists r. auto.
  - rewrite Hperm. unfold reconciled. cbv zeta.
    rewrite filter_app, filter_fmap_none by (intros x; discriminate).
    rewrite filter_fmap_all by reflexivity.
    cbn [app]. rewrite <- list_fmap_compose.
    change (RemoteName ∘ remoteOnlyEntry) with (@id string). rewrite list_fmap_id.
    apply NoDup_filter, NoDup_elements.
  - intros b b' Hb Hb' Hlocal Hlocal' Heq.
    rewrite Hperm in Hb, Hb'.
    apply elem_of_reconciled in Hb as [(entry & _ & ->) | (r & Hr & Hfree & ->)];
      [discriminate Hlocal |].
    apply elem_of_reconciled in Hb' as [(entry & Hin & ->) | (r' & _ & _ & ->)];
      [| discriminate Hlocal'].
    unfold localEntry, remoteOnlyEntry in Heq. cbn in Heq.
    destruct (claimedRemote _ entry) as [r' |] eqn:Hc; cbn in Heq.
    + subst r'. apply Hfree. apply claimedRemote_in. exists entry. auto.
    + subst r. apply enumeratedRemotes_spec in Hr as [Hne _]. apply Hne. reflexivity.
Qed.

End WithOrders.

Lemma loadBranches_is_reconciled_witness :
  bl_branches (loadBranches insertionSort sameOrder sampleWorld "/repo")
  ≡ₚ reconciled sampleWorld "/repo".
Proof.
  apply (loadBranches_is_reconciled insertionSort sameOrder
           insertionSort_Permutation sameOrder_Permutation sampleWorld "/repo").
Defined.

Lemma local_entries_are_the_enumerated_branches_witness :
  NoDup (BranchName <$> filter (fun b => IsLocal b = true)
           (bl_branches (loadBranches insertionSort sameOrder sampleWorld "/repo"))).
Proof.
  apply (local_entries_are_the_enumerated_branches insertionSort sameOrder
           insertionSort_Permutation sameOrder_Permutation sampleWorld "/repo").
Defined.

Lemma remote_entries_are_the_enumerated_references_witness :
  NoDup (RemoteName <$> filter (fun b => IsLocal b = false)
           (bl_branches (loadBranches insertionSort sameOrder sampleWorld "/repo"))).
Proof.
  apply (remote_entries_are_the_enumerated_references insertionSort sameOrder
           insertionSort_Permutation sameOrder_Permutation sampleWorld "/repo").
Defined.

End BranchesMoreFacts.

(* ===================================================================== *)
(** * Properties of the result tree's lines *)
(* ===================================================================== *)

Module RenderFacts.
Import GoStrings Types Tea PullRound PullRoundFacts GitStat GitStatFacts Render.

Lemma wrapInt_id (z : Z) : minInt <= z <= maxInt -> wrapInt z = z.
Proof.
  unfold wrapInt, minInt, maxInt. intros Hz.
  rewrite Z.mod_small by lia. lia.
Qed.

Lemma length_append (s t : string) :
  String.length (s +:+ t) = (String.length s + String.length t)%nat.
Proof.
  induction s as [| c s IH]; [reflexivity |].
  rewrite append_cons. simpl. rewrite IH. reflexivity.
Qed.

Lemma len_append (s t : string) : len (s +:+ t) = len s + len t.
Proof. unfold len. rewrite length_append. lia. Qed.

Lemma length_dropBytes (n : nat) : forall s : string,
  (n <= String.length s)%nat ->
  String.length (dropBytes n s) = (String.length s - n)%nat.
Proof.
  induction n as [| n IH]; intros s Hn; [simpl; lia |].
  destruct s as [| c s]; simpl in *; [lia |]. apply IH. lia.
Qed.

Lemma length_takeBytes (n : nat) : forall s : string,
  (n <= String.length s)%nat -> String.length (takeBytes n s) = n.
Proof.
  induction n as [| n IH]; intros s Hn; [reflexivity |].
  destruct s as [| c s]; simpl in *; [lia |]. rewrite IH; lia.
Qed.

Lemma shownPath_wide (path : string) (maxPathWidth : Z) :
  3 <= maxPathWidth <= maxInt ->
  len path <= maxInt ->
  exists s,
    shownPath path maxPathWidth = Some s
    /\ len s = Z.min (len path) maxPathWidth
    /\ (len path <= maxPathWidth -> s = path)
    /\ (maxPathWidth < len path ->
        s = "..." +:+ dropBytes (Z.to_nat (len path - maxPathWidth + 3)) path).
Proof.
  intros Hw Hlen. unfold shownPath.
  assert (0 <= len path) as Hpos by (unfold len; lia).
  destruct (Z.gtb_spec (len path) maxPathWidth) as [Hgt | Hle].
  - unfold minInt, maxInt in *.
    rewrite (wrapInt_id (len path - maxPathWidth)) by (unfold minInt, maxInt; lia).
    rewrite wrapInt_id by (unfold minInt, maxInt; lia).
    unfold sliceFrom.
    destruct (Z.leb_spec 0 (len path - maxPathWidth + 3)); [| lia].
    destruct (Z.leb_spec (len path - maxPathWidth + 3) (len path)); [| lia].
    cbn. eexists. split; [reflexivity |].
    split; [| split; [lia | reflexivity]].
    rewrite len_append. unfold len in *.
    rewrite length_dropBytes by lia. simpl String.length. lia.
  - exists path. repeat split; auto; lia.
Qed.

(** A column narrower than the three dots: the slice index passes the
    end of the path and the program panics. *)
Example shownPath_narrow_column : shownPath "abcd" 2 = None.
Proof. reflexivity. Qed.

Lemma maxPathWidth_fold (files : list FileChange) : forall w0,
  let w := foldl (fun w f => if len (Path f) >? w then len (Path f) else w) w0 files in
  w0 <= w /\ forall f, f ∈ files -> len (Path f) <= w.
Proof.
  induction files as [| f files IH]; intros w0; cbn [foldl].
  - split; [lia |]. intros f Hf. apply elem_of_nil in Hf. contradiction.
  - cbv zeta in *.
    match goal with
    | |- context [foldl ?g ?a files] => destruct (IH a) as [Hge Hall]
    end.
    destruct (Z.gtb_spec (len (Path f)) w0).
    + split; [lia |]. intros f' [-> | Hf']%elem_of_cons; [lia | auto].
    + split; [lia |]. intros f' [-> | Hf']%elem_of_cons; [lia | auto].
Qed.

(** X12: the column of paths is between 20 and 40 bytes wide, and every
    path of the list fits it without a panic: a path of at most 40 bytes
    is shown whole, a longer one as three dots followed by its last 37
    bytes. *)
Theorem shown_paths_fit_the_column (files : list FileChange) (f : FileChange) :
  f ∈ files ->
  len (Path f) <= maxInt ->
  let w := maxPathWidthOf files in
  20 <= w <= 40
  /\ exists s,
       shownPath (Path f) w = Some s
       /\ len s <= w
       /\ (len (Path f) <= 40 -> s = Path f)
       /\ (40 < len (Path f) ->
           s = "..." +:+ dropBytes (Z.to_nat (len (Path f) - 37)) (Path f)
           /\ len s = 40).
Proof.
  intros Hf Hlen. cbv zeta.
  destruct (maxPathWidth_fold files 20) as [Hge Hall]. cbv zeta in Hge, Hall.
  specialize (Hall f Hf).
  assert (20 <= maxPathWidthOf files <= 40
          /\ (len (Path f) <= 40 -> len (Path f) <= maxPathWidthOf files)
          /\ (40 < len (Path f) -> maxPathWidthOf files = 40)) as (Hw & Hfit & Hcut).
  { unfold maxPathWidthOf.
    destruct (Z.gtb_spec
                (foldl (fun w f => if len (Path f) >? w then len (Path f) else w) 20 files)
                40); lia. }
  split; [exact Hw |].
  destruct (shownPath_wide (Path f) (maxPathWidthOf files)) as (s & Hs & Hl & Hsame & Htail);
    [unfold maxInt; lia | exact Hlen |].
  exists s. split; [exact Hs |]. split; [lia |]. split.
  - intros H40. apply Hsame, Hfit, H40.
  - intros H40. specialize (Hcut H40). rewrite Hcut in Htail, Hl.
    split; [| lia].
    rewrite Htail by lia. do 2 f_equal. lia.
Qed.

Lemma shown_paths_fit_the_column_witness :
  exists s,
    shownPath "internal/services/authentication/handlers_test.go"
      (maxPathWidthOf
         [ {| Path := "internal/services/authentication/handlers_test.go";
              Additions := 3; Deletions := 1 |} ]) = Some s
    /\ len s <= 40.
Proof.
  destruct (shown_paths_fit_the_column
              [ {| Path := "internal/services/authentication/handlers_test.go";
                   Additions := 3; Deletions := 1 |} ]
              {| Path := "internal/services/authentication/handlers_test.go";
                 Additions := 3; Deletions := 1 |}
              ltac:(apply list_elem_of_singleton; reflexivity)
              ltac:(vm_compute; discriminate))
    as (Hw & s & Hs & Hl & _).
  exists s. split; [exact Hs | lia].
Defined.

(** X13: a commit message is never shown on more than 50 bytes, and
    showing it never panics: a message of at most 50 bytes is shown whole,
    a longer one as its first 47 bytes followed by three dots. *)
Theorem shown_message_is_at_most_fifty_bytes (message : string) :
  exists s,
    shownMessage message = Some s
    /\ len s = Z.min (len message) 50
    /\ (len message <= 50 -> s = message)
    /\ (50 < len message -> s = takeBytes 47 message +:+ "...").
Proof.
  unfold shownMessage.
  destruct (Z.gtb_spec (len message) 50) as [Hgt | Hle].
  - unfold sliceTo.
    destruct (Z.leb_spec 47 (len message)); [| lia].
    cbn. eexists. split; [reflexivity |].
    split; [| split; [lia | reflexivity]].
    rewrite len_append. unfold len in *.
    rewrite length_takeBytes by lia. simpl String.length. lia.
  - exists message. repeat split; auto; lia.
Qed.

(** X14: for a file change with non-negative counts whose sum times 20
    fits an [int], the signs drawn never panic and, when there is a change
    at all, fill 19 or 20 places of the scale of 20: a side is drawn
    exactly when it has changes, so a single addition among many deletions
    still shows. Without changes nothing is drawn. *)
Theorem bars_fill_the_scale (file : FileChange) :
  0 <= Additions file ->
  0 <= Deletions file ->
  20 * (Additions file + Deletions file) <= maxInt ->
  let addBars := (barCounts file).1 in
  let delBars := (barCounts file).2 in
  is_Some (bars file)
  /\ (Additions file + Deletions file = 0 -> addBars = 0 /\ delBars = 0)
  /\ (0 < Additions file + Deletions file ->
      19 <= addBars + delBars <= 20
      /\ (addBars = 0 <-> Additions file = 0)
      /\ (delBars = 0 <-> Deletions file = 0)
      /\ 0 <= addBars /\ 0 <= delBars).
Proof.
  intros Ha Hd Hfit. cbv zeta.
  assert (barCounts file = (0, 0) /\ Additions file + Deletions file = 0
          \/ (0 < Additions file + Deletions file
              /\ 19 <= (barCounts file).1 + (barCounts file).2 <= 20
              /\ ((barCounts file).1 = 0 <-> Additions file = 0)
              /\ ((barCounts file).2 = 0 <-> Deletions file = 0)
              /\ 0 <= (barCounts file).1 /\ 0 <= (barCounts file).2)) as Hcases.
  { unfold barCounts. cbv zeta.
    rewrite !wrapInt_id by (unfold minInt, maxInt in *; lia).
    destruct (Z.gtb_spec (Additions file + Deletions file) 0) as [Hpos | Hzero];
      [right | left; split; [reflexivity | lia]].
    split; [lia |].
    rewrite !Z.quot_div_nonneg by lia.
    set (t := Additions file + Deletions file) in *.
    pose proof (Z.mul_div_le (Additions file * 20) t ltac:(lia)) as Ha1.
    pose proof (Z.mul_succ_div_gt (Additions file * 20) t ltac:(lia)) as Ha2.
    pose proof (Z.mul_div_le (Deletions file * 20) t ltac:(lia)) as Hd1.
    pose proof (Z.mul_succ_div_gt (Deletions file * 20) t ltac:(lia)) as Hd2.
    pose proof (Z.div_pos (Additions file * 20) t ltac:(lia) ltac:(lia)) as Ha0.
    pose proof (Z.div_pos (Deletions file * 20) t ltac:(lia) ltac:(lia)) as Hd0.
    set (qa := Additions file * 20 / t) in *.
    set (qd := Deletions file * 20 / t) in *.
    assert (Deletions file = t - Additions file) as Hdt by lia.
    destruct (Z.gtb_spec (Additions file) 0), (Z.eqb_spec qa 0),
             (Z.gtb_spec (Deletions file) 0), (Z.eqb_spec qd 0);
      cbn [andb fst snd]; nia. }
  destruct Hcases as [[Hnone Hzero] | (Hpos & Hsum & Hadd & Hdel & Hadd0 & Hdel0)].
  - split; [| split; [intros _; rewrite Hnone; auto | lia]].
    unfold bars. rewrite Hnone. cbn. eauto.
  - split; [| split; [lia | intros _; auto]].
    unfold bars. destruct (barCounts file) as [addBars delBars]. cbn [fst snd] in *.
    unfold Repeat.
    destruct (Z.ltb_spec addBars 0); [lia |].
    destruct (Z.ltb_spec delBars 0); [lia |]. cbn. eauto.
Qed.

Lemma bars_fill_the_scale_witness :
  19 <= (barCounts {| Path := "go.sum"; Additions := 1; Deletions := 99 |}).1
        + (barCounts {| Path := "go.sum"; Additions := 1; Deletions := 99 |}).2 <= 20.
Proof.
  destruct (bars_fill_the_scale {| Path := "go.sum"; Additions := 1; Deletions := 99 |}
              ltac:(simpl; lia) ltac:(simpl; lia) ltac:(vm_compute; discriminate))
    as (_ & _ & H).
  apply H. simpl. lia.
Defined.

Section Summary.
Variable ListModel : Type.
Variable FilterStateOf : ListModel -> FilterState.
Variable FilterValue : ListModel -> string.
Variable SetFilterText : ListModel -> string -> ListModel.
Variable listUpdate : ListModel -> Msg -> ListModel * Cmd.
Variable updateListRows : model ListModel -> ListModel.
Variable updateListFlattenedRows : model ListModel -> ListModel.

Local Abbreviation processAll :=
  (processAll ListModel FilterStateOf FilterValue SetFilterText listUpdate
     updateListRows updateListFlattenedRows).
Local Abbreviation handle :=
  (handlePullComplete ListModel FilterStateOf FilterValue SetFilterText listUpdate
     updateListRows updateListFlattenedRows).

Lemma collect_results_updated env msg repoName pending results :
  Forall (fun r => Updated r = true /\ Commits r <> []) results ->
  Forall (fun r => Updated r = true /\ Commits r <> [])
         (collectPullResult env msg repoName pending results).2.
Proof.
  intros Hall. unfold collectPullResult.
  destruct (pending !! pc_path msg) as [oldHead |]; [| exact Hall].
  destruct (_ && _); [| exact Hall].
  destruct (getCommitsBetween env (pc_path msg) oldHead (getHeadCommit env (pc_path msg)))
    as [| c cs] eqn:Hc; [exact Hall |].
  cbn. apply Forall_app. split; [exact Hall |].
  apply Forall_singleton. cbn. split; [reflexivity | discriminate].
Qed.

Lemma processAll_updated events : forall m : model ListModel,
  Forall (fun r => Updated r = true /\ Commits r <> []) (pullResults _ m) ->
  Forall (fun r => Updated r = true /\ Commits r <> [])
         (pullResults _ (processAll m events)).
Proof.
  unfold PullRound.processAll.
  induction events as [| [env msg] rest IH]; intros m Hall; cbn [foldl]; [exact Hall |].
  apply IH. cbn [fst snd].
  destruct (handle_fields ListModel FilterStateOf FilterValue SetFilterText listUpdate
              updateListRows updateListFlattenedRows env m msg) as (_ & -> & _).
  apply collect_results_updated, Hall.
Qed.

Lemma summaryOf_fold (results : list PullResultInfo) : forall u c f,
  Forall (fun r => Updated r = true /\ Commits r <> []) results ->
  exists c' f',
    foldl (fun '(updatedRepos, totalCommits, totalFiles) r =>
             if Updated r then
               (updatedRepos + 1, totalCommits + Z.of_nat (length (Commits r)),
                totalFiles + FilesChanged r)
             else (updatedRepos, totalCommits, totalFiles))
          (u, c, f) results
    = (u + Z.of_nat (length results), c', f')
    /\ c + Z.of_nat (length results) <= c'.
Proof.
  induction results as [| r results IH]; intros u c f Hall; cbn [foldl].
  - exists c, f. split; [f_equal; f_equal; simpl; lia | simpl; lia].
  - apply Forall_cons in Hall as [[Hup Hcommits] Hall]. rewrite Hup.
    destruct (IH (u + 1) (c + Z.of_nat (length (Commits r))) (f + FilesChanged r) Hall)
      as (c' & f' & -> & Hc).
    exists c', f'. split; [f_equal; f_equal; simpl length; lia |].
    destruct (Commits r); [congruence |]. simpl length in *. lia.
Qed.

(** X15: when the results collected so far are all updates with at least
    one commit (so at the start of a round, when there are none), they
    still are after any sequence of completed pulls; the summary line then
    counts every listed repository as updated and at least one commit for
    each. *)
Theorem summary_counts_every_listed_repository
    (m : model ListModel) (events : list (GitEnv * pullCompleteMsg)) :
  Forall (fun r => Updated r = true /\ Commits r <> []) (pullResults _ m) ->
  let results := pullResults _ (processAll m events) in
  Forall (fun r => Updated r = true /\ Commits r <> []) results
  /\ exists totalCommits totalFiles,
       summaryOf results = (Z.of_nat (length results), totalCommits, totalFiles)
       /\ Z.of_nat (length results) <= totalCommits.
Proof.
  intros Hall. cbv zeta.
  pose proof (processAll_updated events m Hall) as Hall'.
  split; [exact Hall' |].
  destruct (summaryOf_fold _ 0 0 0 Hall') as (c & f & Hs & Hc).
  exists c, f. split; [exact Hs | lia].
Qed.

End Summary.

Lemma summary_counts_every_listed_repository_witness :
  exists totalCommits totalFiles,
    summaryOf
      (pullResults _
         (processAll unit (fun _ => Unfiltered) (fun _ => EmptyString) (fun l _ => l)
            (fun l _ => (l, Nil)) (fun _ => tt) (fun _ => tt)
            (sampleKeyPullAll worldBefore sampleModel).1
            [(worldAfter, pulled "/src/api" "Fast-forward")]))
    = (1, totalCommits, totalFiles)
    /\ 1 <= totalCommits.
Proof.
  destruct (summary_counts_every_listed_repository
              unit (fun _ => Unfiltered) (fun _ => EmptyString) (fun l _ => l)
              (fun l _ => (l, Nil)) (fun _ => tt) (fun _ => tt)
              (sampleKeyPullAll worldBefore sampleModel).1
              [(worldAfter, pulled "/src/api" "Fast-forward")]
              ltac:(vm_compute; apply Forall_nil_2))
    as (_ & c & f & Hs & Hc).
  exists c, f. split; [exact Hs | exact Hc].
Defined.

End RenderFacts.

(* ===================================================================== *)
(** * Properties of the keys of the pull results view *)
(* ===================================================================== *)

Module ResultsKeysFacts.
Import GoStrings Types Tea PullRound PullRoundFacts ResultsKeys.

Lemma allExpanded_spec (results : list PullResultInfo) (expanded : gmap string bool) :
  allExpanded results expanded = true
  <-> forall r, r ∈ results -> expandedAt expanded (RepoPath r) = true.
Proof.
  induction results as [| r results IH]; cbn [allExpanded].
  - split; [| reflexivity]. intros _ r Hr. apply elem_of_nil in Hr. contradiction.
  - destruct (expandedAt expanded (RepoPath r)) eqn:Hr; cbn [negb].
    + rewrite IH. split.
      * intros Hall r' [-> | Hin]%elem_of_cons; auto.
      * intros Hall r' Hin. apply Hall. apply elem_of_cons. auto.
    + split; [discriminate |]. intros Hall.
      rewrite Hall in Hr by (apply elem_of_cons; auto). discriminate.
Qed.

Lemma setAll_lookup (value : bool) (results : list PullResultInfo) :
  forall (expanded : gmap string bool) path,
    setAll value results expanded !! path
    = if bool_decide (path ∈ RepoPath <$> results) then Some value
      else expanded !! path.
Proof.
  unfold setAll.
  induction results as [| r results IH]; intros expanded path; cbn [foldl fmap list_fmap].
  - rewrite bool_decide_eq_false_2 by apply not_elem_of_nil. reflexivity.
  - rewrite IH.
    destruct (bool_decide_reflect (path ∈ RepoPath <$> results)) as [Hin | Hnin].
    + rewrite bool_decide_eq_true_2 by (apply elem_of_cons; auto). reflexivity.
    + destruct (decide (path = RepoPath r)) as [-> | Hne].
      * rewrite bool_decide_eq_true_2 by (apply elem_of_cons; auto).
        apply lookup_insert_eq.
      * rewrite bool_decide_eq_false_2
          by (intros [H | H]%elem_of_cons; [congruence | contradiction]).
        apply lookup_insert_ne. congruence.
Qed.

Lemma allExpanded_setAll (value : bool) (results : list PullResultInfo)
    (expanded : gmap string bool) :
  results <> [] -> allExpanded results (setAll value results expanded) = value.
Proof.
  intros Hne. destruct value.
  - apply allExpanded_spec. intros r Hr. unfold expandedAt.
    rewrite setAll_lookup, bool_decide_eq_true_2; [reflexivity |].
    apply list_elem_of_fmap. eauto.
  - destruct results as [| r results]; [contradiction |].
    cbn [allExpanded]. unfold expandedAt.
    rewrite setAll_lookup, bool_decide_eq_true_2; [reflexivity |].
    cbn. apply elem_of_cons. auto.
Qed.

Section WithWidget.
Variable ListModel : Type.
Variable FilterStateOf : ListModel -> FilterState.
Variable FilterValue : ListModel -> string.
Variable SetFilterText : ListModel -> string -> ListModel.
Variable listUpdate : ListModel -> Msg -> ListModel * Cmd.
Variable updateListRows : model ListModel -> ListModel.
Variable updateListFlattenedRows : model ListModel -> ListModel.

Local Abbreviation model := (model ListModel).
Local Abbreviation updateEnd :=
  (updateEnd ListModel FilterStateOf listUpdate updateListRows updateListFlattenedRows).
Local Abbreviation handle :=
  (handlePullComplete ListModel FilterStateOf FilterValue SetFilterText listUpdate
     updateListRows updateListFlattenedRows).
Local Abbreviation pullResultsKey := (pullResultsKey ListModel).
Local Abbreviation pressKeys := (pressKeys ListModel).
Local Abbreviation cursorOnRow := (cursorOnRow ListModel).
Local Abbreviation mode := (mode ListModel).
Local Abbreviation pullResults := (pullResults ListModel).
Local Abbreviation pullResultsCursor := (pullResultsCursor ListModel).
Local Abbreviation pullExpanded := (pullExpanded ListModel).

(** The end of [Update] changes neither the view nor its cursor. *)
Lemma updateEnd_view (m : model) msg cmds :
  mode (updateEnd m msg cmds).1 = mode m
  /\ pullResultsCursor (updateEnd m msg cmds).1 = pullResultsCursor m
  /\ pullResults (updateEnd m msg cmds).1 = pullResults m
  /\ pullExpanded (updateEnd m msg cmds).1 = pullExpanded m.
Proof.
  unfold PullRound.updateEnd.
  destruct (bool_decide (mode m = listView)).
  - destruct (listUpdate (listModel ListModel m) msg) as [l cmd].
    destruct (_ && _ && _); destruct (_ && _); simpl; auto.
  - destruct (_ && _ && _); destruct (_ && _); simpl; auto.
Qed.

Lemma collect_results_grow env msg repoName pending (results : list PullResultInfo) :
  (length results
   <= length (collectPullResult env msg repoName pending results).2)%nat.
Proof.
  unfold collectPullResult.
  destruct (pending !! pc_path msg); [| cbn; lia].
  destruct (_ && _); [| cbn; lia].
  destruct (0 <? _); cbn; [rewrite length_app; lia | lia].
Qed.

Lemma pullResultsKey_row (m : model) (key : string) :
  cursorOnRow m ->
  exists m',
    pullResultsKey m key = Some (m', Nil)
    /\ (key ∈ ["q"; "esc"] -> mode m' = listView /\ pullResults m' = [])
    /\ (key ∉ ["q"; "esc"] ->
        mode m' = mode m /\ pullResults m' = pullResults m /\ cursorOnRow m'
        /\ Z.abs (pullResultsCursor m' - pullResultsCursor m) <= 1).
Proof.
  unfold ResultsKeys.cursorOnRow, ResultsKeys.pullResultsKey. intros Hrow.
  destruct (bool_decide_reflect (key ∈ ["q"; "esc"])) as [Hq | Hnq].
  { eexists. split; [reflexivity |].
    split; [intros _; cbn; auto | intros Hnq; contradiction]. }
  destruct (bool_decide (key ∈ ["up"; "k"])).
  { eexists. split; [reflexivity |]. split; [intros Hq; contradiction | intros _].
    cbn. destruct (Z.gtb_spec (pullResultsCursor m) 0); repeat split; lia. }
  destruct (bool_decide (key ∈ ["down"; "j"])).
  { eexists. split; [reflexivity |]. split; [intros Hq; contradiction | intros _].
    cbn.
    destruct (Z.ltb_spec (pullResultsCursor m) (Z.of_nat (length (pullResults m)) - 1));
      repeat split; lia. }
  destruct (bool_decide (key ∈ ["enter"; " "])).
  { destruct (Z.ltb_spec (pullResultsCursor m) (Z.of_nat (length (pullResults m))))
      as [Hlt | Hge].
    - destruct (Z.ltb_spec (pullResultsCursor m) 0); [lia |].
      destruct (lookup_lt_is_Some_2 (pullResults m) (Z.to_nat (pullResultsCursor m)))
        as [r Hr]; [lia |].
      rewrite Hr. eexists. split; [reflexivity |].
      split; [intros Hq; contradiction | intros _]. cbn. repeat split; lia.
    - eexists. split; [reflexivity |].
      split; [intros Hq; contradiction | intros _]. repeat split; lia. }
  destruct (bool_decide (key = "a")).
  { eexists. split; [reflexivity |]. split; [intros Hq; contradiction | intros _].
    cbn. repeat split; lia. }
  eexists. split; [reflexivity |]. split; [intros Hq; contradiction | intros _].
  repeat split; lia.
Qed.

(** A sequence of keys pressed in the view: it does not panic; while the
    view stays, the cursor is on a row, at most one row further per key,
    and the results are kept; the view stays exactly when none of the keys
    is "q" or "esc", and after one of them the results are dropped. *)
Lemma pressKeys_row (keys : list string) : forall m : model,
  (mode m = pullResultsView -> cursorOnRow m) ->
  exists m2,
    pressKeys m keys = Some m2
    /\ (mode m2 = pullResultsView ->
        cursorOnRow m2 /\ pullResults m2 = pullResults m
        /\ Z.abs (pullResultsCursor m2 - pullResultsCursor m)
           <= Z.of_nat (length keys))
    /\ (mode m = pullResultsView ->
        (Exists (fun key => key ∈ ["q"; "esc"]) keys ->
         mode m2 = listView /\ pullResults m2 = [])
        /\ (Forall (fun key => key ∉ ["q"; "esc"]) keys ->
            mode m2 = pullResultsView)).
Proof.
  induction keys as [| key keys IH]; intros m Hrow; cbn [ResultsKeys.pressKeys].
  - exists m. split; [reflexivity |]. split.
    + intros Hmode. split; [auto |]. split; [reflexivity |]. cbn. lia.
    + intros Hmode. split; [intros Hex; inversion Hex | intros _; exact Hmode].
  - destruct (bool_decide_reflect (mode m = pullResultsView)) as [Hmode | Hmode].
    2:{ exists m. split; [reflexivity |].
        split; intros H; contradiction. }
    destruct (pullResultsKey_row m key (Hrow Hmode)) as (m' & -> & Hleave & Hstay).
    destruct (decide (key ∈ ["q"; "esc"])) as [Hq | Hnq].
    + destruct (Hleave Hq) as [Hm Hres].
      assert (pressKeys m' keys = Some m') as ->.
      { destruct keys as [| key' keys']; cbn [ResultsKeys.pressKeys];
          [reflexivity |].
        rewrite bool_decide_eq_false_2 by (rewrite Hm; discriminate). reflexivity. }
      exists m'. split; [reflexivity |]. split.
      * rewrite Hm. discriminate.
      * intros _. split; [intros _; auto |].
        intros Hall. apply Forall_cons in Hall as [Hnq _]. contradiction.
    + destruct (Hstay Hnq) as (Hm & Hres & Hrow' & Hstep).
      destruct (IH m' (fun _ => Hrow')) as (m2 & Hkeys & Hend & Hmodes).
      exists m2. split; [exact Hkeys |]. split.
      * intros Hmode2. destruct (Hend Hmode2) as (Hrow2 & Hres2 & Hfar).
        split; [exact Hrow2 |]. split; [congruence |].
        cbn [length]. lia.
      * intros _. rewrite Hm in Hmodes. destruct (Hmodes Hmode) as [Hex Hall].
        split.
        -- intros Hex'. apply Exists_cons in Hex' as [Hq | Hex'];
             [contradiction | exact (Hex Hex')].
        -- intros Hall'. apply Forall_cons in Hall' as [_ Hall'].
           exact (Hall Hall').
Qed.

Lemma handle_keeps_row env (m : model) msg :
  (mode m = pullResultsView -> cursorOnRow m) ->
  mode (handle env m msg).1 = pullResultsView ->
  cursorOnRow (handle env m msg).1.
Proof.
  unfold ResultsKeys.cursorOnRow, PullRound.handlePullComplete. intros Hrow.
  destruct (labelPulledRepo msg (repos ListModel m)) as [repos' found].
  pose proof (collect_results_grow env msg (default (Base (pc_path msg)) found)
                (pendingPulls ListModel m) (pullResults m)) as Hgrow.
  destruct (collectPullResult env msg (default (Base (pc_path msg)) found)
              (pendingPulls ListModel m) (pullResults m)) as [pending results].
  cbn [fst snd] in *.
  match goal with
  | |- context [updateEnd ?m1 ?msg1 ?cmds1] =>
      destruct (updateEnd_view m1 msg1 cmds1) as (-> & -> & -> & _)
  end.
  destruct (pc_err msg) as [e |]; cbn; [discriminate |].
  destruct (allDone pending && showPullResults ListModel m
            && (0 <? Z.of_nat (length results))) eqn:Hshow.
  - intros _. apply andb_prop in Hshow as [_ Hlen]. apply Z.ltb_lt in Hlen. lia.
  - intros Hmode. specialize (Hrow Hmode). lia.
Qed.

(** X16: the cursor of the pull results view is on a row whenever the
    view is shown. The event that opens the view puts it on the first row
    of a list that is not empty; no later completed pull and no key moves
    it off the list. In the view, with the cursor on a row, every key is
    handled without a panic and without a command: "q" and "esc" leave for
    the list view and drop the results; any other key keeps the view and
    the results and moves the cursor by one row at most, to a row of the
    list. So a sequence of keys pressed after the event does not panic,
    keeps the view exactly when it holds neither "q" nor "esc", and while
    the view is kept the cursor is on a row, no further from where it was
    than the number of keys. *)
Theorem results_cursor_stays_on_a_row (env : GitEnv) (m : model)
    (msg : pullCompleteMsg) (keys : list string) :
  (mode m = pullResultsView -> cursorOnRow m) ->
  let m1 := (handle env m msg).1 in
  (mode m1 = pullResultsView -> cursorOnRow m1)
  /\ (mode m <> pullResultsView -> mode m1 = pullResultsView ->
      pullResultsCursor m1 = 0 /\ pullResults m1 <> [])
  /\ (exists m2,
        pressKeys m1 keys = Some m2
        /\ (mode m2 = pullResultsView ->
            cursorOnRow m2 /\ pullResults m2 = pullResults m1
            /\ Z.abs (pullResultsCursor m2 - pullResultsCursor m1)
               <= Z.of_nat (length keys))
        /\ (mode m1 = pullResultsView ->
            (Exists (fun key => key ∈ ["q"; "esc"]) keys ->
             mode m2 = listView /\ pullResults m2 = [])
            /\ (Forall (fun key => key ∉ ["q"; "esc"]) keys ->
                mode m2 = pullResultsView)))
  /\ (forall (m' : model) (key : string),
        mode m' = pullResultsView ->
        cursorOnRow m' ->
        exists m'',
          pullResultsKey m' key = Some (m'', Nil)
          /\ (key ∈ ["q"; "esc"] -> mode m'' = listView /\ pullResults m'' = [])
          /\ (key ∉ ["q"; "esc"] ->
              mode m'' = pullResultsView
              /\ pullResults m'' = pullResults m'
              /\ cursorOnRow m''
              /\ Z.abs (pullResultsCursor m'' - pullResultsCursor m') <= 1)).
Proof.
  intros Hrow. cbv zeta.
  pose proof (handle_keeps_row env m msg Hrow) as Hrow1.
  split; [exact Hrow1 |]. split; [| split].
  - clear Hrow Hrow1. unfold PullRound.handlePullComplete.
    destruct (labelPulledRepo msg (repos ListModel m)) as [repos' found].
    destruct (collectPullResult env msg (default (Base (pc_path msg)) found)
                (pendingPulls ListModel m) (pullResults m)) as [pending results].
    match goal with
    | |- context [updateEnd ?m1 ?msg1 ?cmds1] =>
        destruct (updateEnd_view m1 msg1 cmds1) as (-> & -> & -> & _)
    end.
    destruct (pc_err msg) as [e |]; cbn; [discriminate |].
    destruct (allDone pending && showPullResults ListModel m
              && (0 <? Z.of_nat (length results))) eqn:Hshow.
    + intros _ _. apply andb_prop in Hshow as [_ Hlen]. apply Z.ltb_lt in Hlen.
      split; [reflexivity |]. destruct results; [simpl in Hlen; lia | discriminate].
    + intros Hm Hm'. contradiction.
  - exact (pressKeys_row keys _ Hrow1).
  - intros m' key Hmode' Hrow'.
    destruct (pullResultsKey_row m' key Hrow') as (m'' & Hkey & Hleave & Hstay).
    exists m''. split; [exact Hkey |]. split; [exact Hleave |].
    intros Hnq. rewrite <- Hmode'. exact (Hstay Hnq).
Qed.

(** X17: in the pull results view with the cursor on the row of [r], the
    key "a" brings every listed repository to the same state, expanded
    unless all of them were expanded already, and leaves other paths alone;
    the key "enter" flips the state of [r] and of no other path, so that
    pressing it twice shows what was shown before. *)
Theorem expand_keys_toggle (m : model) (r : PullResultInfo) :
  0 <= pullResultsCursor m ->
  pullResults m !! Z.to_nat (pullResultsCursor m) = Some r ->
  (exists m1,
      pullResultsKey m "a" = Some (m1, Nil)
      /\ (forall r', r' ∈ pullResults m ->
                     expandedAt (pullExpanded m1) (RepoPath r')
                     = negb (allExpanded (pullResults m) (pullExpanded m)))
      /\ (forall path, path ∉ RepoPath <$> pullResults m ->
                       pullExpanded m1 !! path = pullExpanded m !! path)
      /\ allExpanded (pullResults m) (pullExpanded m1)
         = negb (allExpanded (pullResults m) (pullExpanded m)))
  /\ (exists m2 m3,
         pullResultsKey m "enter" = Some (m2, Nil)
         /\ pullResultsKey m2 "enter" = Some (m3, Nil)
         /\ expandedAt (pullExpanded m2) (RepoPath r)
            = negb (expandedAt (pullExpanded m) (RepoPath r))
         /\ (forall path, path <> RepoPath r ->
                          pullExpanded m2 !! path = pullExpanded m !! path)
         /\ (forall path, expandedAt (pullExpanded m3) path
                          = expandedAt (pullExpanded m) path)).
Proof.
  intros Hpos Hr.
  assert (pullResultsCursor m < Z.of_nat (length (pullResults m))) as Hlt.
  { apply lookup_lt_Some in Hr. lia. }
  split.
  - eexists. split; [reflexivity |]. cbn. split; [| split].
    + intros r' Hr'. unfold expandedAt.
      rewrite setAll_lookup, bool_decide_eq_true_2; [reflexivity |].
      apply list_elem_of_fmap. eauto.
    + intros path Hpath. rewrite setAll_lookup, bool_decide_eq_false_2; auto.
    + apply allExpanded_setAll. intros Hnil. rewrite Hnil in Hr. discriminate.
  - unfold ResultsKeys.pullResultsKey. cbn -[Z.ltb].
    destruct (Z.ltb_spec (pullResultsCursor m) (Z.of_nat (length (pullResults m))));
      [| lia].
    destruct (Z.ltb_spec (pullResultsCursor m) 0); [lia |].
    rewrite Hr. do 2 eexists. split; [reflexivity |]. cbn -[Z.ltb].
    destruct (Z.ltb_spec (pullResultsCursor m) (Z.of_nat (length (pullResults m))));
      [| lia].
    destruct (Z.ltb_spec (pullResultsCursor m) 0); [lia |].
    rewrite Hr. split; [reflexivity |]. cbn. unfold expandedAt.
    split; [| split].
    + rewrite lookup_insert_eq. reflexivity.
    + intros path Hne. apply lookup_insert_ne. congruence.
    + intros path. destruct (decide (path = RepoPath r)) as [-> | Hne].
      * rewrite !lookup_insert_eq. cbn. apply negb_involutive.
      * rewrite !lookup_insert_ne by congruence. reflexivity.
Qed.

End WithWidget.

(** The view is open on two rows when a late pull comes back; five keys
    follow, none of which leaves the view. *)
Lemma results_cursor_stays_on_a_row_witness :
  exists m2,
    pressKeys unit
      (sampleHandle worldBoth sampleShownBoth
         (pulled "/src/doc" "Already up to date")).1
      ["down"; "enter"; "j"; "a"; "k"] = Some m2
    /\ mode unit m2 = pullResultsView
    /\ cursorOnRow unit m2
    /\ length (pullResults unit m2) = 2%nat.
Proof.
  assert (mode unit sampleShownBoth = pullResultsView -> cursorOnRow unit sampleShownBoth)
    as Hrow.
  { intros _. unfold cursorOnRow. vm_compute. split; [discriminate | reflexivity]. }
  destruct (results_cursor_stays_on_a_row
              unit (fun _ => Unfiltered) (fun _ => EmptyString) (fun l _ => l)
              (fun l _ => (l, Nil)) (fun _ => tt) (fun _ => tt)
              worldBoth sampleShownBoth (pulled "/src/doc" "Already up to date")
              ["down"; "enter"; "j"; "a"; "k"] Hrow)
    as (_ & _ & (m2 & Hkeys & Hend & Hmodes) & _).
  destruct Hmodes as [_ Hstay]; [vm_compute; reflexivity |].
  assert (mode unit m2 = pullResultsView) as Hmode.
  { apply Hstay. apply (bool_decide_unpack _). vm_compute. exact I. }
  destruct (Hend Hmode) as (Hrow2 & Hres & _).
  exists m2. split; [exact Hkeys |]. split; [exact Hmode |]. split; [exact Hrow2 |].
  rewrite Hres. vm_compute. reflexivity.
Defined.

Lemma expand_keys_toggle_witness :
  exists m2,
    pullResultsKey unit sampleShown "enter" = Some (m2, Nil)
    /\ expandedAt (pullExpanded unit m2) "/src/api" = false.
Proof.
  destruct (expand_keys_toggle unit sampleShown
              {| RepoPath := "/src/api"; RepoName := "api";
                 Commits := [sampleCommit "a3"; sampleCommit "a2"];
                 FilesChanged := 4; Updated := true |}
              ltac:(vm_compute; discriminate) ltac:(reflexivity))
    as (_ & m2 & _ & Hkey & _ & Hflip & _).
  exists m2. split; [exact Hkey |]. exact Hflip.
Defined.

End ResultsKeysFacts.

(* ===================================================================== *)
(** * Properties of the pull task and of what the reducer makes of it *)
(* ===================================================================== *)

Module PullTaskFacts.
Import GoStrings Types Tea Git PullRound PullRoundFacts Render RenderFacts PullTask.


Section WithWidget.
Variable errorText : ExecResult -> string.
Variable ListModel : Type.
Variable FilterStateOf : ListModel -> FilterState.
Variable FilterValue : ListModel -> string.
Variable SetFilterText : ListModel -> string -> ListModel.
Variable listUpdate : ListModel -> Msg -> ListModel * Cmd.
Variable updateListRows : model ListModel -> ListModel.
Variable updateListFlattenedRows : model ListModel -> ListModel.

Local Abbreviation model := (model ListModel).
Local Abbreviation updateEnd :=
  (updateEnd ListModel FilterStateOf listUpdate updateListRows updateListFlattenedRows).
Local Abbreviation handle :=
  (handlePullComplete ListModel FilterStateOf FilterValue SetFilterText listUpdate
     updateListRows updateListFlattenedRows).
Local Abbreviation pullRepo := (pullRepo errorText).

(** The end of [Update] writes the list widget and nothing else. *)
Lemma updateEnd_widget_only (m : model) msg cmds :
  exists l, (updateEnd m msg cmds).1 = withList ListModel l m.
Proof.
  unfold PullRound.updateEnd.
  assert (forall l (m0 : model), withList ListModel l (withList ListModel (listModel _ m0) m0)
                                 = withList ListModel l m0) as Hsame by reflexivity.
  destruct m as [l0 ? ? ? ? md ? ? ? ? ? ? ? ? ? ?]. cbn [PullRound.mode PullRound.listModel].
  destruct (bool_decide (md = listView)).
  - destruct (listUpdate l0 msg) as [l cmd].
    destruct (_ && _ && _); destruct (_ && _); cbn; eexists; reflexivity.
  - destruct (_ && _ && _); destruct (_ && _); cbn; eexists; reflexivity.
Qed.


(** X18: the message of the pull task carries the path asked for and the
    trimmed output of git. After a failure the short result is that whole
    output. After a success it is at most 33 bytes long: "up to date" when
    the output says so (even if it also mentions a fast-forward),
    else "updated" after a fast-forward, else the output itself when it has
    at most 30 bytes, else its first 30 bytes and three dots (33 bytes, so
    an output of 31 or 32 bytes gets longer). *)
Theorem pull_task_short_result (exec : Exec) (path : string) :
  let r := exec "git" ["-C"; path; "pull"; "--ff-only"] in
  let msg := pullRepo exec path in
  pc_path msg = path
  /\ pc_result msg = TrimSpace (output r)
  /\ (pc_err msg = None <-> failed r = false)
  /\ (failed r = true -> pc_shortResult msg = pc_result msg)
  /\ (failed r = false ->
      len (pc_shortResult msg) <= 33
      /\ (Contains (pc_result msg) "Already up to date" = true ->
          pc_shortResult msg = "up to date")
      /\ (Contains (pc_result msg) "Already up to date" = false ->
          Contains (pc_result msg) "Fast-forward" = true ->
          pc_shortResult msg = "updated")
      /\ (Contains (pc_result msg) "Already up to date" = false ->
          Contains (pc_result msg) "Fast-forward" = false ->
          (len (pc_result msg) <= 30 -> pc_shortResult msg = pc_result msg)
          /\ (30 < len (pc_result msg) ->
              pc_shortResult msg = takeBytes 30 (pc_result msg) +:+ "..."
              /\ len (pc_shortResult msg) = 33))).
Proof.
  cbv zeta. unfold PullTask.pullRepo. cbn [pc_path pc_result pc_shortResult pc_err].
  set (r := exec "git" ["-C"; path; "pull"; "--ff-only"]).
  set (result := TrimSpace (output r)).
  split; [reflexivity |]. split; [reflexivity |]. split.
  { destruct (failed r); split; congruence. }
  split; [intros ->; reflexivity |].
  intros ->. cbn [negb].
  destruct (Contains result "Already up to date").
  { split; [vm_compute; discriminate |]. repeat split; congruence. }
  destruct (Contains result "Fast-forward").
  { split; [vm_compute; discriminate |]. repeat split; congruence. }
  destruct (Z.gtb_spec (len result) 30) as [Hgt | Hle].
  - assert (len (takeBytes 30 result +:+ "...") = 33) as Hlen.
    { rewrite len_append. unfold len in *. rewrite length_takeBytes by lia.
      simpl String.length. lia. }
    split; [lia |]. split; [discriminate |]. split; [discriminate |].
    intros _ _. split; [lia | auto].
  - split; [lia |]. split; [discriminate |]. split; [discriminate |].
    intros _ _. split; [reflexivity | lia].
Qed.


End WithWidget.

Lemma pull_task_short_result_witness :
  pc_shortResult
    (pullRepo (fun _ => "exit status 1")
       (pullAnswers "Already up to date. (Fast-forward not needed)" false) "/src/api")
  = "up to date".
Proof.
  destruct (pull_task_short_result (fun _ => "exit status 1")
              (pullAnswers "Already up to date. (Fast-forward not needed)" false)
              "/src/api") as (_ & _ & _ & _ & Hok).
  destruct (Hok eq_refl) as (_ & Hup & _).
  apply Hup. reflexivity.
Defined.


End PullTaskFacts.

(* ===================================================================== *)
(** * Properties of the groups and of the homepage *)
(* ===================================================================== *)

Module GroupsFacts.
Import GoStrings Types GoSort GoSortFacts Filters FiltersFacts Groups.

Lemma listsPath_spec (paths : list string) (path : string) :
  listsPath paths path = true <-> path ∈ paths.
Proof.
  induction paths as [| r paths IH]; cbn [listsPath].
  - split; [discriminate |]. intros H. apply elem_of_nil in H. contradiction.
  - destruct (bool_decide_reflect (r = path)) as [-> | Hne].
    + split; [intros _; apply elem_of_cons; auto | reflexivity].
    + rewrite IH. split; [intros H; apply elem_of_cons; auto |].
      intros [-> | H]%elem_of_cons; [contradiction | exact H].
Qed.

Lemma addPaths_spec (paths : list string) : forall (acc : gset string) path,
  path ∈ foldl (fun repoSet p => {[ p ]} ∪ repoSet) acc paths
  <-> path ∈ acc \/ path ∈ paths.
Proof.
  induction paths as [| p paths IH]; intros acc path; cbn [foldl].
  - split; [auto |]. intros [H | H]; [exact H |].
    apply elem_of_nil in H. contradiction.
  - rewrite IH, elem_of_union, elem_of_singleton, elem_of_cons. tauto.
Qed.

Lemma repoSetOf_spec (paths : list string) (path : string) :
  path ∈ repoSetOf paths <-> path ∈ paths.
Proof.
  unfold repoSetOf. rewrite addPaths_spec.
  split; [intros [H | H]; [apply elem_of_empty in H; contradiction | exact H] | auto].
Qed.

Lemma groupedPaths_fold (groups : list Group) : forall (acc : gset string) path,
  path ∈ foldl (fun grouped g =>
                  foldl (fun grouped p => {[ p ]} ∪ grouped) grouped (GroupRepos g))
               acc groups
  <-> path ∈ acc \/ inSomeGroup groups path.
Proof.
  unfold inSomeGroup.
  induction groups as [| g groups IH]; intros acc path; cbn [foldl].
  - split; [auto |]. intros [H | (g & Hg & _)]; [exact H |].
    apply elem_of_nil in Hg. contradiction.
  - rewrite IH, addPaths_spec. split.
    + intros [[H | H] | (g' & Hg' & Hp)]; [auto | |].
      * right. exists g. split; [apply elem_of_cons; auto | exact H].
      * right. exists g'. split; [apply elem_of_cons; auto | exact Hp].
    + intros [H | (g' & [-> | Hg']%elem_of_cons & Hp)]; [auto | auto |].
      right. exists g'. auto.
Qed.

Lemma groupedPaths_spec (groups : list Group) (path : string) :
  path ∈ groupedPaths groups <-> inSomeGroup groups path.
Proof.
  unfold groupedPaths. rewrite groupedPaths_fold.
  split; [intros [H | H]; [apply elem_of_empty in H; contradiction | exact H] | auto].
Qed.

Lemma inSomeGroup_dec (groups : list Group) (path : string) :
  inSomeGroup groups path \/ ~ inSomeGroup groups path.
Proof.
  rewrite <- groupedPaths_spec.
  destruct (decide (path ∈ groupedPaths groups)); auto.
Qed.

(** [getRepoGroup] names the first group that lists the path. *)
Lemma getRepoGroupIn_spec (groups : list Group) (path : string) :
  (inSomeGroup groups path ->
   exists before g after,
     groups = before ++ g :: after
     /\ path ∈ GroupRepos g
     /\ (forall g', g' ∈ before -> path ∉ GroupRepos g')
     /\ getRepoGroupIn groups path = GroupName g)
  /\ (~ inSomeGroup groups path -> getRepoGroupIn groups path = EmptyString).
Proof.
  unfold inSomeGroup. induction groups as [| g groups IH]; cbn [getRepoGroupIn].
  - split; [| reflexivity]. intros (g & Hg & _). apply elem_of_nil in Hg. contradiction.
  - destruct (listsPath (GroupRepos g) path) eqn:Hl.
    + apply listsPath_spec in Hl. split.
      * intros _. exists [], g, groups. split; [reflexivity |].
        split; [exact Hl |]. split; [| reflexivity].
        intros g' Hg'. apply elem_of_nil in Hg'. contradiction.
      * intros Hnone. exfalso. apply Hnone. exists g. split; [apply elem_of_cons; auto | exact Hl].
    + assert (path ∉ GroupRepos g) as Hnot.
      { intros Hin. apply listsPath_spec in Hin. congruence. }
      destruct IH as [IHsome IHnone]. split.
      * intros (g' & [-> | Hg']%elem_of_cons & Hp); [contradiction |].
        destruct IHsome as (before & g0 & after & -> & Hp0 & Hfirst & Hname); [eauto |].
        exists (g :: before), g0, after. split; [reflexivity |].
        split; [exact Hp0 |]. split; [| exact Hname].
        intros g1 [-> | Hg1]%elem_of_cons; auto.
      * intros Hnone. apply IHnone. intros (g' & Hg' & Hp).
        apply Hnone. exists g'. split; [apply elem_of_cons; auto | exact Hp].
Qed.

Lemma filter_sublist_of {A : Type} (f : A -> bool) (l : list A) :
  sublist (List.filter f l) l.
Proof.
  induction l as [| x l IH]; cbn [List.filter]; [constructor |].
  destruct (f x); [apply sublist_skip | apply sublist_cons]; exact IH.
Qed.

Lemma ungrouped_members (m : model) (r : Repo) :
  r ∈ getUngroupedRepos m <-> r ∈ repos m /\ ~ inSomeGroup (groups m) (Path r).
Proof.
  unfold getUngroupedRepos. rewrite elem_of_filter_bool.
  rewrite negb_true_iff, bool_decide_eq_false, groupedPaths_spec. reflexivity.
Qed.

(** X20: a repository is ungrouped exactly when no group lists its path,
    and the ungrouped repositories keep the order of the collection.
    [getRepoGroup] answers with the name of the first group that lists the
    path and with the empty string when none does; so when no group has an
    empty name, [isRepoInGroup] holds exactly of the repositories that are
    not ungrouped. *)
Theorem ungrouped_are_those_no_group_lists (m : model) :
  (forall r, r ∈ getUngroupedRepos m
             <-> r ∈ repos m /\ ~ inSomeGroup (groups m) (Path r))
  /\ sublist (getUngroupedRepos m) (repos m)
  /\ (forall path,
         inSomeGroup (groups m) path ->
         exists before g after,
           groups m = before ++ g :: after
           /\ path ∈ GroupRepos g
           /\ (forall g', g' ∈ before -> path ∉ GroupRepos g')
           /\ getRepoGroup m path = GroupName g)
  /\ (forall path, ~ inSomeGroup (groups m) path -> isRepoInGroup m path = false)
  /\ ((forall g, g ∈ groups m -> GroupName g <> EmptyString) ->
      forall r, r ∈ repos m ->
                (isRepoInGroup m (Path r) = false <-> r ∈ getUngroupedRepos m)).
Proof.
  assert (forall r, r ∈ getUngroupedRepos m
                    <-> r ∈ repos m /\ ~ inSomeGroup (groups m) (Path r)) as Hun.
  { intros r. apply ungrouped_members. }
  split; [exact Hun |]. split; [| split; [| split]].
  - apply filter_sublist_of.
  - intros path Hin. apply (getRepoGroupIn_spec (groups m) path). exact Hin.
  - intros path Hnot. unfold isRepoInGroup, getRepoGroup.
    rewrite (proj2 (getRepoGroupIn_spec (groups m) path) Hnot). reflexivity.
  - intros Hnames r Hr. rewrite Hun. unfold isRepoInGroup, getRepoGroup.
    rewrite negb_false_iff, bool_decide_eq_true.
    destruct (inSomeGroup_dec (groups m) (Path r)) as [Hin | Hnot].
    + destruct (proj1 (getRepoGroupIn_spec (groups m) (Path r)) Hin)
        as (before & g & after & Hsplit & _ & _ & Hname).
      rewrite Hname. split.
      * intros Hempty. exfalso. apply (Hnames g); [| exact Hempty].
        rewrite Hsplit. apply elem_of_app. right. apply elem_of_cons. auto.
      * intros [_ Hnot]. contradiction.
    + rewrite (proj2 (getRepoGroupIn_spec (groups m) (Path r)) Hnot). tauto.
Qed.

Lemma ungrouped_are_those_no_group_lists_witness :
  isRepoInGroup sampleModel "/src/doc" = false
  <-> sampleRepo "doc" StatusClean 0 ∈ getUngroupedRepos sampleModel.
Proof.
  destruct (ungrouped_are_those_no_group_lists sampleModel) as (_ & _ & _ & _ & H).
  apply (H ltac:(intros g Hg; vm_compute in Hg;
                 apply elem_of_cons in Hg as [-> | Hg]; [discriminate |];
                 apply list_elem_of_singleton in Hg as ->; discriminate)
           (sampleRepo "doc" StatusClean 0)).
  vm_compute. apply elem_of_cons. right. apply elem_of_cons. right.
  apply elem_of_cons. left. reflexivity.
Defined.

(** A group without a name: its repositories are neither ungrouped nor,
    for [isRepoInGroup], in a group. *)
Example unnamed_group_hides_its_repositories :
  let m := {| repos := [sampleRepo "api" StatusClean 0];
              groups := [ {| GroupName := ""; GroupRepos := ["/src/api"];
                             IsBuiltIn := false |} ];
              groupsMap := ∅; currentGroup := None;
              filterDirty := false; filterBehind := false |} in
  isRepoInGroup m "/src/api" = false /\ getUngroupedRepos m = [].
Proof. vm_compute. split; reflexivity. Qed.

(** ** The counters of a folder *)

Lemma buildGroupStats_fold (inGroup : Repo -> bool) (rs : list Repo) :
  forall item,
    let item' :=
      foldl (fun item repo =>
               if inGroup repo then
                 {| ItemName := ItemName item;
                    RepoCount := RepoCount item + 1;
                    DirtyCount :=
                      if bool_decide (Status repo = StatusDirty)
                      then DirtyCount item + 1 else DirtyCount item;
                    ItemBehindCount :=
                      if BehindCount repo >? 0
                      then ItemBehindCount item + 1 else ItemBehindCount item |}
               else item) item rs in
    ItemName item' = ItemName item
    /\ RepoCount item'
       = RepoCount item + Z.of_nat (length (List.filter inGroup rs))
    /\ DirtyCount item'
       = DirtyCount item
         + Z.of_nat (length (List.filter
                               (fun r => inGroup r && bool_decide (Status r = StatusDirty))
                               rs))
    /\ ItemBehindCount item'
       = ItemBehindCount item
         + Z.of_nat (length (List.filter (fun r => inGroup r && (BehindCount r >? 0)) rs)).
Proof.
  cbv zeta. induction rs as [| r rs IH]; intros item; cbn [foldl List.filter].
  - simpl. repeat split; lia.
  - destruct (inGroup r) eqn:Hin; cbn [andb].
    + match goal with
      | |- context [foldl ?f ?a rs] => destruct (IH a) as (Hn & Hr & Hd & Hb)
      end.
      rewrite Hn, Hr, Hd, Hb. cbn [ItemName RepoCount DirtyCount ItemBehindCount].
      destruct (bool_decide (Status r = StatusDirty)), (BehindCount r >? 0);
        cbn [length]; repeat split; lia.
    + apply IH.
Qed.

Lemma filter_and_length {A : Type} (f g : A -> bool) (l : list A) :
  (length (List.filter (fun x => f x && g x) l) <= length (List.filter f l))%nat.
Proof.
  induction l as [| x l IH]; cbn [List.filter]; [lia |].
  destruct (f x), (g x); cbn [andb length]; lia.
Qed.

Lemma buildGroupStats_counts (m : model) (group : Group) :
  let item := buildGroupStats m group in
  let listed := fun r : Repo => bool_decide (Path r ∈ GroupRepos group) in
  ItemName item = GroupName group
  /\ RepoCount item = Z.of_nat (length (List.filter listed (repos m)))
  /\ DirtyCount item
     = Z.of_nat (length (List.filter
                           (fun r => listed r && bool_decide (Status r = StatusDirty))
                           (repos m)))
  /\ ItemBehindCount item
     = Z.of_nat (length (List.filter (fun r => listed r && (BehindCount r >? 0))
                                     (repos m))).
Proof.
  cbv zeta.
  assert (forall l : list Repo,
             List.filter (fun repo => bool_decide (Path repo ∈ repoSetOf (GroupRepos group))) l
             = List.filter (fun r => bool_decide (Path r ∈ GroupRepos group)) l) as Hset.
  { intros l. apply List.filter_ext. intros r. apply bool_decide_ext, repoSetOf_spec. }
  assert (forall (g : Repo -> bool) (l : list Repo),
             List.filter (fun r => bool_decide (Path r ∈ repoSetOf (GroupRepos group)) && g r) l
             = List.filter (fun r => bool_decide (Path r ∈ GroupRepos group) && g r) l) as Hset2.
  { intros g l. apply List.filter_ext. intros r. f_equal.
    apply bool_decide_ext, repoSetOf_spec. }
  unfold buildGroupStats. cbv zeta.
  destruct (buildGroupStats_fold
              (fun repo => bool_decide (Path repo ∈ repoSetOf (GroupRepos group)))
              (repos m)
              {| ItemName := GroupName group; RepoCount := 0; DirtyCount := 0;
                 ItemBehindCount := 0 |}) as (Hn & Hr & Hd & Hb).
  cbv zeta in Hn, Hr, Hd, Hb. rewrite Hn, Hr, Hd, Hb.
  cbn [ItemName RepoCount DirtyCount ItemBehindCount].
  rewrite Hset, !Hset2. repeat split; lia.
Qed.

(** X21: the folder row of a group bears the group's name and counts the
    repositories of the collection whose path the group lists; of these,
    how many are dirty and how many are behind. So neither count is
    negative or exceeds the number of repositories, and when the group is
    the one its name looks up, the number of repositories is the length of
    what [getGroupRepos] returns for it. *)
Theorem folder_counts_are_bounded (m : model) (group : Group) :
  let item := buildGroupStats m group in
  let listed := fun r : Repo => bool_decide (Path r ∈ GroupRepos group) in
  ItemName item = GroupName group
  /\ RepoCount item = Z.of_nat (length (List.filter listed (repos m)))
  /\ DirtyCount item
     = Z.of_nat (length (List.filter
                           (fun r => listed r && bool_decide (Status r = StatusDirty))
                           (repos m)))
  /\ ItemBehindCount item
     = Z.of_nat (length (List.filter (fun r => listed r && (BehindCount r >? 0))
                                     (repos m)))
  /\ 0 <= DirtyCount item <= RepoCount item
  /\ 0 <= ItemBehindCount item <= RepoCount item
  /\ RepoCount item <= Z.of_nat (length (repos m))
  /\ (groupsMap m !! GroupName group = Some group ->
      RepoCount item = Z.of_nat (length (getGroupRepos m (GroupName group)))).
Proof.
  cbv zeta.
  destruct (buildGroupStats_counts m group) as (Hn & Hr & Hd & Hb).
  cbv zeta in Hn, Hr, Hd, Hb. rewrite Hn, Hr, Hd, Hb.
  pose proof (filter_and_length (fun r => bool_decide (Path r ∈ GroupRepos group))
                (fun r => bool_decide (Status r = StatusDirty)) (repos m)) as Hdl.
  pose proof (filter_and_length (fun r => bool_decide (Path r ∈ GroupRepos group))
                (fun r : Repo => BehindCount r >? 0) (repos m)) as Hbl.
  pose proof (List.filter_length_le
                (fun r => bool_decide (Path r ∈ GroupRepos group)) (repos m)) as Hrl.
  cbv beta in Hdl, Hbl.
  repeat split; try lia.
  intros Hlook. unfold getGroupRepos. rewrite Hlook.
  do 2 f_equal. apply List.filter_ext.
  intros r. apply bool_decide_ext. symmetry. apply repoSetOf_spec.
Qed.

(** ** Looking a group up by name *)

Lemma buildGroupsMap_snoc (groups : list Group) (g : Group) :
  buildGroupsMap (groups ++ [g]) = <[GroupName g := g]> (buildGroupsMap groups).
Proof. unfold buildGroupsMap. rewrite foldl_app. reflexivity. Qed.

Lemma buildGroupsMap_lookup (groups : list Group) (name : string) :
  buildGroupsMap groups !! name
  = last (List.filter (fun g => bool_decide (GroupName g = name)) groups).
Proof.
  induction groups as [| g groups IH] using rev_ind; [reflexivity |].
  rewrite buildGroupsMap_snoc, List.filter_app. cbn [List.filter].
  destruct (bool_decide_reflect (GroupName g = name)) as [<- | Hne].
  - rewrite lookup_insert_eq, last_snoc. reflexivity.
  - rewrite lookup_insert_ne by exact Hne. rewrite app_nil_r. exact IH.
Qed.

(** X22: [buildGroupsMap] looks a name up to the last group of the list
    that bears it, so to none when no group does; when no two groups share
    a name every group is the one its name looks up, and [getGroupRepos]
    then returns, in the order of the collection, the repositories whose
    path the group of that name lists. A name that no group bears has no
    repositories. *)
Theorem group_lookup_finds_the_last_of_the_name (m : model) :
  groupsMap m = buildGroupsMap (groups m) ->
  (forall name,
      groupsMap m !! name
      = last (List.filter (fun g => bool_decide (GroupName g = name)) (groups m)))
  /\ (forall name,
         (forall g, g ∈ groups m -> GroupName g <> name) -> getGroupRepos m name = [])
  /\ (NoDup (GroupName <$> groups m) ->
      forall g, g ∈ groups m ->
                groupsMap m !! GroupName g = Some g
                /\ getGroupRepos m (GroupName g)
                   = List.filter (fun r => bool_decide (Path r ∈ GroupRepos g)) (repos m)).
Proof.
  intros Hmap.
  assert (forall name,
             groupsMap m !! name
             = last (List.filter (fun g => bool_decide (GroupName g = name)) (groups m)))
    as Hlook.
  { intros name. rewrite Hmap. apply buildGroupsMap_lookup. }
  split; [exact Hlook |]. split.
  - intros name Hnone. unfold getGroupRepos. rewrite Hlook.
    destruct (last _) as [g |] eqn:Hlast; [| reflexivity].
    apply last_Some_elem_of, elem_of_filter_bool in Hlast as [Hg Hname].
    apply bool_decide_eq_true in Hname. exfalso. exact (Hnone g Hg Hname).
  - intros Hnodup g Hg.
    assert (groupsMap m !! GroupName g = Some g) as Hfound.
    { rewrite Hlook. clear Hlook Hmap.
      induction (groups m) as [| g' gs IH] using rev_ind;
        [apply elem_of_nil in Hg; contradiction |].
      rewrite fmap_app in Hnodup. apply NoDup_app in Hnodup as (Hnd & Hfresh & _).
      rewrite List.filter_app. cbn [List.filter].
      apply elem_of_app in Hg as [Hg | Hg].
      - destruct (bool_decide_reflect (GroupName g' = GroupName g)) as [Heq | Hne].
        + exfalso. apply (Hfresh (GroupName g)).
          * apply list_elem_of_fmap. eauto.
          * rewrite <- Heq. cbn. apply list_elem_of_singleton. reflexivity.
        + rewrite app_nil_r. apply IH; assumption.
      - apply list_elem_of_singleton in Hg as ->.
        rewrite bool_decide_eq_true_2 by reflexivity. apply last_snoc. }
    split; [exact Hfound |].
    unfold getGroupRepos. rewrite Hfound.
    apply List.filter_ext. intros r. apply bool_decide_ext, repoSetOf_spec.
Qed.

Lemma group_lookup_finds_the_last_of_the_name_witness :
  getGroupRepos sampleModel "work" = [sampleRepo "web" StatusClean 0].
Proof.
  destruct (group_lookup_finds_the_last_of_the_name sampleModel eq_refl)
    as (_ & _ & Hgroups).
  destruct (Hgroups ltac:(apply (bool_decide_unpack _); vm_compute; exact I)
                    {| GroupName := "work"; GroupRepos := ["/src/web"; "/src/gone"];
                       IsBuiltIn := false |}
                    ltac:(apply elem_of_cons; right; apply elem_of_cons; left; reflexivity))
    as [_ Hrepos].
  etrans; [exact Hrepos | reflexivity].
Defined.

(** ** The label of a row *)

Lemma setGroupName_fold (name : string) (paths : list string) :
  forall (repoGroups : gmap string string) path,
    foldl (fun repoGroups p => <[p := name]> repoGroups) repoGroups paths !! path
    = if bool_decide (path ∈ paths) then Some name else repoGroups !! path.
Proof.
  induction paths as [| p paths IH]; intros repoGroups path; cbn [foldl].
  - rewrite bool_decide_eq_false_2 by apply not_elem_of_nil. reflexivity.
  - rewrite IH.
    destruct (bool_decide_reflect (path ∈ paths)) as [Hin | Hnin].
    + rewrite bool_decide_eq_true_2 by (apply elem_of_cons; auto). reflexivity.
    + destruct (decide (path = p)) as [-> | Hne].
      * rewrite bool_decide_eq_true_2 by (apply elem_of_cons; auto).
        apply lookup_insert_eq.
      * rewrite bool_decide_eq_false_2
          by (intros [H | H]%elem_of_cons; [congruence | contradiction]).
        apply lookup_insert_ne. congruence.
Qed.

Lemma repoGroupsOf_snoc (groups : list Group) (g : Group) (path : string) :
  repoGroupsOf (groups ++ [g]) !! path
  = if bool_decide (path ∈ GroupRepos g) then Some (GroupName g)
    else repoGroupsOf groups !! path.
Proof. unfold repoGroupsOf. rewrite foldl_app. cbn [foldl]. apply setGroupName_fold. Qed.

Lemma repoGroupsOf_last (groups : list Group) (path : string) :
  (forall name,
      repoGroupsOf groups !! path = Some name ->
      exists before g after,
        groups = before ++ g :: after
        /\ path ∈ GroupRepos g /\ GroupName g = name
        /\ forall g', g' ∈ after -> path ∉ GroupRepos g')
  /\ (repoGroupsOf groups !! path = None -> ~ inSomeGroup groups path).
Proof.
  induction groups as [| g groups IH] using rev_ind.
  - split; [intros name H; discriminate H |].
    intros _ (g & Hg & _). apply elem_of_nil in Hg. contradiction.
  - rewrite repoGroupsOf_snoc.
    destruct (bool_decide_reflect (path ∈ GroupRepos g)) as [Hin | Hnin].
    + split; [| discriminate]. intros name [= <-].
      exists groups, g, []. split; [reflexivity |]. split; [exact Hin |].
      split; [reflexivity |]. intros g' Hg'. apply elem_of_nil in Hg'. contradiction.
    + destruct IH as [IHsome IHnone]. split.
      * intros name Hname.
        destruct (IHsome name Hname) as (before & g0 & after & -> & Hp & Hn & Hlast).
        exists before, g0, (after ++ [g]). split; [rewrite <- app_assoc; reflexivity |].
        split; [exact Hp |]. split; [exact Hn |].
        intros g' [Hg' | Hg']%elem_of_app; [auto |].
        apply list_elem_of_singleton in Hg' as ->. exact Hnin.
      * intros Hnone (g' & [Hg' | Hg']%elem_of_app & Hp).
        -- apply (IHnone Hnone). exists g'. auto.
        -- apply list_elem_of_singleton in Hg' as ->. contradiction.
Qed.

(** X23: the label [updateList] prepares for the row of a repository is
    the name of the last group that lists its path, and there is a label
    exactly when some group lists the path. When the groups that list the
    path all bear one name (so when a single group lists it), the label is
    the name [getRepoGroup] answers with. *)
Theorem row_label_is_the_last_listing_group (groups : list Group) (path : string) :
  (is_Some (repoGroupsOf groups !! path) <-> inSomeGroup groups path)
  /\ (forall name,
         repoGroupsOf groups !! path = Some name ->
         exists before g after,
           groups = before ++ g :: after
           /\ path ∈ GroupRepos g /\ GroupName g = name
           /\ forall g', g' ∈ after -> path ∉ GroupRepos g')
  /\ ((forall g g', g ∈ groups -> g' ∈ groups ->
                    path ∈ GroupRepos g -> path ∈ GroupRepos g' ->
                    GroupName g = GroupName g') ->
      inSomeGroup groups path ->
      repoGroupsOf groups !! path = Some (getRepoGroupIn groups path)).
Proof.
  destruct (repoGroupsOf_last groups path) as [Hsome Hnone].
  assert (is_Some (repoGroupsOf groups !! path) <-> inSomeGroup groups path) as Hiff.
  { split.
    - intros [name Hname].
      destruct (Hsome name Hname) as (before & g & after & -> & Hp & _).
      exists g. split; [| exact Hp]. apply elem_of_app. right. apply elem_of_cons. auto.
    - intros Hin. destruct (repoGroupsOf groups !! path) as [name |] eqn:E; [eauto |].
      exfalso. exact (Hnone eq_refl Hin). }
  split; [exact Hiff |]. split; [exact Hsome |].
  intros Hone Hin.
  destruct (proj2 Hiff Hin) as [name Hname]. rewrite Hname. f_equal.
  destruct (Hsome name Hname) as (before & g & after & Hsplit & Hp & <- & _).
  destruct (proj1 (getRepoGroupIn_spec groups path) Hin)
    as (before' & g' & after' & Hsplit' & Hp' & _ & ->).
  apply Hone; auto.
  - rewrite Hsplit. apply elem_of_app. right. apply elem_of_cons. auto.
  - rewrite Hsplit'. apply elem_of_app. right. apply elem_of_cons. auto.
Qed.

Lemma row_label_is_the_last_listing_group_witness :
  repoGroupsOf sampleGroups !! "/src/web" = Some "work".
Proof.
  destruct (row_label_is_the_last_listing_group sampleGroups "/src/web") as (_ & _ & H).
  etrans; [apply H | reflexivity].
  - intros g g' Hg Hg' Hp Hp'. vm_compute in Hg, Hg'.
    apply elem_of_cons in Hg as [-> | Hg];
      [vm_compute in Hp; apply list_elem_of_singleton in Hp; discriminate Hp |].
    apply list_elem_of_singleton in Hg as ->.
    apply elem_of_cons in Hg' as [-> | Hg'];
      [vm_compute in Hp'; apply list_elem_of_singleton in Hp'; discriminate Hp' |].
    apply list_elem_of_singleton in Hg' as ->. reflexivity.
  - eexists. split; [apply elem_of_cons; right; apply elem_of_cons; left; reflexivity |].
    apply elem_of_cons. left. reflexivity.
Defined.

(** Two groups that list one path: the row is labelled with the last of
    them, [getRepoGroup] answers with the first. *)
Example overlapping_groups_disagree :
  let groups := [ {| GroupName := "a"; GroupRepos := ["/src/api"]; IsBuiltIn := false |};
                  {| GroupName := "b"; GroupRepos := ["/src/api"]; IsBuiltIn := false |} ] in
  repoGroupsOf groups !! "/src/api" = Some "b"
  /\ getRepoGroupIn groups "/src/api" = "a".
Proof. vm_compute. split; reflexivity. Qed.

(** ** The rows of the homepage *)

Section Homepage.
Variable sortSlice : forall A : Type, (A -> A -> bool) -> list A -> list A.
Hypothesis sortSlice_Permutation :
  forall (A : Type) (less : A -> A -> bool) (l : list A), sortSlice A less l ≡ₚ l.

Lemma elem_of_filtered fd fb (less : Repo -> Repo -> bool) (l : list Repo) (r : Repo) :
  r ∈ applyStatusFilters fd fb (sortSlice _ less l) []
  <-> r ∈ l /\ passesFilters fd fb r = true.
Proof.
  rewrite applyStatusFilters_filter. cbn [app].
  rewrite elem_of_filter_bool, (sortSlice_Permutation _ less l). reflexivity.
Qed.

Lemma RepoItem_not_folder (f : Group -> GroupItem) (gs : list Group) (r : Repo) :
  RepoItem r ∉ (fun g => GroupRow (f g)) <$> gs.
Proof. intros (g & H & _)%list_elem_of_fmap. discriminate H. Qed.

Lemma GroupRow_not_repo (item : GroupItem) (rs : list Repo) :
  GroupRow item ∉ RepoItem <$> rs.
Proof. intros (r & H & _)%list_elem_of_fmap. discriminate H. Qed.

Lemma RepoItem_elem (r : Repo) (rs : list Repo) : RepoItem r ∈ RepoItem <$> rs <-> r ∈ rs.
Proof.
  rewrite list_elem_of_fmap. split.
  - intros (r' & [= ->] & Hin). exact Hin.
  - intros Hin. eauto.
Qed.

(** X24: on the homepage the rows are the folders, then the repositories.
    A repository has a row of its own exactly when no group lists it and
    it passes the status filters; a group has a folder exactly when it
    holds a repository of the collection or is not built in, whatever the
    filters; so every repository of the collection that some group lists
    is behind a folder that is shown. Inside a group the rows are the
    repositories [getGroupRepos] returns that pass the filters, and the
    flattened list shows every repository that passes them. *)
Theorem homepage_reaches_every_repository (m : model) :
  let items := updateListItems sortSlice m in
  (currentGroup m = None ->
   (forall r, RepoItem r ∈ items
              <-> r ∈ repos m /\ ~ inSomeGroup (groups m) (Path r)
                  /\ passesFilters (filterDirty m) (filterBehind m) r = true)
   /\ (forall item, GroupRow item ∈ items
                    <-> exists g, g ∈ groups m /\ item = buildGroupStats m g
                                  /\ (0 < RepoCount item \/ IsBuiltIn g = false))
   /\ (forall r, r ∈ repos m -> inSomeGroup (groups m) (Path r) ->
                 exists g, g ∈ groups m /\ Path r ∈ GroupRepos g
                           /\ GroupRow (buildGroupStats m g) ∈ items)
   /\ exists folders rows, items = (GroupRow <$> folders) ++ (RepoItem <$> rows))
  /\ (forall group, currentGroup m = Some group ->
        (forall r, RepoItem r ∈ items
                   <-> r ∈ getGroupRepos m (GroupName group)
                       /\ passesFilters (filterDirty m) (filterBehind m) r = true)
        /\ forall item, GroupRow item ∉ items)
  /\ (forall r, RepoItem r ∈ updateListFlattenedItems sortSlice m
                <-> r ∈ repos m
                    /\ passesFilters (filterDirty m) (filterBehind m) r = true).
Proof.
  cbv zeta. unfold updateListItems, updateListFlattenedItems.
  split; [| split].
  - intros ->.
    assert (forall item,
               GroupRow item ∈ (fun g => GroupRow (buildGroupStats m g))
                                <$> sortSlice _ groupLess (shownGroups m)
               <-> exists g, g ∈ groups m /\ item = buildGroupStats m g
                             /\ (0 < RepoCount item \/ IsBuiltIn g = false)) as Hfolders.
    { intros item. rewrite list_elem_of_fmap. split.
      - intros (g & [= ->] & Hg). rewrite sortSlice_Permutation in Hg.
        unfold shownGroups in Hg. apply elem_of_filter_bool in Hg as [Hg Hshown].
        exists g. split; [exact Hg |]. split; [reflexivity |].
        apply orb_prop in Hshown as [Hc | Hb];
          [left; apply Z.gtb_lt in Hc; lia | right; apply negb_true_iff; exact Hb].
      - intros (g & Hg & -> & Hshown). exists g. split; [reflexivity |].
        rewrite sortSlice_Permutation. unfold shownGroups.
        apply elem_of_filter_bool. split; [exact Hg |].
        apply orb_true_iff. destruct Hshown as [Hc | Hb];
          [left; apply Z.gtb_lt; lia | right; rewrite Hb; reflexivity]. }
    split; [| split; [| split]].
    + intros r. rewrite elem_of_app, RepoItem_elem, elem_of_filtered.
      pose proof (ungrouped_members m r) as Hun.
      split.
      * intros [H | [Hin Hpass]]; [exfalso; exact (RepoItem_not_folder _ _ _ H) |].
        apply Hun in Hin as [Hr Hnot]. auto.
      * intros (Hr & Hnot & Hpass). right. split; [| exact Hpass].
        apply Hun. auto.
    + intros item. rewrite elem_of_app, <- Hfolders.
      split; [intros [H | H]; [exact H | exfalso; exact (GroupRow_not_repo _ _ H)] | auto].
    + intros r Hr (g & Hg & Hp). exists g. split; [exact Hg |]. split; [exact Hp |].
      apply elem_of_app. left. apply Hfolders. exists g.
      split; [exact Hg |]. split; [reflexivity |]. left.
      destruct (buildGroupStats_counts m g) as (_ & -> & _).
      assert (r ∈ List.filter (fun r => bool_decide (Path r ∈ GroupRepos g)) (repos m))
        as Hin.
      { apply elem_of_filter_bool. split; [exact Hr |].
        apply bool_decide_eq_true_2. exact Hp. }
      destruct (List.filter _ (repos m)); [apply elem_of_nil in Hin; contradiction |].
      cbn [length]. lia.
    + exists (buildGroupStats m <$> sortSlice _ groupLess (shownGroups m)).
      eexists. rewrite <- list_fmap_compose. reflexivity.
  - intros group ->. split.
    + intros r. rewrite RepoItem_elem, elem_of_filtered. reflexivity.
    + intros item. apply GroupRow_not_repo.
  - intros r. rewrite RepoItem_elem, elem_of_filtered. reflexivity.
Qed.

End Homepage.

Lemma homepage_reaches_every_repository_witness :
  exists g, g ∈ groups sampleModel /\ Path (sampleRepo "web" StatusClean 0) ∈ GroupRepos g
            /\ GroupRow (buildGroupStats sampleModel g)
               ∈ updateListItems insertionSort sampleModel.
Proof.
  destruct (homepage_reaches_every_repository insertionSort insertionSort_Permutation
              sampleModel) as [Hhome _].
  destruct (Hhome eq_refl) as (_ & _ & Hreach & _).
  apply (Hreach (sampleRepo "web" StatusClean 0)).
  - vm_compute. apply elem_of_cons. right. apply elem_of_cons. left. reflexivity.
  - eexists. split; [apply elem_of_cons; right; apply elem_of_cons; left; reflexivity |].
    apply elem_of_cons. left. reflexivity.
Defined.

End GroupsFacts.

(* ===================================================================== *)
(** * Properties of the reload of the branch list *)
(* ===================================================================== *)

Module BranchLoadFacts.
Import GoStrings Types Tea Git DetailKeys BranchLoad.

Lemma firstCurrent_spec (branches : list BranchInfo) : forall i0,
  match firstCurrent branches i0 with
  | Some i =>
      i0 <= i
      /\ exists b, branches !! Z.to_nat (i - i0) = Some b /\ IsCurrent b = true
  | None => forall b, b ∈ branches -> IsCurrent b = false
  end.
Proof.
  induction branches as [| b branches IH]; intros i0; cbn [firstCurrent].
  - intros b Hb. apply elem_of_nil in Hb. contradiction.
  - destruct (IsCurrent b) eqn:Hb.
    + split; [lia |]. exists b. rewrite Z.sub_diag. split; [reflexivity | exact Hb].
    + specialize (IH (i0 + 1)). destruct (firstCurrent branches (i0 + 1)) as [i |].
      * destruct IH as (Hle & b' & Hlook & Hcur). split; [lia |].
        exists b'. split; [| exact Hcur].
        replace (Z.to_nat (i - i0)) with (S (Z.to_nat (i - (i0 + 1)))) by lia.
        exact Hlook.
      * intros b' [-> | Hin]%elem_of_cons; [exact Hb | apply IH; exact Hin].
Qed.

Section WithWidgets.
Variable TextInput : Type.
Variable Value : TextInput -> string.
Variable SetValue : TextInput -> string -> TextInput.
Variable Focus : TextInput -> TextInput.
Variable Blur : TextInput -> TextInput.
Variable inputUpdate : TextInput -> string -> TextInput * Cmd.
Variable Viewport : Type.
Variable viewportUpdate : Viewport -> string -> Viewport * Cmd.

Local Abbreviation model := (model TextInput Viewport).
Local Abbreviation detailViewKey :=
  (detailViewKey TextInput Value SetValue Focus Blur inputUpdate Viewport viewportUpdate).
Local Abbreviation branchesLoadedCase := (branchesLoadedCase TextInput Viewport).
Local Abbreviation branchAt := (branchAt TextInput Viewport).
Local Abbreviation branches := (branches TextInput Viewport).
Local Abbreviation branchIndex := (branchIndex TextInput Viewport).
Local Abbreviation detailRepo := (detailRepo TextInput Viewport).
Local Abbreviation detailFocus := (detailFocus TextInput Viewport).
Local Abbreviation set_statusMsg := (set_statusMsg TextInput Viewport).

Lemma set_branches_fields (m : model) (bs : list BranchInfo) :
  branches (set_branches _ _ bs m) = bs
  /\ detailRepo (set_branches _ _ bs m) = detailRepo m
  /\ detailFocus (set_branches _ _ bs m) = detailFocus m
  /\ branchIndex (set_branches _ _ bs m) = branchIndex m.
Proof. destruct m; repeat split. Qed.

Lemma set_branchIndex_fields (m : model) (i : Z) :
  branches (set_branchIndex _ _ i m) = branches m
  /\ detailRepo (set_branchIndex _ _ i m) = detailRepo m
  /\ detailFocus (set_branchIndex _ _ i m) = detailFocus m
  /\ branchIndex (set_branchIndex _ _ i m) = i.
Proof. destruct m; repeat split. Qed.

(** A key of the branches pane that acts on the selected branch. *)
Lemma branch_key_reaches_the_branch exec (m : model) (key : string) repo :
  detailRepo m = Some repo ->
  detailFocus m = paneBranches ->
  key ∈ ["enter"; "x"; "X"; "p"] ->
  branches m <> [] ->
  match branchAt m with
  | None => detailViewKey exec m key = Panic _ _
  | Some b =>
      IsCurrent b = true -> key ∈ ["x"; "X"] ->
      detailViewKey exec m key = Ok _ _ (set_statusMsg "Cannot delete current branch" m) Nil
  end.
Proof.
  intros Hrepo Hfocus Hkey Hne.
  assert ((0 <? Z.of_nat (length (branches m))) = true) as Hlen.
  { apply Z.ltb_lt. destruct (branches m); [contradiction | simpl; lia]. }
  unfold DetailKeys.detailViewKey, DetailKeys.commonKey, DetailKeys.branchesKey,
    DetailKeys.onBranch.
  rewrite Hfocus, Hrepo, Hlen.
  repeat apply elem_of_cons in Hkey as [-> | Hkey];
    [| | | | apply elem_of_nil in Hkey; contradiction];
    cbn; destruct (branchAt m) as [b |]; try reflexivity;
    intros Hcur Hx; rewrite ?Hcur; try reflexivity;
    repeat apply elem_of_cons in Hx as [Hx | Hx]; try discriminate Hx;
    apply elem_of_nil in Hx; contradiction.
Qed.

(** X25: a branch list that arrives for another repository than the one
    in the detail view, or when there is none, changes nothing. One that
    arrives for the repository in view replaces the list; if it holds a
    current branch the cursor lands on one, so that in the branches pane the
    keys "x" and "X" then answer "Cannot delete current branch"; if it
    holds none (a detached head) the cursor stays where it was, and when
    that is past the end of the new list the next key that acts on the
    selected branch panics. *)
Theorem reload_puts_the_cursor_on_the_current_branch (exec : Exec) (m : model)
    (msg : branchesLoadedMsg) :
  let m' := branchesLoadedCase m msg in
  ((detailRepo m = None \/ exists repo, detailRepo m = Some repo /\ Path repo <> bl_path msg) ->
   m' = m)
  /\ (forall repo,
         detailRepo m = Some repo -> Path repo = bl_path msg ->
         branches m' = bl_branches msg
         /\ detailRepo m' = detailRepo m /\ detailFocus m' = detailFocus m
         /\ ((exists b, b ∈ bl_branches msg /\ IsCurrent b = true) ->
             (exists b, branchAt m' = Some b /\ IsCurrent b = true)
             /\ (detailFocus m = paneBranches ->
                 forall key, key ∈ ["x"; "X"] ->
                   detailViewKey exec m' key
                   = Ok _ _ (set_statusMsg "Cannot delete current branch" m') Nil))
         /\ ((forall b, b ∈ bl_branches msg -> IsCurrent b = false) ->
             branchIndex m' = branchIndex m
             /\ (detailFocus m = paneBranches ->
                 bl_branches msg <> [] ->
                 Z.of_nat (length (bl_branches msg)) <= branchIndex m ->
                 forall key, key ∈ ["enter"; "x"; "X"; "p"] ->
                   detailViewKey exec m' key = Panic _ _))).
Proof.
  cbv zeta. unfold BranchLoad.branchesLoadedCase. split.
  - intros [-> | (repo & -> & Hne)]; [reflexivity |].
    rewrite bool_decide_eq_false_2 by exact Hne. reflexivity.
  - intros repo Hrepo Hpath. rewrite Hrepo, (bool_decide_eq_true_2 _ Hpath).
    pose proof (firstCurrent_spec (bl_branches msg) 0) as Hfirst.
    destruct (set_branches_fields m (bl_branches msg)) as (Hb2 & Hr2 & Hf2 & Hi2).
    rewrite Hb2.
    destruct (firstCurrent (bl_branches msg) 0) as [i |].
    + destruct Hfirst as (Hpos & b & Hlook & Hcur). rewrite Z.sub_0_r in Hlook.
      destruct (set_branchIndex_fields (set_branches _ _ (bl_branches msg) m) i)
        as (Hb1 & Hr1 & Hf1 & Hi1).
      rewrite Hb1, Hr1, Hf1, Hb2, Hr2, Hf2.
      split; [reflexivity |]. split; [auto |]. split; [reflexivity |].
      assert (branchAt (set_branchIndex _ _ i (set_branches _ _ (bl_branches msg) m))
              = Some b) as Hat.
      { unfold DetailKeys.branchAt. rewrite Hi1, Hb1, Hb2.
        apply lookup_lt_Some in Hlook as Hlt.
        destruct (Z.leb_spec 0 i); [| lia].
        destruct (Z.ltb_spec i (Z.of_nat (length (bl_branches msg)))); [| lia].
        exact Hlook. }
      split.
      * intros _. split; [exists b; auto |].
        intros Hfocus key Hkey.
        pose proof (branch_key_reaches_the_branch exec
                      (set_branchIndex _ _ i (set_branches _ _ (bl_branches msg) m))
                      key repo) as Hk.
        rewrite Hr1, Hr2, Hf1, Hf2, Hb1, Hb2, Hat in Hk. apply Hk; auto.
        -- apply elem_of_cons in Hkey as [-> | Hkey];
             [apply elem_of_cons; right; apply elem_of_cons; auto |].
           apply list_elem_of_singleton in Hkey as ->.
           do 2 (apply elem_of_cons; right). apply elem_of_cons. auto.
        -- intros Hnil. rewrite Hnil in Hlook. discriminate.
      * intros Hnone. rewrite (Hnone b) in Hcur; [discriminate |].
        apply list_elem_of_lookup. eauto.
    + rewrite Hr2, Hf2, Hi2.
      split; [reflexivity |]. split; [auto |]. split; [reflexivity |].
      split.
      * intros (b & Hb & Hcur). rewrite (Hfirst b Hb) in Hcur. discriminate.
      * intros _. split; [reflexivity |].
        intros Hfocus Hne Hpast key Hkey.
        pose proof (branch_key_reaches_the_branch exec
                      (set_branches _ _ (bl_branches msg) m) key repo) as Hk.
        rewrite Hr2, Hf2, Hb2 in Hk. specialize (Hk Hrepo Hfocus Hkey Hne).
        unfold DetailKeys.branchAt in Hk. rewrite Hi2, Hb2 in Hk.
        destruct (Z.ltb_spec (branchIndex m) (Z.of_nat (length (bl_branches msg))));
          [lia |].
        rewrite andb_false_r in Hk. exact Hk.
Qed.

End WithWidgets.

Lemma reload_puts_the_cursor_on_the_current_branch_witness :
  sampleKey quietWorld (branchesLoadedCase string unit (sampleModel 2) detachedLoad) "x"
  = Panic string unit.
Proof.
  destruct (reload_puts_the_cursor_on_the_current_branch
              string (fun input => input) (fun _ text => text)
              (fun input => input) (fun input => input)
              (fun input key => (input +:+ key, Nil))
              unit (fun vp _ => (vp, Nil)) quietWorld (sampleModel 2) detachedLoad)
    as [_ Hfresh].
  destruct (Hfresh _ eq_refl eq_refl) as (_ & _ & _ & _ & Hnone).
  destruct Hnone as [_ Hpanic].
  - intros b Hb. apply list_elem_of_singleton in Hb as ->. reflexivity.
  - apply Hpanic; [reflexivity | discriminate | vm_compute; discriminate |].
    apply elem_of_cons. right. apply elem_of_cons. left. reflexivity.
Defined.

End BranchLoadFacts.

(* ===================================================================== *)
(** * Properties of the switch to a branch with uncommitted changes *)
(* ===================================================================== *)

Module ActionSelectFacts.
Import GoStrings Types Tea Git DetailKeys ActionSelect.

Section WithWidgets.
Variable TextInput : Type.
Variable Value : TextInput -> string.
Variable SetValue : TextInput -> string -> TextInput.
Variable Focus : TextInput -> TextInput.
Variable Blur : TextInput -> TextInput.
Variable inputUpdate : TextInput -> string -> TextInput * Cmd.
Variable Viewport : Type.
Variable viewportUpdate : Viewport -> string -> Viewport * Cmd.
Variable SetContent : Viewport -> string -> Viewport.

Local Abbreviation model := (model TextInput Viewport).
Local Abbreviation detailViewKey :=
  (detailViewKey TextInput Value SetValue Focus Blur inputUpdate Viewport viewportUpdate).
Local Abbreviation actionSelectKey := (actionSelectKey TextInput Viewport).
Local Abbreviation stashResultCase := (stashResultCase TextInput Viewport SetContent).
Local Abbreviation branchAt := (branchAt TextInput Viewport).
Local Abbreviation detailRepo := (detailRepo TextInput Viewport).
Local Abbreviation detailFocus := (detailFocus TextInput Viewport).
Local Abbreviation actionIndex := (actionIndex TextInput Viewport).
Local Abbreviation targetBranch := (targetBranch TextInput Viewport).
Local Abbreviation mode := (mode TextInput Viewport).

Ltac no_task Hne :=
  split; [discriminate | intros (He & _); exfalso; exact (Hne He)].

(** X26: the keys of the action view keep the index among the three
    actions, and nothing but "enter" dispatches a task: on the first action
    the stash, on the second the discard, both for the repository in view;
    "q", "esc" and the third action go back to the branches pane. *)
Theorem action_keys_dispatch_on_enter_only (m : model) (key : string) :
  0 <= actionIndex m <= 2 ->
  let m' := (actionSelectKey m key).1 in
  let task := (actionSelectKey m key).2 in
  0 <= actionIndex m' <= 2
  /\ Z.abs (actionIndex m' - actionIndex m) <= 1
  /\ detailRepo m' = detailRepo m
  /\ targetBranch m' = targetBranch m
  /\ (forall path,
         task = Some (stashTask path)
         <-> key = "enter" /\ actionIndex m = 0
             /\ exists repo, detailRepo m = Some repo /\ path = Path repo)
  /\ (forall path,
         task = Some (discardTask path)
         <-> key = "enter" /\ actionIndex m = 1
             /\ exists repo, detailRepo m = Some repo /\ path = Path repo)
  /\ (key ∈ ["q"; "esc"] \/ (key = "enter" /\ actionIndex m = 2) ->
      mode m' = detailView
      /\ (key = "enter" -> detailRepo m = None -> detailFocus m' = detailFocus m)
      /\ (key ∈ ["q"; "esc"] \/ detailRepo m <> None -> detailFocus m' = paneBranches)).
Proof.
  intros Hidx. cbv zeta. unfold ActionSelect.actionSelectKey, isKey.
  destruct m as [md dr dc co bs df bi sm tb hc ai ci cr cv vp]. cbn in Hidx |- *.
  destruct (bool_decide_reflect (key ∈ ["q"; "esc"])) as [Hq | Hq].
  { assert (key <> "enter") as Hne.
    { intros ->. repeat apply elem_of_cons in Hq as [Hq | Hq]; try discriminate Hq.
      apply elem_of_nil in Hq. contradiction. }
    cbn. split; [lia |]. split; [lia |]. split; [reflexivity |]. split; [reflexivity |].
    split; [intros path; no_task Hne |]. split; [intros path; no_task Hne |].
    intros _. split; [reflexivity |]. split; [intros He; contradiction |].
    intros _. reflexivity. }
  destruct (bool_decide_reflect (key ∈ ["up"; "k"])) as [Hup | Hup].
  { assert (key <> "enter") as Hne.
    { intros ->. repeat apply elem_of_cons in Hup as [Hup | Hup]; try discriminate Hup.
      apply elem_of_nil in Hup. contradiction. }
    destruct (Z.gtb_spec ai 0); cbn;
      (split; [lia |]; split; [lia |]; split; [reflexivity |]; split; [reflexivity |];
       split; [intros path; no_task Hne |]; split; [intros path; no_task Hne |];
       intros [Hq' | [He _]]; contradiction). }
  destruct (bool_decide_reflect (key ∈ ["down"; "j"])) as [Hdown | Hdown].
  { assert (key <> "enter") as Hne.
    { intros ->. repeat apply elem_of_cons in Hdown as [Hdown | Hdown];
        try discriminate Hdown.
      apply elem_of_nil in Hdown. contradiction. }
    destruct (Z.ltb_spec ai (Z.of_nat 3 - 1)); cbn;
      (split; [lia |]; split; [lia |]; split; [reflexivity |]; split; [reflexivity |];
       split; [intros path; no_task Hne |]; split; [intros path; no_task Hne |];
       intros [Hq' | [He _]]; contradiction). }
  destruct (bool_decide_reflect (key ∈ ["enter"])) as [Henter | Henter].
  - apply list_elem_of_singleton in Henter as ->.
    destruct dr as [repo |].
    + destruct (Z.eqb_spec ai 0) as [-> | H0];
        [| destruct (Z.eqb_spec ai 1) as [-> | H1];
           [| destruct (Z.eqb_spec ai 2) as [-> | H2]; [| lia]]];
        cbn; (split; [lia |]; split; [lia |]; split; [reflexivity |];
              split; [reflexivity |]).
      * split; [| split].
        -- intros path. split; [intros [= <-]; eauto |].
           intros (_ & _ & r & [= <-] & ->). reflexivity.
        -- intros path. split; [discriminate | intros (_ & H & _); discriminate H].
        -- intros [Hq' | [_ H]]; [contradiction | discriminate H].
      * split; [| split].
        -- intros path. split; [discriminate | intros (_ & H & _); discriminate H].
        -- intros path. split; [intros [= <-]; eauto |].
           intros (_ & _ & r & [= <-] & ->). reflexivity.
        -- intros [Hq' | [_ H]]; [contradiction | discriminate H].
      * split; [| split].
        -- intros path. split; [discriminate | intros (_ & H & _); discriminate H].
        -- intros path. split; [discriminate | intros (_ & H & _); discriminate H].
        -- intros _. split; [reflexivity |]. split; [intros _ H; discriminate H |].
           intros _. reflexivity.
    + cbn. split; [lia |]. split; [lia |]. split; [reflexivity |]. split; [reflexivity |].
      split; [| split].
      * intros path. split; [discriminate | intros (_ & _ & r & H & _); discriminate H].
      * intros path. split; [discriminate | intros (_ & _ & r & H & _); discriminate H].
      * intros _. split; [reflexivity |]. split; [intros _ _; reflexivity |].
        intros [Hq' | H]; [contradiction | exfalso; apply H; reflexivity].
  - assert (key <> "enter") as Hne.
    { intros ->. apply Henter. apply list_elem_of_singleton. reflexivity. }
    cbn. split; [lia |]. split; [lia |]. split; [reflexivity |]. split; [reflexivity |].
    split; [intros path; no_task Hne |]. split; [intros path; no_task Hne |].
    intros [Hq' | [He _]]; contradiction.
Qed.

(** X27: the two routes from "enter" on a branch that is not current.
    With a clean working tree the switch is dispatched at once, to the
    remote name for a branch that exists on the remote only and to the
    branch name otherwise. With uncommitted changes the action view opens
    on its first action and remembers the branch name; there "enter"
    dispatches the stash and, one row down, the discard; when either task
    reports success the switch is dispatched to the remembered branch name
    (also for a branch that exists on the remote only), and when it
    reports failure the error view opens and no switch is dispatched. *)
Theorem both_routes_to_a_branch_switch (exec exec' : Exec) (m : model)
    (repo : Repo) (b : BranchInfo) (filterApplied : bool) (filterValue : string)
    (e : errorFields) :
  detailRepo m = Some repo ->
  detailFocus m = paneBranches ->
  branchAt m = Some b ->
  IsCurrent b = false ->
  BranchName b <> EmptyString ->
  (hasUncommittedChanges exec (Path repo) = false ->
   exists m1,
     detailViewKey exec m "enter"
     = Ok _ _ m1 (Run (switchBranch (Path repo)
                         (if negb (IsLocal b) && IsRemote b then RemoteName b
                          else BranchName b))))
  /\ (hasUncommittedChanges exec (Path repo) = true ->
      exists m1,
        detailViewKey exec m "enter" = Ok _ _ m1 Nil
        /\ mode m1 = actionSelectView /\ actionIndex m1 = 0
        /\ targetBranch m1 = BranchName b
        /\ (actionSelectKey m1 "enter").2 = Some (stashTask (Path repo))
        /\ (actionSelectKey (actionSelectKey m1 "down").1 "enter").2
           = Some (discardTask (Path repo))
        /\ forall m2 msg,
             m2 = (actionSelectKey m1 "enter").1
             \/ m2 = (actionSelectKey (actionSelectKey m1 "down").1 "enter").1 ->
             msg = stashChanges exec' (Path repo)
             \/ msg = discardChanges exec' (Path repo) ->
             let '(m3, e3, cmds) := stashResultCase filterApplied filterValue m2 e msg in
             if sr_success msg then
               cmds = [Run (switchBranch (Path repo) (BranchName b))]
               /\ mode m3 = detailView /\ errorMsg e3 = EmptyString
             else
               cmds = [] /\ mode m3 = errorView
               /\ errorMsg e3 = "Operation failed:" +:+ NL +:+ NL +:+ sr_err msg).
Proof.
  intros Hrepo Hfocus Hat Hcur Hname.
  pose proof (DetailKeysFacts.branchAt_nonempty _ _ m b Hat) as Hlen.
  unfold DetailKeys.detailViewKey, DetailKeys.commonKey, DetailKeys.branchesKey,
    DetailKeys.onBranch.
  rewrite Hfocus, Hrepo, Hlen, Hat. cbn. rewrite Hcur.
  split; intros Hdirty; rewrite Hdirty.
  - eexists. reflexivity.
  - eexists. split; [reflexivity |].
    destruct m as [md dr dc co bs df bi sm tb hc ai ci cr cv vp].
    cbn in Hrepo. subst dr. cbn.
    split; [reflexivity |]. split; [reflexivity |]. split; [reflexivity |].
    split; [reflexivity |]. split; [reflexivity |].
    intros m2 msg Hm2 Hmsg.
    assert (bool_decide (BranchName b = EmptyString) = false) as Hb
        by (apply bool_decide_eq_false_2; exact Hname).
    unfold ActionSelect.actionSelectKey, isKey in Hm2.
    repeat match type of Hm2 with
           | context [bool_decide (?k ∈ ?l)] =>
               let v := eval vm_compute in (bool_decide (k ∈ l)) in
               change (bool_decide (k ∈ l)) with v in Hm2
           end.
    cbn in Hm2. change (0 <? Z.of_nat 3 - 1) with true in Hm2. cbn in Hm2.
    change (0 + 1 =? 0) with false in Hm2. change (0 + 1 =? 1) with true in Hm2.
    cbn in Hm2.
    unfold ActionSelect.stashResultCase.
    destruct Hm2 as [-> | ->], Hmsg as [-> | ->];
      unfold stashChanges, discardChanges;
      match goal with
      | |- context [failed ?r] => destruct (failed r)
      end; cbn; rewrite ?Hb; cbn; repeat split; reflexivity.
Qed.

End WithWidgets.

Lemma action_keys_dispatch_on_enter_only_witness :
  (actionSelectKey string unit (set_actionIndex string unit 1 (sampleModel 2)) "enter").2
  = Some (discardTask "/src/api").
Proof.
  destruct (action_keys_dispatch_on_enter_only string unit
              (set_actionIndex string unit 1 (sampleModel 2)) "enter"
              ltac:(vm_compute; split; discriminate))
    as (_ & _ & _ & _ & _ & Hdiscard & _).
  apply Hdiscard. split; [reflexivity |]. split; [reflexivity |].
  eexists. split; reflexivity.
Defined.

Lemma both_routes_to_a_branch_switch_witness :
  (exists m1,
      sampleKey quietWorld (sampleModel 2) "enter"
      = Ok string unit m1 (Run (switchBranch "/src/api" "origin/next")))
  /\ (exists m1,
         sampleKey dirtyWorld (sampleModel 2) "enter" = Ok string unit m1 Nil
         /\ targetBranch _ _ m1 = "next").
Proof.
  split.
  - destruct (both_routes_to_a_branch_switch
                string (fun input => input) (fun _ text => text)
                (fun input => input) (fun input => input)
                (fun input key => (input +:+ key, Nil))
                unit (fun vp _ => (vp, Nil)) (fun vp _ => vp)
                quietWorld quietWorld (sampleModel 2)
                {| Path := "/src/api"; Name := "api"; Branch := "main";
                   Status := StatusClean; StatusText := ""; IsFavorite := false;
                   PullResult := ""; BehindCount := 0 |}
                {| BranchName := "next"; IsLocal := false; IsRemote := true;
                   IsCurrent := false; RemoteName := "origin/next" |}
                false "" {| errorMsg := ""; previousMode := listView; savedFilter := "" |}
                eq_refl eq_refl eq_refl eq_refl ltac:(discriminate))
      as [Hclean _].
    exact (Hclean eq_refl).
  - destruct (both_routes_to_a_branch_switch
                string (fun input => input) (fun _ text => text)
                (fun input => input) (fun input => input)
                (fun input key => (input +:+ key, Nil))
                unit (fun vp _ => (vp, Nil)) (fun vp _ => vp)
                dirtyWorld quietWorld (sampleModel 2)
                {| Path := "/src/api"; Name := "api"; Branch := "main";
                   Status := StatusClean; StatusText := ""; IsFavorite := false;
                   PullResult := ""; BehindCount := 0 |}
                {| BranchName := "next"; IsLocal := false; IsRemote := true;
                   IsCurrent := false; RemoteName := "origin/next" |}
                false "" {| errorMsg := ""; previousMode := listView; savedFilter := "" |}
                eq_refl eq_refl eq_refl eq_refl ltac:(discriminate))
      as [_ Hdirty].
    destruct (Hdirty eq_refl) as (m1 & Hkey & _ & _ & Htarget & _).
    exists m1. split; [exact Hkey | exact Htarget].
Defined.

End ActionSelectFacts.

(* ===================================================================== *)
(** * Properties of the status update and of the pull of what is behind *)
(* ===================================================================== *)

Module StatusCaseFacts.
Import GoStrings Types Tea Git Status PullRound PullRoundFacts StatusCase.

Lemma patchStatus_spec (msg : statusUpdatedMsg) (rs : list Repo) :
  (patchStatus msg rs = rs /\ forall r, r ∈ rs -> Path r <> su_path msg)
  \/ exists before r after,
       rs = before ++ r :: after
       /\ (forall r', r' ∈ before -> Path r' <> su_path msg)
       /\ Path r = su_path msg
       /\ patchStatus msg rs
          = before ++ {| Path := Path r; Name := Name r; Branch := su_branch msg;
                         Status := su_status msg; StatusText := su_text msg;
                         IsFavorite := IsFavorite r; PullResult := PullResult r;
                         BehindCount := su_behindCount msg |} :: after.
Proof.
  induction rs as [| r rs IH]; cbn [patchStatus].
  - left. split; [reflexivity |]. intros r Hr. apply elem_of_nil in Hr. contradiction.
  - destruct (bool_decide_reflect (Path r = su_path msg)) as [Heq | Hne].
    + right. exists [], r, rs. split; [reflexivity |]. split; [| split; [exact Heq | reflexivity]].
      intros r' Hr'. apply elem_of_nil in Hr'. contradiction.
    + destruct IH as [[Hsame Hnone] | (before & r0 & after & -> & Hfirst & Hpath & Hpatch)].
      * left. split; [rewrite Hsame; reflexivity |].
        intros r' [-> | Hr']%elem_of_cons; auto.
      * right. exists (r :: before), r0, after. split; [reflexivity |].
        split; [| split; [exact Hpath | rewrite Hpatch; reflexivity]].
        intros r' [-> | Hr']%elem_of_cons; auto.
Qed.

Lemma patchStatus_keeps (msg : statusUpdatedMsg) (rs : list Repo) :
  Path <$> patchStatus msg rs = Path <$> rs
  /\ Name <$> patchStatus msg rs = Name <$> rs
  /\ IsFavorite <$> patchStatus msg rs = IsFavorite <$> rs
  /\ PullResult <$> patchStatus msg rs = PullResult <$> rs.
Proof.
  destruct (patchStatus_spec msg rs)
    as [[-> _] | (before & r & after & -> & _ & _ & ->)]; [auto |].
  rewrite !fmap_app. cbn. auto.
Qed.

Lemma patchStatus_idempotent (msg : statusUpdatedMsg) (rs : list Repo) :
  patchStatus msg (patchStatus msg rs) = patchStatus msg rs.
Proof.
  induction rs as [| r rs IH]; cbn [patchStatus]; [reflexivity |].
  destruct (bool_decide_reflect (Path r = su_path msg)) as [Heq | Hne]; cbn [patchStatus Path].
  - rewrite (bool_decide_eq_true_2 _ Heq). reflexivity.
  - rewrite (bool_decide_eq_false_2 _ Hne), IH. reflexivity.
Qed.

Lemma checkGitStatus_known (exec : Exec) (path : string) :
  su_path (checkGitStatus exec path) = path
  /\ su_status (checkGitStatus exec path) <> StatusUnknown
  /\ su_branch (checkGitStatus exec path) <> EmptyString.
Proof.
  unfold checkGitStatus.
  set (branchOut := TrimSpace (output (exec "git" _))).
  assert ((if bool_decide (branchOut = EmptyString) then "?" else branchOut)
          <> EmptyString) as Hbranch.
  { destruct (bool_decide_reflect (branchOut = EmptyString)); [discriminate | assumption]. }
  destruct (failed (exec "git" (statusQuery path)));
    [cbn; split; [reflexivity |]; split; [discriminate | exact Hbranch] |].
  destruct (bool_decide (TrimSpace (output (exec "git" (statusQuery path))) = EmptyString));
    [destruct (behindCountOf exec path >? 0) |];
    cbn; (split; [reflexivity |]; split; [discriminate | exact Hbranch]).
Qed.

Section WithWidget.
Variable ListModel : Type.
Variable FilterStateOf : ListModel -> FilterState.
Variable FilterValue : ListModel -> string.
Variable SetFilterText : ListModel -> string -> ListModel.
Variable listUpdate : ListModel -> Msg -> ListModel * Cmd.
Variable updateListRows : model ListModel -> ListModel.
Variable updateListFlattenedRows : model ListModel -> ListModel.

Local Abbreviation model := (model ListModel).
Local Abbreviation statusUpdatedCase :=
  (statusUpdatedCase ListModel FilterStateOf FilterValue SetFilterText updateListRows).
Local Abbreviation keyPullBehind :=
  (keyPullBehind ListModel FilterStateOf listUpdate updateListRows
     updateListFlattenedRows).

Lemma statusUpdatedCase_repos (m : model) (msg : statusUpdatedMsg) :
  exists l,
    statusUpdatedCase m msg
    = withList _ l (withRepos _ (patchStatus msg (repos _ m)) m)
    /\ (FilterStateOf (listModel _ m) = Filtering -> l = listModel _ m).
Proof.
  unfold StatusCase.statusUpdatedCase. destruct m as [l0 ? ? ? ? ? ? ? ? ? ? ? ? ? ? ?].
  cbn [PullRound.listModel StatusCase.withRepos PullRound.repos].
  destruct (bool_decide_reflect (FilterStateOf l0 = Filtering)) as [Hf | Hf].
  - exists l0. split; [reflexivity | auto].
  - destruct (negb _); eexists; (split; [reflexivity | intros H; contradiction]).
Qed.

(** X28: a status update rewrites the status, text, branch and behind
    count of the first repository at its path and nothing else of the
    collection: no path, name, favourite mark or pull label changes, a
    later repository at the same path is left as it was, and without a
    repository at the path the collection is unchanged; applying the same
    update twice changes nothing more. Pending pulls, results and view are
    untouched, and the rows are not rebuilt while a filter is being typed.
    When the update comes from [checkGitStatus], the repository it rewrites
    gets a status other than unknown and a branch that is not empty. *)
Theorem status_update_patches_the_first_repository (exec : Exec) (m : model)
    (msg : statusUpdatedMsg) :
  let m' := statusUpdatedCase m msg in
  ((forall r, r ∈ repos _ m -> Path r <> su_path msg) -> repos _ m' = repos _ m)
  /\ (forall before r after,
         repos _ m = before ++ r :: after ->
         (forall r', r' ∈ before -> Path r' <> su_path msg) ->
         Path r = su_path msg ->
         repos _ m'
         = before ++ {| Path := Path r; Name := Name r; Branch := su_branch msg;
                        Status := su_status msg; StatusText := su_text msg;
                        IsFavorite := IsFavorite r; PullResult := PullResult r;
                        BehindCount := su_behindCount msg |} :: after)
  /\ (Path <$> repos _ m' = Path <$> repos _ m
      /\ Name <$> repos _ m' = Name <$> repos _ m
      /\ IsFavorite <$> repos _ m' = IsFavorite <$> repos _ m
      /\ PullResult <$> repos _ m' = PullResult <$> repos _ m)
  /\ repos _ (statusUpdatedCase m' msg) = repos _ m'
  /\ (pendingPulls _ m' = pendingPulls _ m /\ pullResults _ m' = pullResults _ m
      /\ mode _ m' = mode _ m /\ pulling _ m' = pulling _ m)
  /\ (FilterStateOf (listModel _ m) = Filtering -> listModel _ m' = listModel _ m)
  /\ (forall path, msg = checkGitStatus exec path ->
        forall r', r' ∈ repos _ m' ->
                   r' ∈ repos _ m
                   \/ (Path r' = path /\ Status r' <> StatusUnknown
                       /\ Branch r' <> EmptyString)).
Proof.
  cbv zeta.
  destruct (statusUpdatedCase_repos m msg) as (l & Hcase & Hlist).
  assert (repos _ (statusUpdatedCase m msg) = patchStatus msg (repos _ m)) as Hrepos
      by (rewrite Hcase; reflexivity).
  split; [| split; [| split; [| split; [| split; [| split]]]]].
  - intros Hnone. rewrite Hrepos.
    destruct (patchStatus_spec msg (repos _ m))
      as [[Hsame _] | (before & r & after & Hsplit & _ & Hpath & _)]; [exact Hsame |].
    exfalso. apply (Hnone r); [| exact Hpath].
    rewrite Hsplit. apply elem_of_app. right. apply elem_of_cons. auto.
  - intros before r after Hsplit Hfirst Hpath. rewrite Hrepos, Hsplit.
    clear Hsplit. induction before as [| r0 before IH]; cbn [app patchStatus].
    + rewrite (bool_decide_eq_true_2 _ Hpath). reflexivity.
    + rewrite bool_decide_eq_false_2 by (apply Hfirst; apply elem_of_cons; auto).
      rewrite IH; [reflexivity |].
      intros r' Hr'. apply Hfirst. apply elem_of_cons. auto.
  - rewrite Hrepos. apply patchStatus_keeps.
  - destruct (statusUpdatedCase_repos (statusUpdatedCase m msg) msg) as (l' & -> & _).
    cbn. rewrite Hrepos. apply patchStatus_idempotent.
  - rewrite Hcase. destruct m; cbn. auto.
  - intros Hf. rewrite Hcase, (Hlist Hf). destruct m; reflexivity.
  - intros path -> r' Hr'. rewrite Hrepos in Hr'.
    destruct (checkGitStatus_known exec path) as (Hp & Hs & Hb).
    destruct (patchStatus_spec (checkGitStatus exec path) (repos _ m))
      as [[Hsame _] | (before & r & after & Hsplit & _ & Hpath & Hpatch)].
    + left. rewrite <- Hsame. exact Hr'.
    + rewrite Hpatch in Hr'. rewrite Hsplit.
      apply elem_of_app in Hr' as [Hr' | [-> | Hr']%elem_of_cons].
      * left. apply elem_of_app. auto.
      * right. cbn. split; [congruence | auto].
      * left. apply elem_of_app. right. apply elem_of_cons. auto.
Qed.

(** ** The key "A" *)

Lemma captureBehind_fold env (rs : list Repo) :
  forall pending cmds,
    (forall p,
        (captureBehind env rs pending cmds).1 !! p
        = if bool_decide (p ∈ Path <$> List.filter (fun r => BehindCount r >? 0) rs)
          then Some (getHeadCommit env p) else pending !! p)
    /\ (captureBehind env rs pending cmds).2
       = cmds ++ ((fun r => Run (pullRepo (Path r)))
                    <$> List.filter (fun r => BehindCount r >? 0) rs).
Proof.
  unfold captureBehind.
  induction rs as [| r rs IH]; intros pending cmds; cbn [foldl List.filter].
  - split; [| rewrite app_nil_r; reflexivity].
    intros p. rewrite bool_decide_eq_false_2 by apply not_elem_of_nil. reflexivity.
  - destruct (BehindCount r >? 0); [| apply IH].
    destruct (IH (<[Path r := getHeadCommit env (Path r)]> pending)
                 (cmds ++ [Run (pullRepo (Path r))])) as [Hlook Hcmds].
    cbn [fst snd] in *. split.
    + intros p. rewrite Hlook. cbn [fmap list_fmap].
      destruct (bool_decide_reflect (p ∈ Path <$> List.filter (fun r => BehindCount r >? 0) rs))
        as [Hin | Hnin].
      * rewrite bool_decide_eq_true_2 by (apply elem_of_cons; auto). reflexivity.
      * destruct (decide (p = Path r)) as [-> | Hne].
        -- rewrite bool_decide_eq_true_2 by (apply elem_of_cons; auto).
           apply lookup_insert_eq.
        -- rewrite bool_decide_eq_false_2
             by (intros [H | H]%elem_of_cons; [congruence | contradiction]).
           apply lookup_insert_ne. congruence.
    + rewrite Hcmds, <- app_assoc. reflexivity.
Qed.

Lemma filter_filter_bool {A : Type} (f g : A -> bool) (l : list A) :
  List.filter g (List.filter f l) = List.filter (fun x => f x && g x) l.
Proof.
  induction l as [| x l IH]; cbn [List.filter]; [reflexivity |].
  destruct (f x); cbn [andb List.filter]; [destruct (g x) |]; rewrite IH; reflexivity.
Qed.

Lemma behind_of_filtered fd fb (rs : list Repo) :
  List.filter (fun r => BehindCount r >? 0)
              (List.filter (Filters.passesFilters fd fb) rs)
  = List.filter (fun r => Filters.passesFilters fd false r && (BehindCount r >? 0)) rs.
Proof.
  rewrite filter_filter_bool. apply List.filter_ext. intros r.
  unfold Filters.passesFilters.
  destruct fd, fb, (bool_decide (Status r = StatusDirty)),
    (Z.gtb_spec (BehindCount r) 0), (Z.eqb_spec (BehindCount r) 0);
    cbn; try reflexivity; lia.
Qed.

(** X29: the key "A" pulls the repositories of the collection that are
    behind the remote and pass the dirty filter; the behind filter makes no
    difference to it. The pending map is made anew and holds exactly their
    paths, each with the head captured now, and the earlier results are
    dropped. When there is one at least, their pulls are dispatched in the
    order of the collection, followed by the spinner; when there is none,
    no pull is pending and the status line says so. *)
Theorem pull_behind_honours_the_dirty_filter_only (env : GitEnv) (fm : Filters.model)
    (m : model) :
  Filters.repos fm = repos _ m ->
  let m' := (keyPullBehind env (Filters.getFilteredRepos fm) m).1 in
  let cmd := (keyPullBehind env (Filters.getFilteredRepos fm) m).2 in
  let pulled :=
    List.filter (fun r => Filters.passesFilters (Filters.filterDirty fm) false r
                          && (BehindCount r >? 0)) (repos _ m) in
  (forall p, pendingPulls _ m' !! p
             = if bool_decide (p ∈ Path <$> pulled) then Some (getHeadCommit env p)
               else None)
  /\ pullResults _ m' = []
  /\ repos _ m' = repos _ m
  /\ (pulled <> [] ->
      cmd = Batch (((fun r => Run (pullRepo (Path r))) <$> pulled) ++ [spinnerTick])
      /\ pulling _ m' = true
      /\ statusMsg _ m'
         = "Pulling " +:+ Itoa (Z.of_nat (length pulled)) +:+ " repos behind remote...")
  /\ (pulled = [] ->
      pendingPulls _ m' = ∅ /\ pulling _ m' = pulling _ m
      /\ statusMsg _ m' = "No repos behind remote to pull").
Proof.
  intros Hrepos. cbv zeta.
  unfold StatusCase.keyPullBehind.
  rewrite FiltersFacts.getFilteredRepos_filter, Hrepos.
  destruct (captureBehind_fold env
              (List.filter (Filters.passesFilters (Filters.filterDirty fm)
                              (Filters.filterBehind fm)) (repos _ m)) ∅ [])
    as [Hlook Hcmds].
  rewrite behind_of_filtered in Hlook, Hcmds. cbn [app] in Hcmds.
  destruct (captureBehind env _ ∅ []) as [pending pullCmds]. cbn [fst snd] in *.
  subst pullCmds. rewrite length_fmap.
  set (pulled := List.filter _ (repos _ m)) in *.
  destruct (Z.gtb_spec (Z.of_nat (length pulled)) 0) as [Hpos | Hzero].
  - cbn [fst snd]. split; [| split; [| split; [| split]]].
    + intros p. destruct m; cbn. rewrite Hlook. rewrite lookup_empty. reflexivity.
    + destruct m; reflexivity.
    + destruct m; reflexivity.
    + intros _. destruct m; cbn. auto.
    + intros Hnil. rewrite Hnil in Hpos. simpl in Hpos. lia.
  - assert (pulled = []) as Hnil by (destruct pulled; [reflexivity | simpl in Hzero; lia]).
    match goal with
    | |- context [updateEnd ?L ?F ?U ?R ?RF ?m1 ?msg1 ?cmds1] =>
        destruct (PullTaskFacts.updateEnd_widget_only L F U R RF m1 msg1 cmds1) as [l ->]
    end.
    assert (pending = ∅) as ->.
    { apply map_eq. intros p. rewrite Hlook, Hnil, lookup_empty.
      rewrite bool_decide_eq_false_2 by apply not_elem_of_nil. reflexivity. }
    rewrite Hnil. split; [| split; [| split; [| split]]].
    + intros p. destruct m; cbn. rewrite lookup_empty.
      rewrite bool_decide_eq_false_2 by apply not_elem_of_nil. reflexivity.
    + destruct m; reflexivity.
    + destruct m; reflexivity.
    + intros H. contradiction.
    + intros _. destruct m; cbn. auto.
Qed.

End WithWidget.

Lemma pull_behind_honours_the_dirty_filter_only_witness :
  pendingPulls unit
    (keyPullBehind unit (fun _ => Unfiltered) (fun l _ => (l, Nil))
       (fun _ => tt) (fun _ => tt) worldBefore
       (Filters.getFilteredRepos Filters.sampleModel)
       (withRepos unit (Filters.repos Filters.sampleModel) sampleModel)).1
  !! "/src/cli" = None.
Proof.
  destruct (pull_behind_honours_the_dirty_filter_only
              unit (fun _ => Unfiltered) (fun l _ => (l, Nil))
              (fun _ => tt) (fun _ => tt) worldBefore Filters.sampleModel
              (withRepos unit (Filters.repos Filters.sampleModel) sampleModel) eq_refl)
    as [Hlook _].
  rewrite Hlook. reflexivity.
Defined.

End StatusCaseFacts.

(* ===================================================================== *)
(** * Properties of the favourite key *)
(* ===================================================================== *)

Module FavoritesFacts.
Import GoStrings Types PullRound Favorites.

Lemma withoutPath_spec (path : string) (paths : list string) (p : string) :
  p ∈ withoutPath path paths <-> p ∈ paths /\ p <> path.
Proof.
  induction paths as [| q paths IH]; cbn [withoutPath].
  - split; [intros H; apply elem_of_nil in H; contradiction |].
    intros [H _]. apply elem_of_nil in H. contradiction.
  - destruct (bool_decide_reflect (q = path)) as [-> | Hne]; cbn [negb].
    + rewrite IH, elem_of_cons. split; [tauto |]. intros [[-> | H] Hp]; [contradiction | auto].
    + rewrite !elem_of_cons, IH. split.
      * intros [-> | [H Hp]]; auto.
      * intros [[-> | H] Hp]; auto.
Qed.

Lemma withoutPath_NoDup (path : string) (paths : list string) :
  NoDup paths -> NoDup (withoutPath path paths).
Proof.
  induction 1 as [| q paths Hq Hnd IH]; cbn [withoutPath]; [constructor |].
  destruct (negb _); [| exact IH].
  constructor; [| exact IH]. rewrite withoutPath_spec. tauto.
Qed.

Lemma withoutPath_app (path : string) (l1 l2 : list string) :
  withoutPath path (l1 ++ l2) = withoutPath path l1 ++ withoutPath path l2.
Proof.
  induction l1 as [| q l1 IH]; cbn [withoutPath app]; [reflexivity |].
  destruct (negb _); cbn [app]; rewrite IH; reflexivity.
Qed.

Lemma withoutPath_length (path : string) (l : list string) :
  (length (withoutPath path l) <= length l)%nat.
Proof.
  induction l as [| q l IH]; cbn [withoutPath length]; [lia |].
  destruct (negb _); cbn [length]; lia.
Qed.

(** ** Slices *)

Section Arrays.
Context {A : Type}.
Variable zero : A.
Variable growCap : nat -> nat -> nat.

Local Abbreviation append := (append zero growCap).
Local Abbreviation make := (make zero).

Lemma wfSlice_length (arrays : gmap addr (list A)) (s : Slice) :
  wfSlice arrays s -> length (elems arrays s) = sliceLen s.
Proof. intros [H1 H2]. unfold elems. rewrite length_take. lia. Qed.

(** An array at a new address changes no slice. *)
Lemma fresh_array_frame (arrays : gmap addr (list A)) (l : list A) (t : Slice) :
  wfSlice arrays t ->
  elems (<[fresh (dom arrays) := l]> arrays) t = elems arrays t
  /\ wfSlice (<[fresh (dom arrays) := l]> arrays) t.
Proof.
  intros [H1 H2]. unfold wfSlice, elems, arrayAt in *.
  destruct (decide (sliceBase t = fresh (dom arrays))) as [E | E].
  - assert (arrays !! sliceBase t = None) as Hnone.
    { apply not_elem_of_dom. rewrite E. apply is_fresh. }
    rewrite Hnone in *. cbn in H2.
    assert (sliceLen t = 0%nat) as -> by lia.
    cbn. split; [reflexivity |]. split; lia.
  - rewrite lookup_insert_ne by congruence. auto.
Qed.

Lemma make_spec (arrays : gmap addr (list A)) (n : nat) :
  elems (make arrays n).1 (make arrays n).2 = []
  /\ wfSlice (make arrays n).1 (make arrays n).2
  /\ forall t, wfSlice arrays t ->
       elems (make arrays n).1 t = elems arrays t /\ wfSlice (make arrays n).1 t.
Proof.
  unfold Favorites.make. cbn [fst snd]. split; [reflexivity |]. split.
  - unfold wfSlice, arrayAt. cbn. rewrite lookup_insert_eq. cbn.
    rewrite length_replicate. lia.
  - intros t Ht. apply fresh_array_frame. exact Ht.
Qed.

(** [append] adds the element at the end of the slice it returns, and
    changes no slice that does not reach past the end of the one it is
    given in the same array. *)
Lemma append_spec (arrays : gmap addr (list A)) (s : Slice) (x : A) :
  wfSlice arrays s ->
  elems (append arrays s x).1 (append arrays s x).2 = elems arrays s ++ [x]
  /\ wfSlice (append arrays s x).1 (append arrays s x).2
  /\ forall t, wfSlice arrays t ->
       (sliceBase t = sliceBase s -> (sliceLen t <= sliceLen s)%nat) ->
       elems (append arrays s x).1 t = elems arrays t
       /\ wfSlice (append arrays s x).1 t.
Proof.
  intros [H1 H2]. unfold Favorites.append.
  destruct (Nat.ltb_spec (sliceLen s) (sliceCap s)) as [Hroom | Hfull]; cbn [fst snd].
  - split; [| split].
    + unfold elems, arrayAt. cbn [sliceBase sliceLen]. rewrite lookup_insert_eq. cbn.
      unfold arrayAt in H2.
      destruct (lookup_lt_is_Some_2 (default [] (arrays !! sliceBase s)) (sliceLen s))
        as [y Hy]; [lia |].
      rewrite (take_S_r _ _ x).
      * rewrite take_insert_ge by lia. reflexivity.
      * apply list_lookup_insert_eq. lia.
    + unfold wfSlice, arrayAt in *. cbn [sliceBase sliceLen sliceCap].
      rewrite lookup_insert_eq. cbn. rewrite length_insert. lia.
    + intros t [Ht1 Ht2] Hapart. unfold wfSlice, elems, arrayAt in *.
      destruct (decide (sliceBase t = sliceBase s)) as [E | E].
      * rewrite E in *. rewrite lookup_insert_eq. cbn.
        rewrite length_insert. split; [| lia].
        apply take_insert_ge. specialize (Hapart eq_refl). lia.
      * rewrite lookup_insert_ne by congruence. auto.
  - assert (length (elems arrays s) = sliceLen s) as Hlen
      by (apply wfSlice_length; split; assumption).
    split; [| split].
    + unfold elems at 1, arrayAt. cbn [sliceBase sliceLen]. rewrite lookup_insert_eq. cbn.
      change (elems arrays s ++ x :: ?r) with (elems arrays s ++ [x] ++ r).
      rewrite app_assoc. rewrite take_app_length'; [reflexivity |].
      rewrite length_app. cbn. lia.
    + unfold wfSlice, arrayAt. cbn [sliceBase sliceLen sliceCap].
      rewrite lookup_insert_eq. cbn. rewrite length_app. cbn [length].
      rewrite length_replicate. lia.
    + intros t Ht _. apply fresh_array_frame. exact Ht.
Qed.

End Arrays.

(** The loop of the removal never moves [newRepos]: the array [make]
    gave it has room for every path of the group. It leaves in it the
    paths other than the one given, and changes no other slice. *)
Lemma removeLoop_rounds (growPaths : nat -> nat -> nat)
    (arrays : gmap addr (list string)) (path : string) (favRepos : Slice) (k : nat) :
  wfSlice arrays favRepos ->
  (k <= sliceLen favRepos)%nat ->
  let kept := withoutPath path (take k (arrayAt arrays (sliceBase favRepos))) in
  foldl (fun '(arrays, newRepos) i =>
           let p := index "" arrays favRepos i in
           if negb (bool_decide (p = path))
           then append "" growPaths arrays newRepos p
           else (arrays, newRepos))
        (make "" arrays (sliceLen favRepos)) (seq 0 k)
  = (<[fresh (dom arrays)
         := kept ++ replicate (sliceLen favRepos - length kept) ""]> arrays,
     {| sliceBase := fresh (dom arrays); sliceLen := length kept;
        sliceCap := sliceLen favRepos |}).
Proof.
  intros [Hwf1 Hwf2]. cbv zeta. induction k as [| k IH]; intros Hk.
  - cbn. rewrite Nat.sub_0_r. reflexivity.
  - rewrite seq_S, foldl_app, IH by lia. cbn [foldl Nat.add].
    set (orig := arrayAt arrays (sliceBase favRepos)) in *.
    destruct (lookup_lt_is_Some_2 orig k) as [p Hp]; [lia |].
    assert (sliceBase favRepos <> fresh (dom arrays)) as Hbase.
    { intros E. pose proof (is_fresh (dom arrays)) as Hfresh. rewrite <- E in Hfresh.
      apply not_elem_of_dom in Hfresh. unfold orig, arrayAt in Hp.
      rewrite Hfresh in Hp. discriminate. }
    assert (index "" (<[fresh (dom arrays)
                          := withoutPath path (take k orig)
                             ++ replicate (sliceLen favRepos
                                           - length (withoutPath path (take k orig))) ""]>
                        arrays) favRepos k = p) as ->.
    { unfold index, arrayAt. rewrite lookup_insert_ne by congruence.
      fold (arrayAt arrays (sliceBase favRepos)). fold orig. rewrite Hp. reflexivity. }
    rewrite (take_S_r _ _ _ Hp), withoutPath_app. cbn [withoutPath].
    pose proof (withoutPath_length path (take k orig)) as Hkept.
    rewrite length_take in Hkept.
    destruct (negb (bool_decide (p = path))).
    + unfold append. cbn [sliceLen sliceCap sliceBase].
      destruct (Nat.ltb_spec (length (withoutPath path (take k orig))) (sliceLen favRepos))
        as [_ | Hno]; [| lia].
      unfold arrayAt at 1. rewrite lookup_insert_eq. cbn [default]. unfold id.
      rewrite insert_insert_eq. rewrite length_app. cbn [length].
      f_equal; [| f_equal; lia]. f_equal.
      rewrite insert_app_r_alt by lia. rewrite Nat.sub_diag.
      replace (sliceLen favRepos - length (withoutPath path (take k orig)))%nat
        with (S (sliceLen favRepos - (length (withoutPath path (take k orig)) + 1)))
        by lia.
      cbn [replicate]. rewrite <- app_assoc. reflexivity.
    + rewrite app_nil_r. reflexivity.
Qed.

Lemma removeLoop_spec (growPaths : nat -> nat -> nat)
    (arrays : gmap addr (list string)) (path : string) (favRepos : Slice) :
  wfSlice arrays favRepos ->
  let r := removeLoop growPaths path favRepos (make "" arrays (sliceLen favRepos)) in
  elems r.1 r.2 = withoutPath path (elems arrays favRepos)
  /\ wfSlice r.1 r.2
  /\ forall t, wfSlice arrays t -> elems r.1 t = elems arrays t /\ wfSlice r.1 t.
Proof.
  intros Hwf.
  pose proof (removeLoop_rounds growPaths arrays path favRepos (sliceLen favRepos) Hwf
                ltac:(lia)) as Hrounds.
  unfold removeLoop. cbv zeta in Hrounds |- *. rewrite Hrounds. clear Hrounds.
  cbn [fst snd]. fold (elems arrays favRepos).
  pose proof (withoutPath_length path (elems arrays favRepos)) as Hkept.
  rewrite (wfSlice_length _ _ Hwf) in Hkept.
  split; [| split].
  - unfold elems at 1, arrayAt. cbn [sliceBase sliceLen]. rewrite lookup_insert_eq.
    cbn [default]. unfold id. apply take_app_length.
  - unfold wfSlice, arrayAt. cbn [sliceBase sliceLen sliceCap].
    rewrite lookup_insert_eq. cbn [default]. unfold id. rewrite length_app, length_replicate. lia.
  - intros t Ht. apply fresh_array_frame. exact Ht.
Qed.

(** ** Writes through a pointer *)

Lemma deref_storeAt_eq (f : GroupCell -> GroupCell) (st : Store) (p : GroupPtr)
    (paths : gmap addr (list string)) (cell : GroupCell) :
  deref st p = Some cell ->
  deref {| groupArrays := storeAt f p (groupArrays st); pathArrays := paths |} p
  = Some (f cell).
Proof.
  unfold deref, storeAt. cbn [groupArrays]. rewrite lookup_alter_eq.
  destruct (groupArrays st !! ptrArray p) as [cells |]; cbn; [| discriminate].
  rewrite list_lookup_alter_eq. intros ->. reflexivity.
Qed.

Lemma deref_storeAt_ne (f : GroupCell -> GroupCell) (st : Store) (p q : GroupPtr)
    (paths : gmap addr (list string)) :
  q <> p ->
  deref {| groupArrays := storeAt f p (groupArrays st); pathArrays := paths |} q
  = deref st q.
Proof.
  intros Hne. unfold deref, storeAt. cbn [groupArrays].
  destruct (decide (ptrArray q = ptrArray p)) as [E | E].
  - rewrite E, lookup_alter_eq.
    destruct (groupArrays st !! ptrArray p) as [cells |]; cbn; [| reflexivity].
    apply list_lookup_alter_ne. intros Ei. apply Hne.
    destruct p, q. cbn in *. congruence.
  - rewrite lookup_alter_ne by congruence. reflexivity.
Qed.

(** What [m.groups] holds after a write through a pointer: the write
    shows when the pointer leads into the array of the slice, below its
    length, and nowhere else. *)
Lemma elems_storeAt (f : GroupCell -> GroupCell) (p : GroupPtr)
    (cells : gmap addr (list GroupCell)) (s : Slice) :
  elems (storeAt f p cells) s
  = if decide (ptrArray p = sliceBase s)
    then alter f (ptrIndex p) (elems cells s)
    else elems cells s.
Proof.
  unfold elems, storeAt, arrayAt.
  destruct (decide (ptrArray p = sliceBase s)) as [E | E].
  - rewrite E, lookup_alter_eq.
    destruct (cells !! sliceBase s) as [l |]; cbn.
    + apply list_eq. intros j.
      destruct (decide (j < sliceLen s)%nat) as [Hj | Hj].
      * rewrite lookup_take_lt by lia. rewrite !list_lookup_alter.
        destruct (decide (ptrIndex p = j)) as [-> | _].
        -- rewrite lookup_take_lt by lia. reflexivity.
        -- rewrite lookup_take_lt by lia. reflexivity.
      * rewrite lookup_take_ge by lia. symmetry.
        apply lookup_ge_None. rewrite length_alter, length_take. lia.
    + rewrite take_nil. reflexivity.
  - rewrite lookup_alter_ne by congruence. reflexivity.
Qed.

(** The new value of [favGroup.Repos], in both branches of the key. *)
Lemma newRepos_spec (growPaths : nat -> nat -> nat)
    (arrays : gmap addr (list string)) (s : Slice) (path : string) (added : bool) :
  wfSlice arrays s ->
  let r := if added then append "" growPaths arrays s path
           else removeLoop growPaths path s (make "" arrays (sliceLen s)) in
  elems r.1 r.2
  = (if added then elems arrays s ++ [path] else withoutPath path (elems arrays s))
  /\ wfSlice r.1 r.2
  /\ forall t, wfSlice arrays t ->
       (sliceBase t = sliceBase s -> (sliceLen t <= sliceLen s)%nat) ->
       elems r.1 t = elems arrays t /\ wfSlice r.1 t.
Proof.
  intros Hwf. destruct added; cbv zeta.
  - apply append_spec. exact Hwf.
  - destruct (removeLoop_spec growPaths arrays path s Hwf) as (H1 & H2 & H3).
    split; [exact H1 |]. split; [exact H2 |]. intros t Ht _. exact (H3 t Ht).
Qed.

(** The marks of the repositories after the loop over them. *)
Lemma markFavorites_spec (favorites : gmap string bool) (rs : list Repo) :
  Path <$> markFavorites favorites rs = Path <$> rs
  /\ forall r, r ∈ markFavorites favorites rs ->
       IsFavorite r = isFavorite favorites (Path r).
Proof.
  split.
  - unfold markFavorites. rewrite <- list_fmap_compose. apply list_fmap_ext.
    intros j r _. reflexivity.
  - intros r (r0 & -> & _)%list_elem_of_fmap. reflexivity.
Qed.

(** The list a group holds after the key, when it listed the favourites
    before. *)
Lemma favourites_list_in_step (favorites : gmap string bool) (path : string)
    (before : list string) :
  (forall p, isFavorite favorites p = true <-> p ∈ before) ->
  let favorites' := <[path := negb (isFavorite favorites path)]> favorites in
  let after := if isFavorite favorites' path then before ++ [path]
               else withoutPath path before in
  (forall p, isFavorite favorites' p = true <-> p ∈ after)
  /\ (NoDup before -> NoDup after).
Proof.
  intros Hsync. cbv zeta.
  set (favorites' := <[path := negb (isFavorite favorites path)]> favorites).
  assert (isFavorite favorites' path = negb (isFavorite favorites path)) as Hflip.
  { unfold isFavorite at 1. unfold favorites'. rewrite lookup_insert_eq. reflexivity. }
  assert (forall p, p <> path -> isFavorite favorites' p = isFavorite favorites p)
    as Hother.
  { intros p Hp. unfold isFavorite, favorites'. rewrite lookup_insert_ne by congruence.
    reflexivity. }
  rewrite Hflip.
  destruct (isFavorite favorites path) eqn:Hwas; cbn [negb].
  - split; [| apply withoutPath_NoDup].
    intros p. rewrite withoutPath_spec, <- Hsync.
    destruct (decide (p = path)) as [-> | Hne].
    + rewrite Hflip. cbn. split; [discriminate | intros [_ H]; contradiction].
    + rewrite (Hother p Hne). tauto.
  - assert (path ∉ before) as Hfresh.
    { intros Hin. apply Hsync in Hin. congruence. }
    split.
    + intros p. rewrite elem_of_app, list_elem_of_singleton, <- Hsync.
      destruct (decide (p = path)) as [-> | Hne].
      * rewrite Hflip. cbn. tauto.
      * rewrite (Hother p Hne). tauto.
    + intros Hnd. apply NoDup_app. split; [exact Hnd |].
      split; [| apply NoDup_singleton].
      intros p Hp Hp'. apply list_elem_of_singleton in Hp' as ->. contradiction.
Qed.

Section WithWidget.
Variable ListModel : Type.
Variable FilterStateOf : ListModel -> FilterState.
Variable SelectedItem : ListModel -> option Item.
Variable TextInput : Type.
Variable growPaths : nat -> nat -> nat.
Variable updateListRows : Store -> model ListModel TextInput -> ListModel.

Local Abbreviation model := (model ListModel TextInput).
Local Abbreviation keyFavorite :=
  (keyFavorite ListModel FilterStateOf SelectedItem TextInput growPaths updateListRows).
Local Abbreviation groupsOf := (groupsOf ListModel TextInput).
Local Abbreviation reposApart := (reposApart ListModel TextInput).
Local Abbreviation pointsInto := (pointsInto ListModel TextInput).
Local Abbreviation listModel := (listModel ListModel TextInput).
Local Abbreviation repos := (repos ListModel TextInput).
Local Abbreviation favorites := (favorites ListModel TextInput).
Local Abbreviation groups := (groups ListModel TextInput).
Local Abbreviation groupsMap := (groupsMap ListModel TextInput).

(** [m.groups] after [p.Repos = newRepos], the arrays of paths being
    [paths] by then: the write shows in it exactly when the pointer leads
    to one of its elements. *)
Lemma groupsOf_after_write (st : Store) (m m' : model) (p : GroupPtr)
    (cell : GroupCell) (paths : gmap addr (list string)) (newRepos : Slice) :
  deref st p = Some cell ->
  groups m' = groups m ->
  (forall c, c ∈ elems (groupArrays st) (groups m) ->
     elems paths (cellRepos c) = elems (pathArrays st) (cellRepos c)) ->
  let st' := {| groupArrays := storeAt (setRepos newRepos) p (groupArrays st);
                pathArrays := paths |} in
  (pointsInto m p ->
   groupsOf st m !! ptrIndex p = Some (groupOf st cell)
   /\ groupsOf st' m'
      = <[ptrIndex p := {| GroupName := cellName cell;
                           GroupRepos := elems paths newRepos;
                           IsBuiltIn := cellIsBuiltIn cell |}]> (groupsOf st m))
  /\ (~ pointsInto m p -> groupsOf st' m' = groupsOf st m).
Proof.
  intros Hcell Hgroups Hframe. cbv zeta.
  unfold Favorites.groupsOf, Favorites.pointsInto. rewrite Hgroups.
  cbn [groupArrays pathArrays]. rewrite elems_storeAt.
  assert (forall c, c ∈ elems (groupArrays st) (groups m) ->
            groupOf {| groupArrays := storeAt (setRepos newRepos) p (groupArrays st);
                       pathArrays := paths |} c
            = groupOf st c) as Hsame.
  { intros c Hc. unfold groupOf. cbn [pathArrays]. rewrite (Hframe c Hc). reflexivity. }
  split.
  - intros [Harr Hidx].
    assert (elems (groupArrays st) (groups m) !! ptrIndex p = Some cell) as Hlook.
    { unfold elems, arrayAt. rewrite lookup_take_lt by lia.
      unfold deref in Hcell. rewrite Harr in Hcell.
      destruct (groupArrays st !! sliceBase (groups m)) as [cells |]; cbn in *;
        [exact Hcell | discriminate]. }
    split; [rewrite list_lookup_fmap, Hlook; reflexivity |].
    destruct (decide (ptrArray p = sliceBase (groups m))) as [_ | Hno];
      [| contradiction].
    apply list_eq. intros j. rewrite list_lookup_fmap, list_lookup_alter.
    destruct (decide (ptrIndex p = j)) as [<- | Hj].
    + rewrite Hlook. cbn. symmetry. apply list_lookup_insert_eq.
      rewrite length_fmap. apply lookup_lt_Some in Hlook. exact Hlook.
    + rewrite list_lookup_insert_ne by congruence. rewrite list_lookup_fmap.
      destruct (elems (groupArrays st) (groups m) !! j) as [c |] eqn:Hc; cbn;
        [| reflexivity].
      rewrite Hsame; [reflexivity |]. eapply list_elem_of_lookup_2. exact Hc.
  - intros Hstale.
    assert ((if decide (ptrArray p = sliceBase (groups m))
             then alter (setRepos newRepos) (ptrIndex p)
                    (elems (groupArrays st) (groups m))
             else elems (groupArrays st) (groups m))
            = elems (groupArrays st) (groups m)) as ->.
    { destruct (decide (ptrArray p = sliceBase (groups m))) as [Harr | _];
        [| reflexivity].
      apply list_eq. intros j. rewrite list_lookup_alter.
      destruct (decide (ptrIndex p = j)) as [<- | _]; [| reflexivity].
      assert (elems (groupArrays st) (groups m) !! ptrIndex p = None) as ->;
        [| reflexivity].
      apply lookup_ge_None. unfold elems. rewrite length_take.
      destruct (decide (ptrIndex p < sliceLen (groups m))%nat); [tauto | lia]. }
    apply list_eq. intros j. rewrite !list_lookup_fmap.
    destruct (elems (groupArrays st) (groups m) !! j) as [c |] eqn:Hc; cbn;
      [| reflexivity].
    rewrite Hsame; [reflexivity |]. eapply list_elem_of_lookup_2. exact Hc.
Qed.

(** X30: the key "f" on the row of a repository flips its entry of the
    favourites map and no other, copies the map into the marks of all
    repositories and hands the new map to [saveFavorites]. The group of
    the favourites is written through the pointer [groupsMap] holds under
    "Favorites": the group it leads to keeps its name and gets the path
    appended when it becomes a favourite, removed when it stops being one,
    and no other element of any array of groups changes; a list that held
    exactly the favourites does so after, and one without duplicates stays
    without. What [m.groups] shows of it depends on the pointer. When no
    group of [m.groups] reaches past the end of the list written: if the
    pointer leads to an element of [m.groups], as after [buildGroupsMap],
    that group of [m.groups] is the one rewritten and the others are as
    before; if it leads elsewhere, as it does once an [append] has moved
    [m.groups] to another array, [m.groups] is as before, so a group of it
    that listed exactly the favourites no longer does. *)
Theorem favourite_key_writes_through_the_pointer (st : Store) (m : model)
    (item : Repo) (favGroup : GroupPtr) (cell : GroupCell) :
  SelectedItem (listModel m) = Some (RepoItem item) ->
  groupsMap m !! "Favorites" = Some favGroup ->
  deref st favGroup = Some cell ->
  wfSlice (pathArrays st) (cellRepos cell) ->
  let before := elems (pathArrays st) (cellRepos cell) in
  exists (st' : Store) (m' : model),
    keyFavorite st m = Some (st', m', Some (favorites m'))
    /\ isFavorite (favorites m') (Path item)
       = negb (isFavorite (favorites m) (Path item))
    /\ (forall p, p <> Path item -> favorites m' !! p = favorites m !! p)
    /\ Path <$> repos m' = Path <$> repos m
    /\ (forall r, r ∈ repos m' -> IsFavorite r = isFavorite (favorites m') (Path r))
    /\ groupsMap m' = groupsMap m
    /\ groups m' = groups m
    /\ let after := if isFavorite (favorites m') (Path item)
                    then before ++ [Path item]
                    else withoutPath (Path item) before in
       (exists cell',
           deref st' favGroup = Some cell'
           /\ cellName cell' = cellName cell
           /\ cellIsBuiltIn cell' = cellIsBuiltIn cell
           /\ elems (pathArrays st') (cellRepos cell') = after
           /\ wfSlice (pathArrays st') (cellRepos cell'))
       /\ (forall q, q <> favGroup -> deref st' q = deref st q)
       /\ ((forall p, isFavorite (favorites m) p = true <-> p ∈ before) ->
           (forall p, isFavorite (favorites m') p = true <-> p ∈ after)
           /\ (NoDup before -> NoDup after))
       /\ (reposApart st m (cellRepos cell) ->
           (pointsInto m favGroup ->
            groupsOf st m !! ptrIndex favGroup
              = Some {| GroupName := cellName cell; GroupRepos := before;
                        IsBuiltIn := cellIsBuiltIn cell |}
            /\ groupsOf st' m'
               = <[ptrIndex favGroup
                     := {| GroupName := cellName cell; GroupRepos := after;
                           IsBuiltIn := cellIsBuiltIn cell |}]> (groupsOf st m))
           /\ (~ pointsInto m favGroup ->
               groupsOf st' m' = groupsOf st m
               /\ forall g, g ∈ groupsOf st m ->
                    (forall p, isFavorite (favorites m) p = true <-> p ∈ GroupRepos g) ->
                    ~ (forall p, isFavorite (favorites m') p = true
                                 <-> p ∈ GroupRepos g))).
Proof.
  intros Hsel Hmap Hcell Hwf. cbv zeta.
  unfold Favorites.keyFavorite. rewrite Hsel, Hmap, Hcell. cbn [mbind option_bind].
  set (favorites' := <[Path item := negb (isFavorite (favorites m) (Path item))]>
                       (favorites m)).
  assert (isFavorite favorites' (Path item)
          = negb (isFavorite (favorites m) (Path item))) as Hflip.
  { unfold isFavorite at 1. unfold favorites'. rewrite lookup_insert_eq. reflexivity. }
  pose proof (newRepos_spec growPaths (pathArrays st) (cellRepos cell) (Path item)
                (isFavorite favorites' (Path item)) Hwf) as Hnew.
  cbv zeta in Hnew.
  destruct (if isFavorite favorites' (Path item)
            then append "" growPaths (pathArrays st) (cellRepos cell) (Path item)
            else removeLoop growPaths (Path item) (cellRepos cell)
                   (make "" (pathArrays st) (sliceLen (cellRepos cell))))
    as [paths newRepos] eqn:Hbranch.
  cbn [fst snd] in Hnew. destruct Hnew as (Hafter & Hwf' & Hframe).
  cbn [mbind option_bind].
  match goal with
  | |- exists st' m', Some (?st1, ?m1, _) = _ /\ _ => exists st1, m1
  end.
  split; [reflexivity |].
  cbn [Favorites.favorites Favorites.repos Favorites.groups Favorites.groupsMap].
  fold favorites'.
  split; [exact Hflip |].
  split; [intros p Hp; unfold favorites'; apply lookup_insert_ne; congruence |].
  split; [apply markFavorites_spec |].
  split; [apply markFavorites_spec |].
  split; [reflexivity |]. split; [reflexivity |].
  split; [| split; [| split]].
  - exists (setRepos newRepos cell).
    split; [apply deref_storeAt_eq; exact Hcell |].
    cbn [setRepos cellName cellIsBuiltIn cellRepos pathArrays]. auto.
  - intros q Hq. apply deref_storeAt_ne. exact Hq.
  - intros Hsync.
    exact (favourites_list_in_step (favorites m) (Path item) _ Hsync).
  - intros Hapart.
    assert (forall c, c ∈ elems (groupArrays st) (groups m) ->
              elems paths (cellRepos c) = elems (pathArrays st) (cellRepos c))
      as Hvisible.
    { intros c Hc. destruct (Hapart c Hc) as [Hwfc Hlen].
      apply (Hframe _ Hwfc Hlen). }
    match goal with
    | |- context [Favorites.groupsOf _ _ ?st1 ?m1] =>
        destruct (groupsOf_after_write st m m1 favGroup cell paths newRepos
                    Hcell eq_refl Hvisible) as [Hlive Hstale]
    end.
    split.
    + intros Hinto. destruct (Hlive Hinto) as [Hat Hall].
      split; [exact Hat |]. rewrite <- Hafter. exact Hall.
    + intros Hout. split; [exact (Hstale Hout) |].
      intros g _ Hsync Hsync'.
      pose proof (Hsync (Path item)) as H1. pose proof (Hsync' (Path item)) as H2.
      rewrite Hflip in H2.
      destruct (isFavorite (favorites m) (Path item)); cbn in H2.
      * assert (false = true) by tauto. discriminate.
      * assert (false = true) by tauto. discriminate.
Qed.

End WithWidget.

Section NewGroup.
Variable ListModel : Type.
Variable TextInput : Type.
Variable InputValue : TextInput -> string.
Variable SetValue : TextInput -> string -> TextInput.
Variable growGroups : nat -> nat -> nat.
Variable updateListRows : Store -> model ListModel TextInput -> ListModel.

Local Abbreviation model := (model ListModel TextInput).
Local Abbreviation groupInputEnter :=
  (groupInputEnter ListModel TextInput InputValue SetValue growGroups updateListRows).
Local Abbreviation groupsOf := (groupsOf ListModel TextInput).
Local Abbreviation pointsInto := (pointsInto ListModel TextInput).
Local Abbreviation groups := (groups ListModel TextInput).
Local Abbreviation groupsMap := (groupsMap ListModel TextInput).
Local Abbreviation groupInput := (groupInput ListModel TextInput).
Local Abbreviation groupAction := (groupAction ListModel TextInput).

(** A new group is appended to [m.groups] and gets a pointer in
    [groupsMap]; the pointers the map held are kept. With room left in the
    array of [m.groups] they still lead into it; without, [m.groups] moves
    to a new array and every one of them leads out of it. *)
Lemma new_group_leaves_pointers_behind (st : Store) (m : model) (name : string) :
  TrimSpace (InputValue (groupInput m)) = name ->
  name <> "" ->
  groupAction m = "new" ->
  groupsMap m !! name = None ->
  wfSlice (groupArrays st) (groups m) ->
  exists (st' : Store) (m' : model) (p : GroupPtr),
    groupInputEnter st m = Some (st', m', Some (saveGroups (groupsOf st' m')))
    /\ groupsOf st' m'
       = groupsOf st m ++ [ {| GroupName := name; GroupRepos := []; IsBuiltIn := false |} ]
    /\ groupsMap m' = <[name := p]> (groupsMap m)
    /\ pointsInto m' p
    /\ deref st' p = Some {| cellName := name; cellRepos := emptySlice;
                             cellIsBuiltIn := false |}
    /\ (forall q, pointsInto m q -> deref st' q = deref st q)
    /\ ((sliceLen (groups m) < sliceCap (groups m))%nat ->
        forall q, pointsInto m q -> pointsInto m' q)
    /\ ((sliceCap (groups m) <= sliceLen (groups m))%nat ->
        forall q, pointsInto m q -> ~ pointsInto m' q).
Proof.
  intros Hname Hne Hnew Hfree Hwf.
  unfold Favorites.groupInputEnter. rewrite Hname, Hnew, Hfree.
  rewrite bool_decide_eq_false_2 by exact Hne.
  rewrite bool_decide_eq_true_2 by reflexivity.
  set (newGroup := {| cellName := name; cellRepos := emptySlice;
                      cellIsBuiltIn := false |}).
  pose proof (append_spec zeroCell growGroups (groupArrays st) (groups m) newGroup Hwf)
    as (Helems & Hwf' & Hframe).
  assert (sliceLen (append zeroCell growGroups (groupArrays st) (groups m) newGroup).2
          = S (sliceLen (groups m))) as Hlen.
  { unfold append. destruct (_ <? _)%nat; reflexivity. }
  assert (forall q, pointsInto m q ->
            arrayAt (append zeroCell growGroups (groupArrays st) (groups m) newGroup).1
              (ptrArray q) !! ptrIndex q
            = arrayAt (groupArrays st) (ptrArray q) !! ptrIndex q) as Hkept.
  { intros q [Harr Hidx].
    destruct (Hframe {| sliceBase := sliceBase (groups m); sliceLen := sliceLen (groups m);
                        sliceCap := sliceCap (groups m) |}) as [Hsame _];
      [exact Hwf | cbn; lia |].
    unfold elems in Hsame. cbn [sliceBase sliceLen] in Hsame.
    rewrite Harr. rewrite <- (lookup_take_lt _ (sliceLen (groups m))) by lia.
    rewrite Hsame. apply lookup_take_lt. lia. }
  assert (forall q, pointsInto m q ->
            is_Some (groupArrays st !! sliceBase (groups m))) as Hlive.
  { intros q [Harr Hidx]. destruct Hwf as [Hw1 Hw2]. unfold arrayAt in Hw2.
    destruct (groupArrays st !! sliceBase (groups m)); [eauto |].
    cbn in Hw2. lia. }
  destruct (append zeroCell growGroups (groupArrays st) (groups m) newGroup)
    as [cells groups'] eqn:Happend.
  cbn [fst snd] in *.
  match goal with
  | |- exists st' m' p, Some (?st1, ?m1, _) = _ /\ _ =>
      exists st1, m1,
        {| ptrArray := sliceBase groups'; ptrIndex := sliceLen groups' - 1 |}
  end.
  split; [reflexivity |].
  assert (groupOf {| groupArrays := cells; pathArrays := pathArrays st |} = groupOf st)
    as Hvalue by reflexivity.
  split; [| split; [reflexivity | split; [| split; [| split; [| split]]]]].
  - unfold Favorites.groupsOf. cbn [Favorites.groups backToList groupArrays].
    rewrite Hvalue, Helems, fmap_app. reflexivity.
  - unfold Favorites.pointsInto. cbn [Favorites.groups backToList ptrArray ptrIndex].
    split; [reflexivity | lia].
  - unfold deref. cbn [groupArrays ptrArray ptrIndex].
    assert (elems cells groups' !! sliceLen (groups m) = Some newGroup) as Hlast.
    { rewrite Helems. rewrite lookup_app_r by (rewrite (wfSlice_length _ _ Hwf); lia).
      rewrite (wfSlice_length _ _ Hwf), Nat.sub_diag. reflexivity. }
    unfold elems in Hlast. rewrite lookup_take_lt in Hlast by lia.
    unfold arrayAt in Hlast. rewrite Hlen.
    replace (S (sliceLen (groups m)) - 1)%nat with (sliceLen (groups m)) by lia.
    destruct (cells !! sliceBase groups') as [l |]; cbn in *; [exact Hlast | discriminate].
  - intros q Hq. specialize (Hkept q Hq). unfold deref. cbn [groupArrays].
    destruct (Hlive q Hq) as [l Hl]. destruct Hq as [Harr Hidx].
    unfold arrayAt in Hkept. rewrite Harr in *. rewrite Hl in *. cbn in Hkept.
    destruct (cells !! sliceBase (groups m)) as [l' |]; cbn in *; [exact Hkept |].
    rewrite <- Hkept. reflexivity.
  - intros Hroom q [Harr Hidx].
    unfold Favorites.pointsInto. cbn [Favorites.groups backToList].
    unfold append in Happend.
    destruct (Nat.ltb_spec (sliceLen (groups m)) (sliceCap (groups m))); [| lia].
    inversion Happend. subst groups'. cbn. split; [exact Harr | lia].
  - intros Hfull q Hq [Harr' _]. cbn [Favorites.groups backToList] in Harr'.
    destruct (Hlive q Hq) as [l Hl]. destruct Hq as [Harr _].
    unfold append in Happend.
    destruct (Nat.ltb_spec (sliceLen (groups m)) (sliceCap (groups m))); [lia |].
    inversion Happend. subst groups'. cbn [sliceBase] in Harr'.
    pose proof (is_fresh (dom (groupArrays st))) as Hfresh.
    rewrite <- Harr', Harr in Hfresh. apply not_elem_of_dom in Hfresh.
    rewrite Hfresh in Hl. discriminate.
Qed.

End NewGroup.

(** The sample, the key pressed as the program starts: the pointer leads
    into [m.groups], whose group of the favourites gets the path. *)
Lemma favourite_key_writes_through_the_pointer_witness :
  exists st' m',
    sampleKeyFavorite sampleStore sampleModel
      = Some (st', m', Some (favorites _ _ m'))
    /\ groupsOf _ _ st' m'
       = [ {| GroupName := "Favorites"; GroupRepos := ["/src/api"; "/src/web"];
              IsBuiltIn := true |} ].
Proof.
  assert (wfSlice (pathArrays sampleStore)
            {| sliceBase := 1%positive; sliceLen := 1; sliceCap := 1 |}) as Hwf.
  { split; vm_compute; lia. }
  destruct (favourite_key_writes_through_the_pointer
              (option Item) (fun _ => Unfiltered) (fun l => l) string sampleGrow
              (fun _ m => listModel _ _ m)
              sampleStore sampleModel (sampleRepo "web" false)
              {| ptrArray := 1%positive; ptrIndex := 0 |}
              {| cellName := "Favorites";
                 cellRepos := {| sliceBase := 1%positive; sliceLen := 1; sliceCap := 1 |};
                 cellIsBuiltIn := true |}
              eq_refl eq_refl eq_refl Hwf)
    as (st' & m' & Hkey & Hflip & _ & _ & _ & _ & _ & _ & _ & _ & Hshown).
  destruct Hshown as [Hlive _].
  { intros c Hc.
    assert (c = {| cellName := "Favorites";
                   cellRepos := {| sliceBase := 1%positive; sliceLen := 1;
                                   sliceCap := 1 |};
                   cellIsBuiltIn := true |}) as ->.
    { apply list_elem_of_singleton. exact Hc. }
    split; [exact Hwf | intros _; cbn; lia]. }
  destruct Hlive as [_ Hall].
  { split; [reflexivity | cbn; lia]. }
  exists st', m'. split; [exact Hkey |].
  rewrite Hall, Hflip. reflexivity.
Defined.

(** The sample, the key pressed on the favourite and then on the other
    repository: the removal leaves a list with room for one path, and the
    path added next is written into that room. *)
Example favourite_key_fills_the_room_left :
  (sampleKeyFavorite sampleStore (sampleSelect (sampleRepo "api" true) sampleModel)
     ≫= fun '(st1, m1, _) =>
          sampleKeyFavorite st1 (sampleSelect (sampleRepo "web" false) m1)
            ≫= fun '(st2, m2, _) =>
                 Some (cellRepos <$> deref st1 {| ptrArray := 1%positive; ptrIndex := 0 |},
                       groupsOf _ _ st1 m1,
                       cellRepos <$> deref st2 {| ptrArray := 1%positive; ptrIndex := 0 |},
                       groupsOf _ _ st2 m2,
                       map_to_list (favorites _ _ m2)))
  = Some (Some {| sliceBase := 2%positive; sliceLen := 0; sliceCap := 1 |},
          [ {| GroupName := "Favorites"; GroupRepos := []; IsBuiltIn := true |} ],
          Some {| sliceBase := 2%positive; sliceLen := 1; sliceCap := 1 |},
          [ {| GroupName := "Favorites"; GroupRepos := ["/src/web"]; IsBuiltIn := true |} ],
          [("/src/web", true); ("/src/api", false)]).
Proof. vm_compute. reflexivity. Qed.

(** The sample, the key pressed after a group was made: the array of
    [m.groups] had no room, the groups moved, and the pointer of the
    favourites leads to the array they left. The key makes [/src/web] a
    favourite and [m.groups] does not show it. *)
Example favourite_key_after_a_new_group :
  (sampleGroupInputEnter sampleStore (sampleNaming " work " sampleModel)
     ≫= fun '(st1, m1, _) =>
          sampleKeyFavorite st1 m1
            ≫= fun '(st2, m2, _) =>
                 Some (groupsMap _ _ m1 !! "Favorites", sliceBase (groups _ _ m1),
                       groupsOf _ _ st1 m1, groupsOf _ _ st2 m2,
                       isFavorite (favorites _ _ m2) "/src/web",
                       groupOf st2 <$> deref st2 {| ptrArray := 1%positive; ptrIndex := 0 |}))
  = Some (Some {| ptrArray := 1%positive; ptrIndex := 0 |}, 2%positive,
          [ {| GroupName := "Favorites"; GroupRepos := ["/src/api"]; IsBuiltIn := true |};
            {| GroupName := "work"; GroupRepos := []; IsBuiltIn := false |} ],
          [ {| GroupName := "Favorites"; GroupRepos := ["/src/api"]; IsBuiltIn := true |};
            {| GroupName := "work"; GroupRepos := []; IsBuiltIn := false |} ],
          true,
          Some {| GroupName := "Favorites"; GroupRepos := ["/src/api"; "/src/web"];
                  IsBuiltIn := true |}).
Proof. vm_compute. reflexivity. Qed.

End FavoritesFacts.
